(* ===== verification/_CoqProject ===== *)
-Q . S2P
Prelude.v
Bytes.v
Page.v
Stream.v
PageStore.v
PageManager.v
Wal.v
LogManager.v
BufferPool.v
LockManager.v
Mutation.v
Transaction.v
Analysis.v
Recovery.v
Redo.v
Undo.v
Restart.v
Tuple.v
Payload.v
Access.v
SlottedPage.v
TableHeap.v
TreeNode.v
BPlusTree.v
TreeShape.v
TreeSearch.v
TreeInsert.v
TreeRemove.v
TreeCheck.v
TreeMap.v
Executor.v
Sorting.v
Relation.v
Query.v
Guarded.v
Database.v
