(* ===== verification/Prelude.v ===== *)
(** * Verification of the DDB storage engine

    The program (under [src/]) is a small transactional storage engine in C++: a database file of
    fixed-size pages, a write-ahead log, a buffer pool, page-level locks, transactions with
    physical logging, and crash recovery; a table heap, a B+ tree and query executors are its
    clients.  This library is a shallow embedding: every C++ operation is a function on explicit
    state in the monad [M S A := S -> outcome A * S], where [Throw e] is a thrown C++ exception
    and the state is what the exception leaves behind, so partial effects are visible.  Integers
    are [Z] with their wrap-around written out where the source has a width, bytes are [Z] in
    [0, 256), vectors are lists, maps and sets are [gmap] and [gset].

    ** The parts and their files

    - [Prelude]: exceptions, the monad and its weakest preconditions ([wp], with the tactics
      [wp_step], [wp_steps] and [wp_use]), byte arrays, counting.
    - [Bytes]: the little-endian codecs and the FNV-1a checksum of log_manager.cpp and
      page_manager.cpp.
    - [Page]: page.h, identifiers, pages and the on-disk image of a page.
    - [Stream]: [std::fstream] as the engine uses it: contents, position, state bit, and a list of
      faults that decides which operations of the file system fail, and how much a failing write
      has written.
    - [PageStore]: the interface between buffer pool and page manager, with its laws.
    - [PageManager] (module [PM]): page_manager.cpp; opening, the allocation catalog, allocation,
      page I/O.  Its instance of [PageStoreLaws] discharges the interface.
    - [Wal]: the record formats, encoder, decoder and scanner of log_manager.cpp.
    - [LogManager] (module [LM]): the log file, appends and flush of log_manager.cpp, and
      [PageManager::allocate_transactional_page], which works on both files.
    - [BufferPool] (module [BP]): buffer_pool_manager.cpp over any [PageStore].
    - [LockManager] (module [LK]): lock_manager.cpp; a call runs under the mutex as one step, a
      sleeping call is resumed by a [wake] step, and the reachable states are those of arbitrary
      interleavings.
    - [Mutation] (module [MC]): physical_mutation.cpp; capturing before- and after-images.
    - [Transaction] (module [TX]): transaction.cpp, transaction.h and transaction_coordinator.cpp,
      with [LogManager::prepare_commit] and [prepare_abort].
    - [Analysis] (module [RA]), [Recovery] (module [RE]): recovery_analysis.cpp,
      replay_context.cpp, redo_engine.cpp and undo_engine.cpp.  [Redo] and [Undo] hold the
      theorems about the two passes and about recovery as a whole.
    - [Restart] (module [RS]): the parts together across a restart.
    - [Tuple] (module [TU]): tuple.h, values, schemas, comparison, and the stored form of a tuple.
    - [Access]: what heap and tree use of pool, page manager and mutation context, as the class
      [PageAccess] with its laws; the instances are the pool alone ([AC.Plain]), the pool with a
      mutation context ([AC.Captured]) and the world of a transaction ([AC.Session]).
    - [SlottedPage] (module [SP]): the payload layout of table_heap.cpp.
    - [TableHeap] (module [TH]): table_heap.cpp over any [PageAccess].
    - [Payload]: changes of page payloads, used by heap and tree.
    - [TreeNode] (module [BN]): the layout of the nodes and the metadata page of bplus_tree.cpp.
    - [BPlusTree] (module [BT]): the operations of bplus_tree.cpp over any [PageAccess].
    - [TreeShape] (module [BS]): the tree as levels of nodes, without state.
    - [TreeSearch] (module [BQ]), [TreeInsert] (module [BI]), [TreeRemove] (module [BD]),
      [TreeCheck] (module [BV]): the tree in its pages, and what searching, inserting, removing
      and the self-check do.
    - [TreeMap] (module [BM]): creating and opening, the entry points for the three ways of
      reaching pages, and the tree as a finite map.
    - [Executor] (module [EX]): execution/executor.h, plans, predicates and executors, over any
      [PageAccess].  [Sorting] (module [SO]) holds what sorting and grouping compute on rows,
      [Relation] (module [RL]) the meaning of predicates, joins and aggregates apart from the code,
      [Query] (module [QE]) the relational meaning of a plan.
    - [Guarded] (module [TA]): transactional_access.h, the operations of pool, heap and tree behind
      the lock manager.
    - [Database] (module [DB]): database.cpp, the construction of the whole.

    The state of a component is a record named after the class ([PM.t], [LM.t], [BP.t], [LK.t],
    [TX.Tx], [RE.Replay]) with the fields of the class, and an operation has the name of the
    method.  Components that call each other are composed as the code composes them: a
    transaction's [World] holds the transaction, the pool, the page manager and the log; the
    replay's [World] the replay context, the pool and the page manager; [zoom] runs an operation
    of one part inside the whole.

    ** What the theorems show

    - The database file: every operation keeps the page manager consistent whatever the file
      system does ([PM.ops_keep_consistency]); closing and reopening restores the state
      ([PM.reopen_after_ops]); writes are read back.
    - The log: a returned flush survives every later crash ([LM.commit_survives_crash]); appends
      are atomic; the scan returns exactly the complete records of a torn log; every single-byte
      change of a record is detected.
    - The buffer pool refines an abstract machine of page contents and pins over a store that may
      fail at any operation ([BP.pool_refines]); no page reaches the file before its log record,
      with one exception that is a finding ([BP.wal_before_data]).
    - Locks exclude each other, are two-phase, and follow WAIT-DIE in every reachable state.
    - Transactions: rollback restores every page and PageLSN through any sequence of updates and
      allocations ([TX.rollback_undoes_session]) and runs to its end ([TX.rollback_completes]);
      commit and abort do what they promise when they return.
    - Recovery: the analysis classifies transactions by their terminal records; REDO repeats the
      committed history and is idempotent; UNDO removes the losers.  A page a loser changed ends
      up, byte by byte, with what the last committed change of the byte wrote, also where
      committed after-images carry bytes of losers; a page only winners changed, stored in its last
      committed version or an older one, with the last committed image
      ([UN.recovery_restores_committed]).  On any cut of a log of finished appends recovery returns,
      if the file system works, no page is pinned, the log is durable through its changes and the
      pages it mentions are intact and allocated ([UN.recovery_completes]); where a loser changed a
      page that is not allocated it throws ([RS.aborted_allocation_blocks_recovery]).
    - The table heap refines a table of records whose identifiers are never reused
      ([TH.heap_simulates_table]), proved once against [PageAccess]; under a transaction or with
      faults an operation that returns has done exactly its work ([TH.insert_correct],
      [TH.erase_correct]).
    - The B+ tree refines a finite map ([BM.tree_simulates_map]): nodes survive their page layout
      ([BN.node_roundtrip]); an insertion keeps the tree well formed and adds exactly its entry,
      through leaf and internal splits, a new root and changed separators
      ([BM.tree_insert_correct]); a removal takes away exactly its key, through borrowing and
      merging up to a lower root ([BM.tree_remove_correct]); the self-check accepts every
      well-formed tree ([BM.tree_validates]), and some that are not ([BM.validate_misses_order]).
    - Queries: every executor, started with enough fuel, yields the rows of the relational meaning
      of its plan, which is stated with ranks of values, groups and sums and not with the loops of
      the executors ([QE.executor_correct]); sorting is a stable sort ([SO.sort_rows_correct]) and
      grouping a partition in order of first appearance ([SO.group_rows_correct]).
    - The locked wrappers: gets of a tree run under a shared, inserts and removes under an exclusive
      lock, and keep out what conflicts ([TA.tree_access_isolated]); a heap insertion does not lock the page it writes
      ([TA.inserted_page_unlocked]).
    - The database as a whole: it opens on an intact page file and any prefix of a log, and its
      first transaction is a session to which the theorems about transactions apply
      ([DB.database_opens]).
    - Most findings are theorems as well: states or concrete runs in which the code does not do
      what it means to, or what a document says of it.

    ** Bounds and fuel

    [Wal.scan] has one unit of fuel per byte of the file and one more; every record takes at least
    [kMinimumRecordSize] bytes, and the theorems show that the fuel is never the reason to stop.
    [TH.scan] and [TH.validate_invariants] follow a chain of pages and take the number of pages
    they may visit; the length of the chain is enough.  The tree operations take a number of rounds for
    each loop or recursion: the height of the tree is enough for descending and for the ways back
    up, the number of leaves for [BT.scan]; the theorems show that the result is never missing.
    The executors take one number for all their loops and the operations below them;
    [QE.executor_correct] shows that some number is enough and every greater one as well.
    All other recursion is structural.

    ** Not modelled

    Time measurements of the recovery passes; a fault of the stream in the middle of reading the
    log file in [read_records] (opening it may fail; once open, the file is read to its end); the texts appended to exception
    messages; the call of [FlushFileBuffers] under Windows; [std::bad_alloc].  Mutexes are modelled
    as atomicity of the methods that hold them, and a locked call that sleeps as a reply after
    which the caller asks again.  Parameters of the model: the bit pattern of the NaN that the
    platform's arithmetic gives; the functions a subclass of [DatabaseLifecycle] overrides.  Which
    of several throwing comparisons [std::stable_sort] runs first is the library's choice, and the
    theorems speak of rows on which none throws.  An executor that has thrown is not used again.
    Tests, benchmarks and the build are not part of the engine. *)

From Stdlib Require Export ZArith Lia.
From stdpp Require Export base tactics decidable option list gmap fin_maps fin_sets strings numbers.

#[global] Set Default Goal Selector "!".
#[global] Open Scope Z_scope.

Declare Scope ddb_scope.
Delimit Scope ddb_scope with ddb.
#[global] Open Scope ddb_scope.

#[global] Arguments Z.to_nat : simpl never.
#[global] Arguments Z.of_nat : simpl never.
#[global] Arguments Z.shiftr : simpl never.
#[global] Arguments Z.shiftl : simpl never.
#[global] Arguments Z.land : simpl never.
#[global] Arguments Z.lor : simpl never.
#[global] Arguments Z.pow : simpl never.

Abbreviation zlen l := (Z.of_nat (length l)).

(** ** C++ exceptions and stateful computations *)

(** The exception classes the engine throws, with their message text (the part that is a
    literal of the source; appended path names and error codes are left out). *)
Inductive exn : Type :=
  | StorageError (what : string)
  | WalError (what : string)
  | WalDurabilityError (what : string)
  | LogicError (what : string)
  | RuntimeError (what : string)
  | InvalidArgument (what : string)
  | OverflowError (what : string)
  | OutOfRange (what : string).

#[global] Instance exn_eq_dec : EqDecision exn.
Proof. solve_decision. Defined.

Inductive outcome (A : Type) : Type :=
  | Ok (a : A)
  | Throw (e : exn).
Arguments Ok {A} a.
Arguments Throw {A} e.

Lemma Ok_inj {A} (a b : A) : Ok a = Ok b -> a = b.
Proof. congruence. Qed.

#[global] Instance outcome_eq_dec {A} `{EqDecision A} : EqDecision (outcome A).
Proof. solve_decision. Defined.

(** A member function runs on the state of its object and returns or throws; the state it
    leaves behind when it throws is the state C++ leaves behind (nothing is rolled back). *)
Definition M (S A : Type) : Type := S -> outcome A * S.

Definition ret {S A} (a : A) : M S A := fun s => (Ok a, s).
Definition throw {S A} (e : exn) : M S A := fun s => (Throw e, s).
Definition bind {S A B} (m : M S A) (k : A -> M S B) : M S B :=
  fun s => match m s with
           | (Ok a, s') => k a s'
           | (Throw e, s') => (Throw e, s')
           end.
Definition get {S} : M S S := fun s => (Ok s, s).
Definition put {S} (s' : S) : M S unit := fun _ => (Ok tt, s').
Definition modify {S} (f : S -> S) : M S unit := fun s => (Ok tt, f s).
Definition gets {S A} (f : S -> A) : M S A := fun s => (Ok (f s), s).

(** [try { m } catch (...) { h; throw; }]. *)
Definition on_throw {S A} (m : M S A) (h : M S unit) : M S A :=
  fun s => match m s with
           | (Ok a, s') => (Ok a, s')
           | (Throw e, s') => match h s' with
                              | (Ok _, s'') => (Throw e, s'')
                              | (Throw e', s'') => (Throw e', s'')
                              end
           end.

(** Runs [m] on a part of the state. *)
Definition zoom {S T A} (view : S -> T) (upd : T -> S -> S) (m : M T A) : M S A :=
  fun s => match m (view s) with (r, t) => (r, upd t s) end.

(** Lifts a pure computation that may throw. *)
Definition lift {S A} (o : outcome A) : M S A := fun s => (o, s).

(** [if (c) throw e;] *)
Definition throw_if {S} (c : bool) (e : exn) : M S unit := if c then throw e else ret tt.

Notation "'let!' x := m 'in' k" := (bind m (fun x => k))
  (at level 10, x pattern, m at level 99, k at level 200) : ddb_scope.
Notation "m ;; k" := (bind m (fun _ => k))
  (at level 100, k at level 200, right associativity) : ddb_scope.

(** [for (x : l) body(x)], left to right. *)
Fixpoint for_each {S A} (l : list A) (body : A -> M S unit) : M S unit :=
  match l with
  | [] => ret tt
  | x :: l => body x ;; for_each l body
  end.

Lemma bind_ok {S A B} (m : M S A) (k : A -> M S B) s b s' :
  bind m k s = (Ok b, s') <-> exists a s1, m s = (Ok a, s1) /\ k a s1 = (Ok b, s').
Proof.
  unfold bind. destruct (m s) as [[a|e] s1] eqn:E; split.
  - eauto.
  - intros (? & ? & ? & ?). by simplify_eq.
  - done.
  - intros (? & ? & ? & ?). by simplify_eq.
Qed.

Lemma bind_inv {S A B} (m : M S A) (k : A -> M S B) s r s' :
  bind m k s = (r, s') ->
  (exists a s1, m s = (Ok a, s1) /\ k a s1 = (r, s')) \/
  (exists e, m s = (Throw e, s') /\ r = Throw e).
Proof. unfold bind. destruct (m s) as [[a|e] s1] eqn:E; intros; simplify_eq; eauto 10. Qed.

Lemma bind_run_ok {S A B} (m : M S A) (k : A -> M S B) s a s1 :
  m s = (Ok a, s1) -> bind m k s = k a s1.
Proof. unfold bind. by intros ->. Qed.

Lemma bind_run_throw {S A B} (m : M S A) (k : A -> M S B) s e s1 :
  m s = (Throw e, s1) -> bind m k s = (Throw e, s1).
Proof. unfold bind. by intros ->. Qed.

Lemma run_eta {A B C} (x : A * (B * C)) : x = (x.1, (x.2.1, x.2.2)).
Proof. by destruct x as [? []]. Qed.
Lemma run_split {S A} (m : M S A) s r : (m s).1 = r -> m s = (r, (m s).2).
Proof. destruct (m s). by intros <-. Qed.

(** Facts about one run, evaluated together. *)
Lemma pair_split {A B} (a a' : A) (b b' : B) : (a, b) = (a', b') -> a = a' /\ b = b'.
Proof. by intros [= -> ->]. Qed.
Lemma pair_split_more {A B} (a a' : A) (b b' : B) (P : Prop) : (b = b' -> P) -> (a, b) = (a', b') -> a = a' /\ P.
Proof. intros HP [= -> ->]. auto. Qed.

Lemma for_each_app {S A} (l1 l2 : list A) (body : A -> M S unit) s :
  for_each (l1 ++ l2) body s = (for_each l1 body ;; for_each l2 body) s.
Proof.
  revert s. induction l1 as [|x l1 IH]; intros s; [done|].
  simpl. unfold bind. destruct (body x s) as [[]]; [|done]. by rewrite IH.
Qed.

(** An invariant of the body is an invariant of the loop, whatever it returns. *)
Lemma for_each_inv {S A} (P : S -> Prop) (body : A -> M S unit) l s r s' :
  (forall x s r s', x ∈ l -> P s -> body x s = (r, s') -> P s') ->
  P s -> for_each l body s = (r, s') -> P s'.
Proof.
  revert s. induction l as [|x l IH]; simpl; intros s Hb Hs H.
  - unfold ret in H. by simplify_eq.
  - apply bind_inv in H as [(? & s1 & H1 & H2)|(e & H1 & ->)].
    + eapply IH, H2; [|eapply Hb, H1; [left|done]].
      intros. eapply Hb; [right|..]; eauto.
    + eapply Hb, H1; [left|done].
Qed.

(** ** Weakest preconditions

    [wp m s Q]: running [m] from [s] ends in an outcome and a state that satisfy [Q]. *)

Definition wp {S A} (m : M S A) (s : S) (Q : outcome A -> S -> Prop) : Prop :=
  Q (m s).1 (m s).2.

Section wp.
Context {S : Type}.
Implicit Types s : S.

Lemma wp_elim {A} (m : M S A) s Q r s' : wp m s Q -> m s = (r, s') -> Q r s'.
Proof. unfold wp. by intros H E; rewrite E in H. Qed.
Lemma wp_intro {A} (m : M S A) s (Q : outcome A -> S -> Prop) :
  (forall r s', m s = (r, s') -> Q r s') -> wp m s Q.
Proof. unfold wp. intros H. apply H. by destruct (m s). Qed.
Lemma wp_eq {A} (m m' : M S A) s Q : m s = m' s -> wp m' s Q -> wp m s Q.
Proof. unfold wp. by intros ->. Qed.
Lemma wp_mono {A} (m : M S A) s (Q Q' : outcome A -> S -> Prop) :
  wp m s Q -> (forall r s', Q r s' -> Q' r s') -> wp m s Q'.
Proof. unfold wp. auto. Qed.
Lemma wp_and {A} (m : M S A) s (Q Q' : outcome A -> S -> Prop) :
  wp m s Q -> wp m s Q' -> wp m s (fun r s' => Q r s' /\ Q' r s').
Proof. unfold wp. auto. Qed.
Lemma wp_bind {A B} (m : M S A) (k : A -> M S B) s Q :
  wp m s (fun r s' => match r with Ok a => wp (k a) s' Q | Throw e => Q (Throw e) s' end) ->
  wp (bind m k) s Q.
Proof. unfold wp, bind. by destruct (m s) as [[a|e] s']. Qed.
Lemma wp_assoc {A B C} (m : M S A) (n : A -> M S B) (k : B -> M S C) s Q :
  wp (bind (bind m n) k) s Q -> wp (bind m (fun a => bind (n a) k)) s Q.
Proof. unfold wp, bind. by destruct (m s) as [[a|e] s1]. Qed.
Lemma wp_ret {A} (a : A) s (Q : outcome A -> S -> Prop) : Q (Ok a) s -> wp (ret a) s Q.
Proof. done. Qed.
Lemma wp_throw {A} e s (Q : outcome A -> S -> Prop) : Q (Throw e) s -> wp (throw e) s Q.
Proof. done. Qed.
Lemma wp_get s (Q : outcome S -> S -> Prop) : Q (Ok s) s -> wp get s Q.
Proof. done. Qed.
Lemma wp_gets {A} (f : S -> A) s (Q : outcome A -> S -> Prop) : Q (Ok (f s)) s -> wp (gets f) s Q.
Proof. done. Qed.
Lemma wp_put s' s (Q : outcome unit -> S -> Prop) : Q (Ok tt) s' -> wp (put s') s Q.
Proof. done. Qed.
Lemma wp_modify f s (Q : outcome unit -> S -> Prop) : Q (Ok tt) (f s) -> wp (modify f) s Q.
Proof. done. Qed.
Lemma wp_lift {A} (o : outcome A) s (Q : outcome A -> S -> Prop) : Q o s -> wp (lift o) s Q.
Proof. done. Qed.
Lemma wp_throw_if (c : bool) e s (Q : outcome unit -> S -> Prop) :
  (c = true -> Q (Throw e) s) -> (c = false -> Q (Ok tt) s) -> wp (throw_if c e) s Q.
Proof. unfold wp. destruct c; simpl; auto. Qed.
Lemma wp_on_throw {A} (m : M S A) (h : M S unit) s Q :
  wp m s (fun r s' => match r with
                      | Ok a => Q (Ok a) s'
                      | Throw e => wp h s' (fun r' s'' => match r' with
                                                          | Ok _ => Q (Throw e) s''
                                                          | Throw e' => Q (Throw e') s''
                                                          end)
                      end) ->
  wp (on_throw m h) s Q.
Proof.
  unfold wp, on_throw. destruct (m s) as [[a|e] s']; simpl; [done|].
  by destruct (h s') as [[]].
Qed.
Lemma wp_zoom {T A} (view : S -> T) upd (m : M T A) s Q :
  wp m (view s) (fun r t => Q r (upd t s)) -> wp (zoom view upd m) s Q.
Proof. unfold wp, zoom. by destruct (m (view s)). Qed.
End wp.

(** One step of symbolic execution through the control structure of a body. *)
Ltac wp_step :=
  lazymatch goal with
  | |- wp (bind _ _) _ _ => apply wp_bind
  | |- wp (ret _) _ _ => apply wp_ret
  | |- wp (throw _) _ _ => apply wp_throw
  | |- wp get _ _ => apply wp_get
  | |- wp (gets _) _ _ => apply wp_gets
  | |- wp (put _) _ _ => apply wp_put
  | |- wp (modify _) _ _ => apply wp_modify
  | |- wp (lift _) _ _ => apply wp_lift
  | |- wp (throw_if _ _) _ _ => apply wp_throw_if; intros ?
  | |- wp (on_throw _ _) _ _ => apply wp_on_throw
  | |- wp (zoom _ _ _) _ _ => apply wp_zoom
  | |- wp (if ?b then _ else _) _ _ => destruct b eqn:?
  | |- wp (match ?x with _ => _ end) _ _ => destruct x eqn:?
  end; cbn beta iota.
Ltac wp_steps := repeat wp_step.

(** Continues with the specification of a called operation. *)
Tactic Notation "wp_use" uconstr(spec) := eapply wp_mono; [eapply spec|cbn beta].

(** [wpl L m s Q]: if [m] returns, value and state satisfy [Q], and under [L] it does return.
    With [L := False] this is partial, with [L := True] total correctness. *)
Definition wpl {S A} (L : Prop) (m : M S A) (s : S) (Q : A -> S -> Prop) : Prop :=
  wp m s (fun r s' => match r with Ok a => Q a s' | Throw _ => ~ L end).

Section wpl.
Context {S : Type} (L : Prop).
Implicit Types s : S.

Lemma wpl_elim {A} (m : M S A) s Q a s' : wpl L m s Q -> m s = (Ok a, s') -> Q a s'.
Proof. unfold wpl, wp. intros H E. rewrite E in H. exact H. Qed.
Lemma wpl_run {A} (m : M S A) s (Q : A -> S -> Prop) r s' :
  wpl L m s Q -> m s = (r, s') -> match r with Ok a => Q a s' | Throw _ => ~ L end.
Proof. unfold wpl, wp. intros H E. rewrite E in H. exact H. Qed.
Lemma wpl_total {A} (m : M S A) s Q : L -> wpl L m s Q -> exists a s', m s = (Ok a, s') /\ Q a s'.
Proof. unfold wpl, wp. intros HL H. destruct (m s) as [[a|e] s']; [eauto|done]. Qed.
Lemma wpl_intro {A} (m : M S A) s (Q : A -> S -> Prop) :
  (forall r s', m s = (r, s') -> match r with Ok a => Q a s' | Throw _ => ~ L end) -> wpl L m s Q.
Proof. unfold wpl, wp. intros H. apply H. by destruct (m s). Qed.
Lemma wpl_and {A} (m : M S A) s (Q : A -> S -> Prop) (R : outcome A -> S -> Prop) :
  wpl L m s Q -> wp m s R -> wpl L m s (fun a s' => Q a s' /\ R (Ok a) s').
Proof. unfold wpl, wp. destruct (m s) as [[a|e] s']; simpl; auto. Qed.
Lemma wpl_mono {A} (m : M S A) s (Q Q' : A -> S -> Prop) :
  wpl L m s Q -> (forall a s', Q a s' -> Q' a s') -> wpl L m s Q'.
Proof. unfold wpl, wp. destruct (m s) as [[a|e] s']; simpl; auto. Qed.
Lemma wpl_bind {A B} (m : M S A) (k : A -> M S B) s Q :
  wpl L m s (fun a s' => wpl L (k a) s' Q) -> wpl L (bind m k) s Q.
Proof. unfold wpl, wp, bind. by destruct (m s) as [[a|e] s']. Qed.
Lemma wpl_unbind {A B} (m : M S A) (k : A -> M S B) s Q :
  wpl L (bind m k) s Q -> wpl L m s (fun a s' => wpl L (k a) s' Q).
Proof. unfold wpl, wp, bind. by destruct (m s) as [[a|e] s']. Qed.
Lemma wpl_ret {A} (a : A) s (Q : A -> S -> Prop) : Q a s -> wpl L (ret a) s Q.
Proof. done. Qed.
Lemma wpl_throw {A} e s (Q : A -> S -> Prop) : ~ L -> wpl L (throw e) s Q.
Proof. done. Qed.
Lemma wpl_get s (Q : S -> S -> Prop) : Q s s -> wpl L get s Q.
Proof. done. Qed.
Lemma wpl_gets {A} (f : S -> A) s (Q : A -> S -> Prop) : Q (f s) s -> wpl L (gets f) s Q.
Proof. done. Qed.
Lemma wpl_modify f s (Q : unit -> S -> Prop) : Q tt (f s) -> wpl L (modify f) s Q.
Proof. done. Qed.
Lemma wpl_throw_if (c : bool) e s (Q : unit -> S -> Prop) :
  (c = true -> ~ L) -> (c = false -> Q tt s) -> wpl L (throw_if c e) s Q.
Proof. unfold wpl, wp. destruct c; simpl; auto. Qed.
Lemma wpl_lift {A} (o : outcome A) s (Q : A -> S -> Prop) :
  (forall a, o = Ok a -> Q a s) -> (forall e, o = Throw e -> ~ L) -> wpl L (lift o) s Q.
Proof. intros H1 H2. unfold wpl, wp, lift. destruct o; simpl; eauto. Qed.
Lemma wpl_zoom {T A} (view : S -> T) upd (m : M T A) s Q :
  wpl L m (view s) (fun a t => Q a (upd t s)) -> wpl L (zoom view upd m) s Q.
Proof. unfold wpl, wp, zoom. by destruct (m (view s)) as [[a|e] t]. Qed.
End wpl.

Lemma wpl_false {S A} L (m : M S A) s Q : ~ L -> wpl False m s Q -> wpl L m s Q.
Proof. unfold wpl, wp. destruct (m s) as [[a|e] s']; auto. Qed.

(** One step of symbolic execution. *)
Ltac wpl_step :=
  lazymatch goal with
  | |- wpl _ (bind _ _) _ _ => apply wpl_bind
  | |- wpl _ (ret _) _ _ => apply wpl_ret
  | |- wpl _ (throw _) _ _ => apply wpl_throw
  | |- wpl _ get _ _ => apply wpl_get
  | |- wpl _ (gets _) _ _ => apply wpl_gets
  | |- wpl _ (modify _) _ _ => apply wpl_modify
  | |- wpl _ (throw_if _ _) _ _ => apply wpl_throw_if; intros ?
  | |- wpl _ (zoom _ _ _) _ _ => apply wpl_zoom
  | |- wpl _ (if ?b then _ else _) _ _ => destruct b eqn:?
  | |- wpl _ (match ?x with _ => _ end) _ _ => destruct x eqn:?
  end; cbn beta iota.
Ltac wpl_steps := repeat wpl_step.
Tactic Notation "wpl_use" uconstr(spec) := eapply wpl_mono; [eapply spec|cbn beta].

(** *** Computations that may have no result

    [None] stands for a loop that has not ended within the rounds it was given, or for an access
    outside a vector, which C++ leaves undefined. *)

Abbreviation MO S A := (M S (option A)).

Definition bindo {S A B} (m : MO S A) (k : A -> MO S B) : MO S B :=
  let! o := m in match o with Some a => k a | None => ret None end.
Notation "'let?' x := m 'in' k" := (bindo m (fun x => k))
  (at level 10, x pattern, m at level 99, k at level 200) : ddb_scope.
Notation "m ;? k" := (bindo m (fun _ => k))
  (at level 100, k at level 200, right associativity) : ddb_scope.

(** A computation that has a result, and a result that may be missing. *)
Definition run {S A} (m : M S A) : MO S A := let! a := m in ret (Some a).
Definition opt {S A} (o : option A) : MO S A := ret o.

(** It returns and has a result. *)
Definition wpo {S A} (L : Prop) (m : MO S A) (s : S) (Q : A -> S -> Prop) : Prop :=
  wpl L m s (fun o s' => match o with Some a => Q a s' | None => False end).

Section wpo.
Context {S : Type} (L : Prop).
Implicit Types s : S.

Lemma wpo_mono {A} (m : MO S A) s (Q Q' : A -> S -> Prop) :
  wpo L m s Q -> (forall a s', Q a s' -> Q' a s') -> wpo L m s Q'.
Proof. intros Hm HQ. eapply wpl_mono; [exact Hm|]. intros [a|] s'; [apply HQ|done]. Qed.
Lemma wpo_bind {A B} (m : MO S A) (k : A -> MO S B) s Q :
  wpo L m s (fun a s' => wpo L (k a) s' Q) -> wpo L (bindo m k) s Q.
Proof. intros Hm. unfold bindo, wpo. apply wpl_bind. eapply wpl_mono; [exact Hm|]. intros [a|] s' Ha; [exact Ha|done]. Qed.
Lemma wpo_run {A} (m : M S A) s (Q : A -> S -> Prop) : wpl L m s Q -> wpo L (run m) s Q.
Proof. intros Hm. unfold run, wpo. apply wpl_bind. eapply wpl_mono; [exact Hm|]. intros a s' Ha. by apply wpl_ret. Qed.
Lemma wpo_opt {A} (o : option A) s (Q : A -> S -> Prop) a : o = Some a -> Q a s -> wpo L (opt o) s Q.
Proof. intros -> Ha. unfold opt, wpo. by apply wpl_ret. Qed.
Lemma wpo_ret {A} (a : A) s (Q : A -> S -> Prop) : Q a s -> wpo L (ret (Some a)) s Q.
Proof. intros Ha. unfold wpo. by apply wpl_ret. Qed.
Lemma wpo_throw {A} e s (Q : A -> S -> Prop) : ~ L -> wpo L (throw e) s Q.
Proof. intros HL. unfold wpo. by apply wpl_throw. Qed.
Lemma wpo_assoc {A B C} (m : MO S A) (k : A -> MO S B) (j : B -> MO S C) s Q :
  wpo L (bindo (bindo m k) j) s Q -> wpo L (let? a := m in bindo (k a) j) s Q.
Proof. unfold wpo, wpl, wp, bindo, bind, ret. destruct (m s) as [[[a|]|e] s']; done. Qed.

End wpo.

Lemma wpo_total {S A} (m : MO S A) s Q : wpo True m s Q -> exists a s', m s = (Ok (Some a), s') /\ Q a s'.
Proof. intros Hm. destruct (wpl_total True m s _ I Hm) as ([a|] & s' & E & Ha); [by exists a, s'|done]. Qed.

Tactic Notation "wpo_use" uconstr(spec) := eapply wpo_mono; [eapply spec|cbn beta].

Lemma fold_left_ext_in {A B} (f g : A -> B -> A) (l : list B) (a : A) :
  (forall a b, b ∈ l -> f a b = g a b) -> fold_left f l a = fold_left g l a.
Proof.
  revert a. induction l as [|b l IH]; intros a H; simpl; [done|].
  rewrite H by left. apply IH. intros. apply H. by right.
Qed.

Lemma filter_none {A} (P : A -> Prop) `{!forall x, Decision (P x)} (l : list A) :
  (forall x, x ∈ l -> ~ P x) -> filter P l = [].
Proof. intros Hn. apply elem_of_nil_inv. intros x [Hp Hx]%list_elem_of_filter. by apply (Hn x). Qed.

(** Number of elements that satisfy a test. *)
Fixpoint count_if {A} (P : A -> bool) (l : list A) : Z :=
  match l with
  | [] => 0
  | x :: l => (if P x then 1 else 0) + count_if P l
  end.

Lemma count_if_range {A} (P : A -> bool) l : 0 <= count_if P l <= zlen l.
Proof. induction l as [|x l IH]; simpl length; simpl count_if; [lia|]. destruct (P x); lia. Qed.

Lemma count_if_ext_in {A} (P Q : A -> bool) l :
  (forall x, x ∈ l -> P x = Q x) -> count_if P l = count_if Q l.
Proof.
  induction l as [|x l IH]; intros H; simpl; [done|].
  rewrite H by left. rewrite IH; [done|]. intros. apply H. by right.
Qed.

(** Turning the test on at one element adds one. *)
Lemma count_if_add {A} `{EqDecision A} (P Q : A -> bool) l x :
  NoDup l -> x ∈ l -> P x = false -> Q x = true -> (forall y, y ∈ l -> y <> x -> Q y = P y) ->
  count_if Q l = count_if P l + 1.
Proof.
  induction 1 as [|y l Hy Hl IH]; intros Hx HP HQ Heq; [by apply not_elem_of_nil in Hx|].
  simpl. apply elem_of_cons in Hx as [->|Hx].
  - rewrite HP, HQ, (count_if_ext_in Q P); [lia|].
    intros z Hz. apply Heq; [by right|]. intros ->. done.
  - rewrite (Heq y); [|left|intros ->; done]. rewrite IH; auto; [lia|].
    intros. apply Heq; [by right|done].
Qed.

(** Turns the boolean tests of the hypotheses into propositions. *)
Ltac bprop :=
  repeat match goal with
  | H : negb _ = true |- _ => apply negb_true_iff in H
  | H : negb _ = false |- _ => apply negb_false_iff in H
  | H : _ && _ = true |- _ => apply andb_true_iff in H; destruct H
  | H : _ || _ = false |- _ => apply orb_false_iff in H; destruct H
  | H : (_ =? _) = true |- _ => apply Z.eqb_eq in H
  | H : (_ =? _) = false |- _ => apply Z.eqb_neq in H
  | H : (_ <? _) = true |- _ => apply Z.ltb_lt in H
  | H : (_ <? _) = false |- _ => apply Z.ltb_ge in H
  | H : (_ <=? _) = true |- _ => apply Z.leb_le in H
  | H : (_ <=? _) = false |- _ => apply Z.leb_gt in H
  | H : bool_decide _ = true |- _ => apply bool_decide_eq_true in H
  | H : bool_decide _ = false |- _ => apply bool_decide_eq_false in H
  end.

(** Case analysis on the comparisons of a boolean goal. *)
Ltac zbool :=
  repeat match goal with
  | |- context [?a <? ?b] => destruct (Z.ltb_spec a b)
  | |- context [?a <=? ?b] => destruct (Z.leb_spec a b)
  | |- context [?a =? ?b] => destruct (Z.eqb_spec a b)
  end; simpl; try done; try lia.

(** ** Bytes and byte arrays *)

(** A [std::byte] is an integer in [0, 256); arrays and vectors of bytes are lists of them. *)
Abbreviation bytes := (list Z).

Definition is_byte (b : Z) : Prop := 0 <= b < 256.
Definition is_u16 (v : Z) : Prop := 0 <= v < 2 ^ 16.
Definition is_u32 (v : Z) : Prop := 0 <= v < 2 ^ 32.
Definition is_u64 (v : Z) : Prop := 0 <= v < 2 ^ 64.

#[global] Instance is_byte_dec b : Decision (is_byte b).
Proof. apply and_dec; apply _. Defined.

(** Conversion to an unsigned type keeps the low bits. *)
Definition to_u16 (v : Z) : Z := v mod 2 ^ 16.
Definition to_u32 (v : Z) : Z := v mod 2 ^ 32.
Definition to_u64 (v : Z) : Z := v mod 2 ^ 64.

(** [d[i]]; every use in the source is in range, the default only completes the function. *)
Definition byte_at (d : bytes) (i : Z) : Z := default 0 (d !! Z.to_nat i).

(** The [n] bytes of [d] from [p]. *)
Definition slice (d : bytes) (p n : Z) : bytes := take (Z.to_nat n) (drop (Z.to_nat p) d).

(** [memcpy(d + p, bs, bs.size())]. *)
Definition blit (d : bytes) (p : Z) (bs : bytes) : bytes :=
  take (Z.to_nat p) d ++ bs ++ drop (Z.to_nat p + length bs) d.

(** [n] zero bytes. *)
Definition zeros (n : Z) : bytes := replicate (Z.to_nat n) 0.

#[global] Arguments zeros : simpl never.
#[global] Arguments slice : simpl never.
#[global] Arguments blit : simpl never.
#[global] Arguments byte_at : simpl never.

Create Rewrite HintDb len.
#[export] Hint Rewrite @length_app @length_take @length_drop @length_replicate @length_fmap
  @length_insert @length_cons @length_nil @length_seq : len.

(** Normalises list lengths and closes the arithmetic that is left. *)
Ltac len := repeat (autorewrite with len in *; simpl length in *); try lia.

Lemma zeros_length n : length (zeros n) = Z.to_nat n.
Proof. unfold zeros. by len. Qed.
Lemma slice_length d p n :
  length (slice d p n) = Nat.min (Z.to_nat n) (length d - Z.to_nat p).
Proof. unfold slice. by len. Qed.
Lemma blit_length d p bs :
  0 <= p -> p + zlen bs <= zlen d -> length (blit d p bs) = length d.
Proof. intros. unfold blit. len. Qed.
#[export] Hint Rewrite zeros_length slice_length : len.

Lemma slice_blit_same d p bs n :
  0 <= p <= zlen d -> n = zlen bs -> slice (blit d p bs) p n = bs.
Proof.
  intros Hp ->. unfold slice, blit. rewrite Nat2Z.id.
  rewrite drop_app_length' by len. by rewrite take_app_length.
Qed.

Lemma blit_lookup_lt d p bs (i : nat) :
  0 <= p <= zlen d -> (i < Z.to_nat p)%nat -> blit d p bs !! i = d !! i.
Proof.
  intros. unfold blit. rewrite lookup_app_l by len. by rewrite lookup_take_lt.
Qed.

Lemma blit_lookup_mid d p bs (i : nat) :
  0 <= p <= zlen d -> (Z.to_nat p <= i < Z.to_nat p + length bs)%nat ->
  blit d p bs !! i = bs !! (i - Z.to_nat p)%nat.
Proof.
  intros. unfold blit. rewrite lookup_app_r by len.
  rewrite lookup_app_l by len. f_equal. len.
Qed.

Lemma blit_lookup_ge d p bs (i : nat) :
  0 <= p <= zlen d -> (Z.to_nat p + length bs <= i)%nat -> blit d p bs !! i = d !! i.
Proof.
  intros. unfold blit. rewrite lookup_app_r by len. rewrite lookup_app_r by len.
  rewrite lookup_drop. f_equal. len.
Qed.

Lemma slice_lookup d p n (i : nat) :
  (i < Z.to_nat n)%nat -> slice d p n !! i = d !! (Z.to_nat p + i)%nat.
Proof. intros. unfold slice. rewrite lookup_take_lt by done. by rewrite lookup_drop. Qed.

(** A write leaves alone the ranges it does not overlap. *)
Lemma slice_blit_other d p bs q n :
  0 <= p <= zlen d -> 0 <= q -> 0 <= n -> q + n <= p \/ p + zlen bs <= q ->
  q + n <= zlen d ->
  slice (blit d p bs) q n = slice d q n.
Proof.
  intros Hp Hq Hn Hd Hqn. apply list_eq. intros i.
  destruct (decide (i < Z.to_nat n)%nat) as [Hi|Hi].
  - rewrite !slice_lookup by done.
    destruct Hd; [rewrite blit_lookup_lt|rewrite blit_lookup_ge]; auto; lia.
  - rewrite !lookup_ge_None_2; auto; rewrite slice_length; lia.
Qed.

Lemma slice_app_l (a b : bytes) p n :
  0 <= p -> 0 <= n -> p + n <= zlen a -> slice (a ++ b) p n = slice a p n.
Proof.
  intros. unfold slice. rewrite drop_app_le by lia. rewrite take_app_le; [done|len].
Qed.

Lemma slice_app_r (a b : bytes) p n :
  zlen a <= p -> slice (a ++ b) p n = slice b (p - zlen a) n.
Proof.
  intros. unfold slice. rewrite drop_app_ge by lia. do 2 f_equal. lia.
Qed.

Lemma slice_full (d : bytes) n : zlen d <= n -> slice d 0 n = d.
Proof. intros. unfold slice. rewrite drop_0. apply take_ge. lia. Qed.

Lemma slice_whole (d : bytes) p n : p = 0 -> zlen d <= n -> slice d p n = d.
Proof. intros ->. apply slice_full. Qed.

Lemma slice_slice (d : bytes) p n q m :
  0 <= p -> 0 <= q -> 0 <= m -> q + m <= n -> slice (slice d p n) q m = slice d (p + q) m.
Proof.
  intros. unfold slice. rewrite skipn_firstn_comm, take_take, drop_drop.
  f_equal; [lia|]. f_equal. lia.
Qed.

Lemma slice_drop (d : bytes) p q n :
  0 <= p -> 0 <= q -> slice (drop (Z.to_nat p) d) q n = slice d (p + q) n.
Proof. intros. unfold slice. rewrite drop_drop. do 2 f_equal. lia. Qed.
