(* ===== verification/Bytes.v ===== *)
(** * Little-endian codecs and the record checksum

    The byte-level helpers the storage files share: [put16]/[put32]/[put64] and
    [get16]/[get32]/[get64] of log_manager.cpp (appending to a vector), of page_manager.cpp,
    table_heap.cpp and bplus_tree.cpp (in place, at an offset), and the FNV-1a [checksum] of
    log_manager.cpp.  The round trips and the injectivity of the checksum in each byte are
    what the page format, the write-ahead log and recovery rely on. *)

From S2P Require Import Prelude.

(** ** Definitions *)

(** The [n] little-endian bytes of [v]: byte [i] is [(v >> (i * 8)) & 0xff]. *)
Definition le_bytes (n : nat) (v : Z) : bytes :=
  (fun i : nat => Z.land (Z.shiftr v (Z.of_nat i * 8)) 255) <$> seq 0 n.

(** The integer the loop [value |= uint(in[p + i]) << (i * 8)] accumulates. *)
Definition le_value (n : nat) (d : bytes) (p : Z) : Z :=
  fold_left (fun v (i : nat) => Z.lor v (Z.shiftl (byte_at d (p + Z.of_nat i)) (Z.of_nat i * 8)))
    (seq 0 n) 0.

Definition push16 (out : bytes) (v : Z) : bytes := out ++ le_bytes 2 v.
Definition push32 (out : bytes) (v : Z) : bytes := out ++ le_bytes 4 v.
Definition push64 (out : bytes) (v : Z) : bytes := out ++ le_bytes 8 v.

Definition put16 (d : bytes) (p v : Z) : bytes := blit d p (le_bytes 2 v).
Definition put32 (d : bytes) (p v : Z) : bytes := blit d p (le_bytes 4 v).
Definition put64 (d : bytes) (p v : Z) : bytes := blit d p (le_bytes 8 v).

Definition get16 (d : bytes) (p : Z) : Z := le_value 2 d p.
Definition get32 (d : bytes) (p : Z) : Z := le_value 4 d p.
Definition get64 (d : bytes) (p : Z) : Z := le_value 8 d p.

(** FNV-1a over 32 bits, [value ^= byte; value *= 16777619U]. *)
Definition fnv_offset : Z := 2166136261.
Definition fnv_prime : Z := 16777619.
Definition fnv_step (value byte : Z) : Z := to_u32 (Z.lxor value byte * fnv_prime).
Definition checksum (bs : bytes) : Z := fold_left fnv_step bs fnv_offset.

#[global] Arguments le_bytes : simpl never.
#[global] Arguments le_value : simpl never.
#[global] Arguments checksum : simpl never.

(** ** Little-endian round trips *)

Lemma le_bytes_length n v : length (le_bytes n v) = n.
Proof. unfold le_bytes. by len. Qed.
#[export] Hint Rewrite le_bytes_length : len.

Lemma le_bytes_S n v : le_bytes (S n) v = Z.land v 255 :: le_bytes n (Z.shiftr v 8).
Proof.
  unfold le_bytes. simpl. f_equal.
  rewrite <- fmap_S_seq, <- list_fmap_compose. apply list_fmap_ext. intros i x _. simpl.
  rewrite Z.shiftr_shiftr by lia. do 2 f_equal. lia.
Qed.

Lemma le_bytes_is_byte n v : Forall is_byte (le_bytes n v).
Proof.
  unfold le_bytes. apply Forall_fmap, Forall_true. intros i. unfold is_byte; simpl.
  change 255 with (Z.ones 8). rewrite Z.land_ones by lia. apply Z.mod_pos_bound. lia.
Qed.

(** The accumulation as a recursion from the most significant byte down. *)
Fixpoint le_combine (l : bytes) : Z :=
  match l with
  | [] => 0
  | b :: l => Z.lor b (Z.shiftl (le_combine l) 8)
  end.

Lemma fold_lor_combine (l : bytes) (k : nat) acc :
  fold_left (fun v (i : nat) => Z.lor v (Z.shiftl (default 0 (l !! (i - k)%nat)) (Z.of_nat i * 8)))
    (seq k (length l)) acc = Z.lor acc (Z.shiftl (le_combine l) (Z.of_nat k * 8)).
Proof.
  revert k acc. induction l as [|b l IH]; intros k acc; simpl.
  - by rewrite Z.shiftl_0_l, Z.lor_0_r.
  - rewrite Nat.sub_diag; simpl.
    rewrite <- (fold_left_ext_in (fun v (i : nat) =>
      Z.lor v (Z.shiftl (default 0 (l !! (i - S k)%nat)) (Z.of_nat i * 8)))).
    + rewrite IH, Z.shiftl_lor, Z.shiftl_shiftl, Z.lor_assoc by lia.
      do 2 f_equal. lia.
    + intros a i Hi%elem_of_seq. replace (i - k)%nat with (S (i - S k)) by lia. done.
Qed.

Lemma le_value_combine n d p :
  0 <= p -> p + Z.of_nat n <= zlen d -> le_value n d p = le_combine (slice d p (Z.of_nat n)).
Proof.
  intros Hp Hn. unfold le_value.
  assert (length (slice d p (Z.of_nat n)) = n) as Hl by (rewrite slice_length; lia).
  transitivity (Z.lor 0 (Z.shiftl (le_combine (slice d p (Z.of_nat n))) (Z.of_nat 0 * 8))).
  2:{ change (Z.of_nat 0) with 0. by rewrite Z.lor_0_l, Z.mul_0_l, Z.shiftl_0_r. }
  rewrite <- fold_lor_combine, Hl.
  apply fold_left_ext_in. intros a i Hi%elem_of_seq.
  unfold byte_at. rewrite Nat.sub_0_r, slice_lookup by lia. do 4 f_equal; lia.
Qed.

Lemma le_combine_bytes n v : le_combine (le_bytes n v) = v mod 2 ^ (Z.of_nat n * 8).
Proof.
  revert v. induction n as [|n IH]; intros v; [by rewrite Z.mod_1_r|].
  rewrite le_bytes_S; simpl. rewrite IH. change 255 with (Z.ones 8).
  apply Z.bits_inj'. intros k Hk.
  rewrite Z.lor_spec, Z.land_spec, Z.testbit_ones by lia.
  rewrite (Z.testbit_mod_pow2 v) by lia.
  destruct (decide (k < 8)).
  - rewrite Z.shiftl_spec_low by lia. rewrite orb_false_r.
    destruct (Z.testbit v k); simpl; rewrite ?andb_false_r; [|done]. zbool.
  - rewrite Z.shiftl_spec, Z.testbit_mod_pow2, Z.shiftr_spec by lia.
    replace (k - 8 + 8) with k by lia.
    destruct (Z.testbit v k); simpl; rewrite ?andb_false_r; [|done]. zbool.
Qed.

Lemma le_value_at n d p v :
  0 <= p -> slice d p (Z.of_nat n) = le_bytes n v -> 0 <= v < 2 ^ (Z.of_nat n * 8) ->
  le_value n d p = v.
Proof.
  intros Hp Hs Hv.
  destruct (decide (n = 0%nat)) as [->|Hn].
  { change (Z.of_nat 0 * 8) with 0 in Hv. rewrite Z.pow_0_r in Hv.
    unfold le_value; simpl. lia. }
  assert (p + Z.of_nat n <= zlen d).
  { apply (f_equal length) in Hs. rewrite slice_length, le_bytes_length in Hs. lia. }
  rewrite le_value_combine, Hs, le_combine_bytes by done. by apply Z.mod_small.
Qed.


(** Writing a field and reading it back. *)
Lemma get_blit n d p v :
  0 <= p -> p + Z.of_nat n <= zlen d -> 0 <= v < 2 ^ (Z.of_nat n * 8) ->
  le_value n (blit d p (le_bytes n v)) p = v.
Proof.
  intros. apply le_value_at; [done| |done].
  apply slice_blit_same; [lia|]. by rewrite le_bytes_length.
Qed.

(** A field is read from its own bytes only. *)
Lemma le_value_slice_eq n d d' p p' :
  0 <= p -> 0 <= p' -> p + Z.of_nat n <= zlen d -> p' + Z.of_nat n <= zlen d' ->
  slice d p (Z.of_nat n) = slice d' p' (Z.of_nat n) -> le_value n d p = le_value n d' p'.
Proof. intros ???? Hs. by rewrite !le_value_combine, Hs. Qed.

Lemma le_value_blit_other n d p bs q :
  0 <= p -> p + zlen bs <= zlen d -> 0 <= q -> q + Z.of_nat n <= zlen d ->
  q + Z.of_nat n <= p \/ p + zlen bs <= q ->
  le_value n (blit d p bs) q = le_value n d q.
Proof.
  intros. apply le_value_slice_eq; try done.
  - rewrite blit_length by lia. done.
  - apply slice_blit_other; lia.
Qed.

Lemma le_combine_range l : Forall is_byte l -> 0 <= le_combine l < 2 ^ (zlen l * 8).
Proof.
  induction 1 as [|b l Hb Hl IH]; [done|].
  change (le_combine (b :: l)) with (Z.lor b (Z.shiftl (le_combine l) 8)).
  assert (Z.land b (Z.shiftl (le_combine l) 8) = 0) as Hd.
  { apply Z.bits_inj'. intros k Hk. rewrite Z.land_spec, Z.bits_0.
    destruct (decide (k < 8)).
    - rewrite Z.shiftl_spec_low by lia. apply andb_false_r.
    - rewrite (Z.bits_above_log2 b); [done|unfold is_byte in Hb; lia|].
      destruct (decide (b = 0)) as [->|]; [cbn; lia|].
      apply Z.log2_lt_pow2; [unfold is_byte in Hb; lia|].
      apply Z.lt_le_trans with (2 ^ 8); [unfold is_byte in Hb; lia|].
      apply Z.pow_le_mono_r; lia. }
  pose proof (Z.add_lor_land b (Z.shiftl (le_combine l) 8)) as Ha.
  rewrite Hd, Z.add_0_r in Ha. rewrite Z.shiftl_mul_pow2 in Ha |- * by lia. rewrite Ha.
  rewrite length_cons, Nat2Z.inj_succ, Z.mul_succ_l, Z.pow_add_r by lia.
  unfold is_byte in Hb. change (2 ^ 8) with 256. nia.
Qed.

Lemma le_value_range n d p :
  Forall is_byte d -> 0 <= p -> p + Z.of_nat n <= zlen d ->
  0 <= le_value n d p < 2 ^ (Z.of_nat n * 8).
Proof.
  intros Hd ??. rewrite le_value_combine by done.
  assert (zlen (slice d p (Z.of_nat n)) = Z.of_nat n) as Hl by (rewrite slice_length; lia).
  rewrite <- Hl at 3. apply le_combine_range. unfold slice. by apply Forall_take, Forall_drop.
Qed.

(** The bytes of a field that was read back are the bytes of the field. *)
Lemma le_bytes_combine l : Forall is_byte l -> le_bytes (length l) (le_combine l) = l.
Proof.
  induction 1 as [|b l Hb Hl IH]; [done|].
  simpl length. rewrite le_bytes_S. simpl. f_equal.
  - apply Z.bits_inj'. intros k Hk. rewrite Z.land_spec, Z.lor_spec.
    change 255 with (Z.ones 8). rewrite Z.testbit_ones by lia.
    destruct (decide (k < 8)).
    + rewrite Z.shiftl_spec_low by lia. rewrite orb_false_r.
      destruct (Z.testbit b k); simpl; zbool.
    + rewrite (Z.bits_above_log2 b k); [|unfold is_byte in Hb; lia|].
      * destruct (Z.testbit _ k); simpl; zbool.
      * destruct (decide (b = 0)) as [->|]; [cbn; lia|].
        apply Z.log2_lt_pow2; [unfold is_byte in Hb; lia|].
        apply Z.lt_le_trans with (2 ^ 8); [unfold is_byte in Hb; lia|].
        apply Z.pow_le_mono_r; lia.
  - rewrite Z.shiftr_lor, Z.shiftr_shiftl_l by lia.
    rewrite Z.sub_diag, Z.shiftl_0_r.
    replace (Z.shiftr b 8) with 0; [by rewrite Z.lor_0_l, IH|].
    rewrite Z.shiftr_div_pow2 by lia. symmetry. by apply Z.div_small.
Qed.

(** Equal fields have equal bytes. *)
Lemma le_value_inj n d d' p p' :
  Forall is_byte d -> Forall is_byte d' -> 0 <= p -> 0 <= p' ->
  p + Z.of_nat n <= zlen d -> p' + Z.of_nat n <= zlen d' ->
  le_value n d p = le_value n d' p' -> slice d p (Z.of_nat n) = slice d' p' (Z.of_nat n).
Proof.
  intros Hd Hd' ???? H. rewrite !le_value_combine in H by done.
  apply (f_equal (le_bytes n)) in H.
  assert (forall e q, Forall is_byte e -> q + Z.of_nat n <= zlen e -> 0 <= q ->
    le_bytes n (le_combine (slice e q (Z.of_nat n))) = slice e q (Z.of_nat n)) as Hinj.
  { intros e q He Hl Hq. assert (length (slice e q (Z.of_nat n)) = n) as Hn by (rewrite slice_length; lia).
    rewrite <- Hn at 1. apply le_bytes_combine. by apply Forall_take, Forall_drop. }
  by rewrite !Hinj in H.
Qed.

(** Overwriting a prefix with bytes that agree on a range leaves the range. *)
Lemma slice_merge (k : nat) (new old : bytes) p n :
  length new = length old -> 0 <= p -> slice new p n = slice old p n ->
  slice (take k new ++ drop k old) p n = slice old p n.
Proof.
  intros Hl Hp Hs. apply list_eq. intros i.
  destruct (decide (i < Z.to_nat n)%nat) as [Hi|Hi].
  2:{ rewrite !lookup_ge_None_2; [done|..]; rewrite slice_length; lia. }
  apply (f_equal (fun l => l !! i)) in Hs. rewrite !slice_lookup in * by done.
  destruct (decide (Z.to_nat p + i < k)%nat) as [Hk|Hk].
  - destruct (decide (Z.to_nat p + i < length new)%nat) as [Hn|Hn].
    + rewrite lookup_app_l by len. by rewrite lookup_take_lt.
    + rewrite !lookup_ge_None_2; [done|..]; len.
  - rewrite lookup_app_r by len. rewrite lookup_drop. rewrite length_take.
    destruct (decide (k <= length new)%nat).
    + f_equal. lia.
    + rewrite !lookup_ge_None_2; [done|..]; lia.
Qed.

(** ** The checksum separates records that differ in one byte *)

Lemma fnv_step_range v b : 0 <= fnv_step v b < 2 ^ 32.
Proof. apply Z.mod_pos_bound. lia. Qed.

Lemma checksum_range bs : 0 <= checksum bs < 2 ^ 32.
Proof.
  unfold checksum.
  assert (0 <= fnv_offset < 2 ^ 32) as H by (unfold fnv_offset; lia). revert H. generalize fnv_offset.
  induction bs as [|b bs IH]; intros v H; simpl; [done|]. apply IH, fnv_step_range.
Qed.

(** [fnv_prime] is odd, so multiplying by it modulo 2^32 can be undone. *)
Definition fnv_prime_inv : Z := 899433627.

Lemma fnv_mul_inj a b :
  0 <= a < 2 ^ 32 -> 0 <= b < 2 ^ 32 -> to_u32 (a * fnv_prime) = to_u32 (b * fnv_prime) -> a = b.
Proof.
  assert (forall x, 0 <= x < 2 ^ 32 -> to_u32 (to_u32 (x * fnv_prime) * fnv_prime_inv) = x) as Hi.
  { intros x Hx. unfold to_u32. rewrite Z.mul_mod_idemp_l, <- Z.mul_assoc by lia.
    rewrite <- Z.mul_mod_idemp_r by lia.
    change (fnv_prime * fnv_prime_inv mod 2 ^ 32) with 1.
    rewrite Z.mul_1_r. by apply Z.mod_small. }
  intros Ha Hb He. rewrite <- (Hi a), <- (Hi b) by done. by rewrite He.
Qed.

Lemma lxor_u32 a b : 0 <= a < 2 ^ 32 -> is_byte b -> 0 <= Z.lxor a b < 2 ^ 32.
Proof.
  intros Ha Hb. unfold is_byte in Hb.
  assert (0 <= Z.lxor a b) as H0 by (apply Z.lxor_nonneg; lia). split; [done|].
  destruct (decide (Z.lxor a b = 0)) as [->|]; [lia|].
  apply Z.log2_lt_pow2; [lia|].
  eapply Z.le_lt_trans; [apply Z.log2_lxor; lia|].
  assert (forall x, 0 <= x < 2 ^ 32 -> Z.log2 x < 32) as Hl.
  { intros x Hx. destruct (decide (x = 0)) as [->|]; [cbn; lia|]. apply Z.log2_lt_pow2; lia. }
  apply Z.max_lub_lt; apply Hl; lia.
Qed.

Lemma fnv_step_inj v v' b b' :
  0 <= v < 2 ^ 32 -> 0 <= v' < 2 ^ 32 -> is_byte b -> is_byte b' ->
  fnv_step v b = fnv_step v' b' -> Z.lxor v b = Z.lxor v' b'.
Proof. intros. apply fnv_mul_inj; [by apply lxor_u32..|done]. Qed.

Lemma checksum_state_inj bs v v' :
  0 <= v < 2 ^ 32 -> 0 <= v' < 2 ^ 32 -> Forall is_byte bs ->
  fold_left fnv_step bs v = fold_left fnv_step bs v' -> v = v'.
Proof.
  intros Hv Hv' Hb. revert v v' Hv Hv'.
  induction Hb as [|b bs Hb Hbs IH]; simpl; intros v v' Hv Hv' H; [done|].
  apply IH in H; [|apply fnv_step_range..]. apply fnv_step_inj in H; [|done..].
  apply (f_equal (fun x => Z.lxor x b)) in H.
  by rewrite !Z.lxor_assoc, Z.lxor_nilpotent, !Z.lxor_0_r in H.
Qed.

(** Two byte strings of equal length that differ in exactly one byte have different
    checksums. *)
Lemma checksum_one_byte pre post b b' :
  Forall is_byte pre -> Forall is_byte post -> is_byte b -> is_byte b' ->
  checksum (pre ++ b :: post) = checksum (pre ++ b' :: post) -> b = b'.
Proof.
  intros Hpre Hpost Hb Hb'. unfold checksum. rewrite !fold_left_app. simpl.
  intros H. apply checksum_state_inj in H; [|apply fnv_step_range..|done].
  apply fnv_step_inj in H; [|apply checksum_range..|done|done].
  set (v := fold_left fnv_step pre fnv_offset) in *.
  apply (f_equal (Z.lxor v)) in H.
  by rewrite <- !Z.lxor_assoc, Z.lxor_nilpotent, !Z.lxor_0_l in H.
Qed.
