(* ===== verification/Page.v ===== *)
(** * Pages and the on-disk page format

    [PageId], [Page] and the size constants of include/ddb/storage/page.h, and the 32-byte
    envelope that [PageManager] (src/storage/page_manager.cpp) puts around every payload:
    magic, version, header size, page id and PageLSN. *)

From S2P Require Import Prelude Bytes.

(** ** Definitions *)

Definition kPageSize : Z := 4096.
Definition kPageHeaderSize : Z := 32.
Definition kPagePayloadSize : Z := kPageSize - kPageHeaderSize.
Definition kPageFormatVersion : Z := 1.

(** A [PageId] is its 64-bit value; the all-ones value is the invalid sentinel. *)
Abbreviation PageId := Z.
Definition kInvalidValue : Z := 2 ^ 64 - 1.
Definition is_valid (id : PageId) : bool := negb (id =? kInvalidValue).

Record Page : Type := mkPage { page_id : PageId; page_lsn : Z; page_data : bytes }.

#[global] Instance Page_eq_dec : EqDecision Page.
Proof. solve_decision. Defined.

(** [Page(PageId id)] clears the payload. *)
Definition new_page (id : PageId) : Page := mkPage id 0 (zeros kPagePayloadSize).
Definition set_lsn (lsn : Z) (p : Page) : Page := mkPage (page_id p) lsn (page_data p).
Definition set_data (d : bytes) (p : Page) : Page := mkPage (page_id p) (page_lsn p) d.
Definition clear_page (p : Page) : Page := set_data (zeros kPagePayloadSize) p.

(** "DDBP" *)
Definition kMagic : bytes := [68; 68; 66; 80].

(** The header fields [reserve_page] and [write_page] lay down in a zeroed page buffer. *)
Definition raw_header (id lsn : Z) : bytes :=
  let raw := zeros kPageSize in
  let raw := blit raw 0 kMagic in
  let raw := put16 raw 4 kPageFormatVersion in
  let raw := put16 raw 6 kPageHeaderSize in
  let raw := put64 raw 8 id in
  put64 raw 16 lsn.

(** The page image [write_page] writes. *)
Definition raw_page (id lsn : Z) (payload : bytes) : bytes :=
  blit (raw_header id lsn) kPageHeaderSize payload.

Definition magic_ok (raw : bytes) : bool := bool_decide (slice raw 0 4 = kMagic).

Definition format_ok (raw : bytes) : bool :=
  magic_ok raw && (get16 raw 4 =? kPageFormatVersion) && (get16 raw 6 =? kPageHeaderSize).

(** The page that [read_page] builds from a buffer that passed its checks. *)
Definition page_of_raw (id : PageId) (raw : bytes) : Page :=
  mkPage id (get64 raw 16) (slice raw kPageHeaderSize kPagePayloadSize).

(** [lia] up to the size constants. *)
Ltac plia := unfold kPagePayloadSize, kPageSize, kPageHeaderSize in *; lia.

(** ** Well-formed pages *)

Record page_wf (p : Page) : Prop := {
  pw_id : is_u64 (page_id p);
  pw_lsn : is_u64 (page_lsn p);
  pw_size : zlen (page_data p) = kPagePayloadSize;
  pw_bytes : Forall is_byte (page_data p);
}.

Lemma zeros_is_byte n : Forall is_byte (zeros n).
Proof. apply Forall_replicate. unfold is_byte. lia. Qed.

Lemma new_page_wf id : is_u64 id -> page_wf (new_page id).
Proof.
  intros. split; cbn [new_page page_id page_lsn page_data].
  - done.
  - unfold is_u64; lia.
  - rewrite zeros_length. plia.
  - apply zeros_is_byte.
Qed.

(** ** Layout of the image as a concatenation of its fields *)

Lemma blit_app_mid (pre old post new : bytes) p :
  p = zlen pre -> length old = length new -> blit (pre ++ old ++ post) p new = pre ++ new ++ post.
Proof.
  intros -> Hl. unfold blit. rewrite Nat2Z.id, take_app_length. do 2 f_equal.
  rewrite <- Hl, <- length_app, app_assoc, drop_app_length. done.
Qed.

Lemma blit_app_front (old post new : bytes) :
  length old = length new -> blit (old ++ post) 0 new = new ++ post.
Proof. intros. by apply (blit_app_mid []). Qed.

Lemma blit_app_end (pre old new : bytes) p :
  p = zlen pre -> length old = length new -> blit (pre ++ old) p new = pre ++ new.
Proof.
  intros. pose proof (blit_app_mid pre old [] new p) as H1. rewrite !app_nil_r in H1. auto.
Qed.

Lemma zeros_add a b : 0 <= a -> 0 <= b -> zeros (a + b) = zeros a ++ zeros b.
Proof. intros. unfold zeros. by rewrite Z2Nat.inj_add, replicate_add by done. Qed.

Definition header_fields (id lsn : Z) : bytes :=
  kMagic ++ le_bytes 2 kPageFormatVersion ++ le_bytes 2 kPageHeaderSize ++
  le_bytes 8 id ++ le_bytes 8 lsn ++ zeros 8.

Lemma raw_header_fields id lsn :
  raw_header id lsn = header_fields id lsn ++ zeros kPagePayloadSize.
Proof.
  unfold raw_header, header_fields, put16, put64. rewrite <- !app_assoc.
  replace (zeros kPageSize) with
    (zeros 4 ++ zeros 2 ++ zeros 2 ++ zeros 8 ++ zeros 8 ++ zeros 8 ++ zeros kPagePayloadSize)
    by (rewrite <- !zeros_add by done; done).
  rewrite (blit_app_front (zeros 4)) by done.
  rewrite (blit_app_mid kMagic (zeros 2)) by (by len).
  rewrite (app_assoc kMagic).
  rewrite (blit_app_mid (kMagic ++ _) (zeros 2)) by (by len).
  rewrite (app_assoc (kMagic ++ _)).
  rewrite (blit_app_mid ((kMagic ++ _) ++ _) (zeros 8)) by (by len).
  rewrite (app_assoc ((kMagic ++ _) ++ _)).
  rewrite (blit_app_mid (((kMagic ++ _) ++ _) ++ _) (zeros 8)) by (by len).
  by rewrite <- !app_assoc.
Qed.

Lemma header_fields_length id lsn : length (header_fields id lsn) = 32%nat.
Proof. unfold header_fields. by len. Qed.
#[export] Hint Rewrite header_fields_length : len.

Lemma raw_page_fields id lsn payload :
  zlen payload = kPagePayloadSize -> raw_page id lsn payload = header_fields id lsn ++ payload.
Proof.
  intros Hl. unfold raw_page. rewrite raw_header_fields. apply blit_app_end.
  - by len.
  - rewrite zeros_length. lia.
Qed.

Lemma raw_page_zero id lsn :
  raw_page id lsn (zeros kPagePayloadSize) = raw_header id lsn.
Proof. rewrite raw_header_fields. by apply raw_page_fields. Qed.

Lemma raw_page_length id lsn payload :
  zlen payload = kPagePayloadSize -> zlen (raw_page id lsn payload) = kPageSize.
Proof. intros Hl. rewrite raw_page_fields by done. len. plia. Qed.

Lemma header_fields_is_byte id lsn : Forall is_byte (header_fields id lsn).
Proof.
  unfold header_fields. repeat apply Forall_app_2; try apply le_bytes_is_byte.
  - unfold kMagic, is_byte. repeat constructor; lia.
  - apply zeros_is_byte.
Qed.

Lemma raw_page_is_byte id lsn payload :
  zlen payload = kPagePayloadSize -> Forall is_byte payload ->
  Forall is_byte (raw_page id lsn payload).
Proof.
  intros. rewrite raw_page_fields by done. apply Forall_app_2; [apply header_fields_is_byte|done].
Qed.

(** Reads a field of a concatenation: skips the parts before it. *)
Lemma slice_here (x post : bytes) p n : p = 0 -> n = zlen x -> slice (x ++ post) p n = x.
Proof. intros -> ->. rewrite slice_app_l by lia. by apply slice_full. Qed.

Ltac slice_field :=
  rewrite <- ?app_assoc;
  repeat (rewrite slice_app_r by (len; plia));
  first [apply slice_here; by len | rewrite slice_app_l by (len; plia); by apply slice_full].

Section fields.
Context (id lsn : Z) (payload : bytes) (Hsz : zlen payload = kPagePayloadSize).

Lemma raw_page_format : format_ok (raw_page id lsn payload) = true.
Proof.
  unfold format_ok, magic_ok, get16. rewrite raw_page_fields by done. unfold header_fields.
  rewrite bool_decide_true by slice_field.
  rewrite (le_value_at 2 _ 4 kPageFormatVersion); [|done|slice_field|done].
  rewrite (le_value_at 2 _ 6 kPageHeaderSize); [done|done|slice_field|done].
Qed.

Lemma raw_page_id : is_u64 id -> get64 (raw_page id lsn payload) 8 = id.
Proof.
  intros. rewrite raw_page_fields by done. unfold header_fields.
  apply le_value_at; [done|slice_field|done].
Qed.

Lemma raw_page_lsn : is_u64 lsn -> get64 (raw_page id lsn payload) 16 = lsn.
Proof.
  intros. rewrite raw_page_fields by done. unfold header_fields.
  apply le_value_at; [done|slice_field|done].
Qed.

Lemma raw_page_payload :
  slice (raw_page id lsn payload) kPageHeaderSize kPagePayloadSize = payload.
Proof.
  rewrite raw_page_fields by done. rewrite slice_app_r by (by len).
  rewrite header_fields_length. apply slice_full. lia.
Qed.
End fields.

(** Reading back the image of a well-formed page gives the page. *)
Lemma page_of_raw_page p :
  page_wf p -> page_of_raw (page_id p) (raw_page (page_id p) (page_lsn p) (page_data p)) = p.
Proof.
  intros []. unfold page_of_raw. rewrite raw_page_lsn, raw_page_payload by done. by destruct p.
Qed.

(** Overwriting a prefix of an image with the image of the same page does not change the page. *)
Lemma raw_merge (k : nat) (new old : bytes) id :
  zlen new = kPageSize -> zlen old = kPageSize -> Forall is_byte new -> Forall is_byte old ->
  format_ok new = true -> format_ok old = true -> get64 new 8 = get64 old 8 ->
  page_of_raw id new = page_of_raw id old ->
  let b := take k new ++ drop k old in
  format_ok b = true /\ get64 b 8 = get64 old 8 /\ page_of_raw id b = page_of_raw id old.
Proof.
  intros Hn Ho Hbn Hbo Hfn Hfo Hid Hpg b. unfold page_of_raw in *. injection Hpg as Hlsn Hdata.
  assert (length new = length old) as Hl by lia. assert (zlen b = kPageSize) as Hb by (unfold b; len).
  unfold format_ok, magic_ok, get16, get64 in *. bprop.
  repeat match goal with H : _ && _ = true |- _ => apply andb_true_iff in H as [? ?] end. bprop.
  assert (forall m p, 0 <= p -> p + Z.of_nat m <= kPageSize -> le_value m new p = le_value m old p ->
            le_value m b p = le_value m old p) as Hv.
  { intros m p ?? He. apply le_value_slice_eq; try lia. apply slice_merge; [done|done|].
    apply le_value_inj; try done; lia. }
  rewrite !Hv by (done || plia || congruence). unfold b.
  rewrite !slice_merge by (done || congruence). split_and!; [|done|done].
  rewrite bool_decide_true by done. rewrite !andb_true_iff, !Z.eqb_eq. by split_and!.
Qed.
