(* ===== verification/Stream.v ===== *)
(** * Binary file streams

    The part of [std::fstream] the engine uses: a byte sequence with a position and a state
    flag.  [seekp]/[seekg], [read], [write] and [flush] do nothing once the flag is down,
    [clear] raises it again.  The environment decides which operations fail: every operation
    on a good stream takes the next entry of [st_faults]; [Some k] makes it fail after
    transferring at most [k] bytes, [None] (and an exhausted list) lets it succeed. *)

From S2P Require Import Prelude.

(** ** Definitions *)

Record stream : Type := mkStream {
  st_bytes : bytes;
  st_pos : Z;
  st_good : bool;
  st_faults : list (option Z);
}.

Definition open_stream (bs : bytes) (faults : list (option Z)) : stream :=
  mkStream bs 0 true faults.

Definition stream_clear (s : stream) : stream :=
  mkStream (st_bytes s) (st_pos s) true (st_faults s).

Definition next_fault (s : stream) : option Z := default None (head (st_faults s)).
Definition pop_fault (s : stream) : list (option Z) := tail (st_faults s).

Definition stream_seek (p : Z) (s : stream) : stream :=
  if st_good s then
    match next_fault s with
    | None => mkStream (st_bytes s) p true (pop_fault s)
    | Some _ => mkStream (st_bytes s) (st_pos s) false (pop_fault s)
    end
  else s.

(** Writing past the end fills the gap with zero bytes. *)
Definition write_at (f : bytes) (p : Z) (bs : bytes) : bytes :=
  if p <=? zlen f then blit f p bs else f ++ zeros (p - zlen f) ++ bs.

Definition stream_write (bs : bytes) (s : stream) : stream :=
  if st_good s then
    match next_fault s with
    | None => mkStream (write_at (st_bytes s) (st_pos s) bs) (st_pos s + zlen bs) true (pop_fault s)
    | Some k =>
        let part := take (Z.to_nat k) bs in
        mkStream (write_at (st_bytes s) (st_pos s) part) (st_pos s + zlen part) false (pop_fault s)
    end
  else s.

(** [read] and the [gcount] bytes it delivered; a short read lowers the flag. *)
Definition stream_read (n : Z) (s : stream) : bytes * stream :=
  if st_good s then
    let avail := slice (st_bytes s) (st_pos s) n in
    match next_fault s with
    | None => (avail, mkStream (st_bytes s) (st_pos s + zlen avail)
                        (zlen avail =? n) (pop_fault s))
    | Some k => let part := take (Z.to_nat k) avail in
                (part, mkStream (st_bytes s) (st_pos s + zlen part) false (pop_fault s))
    end
  else ([], s).

Definition stream_flush (s : stream) : stream :=
  if st_good s then
    match next_fault s with
    | None => mkStream (st_bytes s) (st_pos s) true (pop_fault s)
    | Some _ => mkStream (st_bytes s) (st_pos s) false (pop_fault s)
    end
  else s.

(** ** Healthy streams: no fault is scheduled *)

Definition healthy (s : stream) : Prop := st_faults s = [].

Lemma write_at_blit f p bs : p <= zlen f -> write_at f p bs = blit f p bs.
Proof. intros. unfold write_at. by rewrite (proj2 (Z.leb_le _ _)). Qed.

Lemma write_at_nil bs : write_at [] 0 bs = bs.
Proof. rewrite write_at_blit by done. unfold blit. by rewrite drop_nil, app_nil_r. Qed.

Lemma write_at_length f p bs :
  0 <= p -> zlen (write_at f p bs) = Z.max (zlen f) (p + zlen bs).
Proof.
  intros. unfold write_at. destruct (Z.leb_spec p (zlen f)); [unfold blit|]; len.
Qed.

Lemma write_at_is_byte f p bs :
  Forall is_byte f -> Forall is_byte bs -> Forall is_byte (write_at f p bs).
Proof.
  intros. unfold write_at. destruct (_ <=? _); unfold blit, zeros;
    repeat apply Forall_app_2; auto using Forall_take, Forall_drop.
  apply Forall_replicate. unfold is_byte. lia.
Qed.

Lemma blit_extend f p bs :
  0 <= p <= zlen f -> zlen f <= p + zlen bs -> blit f p bs = take (Z.to_nat p) f ++ bs.
Proof.
  intros. unfold blit. rewrite (drop_ge f) by lia. by rewrite app_nil_r.
Qed.

(** The bytes below the written range stay, whatever was transferred. *)
Lemma slice_write_below f p bs q n :
  0 <= q -> 0 <= n -> q + n <= p -> q + n <= zlen f ->
  slice (write_at f p bs) q n = slice f q n.
Proof.
  intros. unfold write_at. destruct (Z.leb_spec p (zlen f)).
  - unfold blit. rewrite slice_app_l by len. unfold slice.
    rewrite skipn_firstn_comm, take_take. f_equal. lia.
  - rewrite slice_app_l by lia. done.
Qed.

Lemma slice_write_above f p bs q n :
  0 <= p <= zlen f -> p + zlen bs <= q ->
  slice (write_at f p bs) q n = slice f q n.
Proof.
  intros. rewrite write_at_blit by lia. unfold blit.
  rewrite slice_app_r by len. rewrite slice_app_r by len. unfold slice.
  rewrite drop_drop. do 2 f_equal. len.
Qed.

Lemma slice_write_same f p bs n :
  0 <= p <= zlen f -> n = zlen bs -> slice (write_at f p bs) p n = bs.
Proof. intros ? ->. rewrite write_at_blit by lia. by apply slice_blit_same. Qed.

(** ** What each operation does when it succeeds, and what it keeps when it does not *)

Lemma stream_seek_bytes p s : st_bytes (stream_seek p s) = st_bytes s.
Proof. unfold stream_seek. by destruct (st_good s), (next_fault s). Qed.

Lemma stream_flush_bytes s : st_bytes (stream_flush s) = st_bytes s.
Proof. unfold stream_flush. by destruct (st_good s), (next_fault s). Qed.

Lemma stream_read_bytes n s : st_bytes (stream_read n s).2 = st_bytes s.
Proof. unfold stream_read. by destruct (st_good s), (next_fault s). Qed.

Lemma stream_seek_good p s :
  st_good (stream_seek p s) = true -> st_pos (stream_seek p s) = p.
Proof. unfold stream_seek. destruct (st_good s) eqn:E, (next_fault s); simpl; congruence. Qed.

(** A write stores a prefix of its argument at the position, all of it when it succeeds. *)
Lemma stream_write_bytes bs s :
  st_good s = true ->
  exists k, st_bytes (stream_write bs s) = write_at (st_bytes s) (st_pos s) (take k bs) /\
            (st_good (stream_write bs s) = true -> take k bs = bs).
Proof.
  intros Hg. unfold stream_write. rewrite Hg. destruct (next_fault s) as [k|]; simpl.
  - by exists (Z.to_nat k).
  - exists (length bs). rewrite firstn_all. done.
Qed.

Lemma stream_write_bad bs s : st_good s = false -> stream_write bs s = s.
Proof. unfold stream_write. by intros ->. Qed.

(** A read that delivers all the bytes it was asked for delivers the bytes of the file. *)
Lemma stream_read_full n s :
  0 < n -> zlen (stream_read n s).1 = n -> (stream_read n s).1 = slice (st_bytes s) (st_pos s) n.
Proof.
  intros Hn. unfold stream_read. destruct (st_good s); simpl; [|lia].
  destruct (next_fault s) as [k|]; simpl; [|done].
  set (a := slice _ _ _). intros H.
  apply take_ge. rewrite length_take in H.
  assert (zlen a <= n) by (unfold a; rewrite slice_length; lia). lia.
Qed.

Lemma healthy_seek p s :
  healthy s -> st_good s = true -> stream_seek p s = mkStream (st_bytes s) p true [].
Proof. unfold healthy, stream_seek, next_fault, pop_fault. by intros -> ->. Qed.

Lemma healthy_write bs s :
  healthy s -> st_good s = true ->
  stream_write bs s = mkStream (write_at (st_bytes s) (st_pos s) bs) (st_pos s + zlen bs) true [].
Proof. unfold healthy, stream_write, next_fault, pop_fault. by intros -> ->. Qed.

Lemma healthy_flush s :
  healthy s -> st_good s = true -> stream_flush s = mkStream (st_bytes s) (st_pos s) true [].
Proof. unfold healthy, stream_flush, next_fault, pop_fault. by intros -> ->. Qed.

Lemma healthy_read n s :
  healthy s -> st_good s = true -> 0 <= st_pos s -> 0 <= n -> st_pos s + n <= zlen (st_bytes s) ->
  stream_read n s = (slice (st_bytes s) (st_pos s) n,
                     mkStream (st_bytes s) (st_pos s + n) true []).
Proof.
  unfold healthy, stream_read, next_fault, pop_fault. intros -> -> ???; simpl.
  assert (zlen (slice (st_bytes s) (st_pos s) n) = n) as -> by (rewrite slice_length; lia).
  by rewrite Z.eqb_refl.
Qed.

(** What a write of [bs] at [off] may leave behind: nothing, or a prefix. *)
Definition partly_written (f f' : bytes) (off : Z) (bs : bytes) : Prop :=
  f' = f \/ exists k, f' = write_at f off (take k bs).

Lemma partly_written_length f f' off bs :
  0 <= off -> partly_written f f' off bs ->
  zlen f <= zlen f' <= Z.max (zlen f) (off + zlen bs).
Proof. intros ? [->|[k ->]]; [lia|]. rewrite write_at_length by done. len. Qed.

Lemma partly_written_bytes f f' off bs :
  Forall is_byte f -> Forall is_byte bs -> partly_written f f' off bs -> Forall is_byte f'.
Proof. intros ?? [->|[k ->]]; auto using write_at_is_byte, Forall_take. Qed.

Lemma partly_written_slice f f' off bs q n :
  0 <= off <= zlen f -> 0 <= q -> 0 <= n -> q + n <= zlen f ->
  q + n <= off \/ off + zlen bs <= q ->
  partly_written f f' off bs -> slice f' q n = slice f q n.
Proof.
  intros ???? Hd [->|[k ->]]; [done|].
  destruct (decide (q + n <= off)); [by apply slice_write_below|].
  apply slice_write_above; len.
Qed.

(** Positioning and writing: everything lands at the offset if the stream is still good, and
    it is when no fault is scheduled. *)
Lemma seek_write_spec off bs s :
  st_good s = true -> 0 <= off ->
  let s' := stream_write bs (stream_seek off s) in
  partly_written (st_bytes s) (st_bytes s') off bs /\
  (st_good s' = true -> st_bytes s' = write_at (st_bytes s) off bs) /\
  (healthy s -> healthy s' /\ st_good s' = true).
Proof.
  intros Hg Hoff. unfold partly_written. destruct (st_good (stream_seek off s)) eqn:E; simpl.
  - destruct (stream_write_bytes bs _ E) as (k & Hb & Hk).
    rewrite stream_seek_bytes, (stream_seek_good _ _ E) in Hb. split_and!.
    + eauto.
    + intros Hg'. by rewrite Hb, Hk.
    + intros Hh. by rewrite healthy_seek, healthy_write.
  - rewrite stream_write_bad by done. rewrite stream_seek_bytes. split_and!.
    + by left.
    + by rewrite E.
    + intros Hh. by rewrite healthy_seek in E.
Qed.
