(* ===== verification/PageStore.v ===== *)
(** * The contract between the buffer pool and the page manager

    [BufferPoolManager] reaches the database file only through
    [PageManager::is_page_allocated], [read_page], [write_page] and [flush].  [PageStore] is
    that interface, [PageStoreLaws] what it promises: an abstract page content that reads
    return, that a completed write replaces at one page and that nothing else changes, also
    when the operation throws.  The buffer pool is verified against these laws; the page
    manager discharges them. *)

From S2P Require Import Prelude Bytes Page.

Class PageStore (P : Type) := {
  ps_allocated : P -> PageId -> bool;
  ps_read : PageId -> M P Page;
  ps_write : PageId -> Page -> M P unit;
  ps_flush : M P unit;
}.

Class PageStoreLaws (P : Type) `{PageStore P} := {
  (** The consistency the store maintains for itself. *)
  ps_ok : P -> Prop;
  (** The page a read of this identifier delivers, if its stored image is intact. *)
  ps_page : P -> PageId -> option Page;
  (** No operation of the environment is going to fail. *)
  ps_healthy : P -> Prop;

  ps_read_spec p id r p' :
    ps_ok p -> is_u64 id -> ps_read id p = (r, p') ->
    ps_ok p' /\ ps_page p' = ps_page p /\ ps_allocated p' = ps_allocated p /\
    (ps_healthy p -> ps_healthy p') /\
    (forall pg, r = Ok pg -> ps_page p id = Some pg /\ ps_allocated p id = true /\
                        page_wf pg /\ page_id pg = id);

  ps_write_spec p id pg r p' :
    ps_ok p -> is_u64 id -> page_wf pg -> ps_write id pg p = (r, p') ->
    ps_ok p' /\ ps_allocated p' = ps_allocated p /\
    (ps_healthy p -> ps_healthy p') /\
    (forall j, j <> id -> ps_page p' j = ps_page p j) /\
    (r = Ok tt -> page_id pg = id /\ ps_allocated p id = true /\ ps_page p' id = Some pg);

  (** Writing a page over its own image does not change it, also when it fails. *)
  ps_write_same p id pg r p' :
    ps_ok p -> is_u64 id -> page_wf pg -> ps_page p id = Some pg -> ps_write id pg p = (r, p') ->
    ps_page p' id = Some pg;

  ps_flush_spec p r p' :
    ps_ok p -> ps_flush p = (r, p') ->
    ps_ok p' /\ ps_page p' = ps_page p /\ ps_allocated p' = ps_allocated p /\
    (ps_healthy p -> ps_healthy p' /\ r = Ok tt);

  ps_read_live p id :
    ps_ok p -> is_u64 id -> ps_healthy p -> ps_allocated p id = true -> is_Some (ps_page p id) ->
    exists pg p', ps_read id p = (Ok pg, p');

  ps_write_live p id pg :
    ps_ok p -> is_u64 id -> ps_healthy p -> page_wf pg -> ps_allocated p id = true -> page_id pg = id ->
    exists p', ps_write id pg p = (Ok tt, p');

  (** A page that is not logically allocated is out of reach. *)
  ps_unallocated p id pg :
    ps_ok p -> is_u64 id -> ps_allocated p id = false ->
    (exists e, ps_read id p = (Throw (StorageError e), p)) /\
    (exists e, ps_write id pg p = (Throw (StorageError e), p));
}.
