(* ===== verification/PageManager.v ===== *)
(** * PageManager: the database file and its allocation catalog

    Models src/storage/page_manager.cpp and include/ddb/storage/page_manager.h.  The file
    holds one catalog block (magic, version, physical and allocated page counts, bitmap)
    followed by one 4096-byte block per page.  The allocation entry points that involve the
    log ([allocate_transactional_page]) are in LogManager.v. *)

From S2P Require Import Prelude Bytes Page Stream PageStore.

Module PM.

(** ** State *)

(** "DDBA" *)
Definition kCatalogMagic : bytes := [68; 68; 66; 65].
Definition kCatalogVersion : Z := 1.
Definition kCatalogHeader : Z := 24.
Definition kCatalogBits : Z := (kPageSize - kCatalogHeader) * 8.

Record t : Type := mk {
  file_ : stream;
  page_count_ : Z;
  allocation_bitmap_ : bytes;
  allocated_page_count_ : Z;
}.

Definition set_file (f : stream) (pm : t) : t :=
  mk f (page_count_ pm) (allocation_bitmap_ pm) (allocated_page_count_ pm).
Definition set_page_count (n : Z) (pm : t) : t :=
  mk (file_ pm) n (allocation_bitmap_ pm) (allocated_page_count_ pm).
Definition set_bitmap (b : bytes) (pm : t) : t :=
  mk (file_ pm) (page_count_ pm) b (allocated_page_count_ pm).
Definition set_allocated (n : Z) (pm : t) : t :=
  mk (file_ pm) (page_count_ pm) (allocation_bitmap_ pm) n.

(** A stream operation of the file. *)
Definition on_file (op : stream -> stream) : M t unit :=
  modify (fun pm => set_file (op (file_ pm)) pm).

Definition ensure_stream_good (operation : string) : M t unit :=
  let! pm := get in
  throw_if (negb (st_good (file_ pm))) (StorageError (operation +:+ " failed for database file")).

(** ** Page offsets and validation *)

(** [std::numeric_limits<std::streamoff>::max()] *)
Definition kMaxOffset : Z := 2 ^ 63 - 1.

(** [static_cast<std::streamoff>]: 64-bit two's complement. *)
Definition to_streamoff (v : Z) : Z :=
  let v := v mod 2 ^ 64 in if v <? 2 ^ 63 then v else v - 2 ^ 64.

Definition offset_for (id : PageId) : outcome Z :=
  if negb (is_valid id) then Throw (StorageError "invalid page id")
  else if kMaxOffset / kPageSize <? id
  then Throw (StorageError "page id cannot be represented as a file offset")
  else Ok (to_streamoff (to_u64 (to_u64 (id + 1) * kPageSize))).

Definition validate_allocated (id : PageId) : M t unit :=
  let! _ := lift (offset_for id) in
  let! pm := get in
  throw_if (page_count_ pm <=? id) (StorageError "page id is beyond the allocated database file").

(** [bitmap[id / 8] & (1U << (id % 8))] *)
Definition bitmap_test (bitmap : bytes) (id : PageId) : bool :=
  negb (Z.land (byte_at bitmap (id / 8)) (Z.shiftl 1 (id mod 8)) =? 0).
Definition bitmap_set (bitmap : bytes) (id : PageId) : bytes :=
  <[Z.to_nat (id / 8) := Z.lor (byte_at bitmap (id / 8)) (Z.shiftl 1 (id mod 8))]> bitmap.
Definition bitmap_clear (bitmap : bytes) (id : PageId) : bytes :=
  <[Z.to_nat (id / 8) :=
      Z.land (byte_at bitmap (id / 8)) (Z.land (Z.lnot (Z.shiftl 1 (id mod 8))) 255)]> bitmap.

Definition is_page_allocated (pm : t) (id : PageId) : bool :=
  is_valid id && (id <? page_count_ pm) && bitmap_test (allocation_bitmap_ pm) id.

Definition validate_logically_allocated (id : PageId) : M t unit :=
  validate_allocated id ;;
  let! pm := get in
  throw_if (negb (is_page_allocated pm id))
    (StorageError "page is physically present but logically unallocated").

(** ** The allocation catalog *)

Definition raw_catalog (page_count allocated_page_count : Z) (bitmap : bytes) : bytes :=
  let raw := zeros kPageSize in
  let raw := blit raw 0 kCatalogMagic in
  let raw := put16 raw 4 kCatalogVersion in
  let raw := put64 raw 8 page_count in
  let raw := put64 raw 16 allocated_page_count in
  blit raw kCatalogHeader bitmap.

Definition write_allocation_catalog : M t unit :=
  let! pm := get in
  let raw := raw_catalog (page_count_ pm) (allocated_page_count_ pm) (allocation_bitmap_ pm) in
  on_file stream_clear ;;
  on_file (stream_seek 0) ;;
  on_file (stream_write raw) ;;
  ensure_stream_good "write allocation catalog".

(** ** Allocation *)

Definition reserve_page : M t PageId :=
  let! pm := get in
  throw_if (kCatalogBits <=? page_count_ pm)
    (StorageError "allocation catalog capacity exhausted") ;;
  let id := page_count_ pm in
  let! _ := lift (offset_for id) in
  modify (fun pm => set_page_count (page_count_ pm + 1) pm) ;;
  on_throw
    (on_file stream_clear ;;
     let! off := lift (offset_for id) in
     on_file (stream_seek off) ;;
     on_file (stream_write (raw_header id 0)) ;;
     ensure_stream_good "write reserved page" ;;
     write_allocation_catalog)
    (modify (fun pm => set_page_count (page_count_ pm - 1) pm)) ;;
  ret id.

Definition activate_reserved_page (id : PageId) : M t unit :=
  validate_allocated id ;;
  let! pm := get in
  throw_if (is_page_allocated pm id) (StorageError "page is already logically allocated") ;;
  modify (fun pm => set_bitmap (bitmap_set (allocation_bitmap_ pm) id) pm) ;;
  modify (fun pm => set_allocated (to_u64 (allocated_page_count_ pm + 1)) pm) ;;
  write_allocation_catalog.

Definition allocate_page : M t PageId :=
  let! id := reserve_page in
  activate_reserved_page id ;;
  ret id.

Definition deallocate_page (id : PageId) : M t unit :=
  validate_logically_allocated id ;;
  modify (fun pm => set_bitmap (bitmap_clear (allocation_bitmap_ pm) id) pm) ;;
  modify (fun pm => set_allocated (to_u64 (allocated_page_count_ pm - 1)) pm) ;;
  write_allocation_catalog.

(** ** Recovery entry points *)

Definition materialize_page_for_recovery (id : PageId) : M t unit :=
  throw_if (negb (is_valid id)) (StorageError "invalid recovery page id") ;;
  let! pm := get in
  throw_if (id <? page_count_ pm) (StorageError "recovery page already physically exists") ;;
  throw_if (page_count_ pm <? id) (StorageError "recovery page would create a physical gap") ;;
  let! materialized := reserve_page in
  throw_if (negb (materialized =? id))
    (StorageError "recovery materialized an unexpected page id").

(** [clear], [seekg], [read] of one block, and the checks that follow it. *)
Definition read_block (id : PageId) (seek_msg short_msg read_msg : string) : M t bytes :=
  on_file stream_clear ;;
  let! off := lift (offset_for id) in
  on_file (stream_seek off) ;;
  ensure_stream_good seek_msg ;;
  let! pm := get in
  let raw := (stream_read kPageSize (file_ pm)).1 in
  on_file (fun f => (stream_read kPageSize f).2) ;;
  throw_if (negb (zlen raw =? kPageSize)) (StorageError short_msg) ;;
  ensure_stream_good read_msg ;;
  ret raw.

Definition validate_physical_page_for_recovery (id : PageId) : M t unit :=
  validate_allocated id ;;
  let! raw := read_block id "seek before recovery page validation"
                "short recovery page validation read" "read recovery page validation" in
  throw_if (negb (format_ok raw) || negb (get64 raw 8 =? id))
    (StorageError "invalid physical recovery page").

(** ** Page I/O *)

Definition read_page (id : PageId) : M t Page :=
  validate_logically_allocated id ;;
  let! raw := read_block id "seek before read" "short read from database file" "read" in
  throw_if (negb (format_ok raw)) (StorageError "unsupported or legacy page format") ;;
  throw_if (negb (get64 raw 8 =? id)) (StorageError "page header identifier mismatch") ;;
  ret (page_of_raw id raw).

Definition write_page (id : PageId) (page : Page) : M t unit :=
  validate_logically_allocated id ;;
  throw_if (negb (page_id page =? id))
    (StorageError "page identifier does not match write target") ;;
  on_file stream_clear ;;
  let! off := lift (offset_for id) in
  on_file (stream_seek off) ;;
  ensure_stream_good "seek before write" ;;
  on_file (stream_write (raw_page id (page_lsn page) (page_data page))) ;;
  ensure_stream_good "write".

Definition flush : M t unit :=
  on_file stream_flush ;;
  ensure_stream_good "flush".

(** [~PageManager]: the result of the flush is ignored. *)
Definition destroy (pm : t) : t := set_file (stream_flush (file_ pm)) pm.

(** ** Opening a database file *)

(** Which of the file system calls of the constructor succeed. *)
Record open_env : Type := mkOpenEnv {
  can_inspect : bool; can_create : bool; can_size : bool; can_open : bool;
}.

Definition count_allocated (pm : t) : Z :=
  fold_left (fun n i => if is_page_allocated pm i then to_u64 (n + 1) else n)
    (seqZ 0 (page_count_ pm)) 0.

(** [PageManager(path)] on the file's content, [None] when there is no file yet. *)
Definition open (env : open_env) (content : option bytes) (faults : list (option Z)) : outcome t :=
  if negb (can_inspect env) then Throw (StorageError "cannot inspect database file")
  else if bool_decide (content = None) && negb (can_create env)
  then Throw (StorageError "cannot create database file")
  else
  let content := default [] content in
  let length := zlen content in
  if negb (can_size env) then Throw (StorageError "cannot determine database file size")
  else if negb (length mod kPageSize =? 0)
  then Throw (StorageError "database file is truncated or corrupt (not page-aligned)")
  else if negb (can_open env) then Throw (StorageError "cannot open database file for read/write")
  else
  let pm0 := mk (open_stream content faults) 0 (zeros (kPageSize - kCatalogHeader)) 0 in
  if length =? 0 then
    match (write_allocation_catalog ;; on_file stream_flush) pm0 with
    | (Ok _, pm) => Ok pm
    | (Throw e, _) => Throw e
    end
  else
  let '(catalog, f) := stream_read kPageSize (stream_seek 0 (file_ pm0)) in
  if negb (zlen catalog =? kPageSize) || negb (bool_decide (slice catalog 0 4 = kCatalogMagic))
     || negb (get16 catalog 4 =? kCatalogVersion)
  then Throw (StorageError "legacy or corrupt allocation catalog")
  else
  let page_count := length / kPageSize - 1 in
  if negb (get64 catalog 8 =? page_count) || (kCatalogBits <? page_count)
  then Throw (StorageError "invalid allocation catalog bounds")
  else
  let pm := mk f page_count (slice catalog kCatalogHeader (kPageSize - kCatalogHeader)) 0 in
  let allocated := count_allocated pm in
  if negb (allocated =? get64 catalog 16)
  then Throw (StorageError "invalid allocation catalog count")
  else Ok (set_allocated allocated pm).


(** [lia] up to the layout constants. *)
Ltac clia := unfold kCatalogBits, kCatalogHeader in *; plia.

(** ** The allocation bitmap as a set of pages *)

Lemma land_bit_zero a k : 0 <= k -> (Z.land a (Z.shiftl 1 k) =? 0) = negb (Z.testbit a k).
Proof.
  intros Hk. rewrite Z.shiftl_1_l. destruct (Z.testbit a k) eqn:E; simpl.
  - apply Z.eqb_neq. intros H. apply (f_equal (fun x => Z.testbit x k)) in H.
    rewrite Z.land_spec, E, Z.pow2_bits_true, Z.bits_0 in H by done. done.
  - apply Z.eqb_eq. apply Z.bits_inj'. intros i Hi. rewrite Z.land_spec, Z.bits_0.
    destruct (decide (i = k)) as [->|Hne]; [by rewrite E|].
    rewrite Z.pow2_bits_false by lia. apply andb_false_r.
Qed.

Lemma bitmap_test_spec bm id :
  bitmap_test bm id = Z.testbit (byte_at bm (id / 8)) (id mod 8).
Proof.
  unfold bitmap_test. rewrite land_bit_zero by (apply Z.mod_pos_bound; lia).
  apply negb_involutive.
Qed.

Lemma byte_at_insert bm i v j :
  0 <= i < zlen bm -> 0 <= j ->
  byte_at (<[Z.to_nat i := v]> bm) j = if decide (i = j) then v else byte_at bm j.
Proof.
  intros. unfold byte_at. case_decide as Hd.
  - subst. rewrite list_lookup_insert_eq by lia. done.
  - rewrite list_lookup_insert_ne by lia. done.
Qed.

Lemma bitmap_index (bm : bytes) id : 0 <= id < zlen bm * 8 -> 0 <= id / 8 < zlen bm.
Proof. intros. split; [apply Z.div_pos|apply Z.div_lt_upper_bound]; lia. Qed.

Lemma bitmap_test_set bm id j :
  0 <= id < zlen bm * 8 -> 0 <= j ->
  bitmap_test (bitmap_set bm id) j = if decide (id = j) then true else bitmap_test bm j.
Proof.
  intros Hid Hj. rewrite !bitmap_test_spec. unfold bitmap_set.
  rewrite byte_at_insert by (by apply bitmap_index || apply Z.div_pos; lia).
  pose proof (Z.mod_pos_bound id 8). pose proof (Z.mod_pos_bound j 8).
  destruct (decide (id = j)) as [->|Hne].
  - rewrite decide_True by done. rewrite Z.lor_spec, Z.shiftl_1_l, Z.pow2_bits_true by lia.
    apply orb_true_r.
  - case_decide as Hq; [|done]. rewrite Z.lor_spec, Z.shiftl_1_l, Z.pow2_bits_false.
    + rewrite orb_false_r. by rewrite Hq.
    + intros Hm. apply Hne. rewrite (Z.div_mod id 8), (Z.div_mod j 8) by lia. lia.
Qed.

Lemma bitmap_test_clear bm id j :
  0 <= id < zlen bm * 8 -> 0 <= j ->
  bitmap_test (bitmap_clear bm id) j = if decide (id = j) then false else bitmap_test bm j.
Proof.
  intros Hid Hj. rewrite !bitmap_test_spec. unfold bitmap_clear.
  rewrite byte_at_insert by (by apply bitmap_index || apply Z.div_pos; lia).
  pose proof (Z.mod_pos_bound id 8). pose proof (Z.mod_pos_bound j 8).
  change 255 with (Z.ones 8).
  destruct (decide (id = j)) as [->|Hne].
  - rewrite decide_True by done.
    rewrite !Z.land_spec, Z.lnot_spec, Z.shiftl_1_l, Z.pow2_bits_true by lia.
    apply andb_false_r.
  - case_decide as Hq; [|done].
    rewrite !Z.land_spec, Z.lnot_spec, Z.shiftl_1_l, Z.testbit_ones by lia.
    rewrite Z.pow2_bits_false.
    + rewrite Hq. destruct (Z.testbit _ _); simpl; zbool.
    + intros Hm. apply Hne. rewrite (Z.div_mod id 8), (Z.div_mod j 8) by lia. lia.
Qed.

(** Number of allocated pages below [n]. *)
Definition n_alloc (bm : bytes) (n : Z) : Z := count_if (bitmap_test bm) (seqZ 0 n).

Lemma n_alloc_set bm id n :
  0 <= id < n -> n <= zlen bm * 8 -> bitmap_test bm id = false ->
  n_alloc (bitmap_set bm id) n = n_alloc bm n + 1.
Proof.
  intros ?? Hf. unfold n_alloc.
  apply (count_if_add (bitmap_test bm) _ _ id); [apply NoDup_seqZ|..].
  - apply elem_of_seqZ. lia.
  - done.
  - rewrite bitmap_test_set, decide_True by (auto; lia). done.
  - intros y Hy%elem_of_seqZ ?. rewrite bitmap_test_set, decide_False by (auto; lia). done.
Qed.

Lemma n_alloc_clear bm id n :
  0 <= id < n -> n <= zlen bm * 8 -> bitmap_test bm id = true ->
  n_alloc (bitmap_clear bm id) n = n_alloc bm n - 1.
Proof.
  intros ?? Hf. unfold n_alloc.
  rewrite (count_if_add (bitmap_test (bitmap_clear bm id)) (bitmap_test bm) _ id);
    [lia|apply NoDup_seqZ|..].
  - apply elem_of_seqZ. lia.
  - rewrite bitmap_test_clear, decide_True by (auto; lia). done.
  - done.
  - intros y Hy%elem_of_seqZ ?. rewrite bitmap_test_clear, decide_False by (auto; lia). done.
Qed.

Lemma n_alloc_range bm n : 0 <= n -> 0 <= n_alloc bm n <= n.
Proof.
  intros. unfold n_alloc. pose proof (count_if_range (bitmap_test bm) (seqZ 0 n)) as Hr.
  rewrite length_seqZ in Hr. lia.
Qed.

Lemma n_alloc_snoc bm n :
  0 <= n -> n_alloc bm (n + 1) = n_alloc bm n + if bitmap_test bm n then 1 else 0.
Proof.
  intros. unfold n_alloc. rewrite seqZ_app by lia. simpl.
  generalize (seqZ 0 n). intros l. induction l as [|x l IH]; simpl.
  - rewrite Z.add_0_l. change (seqZ n 1) with [Z.of_nat 0 + n]. simpl. change (Z.of_nat 0) with 0.
    rewrite Z.add_0_l. lia.
  - rewrite IH. lia.
Qed.

Lemma fold_count (P : Z -> bool) l n :
  0 <= n -> n + zlen l < 2 ^ 64 ->
  fold_left (fun n i => if P i then to_u64 (n + 1) else n) l n = n + count_if P l.
Proof.
  revert n. induction l as [|i l IH]; simpl; intros n Hn Hl; [lia|].
  assert (to_u64 (n + 1) = n + 1) as Hu by (apply Z.mod_small; lia).
  destruct (P i); rewrite ?Hu, IH; lia.
Qed.

Lemma page_valid id : 0 <= id < 2 ^ 63 -> is_valid id = true.
Proof. intros. unfold is_valid, kInvalidValue. zbool. Qed.

Lemma count_allocated_spec pm :
  0 <= page_count_ pm <= kCatalogBits ->
  count_allocated pm = n_alloc (allocation_bitmap_ pm) (page_count_ pm).
Proof.
  intros Hc. unfold count_allocated, n_alloc.
  rewrite fold_count; [rewrite Z.add_0_l|lia|rewrite length_seqZ; clia].
  apply count_if_ext_in. intros i Hi%elem_of_seqZ. unfold is_page_allocated.
  rewrite page_valid by clia. simpl.
  by replace (i <? page_count_ pm) with true by lia.
Qed.

(** ** Invariants *)

(** The block of page [id]. *)
Definition block (f : bytes) (id : PageId) : bytes := slice f ((id + 1) * kPageSize) kPageSize.

(** The page stored for [id] in a file of [n] pages, when its image is intact. *)
Definition file_page (f : bytes) (n : Z) (id : PageId) : option Page :=
  if (0 <=? id) && (id <? n) && format_ok (block f id) && (get64 (block f id) 8 =? id)
  then Some (page_of_raw id (block f id)) else None.

Definition stored_page (pm : t) : PageId -> option Page :=
  file_page (st_bytes (file_ pm)) (page_count_ pm).

(** What every operation maintains, also when the file system fails it. *)
Record pm_ok (pm : t) : Prop := {
  ok_count : 0 <= page_count_ pm <= kCatalogBits;
  ok_bitmap : zlen (allocation_bitmap_ pm) = kPageSize - kCatalogHeader;
  ok_bitmap_bytes : Forall is_byte (allocation_bitmap_ pm);
  ok_bits : forall i, page_count_ pm <= i < kCatalogBits -> bitmap_test (allocation_bitmap_ pm) i = false;
  ok_allocated : allocated_page_count_ pm = n_alloc (allocation_bitmap_ pm) (page_count_ pm);
  ok_file : (page_count_ pm + 1) * kPageSize <= zlen (st_bytes (file_ pm));
  ok_file_bytes : Forall is_byte (st_bytes (file_ pm));
}.

(** The file is an exact image of the state: aligned, with the catalog of the state in its
    first block and a well-formed page in every other one. *)
Record pm_synced (pm : t) : Prop := {
  sy_ok : pm_ok pm;
  sy_length : zlen (st_bytes (file_ pm)) = (page_count_ pm + 1) * kPageSize;
  sy_catalog : slice (st_bytes (file_ pm)) 0 kPageSize =
    raw_catalog (page_count_ pm) (allocated_page_count_ pm) (allocation_bitmap_ pm);
  sy_pages : forall id, 0 <= id < page_count_ pm -> is_Some (stored_page pm id);
}.

Definition pm_healthy (pm : t) : Prop := healthy (file_ pm) /\ st_good (file_ pm) = true.

(** ** Offsets *)

Lemma offset_small id : 0 <= id <= kCatalogBits -> offset_for id = Ok ((id + 1) * kPageSize).
Proof.
  intros Hid. unfold offset_for, kMaxOffset, to_streamoff, to_u64.
  rewrite page_valid by clia. simpl.
  replace (_ <? id) with false
    by (symmetry; apply Z.ltb_ge; apply Z.div_le_lower_bound; clia).
  rewrite (Z.mod_small (id + 1)), !(Z.mod_small ((id + 1) * kPageSize)) by clia.
  by replace (_ <? 2 ^ 63) with true by clia.
Qed.

Lemma allocated_range pm id :
  pm_ok pm -> is_u64 id -> is_page_allocated pm id = true ->
  0 <= id < page_count_ pm /\ bitmap_test (allocation_bitmap_ pm) id = true.
Proof.
  intros _ Hu H. unfold is_u64 in Hu. unfold is_page_allocated in H.
  apply andb_true_iff in H as [[_ H1]%andb_true_iff H2]. split; [lia|done].
Qed.

(** ** Frame lemmas of the file operations *)

Lemma block_write f p bs id :
  0 <= p <= zlen f -> 0 <= id -> (id + 2) * kPageSize <= zlen f ->
  (id + 2) * kPageSize <= p \/ p + zlen bs <= (id + 1) * kPageSize ->
  block (write_at f p bs) id = block f id.
Proof.
  intros. unfold block. destruct (decide ((id + 2) * kPageSize <= p)).
  - apply slice_write_below; plia.
  - apply slice_write_above; plia.
Qed.

Lemma file_page_ext f f' n id :
  block f id = block f' id -> file_page f n id = file_page f' n id.
Proof. unfold file_page. by intros ->. Qed.

Lemma file_page_out f n id : ~ (0 <= id < n) -> file_page f n id = None.
Proof.
  intros. unfold file_page. by replace ((0 <=? id) && (id <? n)) with false by lia.
Qed.

Lemma file_page_grow f n id : id <> n -> file_page f (n + 1) id = file_page f n id.
Proof.
  intros. unfold file_page. by replace (id <? n + 1) with (id <? n) by lia.
Qed.

Lemma file_page_wf f n id pg :
  Forall is_byte f -> n <= kCatalogBits -> (n + 1) * kPageSize <= zlen f ->
  file_page f n id = Some pg -> page_wf pg /\ page_id pg = id.
Proof.
  unfold file_page. intros Hb Hn Hf H. case_match eqn:E; simplify_eq.
  apply andb_true_iff in E as [[[E1 E2]%andb_true_iff _]%andb_true_iff _].
  assert (zlen (block f id) = kPageSize) as Hl by (unfold block; rewrite slice_length; plia).
  assert (Forall is_byte (block f id)) by (by apply Forall_take, Forall_drop).
  split; [|done]. split; cbn [page_of_raw page_id page_lsn page_data].
  - unfold is_u64. clia.
  - apply le_value_range; [done|lia|plia].
  - rewrite slice_length. plia.
  - by apply Forall_take, Forall_drop.
Qed.

Lemma raw_header_length id lsn : zlen (raw_header id lsn) = kPageSize.
Proof. rewrite <- raw_page_zero. apply raw_page_length. rewrite zeros_length. plia. Qed.

Lemma raw_header_bytes id lsn : Forall is_byte (raw_header id lsn).
Proof.
  rewrite <- raw_page_zero. apply raw_page_is_byte; [rewrite zeros_length; plia|].
  apply zeros_is_byte.
Qed.

(** ** The catalog block *)

Definition catalog_fields (n a : Z) (bm : bytes) : bytes :=
  kCatalogMagic ++ le_bytes 2 kCatalogVersion ++ zeros 2 ++ le_bytes 8 n ++ le_bytes 8 a ++ bm.

Lemma raw_catalog_fields n a bm :
  zlen bm = kPageSize - kCatalogHeader -> raw_catalog n a bm = catalog_fields n a bm.
Proof.
  intros Hbm. unfold raw_catalog, catalog_fields, put16, put64.
  replace (zeros kPageSize) with
    (zeros 4 ++ zeros 2 ++ zeros 2 ++ zeros 8 ++ zeros 8 ++ zeros (kPageSize - kCatalogHeader))
    by (rewrite <- !zeros_add by done; done).
  rewrite (blit_app_front (zeros 4)) by done.
  rewrite (blit_app_mid kCatalogMagic (zeros 2)) by (by len).
  rewrite (app_assoc kCatalogMagic), (app_assoc (kCatalogMagic ++ _)).
  rewrite (blit_app_mid ((kCatalogMagic ++ _) ++ _) (zeros 8)) by (by len).
  rewrite (app_assoc ((kCatalogMagic ++ _) ++ _)).
  rewrite (blit_app_mid (((kCatalogMagic ++ _) ++ _) ++ _) (zeros 8)) by (by len).
  rewrite (app_assoc (((kCatalogMagic ++ _) ++ _) ++ _)).
  rewrite (blit_app_end _ (zeros _)) by (len; clia).
  by rewrite <- !app_assoc.
Qed.

Lemma raw_catalog_length n a bm :
  zlen bm = kPageSize - kCatalogHeader -> zlen (raw_catalog n a bm) = kPageSize.
Proof. intros. rewrite raw_catalog_fields by done. unfold catalog_fields. len. clia. Qed.

Lemma raw_catalog_bytes n a bm :
  zlen bm = kPageSize - kCatalogHeader -> Forall is_byte bm -> Forall is_byte (raw_catalog n a bm).
Proof.
  intros. rewrite raw_catalog_fields by done. unfold catalog_fields.
  repeat apply Forall_app_2; auto using le_bytes_is_byte, zeros_is_byte.
  unfold kCatalogMagic, is_byte. repeat constructor; lia.
Qed.

Section catalog_fields.
Context (n a : Z) (bm : bytes) (Hbm : zlen bm = kPageSize - kCatalogHeader).

Lemma raw_catalog_magic : slice (raw_catalog n a bm) 0 4 = kCatalogMagic.
Proof. rewrite raw_catalog_fields by done. unfold catalog_fields. slice_field. Qed.
Lemma raw_catalog_version : get16 (raw_catalog n a bm) 4 = kCatalogVersion.
Proof.
  rewrite raw_catalog_fields by done. unfold catalog_fields.
  apply le_value_at; [done|slice_field|done].
Qed.
Lemma raw_catalog_pages : is_u64 n -> get64 (raw_catalog n a bm) 8 = n.
Proof.
  intros. rewrite raw_catalog_fields by done. unfold catalog_fields.
  apply le_value_at; [done|slice_field|done].
Qed.
Lemma raw_catalog_allocated : is_u64 a -> get64 (raw_catalog n a bm) 16 = a.
Proof.
  intros. rewrite raw_catalog_fields by done. unfold catalog_fields.
  apply le_value_at; [done|slice_field|done].
Qed.
Lemma raw_catalog_bitmap :
  slice (raw_catalog n a bm) kCatalogHeader (kPageSize - kCatalogHeader) = bm.
Proof.
  rewrite raw_catalog_fields by done. unfold catalog_fields.
  repeat (rewrite slice_app_r by (len; clia)).
  replace (_ - _ - _ - _ - _) with 0 by (len; clia). apply slice_full. lia.
Qed.
End catalog_fields.

Lemma block_is_byte f id : Forall is_byte f -> Forall is_byte (block f id).
Proof. intros. by apply Forall_take, Forall_drop. Qed.

Lemma block_partly f f' id bs :
  0 <= id -> zlen bs = kPageSize -> (id + 2) * kPageSize <= zlen f ->
  partly_written f f' ((id + 1) * kPageSize) bs ->
  exists k, block f' id = take k bs ++ drop k (block f id).
Proof.
  intros Hid Hl Hf [->|[k ->]]; [by exists 0%nat|]. exists k.
  rewrite write_at_blit by plia. unfold blit, block.
  rewrite slice_app_r by (len; plia). unfold slice. rewrite length_take.
  replace (Z.to_nat ((id + 1) * kPageSize - _)) with 0%nat by plia. rewrite drop_0.
  rewrite take_app, length_take. f_equal; [apply take_ge; len|].
  rewrite skipn_firstn_comm, drop_drop.
  destruct (decide (k <= length bs)%nat).
  - f_equal; [lia|f_equal; lia].
  - replace (Z.to_nat kPageSize - _)%nat with 0%nat by lia.
    by replace (Z.to_nat kPageSize - k)%nat with 0%nat by lia.
Qed.

#[local] Opaque raw_catalog raw_header raw_page format_ok page_of_raw get64 slice write_at zeros.

(** ** Specifications of the building blocks *)

Lemma ensure_good_spec op pm (Q : outcome unit -> t -> Prop) :
  (st_good (file_ pm) = true -> Q (Ok tt) pm) ->
  (st_good (file_ pm) = false -> Q (Throw (StorageError (op +:+ " failed for database file"))) pm) ->
  wp (ensure_stream_good op) pm Q.
Proof.
  intros. unfold ensure_stream_good. wp_steps; destruct (st_good (file_ pm)); simpl in *; auto; done.
Qed.

(** The result of an operation that changes nothing but the stream. *)
Record only_file (pm pm' : t) : Prop := {
  of_count : page_count_ pm' = page_count_ pm;
  of_bitmap : allocation_bitmap_ pm' = allocation_bitmap_ pm;
  of_allocated : allocated_page_count_ pm' = allocated_page_count_ pm;
}.

Definition catalog_of (pm : t) : bytes :=
  raw_catalog (page_count_ pm) (allocated_page_count_ pm) (allocation_bitmap_ pm).

Abbreviation bytes_of pm := (st_bytes (file_ pm)).

Lemma write_catalog_spec pm :
  wp write_allocation_catalog pm (fun r pm' =>
    only_file pm pm' /\
    partly_written (bytes_of pm) (bytes_of pm') 0 (catalog_of pm) /\
    (r = Ok tt -> bytes_of pm' = write_at (bytes_of pm) 0 (catalog_of pm)) /\
    (healthy (file_ pm) -> r = Ok tt /\ pm_healthy pm')).
Proof.
  unfold write_allocation_catalog, on_file. wp_steps.
  destruct (seek_write_spec 0 (catalog_of pm) (stream_clear (file_ pm))) as (H1 & H2 & H3); [done..|].
  apply ensure_good_spec; simpl; intros Hg; split_and!; auto; try done.
  - intros Hh. split; [done|]. by apply H3.
  - intros Hh. destruct (H3 Hh) as [_ Hg']. unfold catalog_of in *. congruence.
Qed.

Lemma read_block_spec id m1 m2 m3 pm :
  pm_ok pm -> 0 <= id < page_count_ pm ->
  wp (read_block id m1 m2 m3) pm (fun r pm' =>
    only_file pm pm' /\ bytes_of pm' = bytes_of pm /\
    (forall raw, r = Ok raw -> raw = block (bytes_of pm) id) /\
    (healthy (file_ pm) -> r = Ok (block (bytes_of pm) id) /\ pm_healthy pm')).
Proof.
  intros [] Hid. unfold read_block, on_file. wp_steps.
  rewrite offset_small by lia. wp_steps. simpl.
  set (f := stream_seek _ _).
  assert (st_bytes f = bytes_of pm) as Hf by (unfold f; by rewrite stream_seek_bytes).
  assert (healthy (file_ pm) -> f = mkStream (bytes_of pm) ((id + 1) * kPageSize) true []) as Hh.
  { intros. unfold f. by rewrite healthy_seek. }
  apply ensure_good_spec; simpl; intros Hg.
  2:{ split_and!; try done. intros Hh'. by rewrite Hh in Hg. }
  wp_steps; simpl.
  - split_and!; try done; [by rewrite stream_read_bytes|].
    intros Hh'. rewrite Hh in * by done. rewrite healthy_read in *; try done; simpl in *; try plia.
    exfalso. rewrite slice_length in *. bprop. plia.
  - assert (zlen (stream_read kPageSize f).1 = kPageSize) as Hl by (by bprop).
    assert ((stream_read kPageSize f).1 = block (bytes_of pm) id) as Hr.
    { rewrite stream_read_full by plia. rewrite Hf. unfold f. by rewrite stream_seek_good. }
    assert (healthy (file_ pm) -> st_good (stream_read kPageSize f).2 = true /\
              healthy (stream_read kPageSize f).2) as Hgood.
    { intros Hh'. rewrite Hh, healthy_read by (simpl; done || plia). done. }
    apply ensure_good_spec; simpl; intros Hg'; wp_steps; simpl.
    + split_and!; [done|by rewrite stream_read_bytes|congruence|].
      intros Hh'. split; [by f_equal|]. split; simpl; naive_solver.
    + split_and!; [done|by rewrite stream_read_bytes|done|]. naive_solver congruence.
Qed.

Lemma validate_allocated_ok pm id :
  pm_ok pm -> 0 <= id < page_count_ pm -> validate_allocated id pm = (Ok tt, pm).
Proof.
  intros [] Hid. unfold validate_allocated, bind, lift. rewrite offset_small by lia.
  unfold get, throw_if. by replace (page_count_ pm <=? id) with false by lia.
Qed.

Lemma validate_allocated_throws pm id :
  pm_ok pm -> page_count_ pm <= id ->
  exists e, validate_allocated id pm = (Throw (StorageError e), pm).
Proof.
  intros [] Hid. unfold validate_allocated, bind, lift.
  destruct (offset_for id) as [o|e] eqn:E.
  - unfold get, throw_if. replace (page_count_ pm <=? id) with true by lia. by eexists.
  - unfold offset_for in E. repeat case_match; simplify_eq; by eexists.
Qed.

Lemma validate_logically_ok pm id :
  pm_ok pm -> is_u64 id -> is_page_allocated pm id = true ->
  validate_logically_allocated id pm = (Ok tt, pm).
Proof.
  intros Hok Hu Ha. destruct (allocated_range pm id) as [Hr _]; [done..|].
  unfold validate_logically_allocated. erewrite bind_run_ok by by apply validate_allocated_ok.
  unfold bind, get, throw_if. by rewrite Ha.
Qed.

Lemma validate_logically_throws pm id :
  pm_ok pm -> is_u64 id -> is_page_allocated pm id = false ->
  exists e, validate_logically_allocated id pm = (Throw (StorageError e), pm).
Proof.
  intros Hok Hu Ha. unfold validate_logically_allocated. unfold is_u64 in Hu.
  destruct (decide (id < page_count_ pm)).
  - erewrite bind_run_ok by (apply validate_allocated_ok; [done|lia]).
    unfold bind, get, throw_if. rewrite Ha. by eexists.
  - destruct (validate_allocated_throws pm id) as [e He]; [done|lia|].
    rewrite (bind_run_throw _ _ _ _ _ He). by eexists.
Qed.

(** Reads and writes check the allocation bit first. *)
Lemma wp_validated {A} pm id (k : M t A) Q :
  pm_ok pm -> is_u64 id ->
  (is_page_allocated pm id = true -> wp k pm Q) ->
  (forall e, is_page_allocated pm id = false -> Q (Throw (StorageError e)) pm) ->
  wp (validate_logically_allocated id ;; k) pm Q.
Proof.
  intros Hok Hu Hk Ht. unfold wp. destruct (is_page_allocated pm id) eqn:E.
  - erewrite bind_run_ok by by apply validate_logically_ok. by apply Hk.
  - destruct (validate_logically_throws pm id) as [e He]; [done..|].
    rewrite (bind_run_throw _ _ _ _ _ He). by apply Ht.
Qed.

Lemma wp_validated_phys {A} pm id (k : M t A) Q :
  pm_ok pm -> 0 <= id ->
  (id < page_count_ pm -> wp k pm Q) ->
  (forall e, page_count_ pm <= id -> Q (Throw (StorageError e)) pm) ->
  wp (validate_allocated id ;; k) pm Q.
Proof.
  intros Hok Hu Hk Ht. unfold wp. destruct (decide (id < page_count_ pm)).
  - erewrite bind_run_ok by (apply validate_allocated_ok; [done|lia]). by apply Hk.
  - destruct (validate_allocated_throws pm id) as [e He]; [done|lia|].
    rewrite (bind_run_throw _ _ _ _ _ He). apply Ht. lia.
Qed.

Lemma only_file_refl pm : only_file pm pm.
Proof. done. Qed.
#[local] Hint Resolve only_file_refl : core.

Lemma pm_ok_file pm pm' :
  pm_ok pm -> only_file pm pm' -> zlen (bytes_of pm) <= zlen (bytes_of pm') ->
  Forall is_byte (bytes_of pm') -> pm_ok pm'.
Proof. intros [] [H1 H2 H3] ??. split; rewrite ?H1, ?H2, ?H3; try assumption. lia. Qed.

Lemma pm_ok_same_bytes pm pm' :
  pm_ok pm -> only_file pm pm' -> bytes_of pm' = bytes_of pm -> pm_ok pm'.
Proof. intros Hok Hof Hb. apply (pm_ok_file pm); rewrite ?Hb; try done. apply Hok. Qed.

Lemma only_file_allocated pm pm' : only_file pm pm' -> is_page_allocated pm' = is_page_allocated pm.
Proof. intros [H1 H2 _]. unfold is_page_allocated. by rewrite H1, H2. Qed.

Lemma only_file_stored pm pm' :
  only_file pm pm' -> bytes_of pm' = bytes_of pm -> stored_page pm' = stored_page pm.
Proof. intros [H1 _ _] H. unfold stored_page. by rewrite H, H1. Qed.

Lemma only_file_catalog pm pm' : only_file pm pm' -> catalog_of pm' = catalog_of pm.
Proof. intros [H1 H2 H3]. unfold catalog_of. by rewrite H1, H2, H3. Qed.

(** ** Page I/O *)

Lemma stored_page_range pm id : is_Some (stored_page pm id) -> 0 <= id < page_count_ pm.
Proof. unfold stored_page, file_page. intros [pg Hp]. case_match; [bprop; lia|done]. Qed.

Lemma stored_page_intro pm id :
  0 <= id < page_count_ pm -> format_ok (block (bytes_of pm) id) = true ->
  get64 (block (bytes_of pm) id) 8 = id ->
  stored_page pm id = Some (page_of_raw id (block (bytes_of pm) id)).
Proof.
  intros Hid Hf He. unfold stored_page, file_page.
  replace (0 <=? id) with true by lia. replace (id <? page_count_ pm) with true by lia.
  by rewrite Hf, He, Z.eqb_refl.
Qed.

Lemma read_page_spec pm id :
  pm_ok pm -> is_u64 id ->
  wp (read_page id) pm (fun r pm' =>
    only_file pm pm' /\ bytes_of pm' = bytes_of pm /\
    (forall pg, r = Ok pg -> stored_page pm id = Some pg /\ is_page_allocated pm id = true) /\
    (pm_healthy pm -> pm_healthy pm' /\
       (is_page_allocated pm id = true -> forall pg, stored_page pm id = Some pg -> r = Ok pg))).
Proof.
  intros Hok Hu. unfold read_page. apply wp_validated; [done..| |].
  2:{ intros e Ha. split_and!; [done..|]. intros ?. split; [done|congruence]. }
  intros Ha. destruct (allocated_range pm id) as [Hr _]; [done..|].
  wp_step. wp_use read_block_spec; [done|done|].
  intros [raw|e] pm' (Hof & Hb & Hraw & Hh).
  2:{ split_and!; try done. intros [Hh' ?]. destruct (Hh Hh') as [? _]. done. }
  specialize (Hraw raw eq_refl) as ->.
  assert (pm_healthy pm -> pm_healthy pm') as Hheal by (intros [Hh' _]; by apply Hh).
  wp_steps; bprop; (split_and!; [done|done|..]).
  - done.
  - intros Hp. split; [auto|]. intros _ pg Hpg.
    unfold stored_page, file_page in Hpg. case_match; simplify_eq. bprop. congruence.
  - done.
  - intros Hp. split; [auto|]. intros _ pg Hpg.
    unfold stored_page, file_page in Hpg. case_match; simplify_eq. bprop. congruence.
  - intros pg [= <-]. split; [|done]. by apply stored_page_intro.
  - intros Hp. split; [auto|]. intros _ pg Hpg. rewrite stored_page_intro in Hpg by done. congruence.
Qed.

Lemma block_written pm f id bs :
  pm_ok pm -> 0 <= id < page_count_ pm -> zlen bs = kPageSize ->
  f = write_at (bytes_of pm) ((id + 1) * kPageSize) bs -> block f id = bs.
Proof. intros [] Hid Hl ->. unfold block. apply slice_write_same; plia. Qed.

Lemma stored_write_other pm pm' id bs j :
  pm_ok pm -> only_file pm pm' -> 0 <= id < page_count_ pm -> zlen bs = kPageSize ->
  partly_written (bytes_of pm) (bytes_of pm') ((id + 1) * kPageSize) bs ->
  j <> id -> stored_page pm' j = stored_page pm j.
Proof.
  intros Hok Hof Hid Hl Hpw Hj. destruct Hok. unfold stored_page. rewrite (of_count _ _ Hof).
  destruct (decide (0 <= j < page_count_ pm)).
  - apply file_page_ext. unfold block.
    eapply partly_written_slice; [..|exact Hpw]; try plia.
  - by rewrite !file_page_out.
Qed.

Lemma write_page_spec pm id pg :
  pm_ok pm -> is_u64 id -> page_wf pg ->
  wp (write_page id pg) pm (fun r pm' =>
    only_file pm pm' /\ pm_ok pm' /\ zlen (bytes_of pm') = zlen (bytes_of pm) /\
    slice (bytes_of pm') 0 kPageSize = slice (bytes_of pm) 0 kPageSize /\
    (forall j, j <> id -> stored_page pm' j = stored_page pm j) /\
    (r = Ok tt -> page_id pg = id /\ is_page_allocated pm id = true /\ stored_page pm' id = Some pg) /\
    (is_page_allocated pm id = false \/ page_id pg <> id ->
       pm' = pm /\ exists e, r = Throw (StorageError e)) /\
    (pm_healthy pm -> pm_healthy pm' /\
       (is_page_allocated pm id = true -> page_id pg = id -> r = Ok tt))).
Proof.
  intros Hok Hu Hpg. unfold write_page. apply wp_validated; [done..| |].
  2:{ intros e Ha. split_and!; [done..|eauto|]. intros ?. split; [done|congruence]. }
  intros Ha. destruct (allocated_range pm id) as [Hr _]; [done..|].
  wp_steps; bprop.
  { split_and!; [done..|eauto|]. intros ?. split; [done|congruence]. }
  rewrite offset_small by (destruct Hok; lia). unfold on_file. wp_steps.
  set (raw := raw_page id (page_lsn pg) (page_data pg)).
  set (off := (id + 1) * kPageSize).
  assert (zlen raw = kPageSize) as Hl by (apply raw_page_length, Hpg).
  destruct (seek_write_spec off raw (stream_clear (file_ pm))) as (H1 & H2 & H3); [done|unfold off; plia|].
  simpl in H1, H2.
  apply ensure_good_spec; simpl; intros Hg.
  2:{ split_and!; [done|..|done|intros [?|?]; congruence|].
      - apply (pm_ok_same_bytes pm); [done..|]. simpl. by rewrite stream_seek_bytes.
      - by rewrite stream_seek_bytes.
      - by rewrite stream_seek_bytes.
      - intros j Hj. unfold stored_page. simpl. by rewrite stream_seek_bytes.
      - intros [Hh _]. by rewrite healthy_seek in Hg. }
  wp_steps; simpl.
  set (pm' := set_file _ _).
  assert (only_file pm pm') as Hof by done.
  assert (zlen (bytes_of pm') = zlen (bytes_of pm)) as Hlen.
  { apply partly_written_length in H1; [|unfold off; plia]. destruct Hok. simpl. unfold off in *. plia. }
  assert (pm_ok pm') as Hok'.
  { apply (pm_ok_file pm); [done|done|simpl in *; lia|].
    eapply partly_written_bytes; [..|exact H1]; [by destruct Hok|].
    apply raw_page_is_byte; apply Hpg. }
  assert (slice (bytes_of pm') 0 kPageSize = slice (bytes_of pm) 0 kPageSize) as Hcat.
  { destruct Hok. eapply partly_written_slice; [..|exact H1]; unfold off; plia. }
  assert (forall j, j <> id -> stored_page pm' j = stored_page pm j) as Hoth.
  { intros. by eapply stored_write_other. }
  apply ensure_good_spec; intros Hg'; (split_and!; [done..| |intros [?|?]; congruence|]).
  - intros _. split_and!; [done..|]. simpl in Hg'.
    assert (block (bytes_of pm') id = raw) as Hbl by (eapply (block_written pm); eauto).
    rewrite stored_page_intro; rewrite ?Hbl.
    + subst id. f_equal. by apply page_of_raw_page.
    + done.
    + apply raw_page_format, Hpg.
    + apply raw_page_id; [apply Hpg|done].
  - intros [Hh _]. split; [|done]. by apply H3.
  - done.
  - intros [Hh _]. apply H3 in Hh as [??]. simpl in Hg'. congruence.
Qed.

(** What [write_page] may have done to the file. *)
Lemma write_page_partly pm id pg :
  pm_ok pm -> is_u64 id -> page_wf pg ->
  wp (write_page id pg) pm (fun _ pm' => only_file pm pm' /\
    partly_written (bytes_of pm) (bytes_of pm') ((id + 1) * kPageSize)
      (raw_page id (page_lsn pg) (page_data pg))).
Proof.
  intros Hok Hu Hpg. unfold write_page. apply wp_validated; [done..| |].
  2:{ intros e _. split; [done|by left]. }
  intros Ha. destruct (allocated_range pm id) as [Hr _]; [done..|].
  wp_steps; bprop; [split; [done|by left]|].
  rewrite offset_small by (destruct Hok; lia). unfold on_file. wp_steps.
  destruct (seek_write_spec ((id + 1) * kPageSize) (raw_page id (page_lsn pg) (page_data pg))
              (stream_clear (file_ pm))) as (H1 & _); [done|plia|].
  apply ensure_good_spec; simpl; intros Hg.
  - wp_steps. apply ensure_good_spec; intros _; by split.
  - split; [done|]. left. by rewrite stream_seek_bytes.
Qed.

Lemma write_page_same pm id pg :
  pm_ok pm -> is_u64 id -> page_wf pg -> stored_page pm id = Some pg ->
  wp (write_page id pg) pm (fun _ pm' => stored_page pm' id = Some pg).
Proof.
  intros Hok Hu Hpg Hst. wp_use write_page_partly; [done..|]. intros _ pm' [[Hc _ _] Hpw].
  unfold stored_page, file_page in *. rewrite Hc. case_match eqn:E; [|done].
  assert (page_of_raw id (block (bytes_of pm) id) = pg) as Hold by congruence. bprop.
  destruct Hok. pose proof (raw_page_length id (page_lsn pg) (page_data pg) (pw_size _ Hpg)) as Hl.
  destruct (block_partly (bytes_of pm) (bytes_of pm') id _ ltac:(lia) Hl) as [k ->]; [plia|done|].
  assert (page_id pg = id) as Hid by (subst pg; done).
  assert (zlen (block (bytes_of pm) id) = kPageSize) as Hb by (unfold block; rewrite slice_length; plia).
  destruct (raw_merge k (raw_page id (page_lsn pg) (page_data pg)) (block (bytes_of pm) id) id)
    as (Hm1 & Hm2 & Hm3); [done|done| | | |done| | |].
  - apply raw_page_is_byte; apply Hpg.
  - by apply block_is_byte.
  - apply raw_page_format, Hpg.
  - rewrite raw_page_id by (done || apply Hpg). done.
  - rewrite Hold, <- Hid. by apply page_of_raw_page.
  - rewrite Hm1, Hm2, Hm3, Hold. replace (0 <=? id) with true by lia.
    replace (id <? page_count_ pm) with true by lia. simpl. by rewrite (proj2 (Z.eqb_eq _ _)).
Qed.

Lemma flush_spec pm :
  wp flush pm (fun r pm' =>
    only_file pm pm' /\ bytes_of pm' = bytes_of pm /\ (pm_healthy pm -> pm_healthy pm' /\ r = Ok tt)).
Proof.
  unfold flush, on_file. wp_steps. apply ensure_good_spec; simpl; intros Hg; split_and!; try done;
    try apply stream_flush_bytes; intros [Hh Hg0].
  - split; [|done]. split; simpl; rewrite healthy_flush by done; done.
  - by rewrite healthy_flush in Hg.
Qed.

(** ** Allocation *)

Lemma pm_ok_u64 pm : pm_ok pm -> is_u64 (page_count_ pm) /\ is_u64 (allocated_page_count_ pm).
Proof.
  intros [? ? ? ? Ha ? ?]. pose proof (n_alloc_range (allocation_bitmap_ pm) (page_count_ pm)).
  unfold is_u64. split; clia.
Qed.

(** Writing the catalog of a consistent state touches no page. *)
Lemma commit_catalog_spec pm :
  pm_ok pm ->
  wp write_allocation_catalog pm (fun r pm' =>
    only_file pm pm' /\ pm_ok pm' /\ zlen (bytes_of pm') = zlen (bytes_of pm) /\
    (forall j, stored_page pm' j = stored_page pm j) /\
    (r = Ok tt -> slice (bytes_of pm') 0 kPageSize = catalog_of pm') /\
    (healthy (file_ pm) -> r = Ok tt /\ pm_healthy pm')).
Proof.
  intros Hok. wp_use write_catalog_spec. intros r pm' (Hof & Hpw & Hr & Hh).
  assert (zlen (catalog_of pm) = kPageSize) as Hl by apply raw_catalog_length, Hok.
  assert (zlen (bytes_of pm') = zlen (bytes_of pm)) as Hlen.
  { apply partly_written_length in Hpw; [|done]. destruct Hok. plia. }
  split_and!; [done| |done|..|done].
  - apply (pm_ok_file pm); [done|done|lia|].
    eapply partly_written_bytes; [..|exact Hpw]; [apply Hok|]. apply raw_catalog_bytes; apply Hok.
  - intros j. unfold stored_page. rewrite (of_count _ _ Hof).
    destruct (decide (0 <= j < page_count_ pm)); [|by rewrite !file_page_out].
    apply file_page_ext. unfold block. destruct Hok.
    eapply partly_written_slice; [..|exact Hpw]; plia.
  - intros Hr'. rewrite Hr, (only_file_catalog pm pm') by done.
    apply slice_write_same; [lia|]. by rewrite Hl.
Qed.

(** The state after the block of a new page has been written. *)
Lemma pm_ok_grow pm pm1 :
  pm_ok pm -> page_count_ pm < kCatalogBits ->
  page_count_ pm1 = page_count_ pm + 1 -> allocation_bitmap_ pm1 = allocation_bitmap_ pm ->
  allocated_page_count_ pm1 = allocated_page_count_ pm ->
  bytes_of pm1 = write_at (bytes_of pm) ((page_count_ pm + 1) * kPageSize) (raw_header (page_count_ pm) 0) ->
  pm_ok pm1 /\ stored_page pm1 (page_count_ pm) = Some (new_page (page_count_ pm)) /\
  (forall j, j <> page_count_ pm -> stored_page pm1 j = stored_page pm j) /\
  zlen (bytes_of pm1) = Z.max (zlen (bytes_of pm)) ((page_count_ pm + 2) * kPageSize) /\
  slice (bytes_of pm1) 0 kPageSize = slice (bytes_of pm) 0 kPageSize.
Proof.
  intros [] Hlt Hc Hbm Ha Hb.
  assert (zlen (bytes_of pm1) = Z.max (zlen (bytes_of pm)) ((page_count_ pm + 2) * kPageSize)) as Hl.
  { rewrite Hb, write_at_length by plia. rewrite raw_header_length. plia. }
  assert (block (bytes_of pm1) (page_count_ pm) = raw_header (page_count_ pm) 0) as Hbl.
  { unfold block. rewrite Hb. apply slice_write_same; [plia|]. by rewrite raw_header_length. }
  split_and!.
  - split; rewrite ?Hbm, ?Ha; try done; [lia|..].
    + intros i Hi. apply ok_bits0. lia.
    + rewrite Hc, n_alloc_snoc, ok_bits0 by lia. lia.
    + rewrite Hl. plia.
    + rewrite Hb. apply write_at_is_byte; [done|apply raw_header_bytes].
  - rewrite stored_page_intro; rewrite ?Hbl, <- ?raw_page_zero; [|lia|..].
    + apply (f_equal Some), (page_of_raw_page (new_page (page_count_ pm))), new_page_wf.
      unfold is_u64. clia.
    + by apply raw_page_format.
    + apply raw_page_id; [done|]. unfold is_u64. clia.
  - intros j Hj. unfold stored_page. rewrite Hc.
    destruct (decide (0 <= j < page_count_ pm)); [|rewrite !file_page_out; auto; lia].
    unfold file_page. replace (j <? page_count_ pm) with true by lia.
    replace (j <? page_count_ pm + 1) with true by lia.
    replace (block (bytes_of pm1) j) with (block (bytes_of pm) j); [done|].
    unfold block. rewrite Hb. symmetry. apply slice_write_below; plia.
  - done.
  - rewrite Hb. apply slice_write_below; plia.
Qed.

Lemma reserve_page_spec pm :
  pm_ok pm ->
  wp reserve_page pm (fun r pm' =>
    pm_ok pm' /\ allocation_bitmap_ pm' = allocation_bitmap_ pm /\
    allocated_page_count_ pm' = allocated_page_count_ pm /\
    (forall j, j <> page_count_ pm -> stored_page pm' j = stored_page pm j) /\
    match r with
    | Ok id => id = page_count_ pm /\ page_count_ pm' = page_count_ pm + 1 /\
               page_count_ pm < kCatalogBits /\
               stored_page pm' id = Some (new_page id) /\
               zlen (bytes_of pm') = Z.max (zlen (bytes_of pm)) ((page_count_ pm + 2) * kPageSize) /\
               slice (bytes_of pm') 0 kPageSize = catalog_of pm'
    | Throw _ => page_count_ pm' = page_count_ pm /\
                 (page_count_ pm = kCatalogBits -> pm' = pm)
    end /\
    (pm_healthy pm -> pm_healthy pm' /\ (page_count_ pm < kCatalogBits -> r = Ok (page_count_ pm)))).
Proof.
  intros Hok. unfold reserve_page. wp_steps; bprop.
  { split_and!; try done. intros ?. split; [done|]. destruct Hok. lia. }
  rewrite offset_small by (destruct Hok; lia). unfold on_file. wp_steps.
  set (n := page_count_ pm) in *. set (pm1 := set_file _ _).
  assert (0 <= (n + 1) * kPageSize) as Hoff by (destruct Hok; unfold n; plia).
  destruct (seek_write_spec ((n + 1) * kPageSize) (raw_header n 0) (stream_clear (file_ pm)))
    as (H1 & H2 & H3); [done..|]. simpl in H1, H2.
  apply ensure_good_spec; intros Hg.
  - destruct (pm_ok_grow pm pm1) as (Hok1 & Hst & Hoth & Hlen & _); [done|done|done..| |].
    { by apply H2. }
    wp_use commit_catalog_spec; [done|].
    intros [[]|e] pm2 (Hof & Hok2 & Hl2 & Hst2 & Hcat & Hh2); wp_steps.
    + destruct Hof as [Hc Hb Ha]. split_and!; [done|done|done| |done|done|done|..].
      * intros j Hj. rewrite Hst2. by apply Hoth.
      * by rewrite Hst2.
      * by rewrite Hl2.
      * by apply Hcat.
      * intros [Hh _]. apply H3 in Hh as [Hh _]. split; [|done]. by apply Hh2.
    + destruct Hof as [Hc Hb Ha]. simpl in Hc.
      set (pm3 := set_page_count _ _).
      assert (only_file pm pm3) as Hof3 by (split; simpl; unfold n in *; [lia|done|done]).
      split_and!; [|done|done| |apply Hof3|unfold n; lia|].
      * apply (pm_ok_file pm); [done|done|simpl; lia|apply Hok2].
      * intros j Hj. rewrite <- Hoth, <- Hst2 by done. unfold stored_page.
        rewrite (of_count _ _ Hof3), Hc. by rewrite file_page_grow.
      * intros [Hh _]. apply H3 in Hh as [Hh _]. by apply Hh2 in Hh as [? _].
  - wp_steps. set (pm3 := set_page_count _ _).
    assert (only_file pm pm3) as Hof3 by (split; simpl; unfold n in *; [lia|done|done]).
    split_and!; [|done|done| |apply Hof3|unfold n in *; lia|].
    + apply (pm_ok_file pm); [done|done| |].
      * apply partly_written_length in H1; [simpl; lia|done].
      * eapply partly_written_bytes; [..|exact H1]; [apply Hok|apply raw_header_bytes].
    + intros j Hj. unfold stored_page. rewrite (of_count _ _ Hof3).
      destruct (decide (0 <= j < page_count_ pm)); [|by rewrite !file_page_out].
      apply file_page_ext. unfold block. destruct Hok.
      eapply partly_written_slice; [..|exact H1]; unfold n in *; rewrite ?raw_header_length; plia.
    + intros [Hh _]. apply H3 in Hh as [_ Hg']. simpl in Hg. congruence.
Qed.

(** [allocated pm' = allocated pm] except at [id]. *)
Lemma set_bit_allocated pm pm' id :
  pm_ok pm -> 0 <= id < page_count_ pm -> page_count_ pm' = page_count_ pm ->
  allocation_bitmap_ pm' = bitmap_set (allocation_bitmap_ pm) id ->
  forall j, 0 <= j -> is_page_allocated pm' j = if decide (j = id) then true else is_page_allocated pm j.
Proof.
  intros [] Hid Hc Hb j Hj. unfold is_page_allocated. rewrite Hc, Hb, bitmap_test_set by clia.
  destruct (decide (j = id)) as [->|Hne].
  - rewrite decide_True, page_valid by (done || clia). simpl. rewrite andb_true_r. lia.
  - by rewrite decide_False by done.
Qed.

Lemma clear_bit_allocated pm pm' id :
  pm_ok pm -> 0 <= id < page_count_ pm -> page_count_ pm' = page_count_ pm ->
  allocation_bitmap_ pm' = bitmap_clear (allocation_bitmap_ pm) id ->
  forall j, 0 <= j -> is_page_allocated pm' j = if decide (j = id) then false else is_page_allocated pm j.
Proof.
  intros [] Hid Hc Hb j Hj. unfold is_page_allocated. rewrite Hc, Hb, bitmap_test_clear by clia.
  destruct (decide (j = id)) as [->|Hne].
  - rewrite decide_True by done. apply andb_false_r.
  - by rewrite decide_False by done.
Qed.

Lemma byte_lor_bit b k : is_byte b -> 0 <= k < 8 -> is_byte (Z.lor b (Z.shiftl 1 k)).
Proof.
  intros Hb Hk. unfold is_byte in *.
  assert (0 <= Z.lor b (Z.shiftl 1 k)) by (apply Z.lor_nonneg; split; [lia|]; apply Z.shiftl_nonneg; lia).
  split; [done|]. destruct (decide (Z.lor b (Z.shiftl 1 k) = 0)) as [->|]; [lia|].
  change 256 with (2 ^ 8). apply Z.log2_lt_pow2; [lia|].
  rewrite Z.log2_lor by (lia || (apply Z.shiftl_nonneg; lia)).
  apply Z.max_lub_lt.
  - destruct (decide (b = 0)) as [->|]; [done|]. apply Z.log2_lt_pow2; lia.
  - rewrite Z.shiftl_1_l, Z.log2_pow2; lia.
Qed.

Lemma byte_land b m : is_byte b -> is_byte (Z.land b (Z.land m 255)).
Proof.
  intros Hb. rewrite Z.land_assoc. change 255 with (Z.ones 8). rewrite Z.land_ones by lia.
  apply Z.mod_pos_bound. lia.
Qed.

Lemma byte_at_is_byte d i : Forall is_byte d -> is_byte (byte_at d i).
Proof.
  intros Hd. unfold byte_at. destruct (d !! Z.to_nat i) eqn:E; simpl; [|unfold is_byte; lia].
  by eapply Forall_lookup_1 in Hd.
Qed.

Lemma pm_ok_activate pm id :
  pm_ok pm -> 0 <= id < page_count_ pm -> is_page_allocated pm id = false ->
  pm_ok (set_allocated (to_u64 (allocated_page_count_ pm + 1))
          (set_bitmap (bitmap_set (allocation_bitmap_ pm) id) pm)).
Proof.
  intros Hok Hid Ha. pose proof (pm_ok_u64 pm Hok) as [_ Hu]. destruct Hok.
  assert (bitmap_test (allocation_bitmap_ pm) id = false) as Ht.
  { unfold is_page_allocated in Ha. rewrite page_valid in Ha by clia. simpl in Ha.
    by replace (id <? page_count_ pm) with true in Ha by lia. }
  pose proof (n_alloc_range (allocation_bitmap_ pm) (page_count_ pm)).
  split; simpl; [done| | | | |done|done].
  - unfold bitmap_set. by rewrite length_insert.
  - apply Forall_insert; [done|]. apply byte_lor_bit; [by apply byte_at_is_byte|].
    apply Z.mod_pos_bound. lia.
  - intros i Hi. rewrite bitmap_test_set, decide_False by clia. by apply ok_bits0.
  - rewrite n_alloc_set by (done || clia). unfold to_u64. rewrite Z.mod_small; clia.
Qed.

Lemma pm_ok_deallocate pm id :
  pm_ok pm -> 0 <= id < page_count_ pm -> bitmap_test (allocation_bitmap_ pm) id = true ->
  pm_ok (set_allocated (to_u64 (allocated_page_count_ pm - 1))
          (set_bitmap (bitmap_clear (allocation_bitmap_ pm) id) pm)).
Proof.
  intros Hok Hid Ht. pose proof (pm_ok_u64 pm Hok) as [_ Hu]. destruct Hok.
  pose proof (n_alloc_range (bitmap_clear (allocation_bitmap_ pm) id) (page_count_ pm)).
  assert (n_alloc (bitmap_clear (allocation_bitmap_ pm) id) (page_count_ pm) =
          n_alloc (allocation_bitmap_ pm) (page_count_ pm) - 1) as Hn.
  { apply n_alloc_clear; [done|clia|done]. }
  split; simpl; [done| | | | |done|done].
  - unfold bitmap_clear. by rewrite length_insert.
  - apply Forall_insert; [done|]. apply byte_land. by apply byte_at_is_byte.
  - intros i Hi. rewrite bitmap_test_clear, decide_False by clia. by apply ok_bits0.
  - rewrite Hn, ok_allocated0. unfold to_u64. apply Z.mod_small. clia.
Qed.

Lemma activate_spec pm id :
  pm_ok pm -> 0 <= id ->
  wp (activate_reserved_page id) pm (fun r pm' =>
    pm_ok pm' /\ page_count_ pm' = page_count_ pm /\ zlen (bytes_of pm') = zlen (bytes_of pm) /\
    (forall j, stored_page pm' j = stored_page pm j) /\
    (r = Ok tt -> id < page_count_ pm /\ is_page_allocated pm id = false /\
       slice (bytes_of pm') 0 kPageSize = catalog_of pm' /\
       forall j, 0 <= j -> is_page_allocated pm' j = if decide (j = id) then true else is_page_allocated pm j) /\
    (page_count_ pm <= id \/ is_page_allocated pm id = true -> pm' = pm /\ exists e, r = Throw (StorageError e)) /\
    (pm_healthy pm -> pm_healthy pm' /\
       (id < page_count_ pm -> is_page_allocated pm id = false -> r = Ok tt))).
Proof.
  intros Hok Hid. unfold activate_reserved_page. apply wp_validated_phys; [done|done| |].
  2:{ intros e Hge. split_and!; [done..|eauto|]. intros ?. split; [done|lia]. }
  intros Hlt. wp_steps.
  { split_and!; [done..|eauto|]. intros ?. split; [done|congruence]. }
  wp_use commit_catalog_spec; [exact (pm_ok_activate pm id Hok (conj Hid Hlt) H)|].
  intros r pm' ([Hc Hb Ha] & Hok' & Hl & Hst & Hcat & Hh). simpl in *.
  split_and!; [done|done|done| | | |].
  - intros j. rewrite Hst. done.
  - intros Hr. split_and!; [done|done|by apply Hcat|]. by apply set_bit_allocated.
  - intros [?|?]; [lia|congruence].
  - intros [Hh0 _]. split; [by apply Hh|]. intros _ _. by apply Hh.
Qed.

(** The bit is set also when the catalog cannot be written afterwards. *)
Lemma activate_allocated pm id :
  pm_ok pm -> 0 <= id < page_count_ pm -> is_page_allocated pm id = false ->
  wp (activate_reserved_page id) pm (fun _ pm' =>
    forall j, 0 <= j -> is_page_allocated pm' j = if decide (j = id) then true else is_page_allocated pm j).
Proof.
  intros Hok [Hid Hlt] Hf. unfold activate_reserved_page. apply wp_validated_phys; [done|done| |lia].
  intros _. wp_steps; [congruence|].
  wp_use commit_catalog_spec; [exact (pm_ok_activate pm id Hok (conj Hid Hlt) Hf)|].
  intros r pm' ([Hc Hb Ha] & _). by apply set_bit_allocated.
Qed.

Lemma deallocate_spec pm id :
  pm_ok pm -> is_u64 id ->
  wp (deallocate_page id) pm (fun r pm' =>
    pm_ok pm' /\ page_count_ pm' = page_count_ pm /\ zlen (bytes_of pm') = zlen (bytes_of pm) /\
    (forall j, stored_page pm' j = stored_page pm j) /\
    (r = Ok tt -> is_page_allocated pm id = true /\
       slice (bytes_of pm') 0 kPageSize = catalog_of pm' /\
       forall j, 0 <= j -> is_page_allocated pm' j = if decide (j = id) then false else is_page_allocated pm j) /\
    (is_page_allocated pm id = false -> pm' = pm /\ exists e, r = Throw (StorageError e)) /\
    (pm_healthy pm -> pm_healthy pm' /\ (is_page_allocated pm id = true -> r = Ok tt))).
Proof.
  intros Hok Hu. unfold deallocate_page. apply wp_validated; [done|done| |].
  2:{ intros e Ha. split_and!; [done..|eauto|]. intros ?. split; [done|congruence]. }
  intros Ha. destruct (allocated_range pm id) as [Hr Ht]; [done..|]. wp_steps.
  wp_use commit_catalog_spec; [exact (pm_ok_deallocate pm id Hok Hr Ht)|].
  intros r pm' ([Hc Hb Hal] & Hok' & Hl & Hst & Hcat & Hh). simpl in *.
  split_and!; [done|done|done| | |congruence|].
  - intros j. rewrite Hst. done.
  - intros Hr'. split_and!; [done|by apply Hcat|]. by apply clear_bit_allocated.
  - intros [Hh0 _]. split; [by apply Hh|]. intros _. by apply Hh.
Qed.

Lemma reserved_unallocated pm pm' :
  pm_ok pm -> page_count_ pm < kCatalogBits -> page_count_ pm' = page_count_ pm + 1 ->
  allocation_bitmap_ pm' = allocation_bitmap_ pm ->
  forall j, 0 <= j -> is_page_allocated pm' j = is_page_allocated pm j.
Proof.
  intros [] Hlt Hc Hb j Hj. unfold is_page_allocated. rewrite Hc, Hb.
  destruct (decide (j = page_count_ pm)) as [->|].
  - rewrite ok_bits0 by lia. by rewrite !andb_false_r.
  - by replace (j <? page_count_ pm + 1) with (j <? page_count_ pm) by lia.
Qed.

Lemma allocate_page_spec pm :
  pm_ok pm ->
  wp allocate_page pm (fun r pm' =>
    pm_ok pm' /\ (forall j, j <> page_count_ pm -> stored_page pm' j = stored_page pm j) /\
    (forall id, r = Ok id -> id = page_count_ pm /\ page_count_ pm' = page_count_ pm + 1 /\
       stored_page pm' id = Some (new_page id) /\
       slice (bytes_of pm') 0 kPageSize = catalog_of pm' /\
       zlen (bytes_of pm') = Z.max (zlen (bytes_of pm)) ((page_count_ pm + 2) * kPageSize) /\
       forall j, 0 <= j -> is_page_allocated pm' j = if decide (j = id) then true else is_page_allocated pm j) /\
    (page_count_ pm = kCatalogBits -> pm' = pm /\ exists e, r = Throw e) /\
    (pm_healthy pm -> pm_healthy pm' /\ (page_count_ pm < kCatalogBits -> r = Ok (page_count_ pm)))).
Proof.
  intros Hok. unfold allocate_page. wp_step. wp_use reserve_page_spec; [done|].
  intros [id|e] pm1 (Hok1 & Hb1 & Ha1 & Hoth & Hr & Hh1).
  2:{ split_and!; [done|done|done|naive_solver|]. intros Hh. apply Hh1 in Hh as [? Hr']. split; [done|].
      intros Hlt. by apply Hr' in Hlt. }
  destruct Hr as (-> & Hc & Hlt & Hst & Hl & Hcat).
  assert (is_page_allocated pm1 (page_count_ pm) = false) as Hna.
  { rewrite (reserved_unallocated pm) by (done || (destruct Hok; lia)).
    unfold is_page_allocated. replace (_ <? _) with false by lia. by rewrite andb_false_r. }
  wp_step. wp_use activate_spec; [done|destruct Hok; lia|].
  intros r pm2 (Hok2 & Hc2 & Hl2 & Hst2 & Hr2 & _ & Hh2).
  assert (forall j, j <> page_count_ pm -> stored_page pm2 j = stored_page pm j) as Hoth2.
  { intros j Hj. by rewrite Hst2, Hoth. }
  assert (pm_healthy pm -> pm_healthy pm2 /\ r = Ok tt) as Hh.
  { intros Hh. apply Hh1 in Hh as [Hh _]. apply Hh2 in Hh as [Hh Hr]. split; [done|].
    apply Hr; [lia|done]. }
  destruct r as [[]|e]; [wp_step|]; (split_and!; [done|done| |lia|]).
  - intros id [= <-]. destruct Hr2 as (_ & _ & Hcat2 & Hal); [done|].
    split_and!; [done|lia|by rewrite Hst2|done|by rewrite Hl2|].
    intros j Hj. rewrite Hal by done. case_decide; [done|]. by apply reserved_unallocated.
  - intros Hh'. split; [by apply Hh|done].
  - done.
  - intros Hh'. by apply Hh in Hh' as [_ ?].
Qed.

(** ** The page manager keeps its file and its catalog in step *)

Lemma synced_grow pm pm' :
  pm_synced pm -> pm_ok pm' -> page_count_ pm' = page_count_ pm + 1 ->
  (forall j, j <> page_count_ pm -> stored_page pm' j = stored_page pm j) ->
  stored_page pm' (page_count_ pm) = Some (new_page (page_count_ pm)) ->
  zlen (bytes_of pm') = Z.max (zlen (bytes_of pm)) ((page_count_ pm + 2) * kPageSize) ->
  slice (bytes_of pm') 0 kPageSize = catalog_of pm' ->
  pm_synced pm'.
Proof.
  intros [Hok Hl _ Hp] Hok' Hc Hoth Hnew Hl' Hcat. split; [done|rewrite Hc; plia|done|].
  intros id Hid. destruct (decide (id = page_count_ pm)) as [->|].
  - rewrite Hnew. eauto.
  - rewrite Hoth by done. apply Hp. lia.
Qed.

Lemma synced_same pm pm' :
  pm_synced pm -> pm_ok pm' -> page_count_ pm' = page_count_ pm ->
  zlen (bytes_of pm') = zlen (bytes_of pm) ->
  (forall j, stored_page pm' j = stored_page pm j) ->
  slice (bytes_of pm') 0 kPageSize = catalog_of pm' ->
  pm_synced pm'.
Proof.
  intros [Hok Hl _ Hp] Hok' Hc Hl' Hst Hcat. split; [done|rewrite Hc; lia|done|].
  intros id Hid. rewrite Hst. apply Hp. lia.
Qed.

(** The operations clients can call, in any order and with any arguments. *)
Inductive op : Type :=
  | OpAllocate
  | OpReserve
  | OpActivate (id : PageId)
  | OpDeallocate (id : PageId)
  | OpMaterialize (id : PageId)
  | OpValidate (id : PageId)
  | OpRead (id : PageId)
  | OpWrite (id : PageId) (page : Page)
  | OpFlush.

Definition discard {S A} (m : M S A) : M S unit := m ;; ret tt.

Definition run_op (o : op) : M t unit :=
  match o with
  | OpAllocate => discard allocate_page
  | OpReserve => discard reserve_page
  | OpActivate id => activate_reserved_page id
  | OpDeallocate id => deallocate_page id
  | OpMaterialize id => materialize_page_for_recovery id
  | OpValidate id => validate_physical_page_for_recovery id
  | OpRead id => discard (read_page id)
  | OpWrite id page => write_page id page
  | OpFlush => flush
  end.

Definition op_wf (o : op) : Prop :=
  match o with
  | OpActivate id | OpDeallocate id | OpMaterialize id | OpValidate id | OpRead id => is_u64 id
  | OpWrite id page => is_u64 id /\ page_wf page
  | _ => True
  end.

(** Runs a sequence of calls, each of which may throw into the client. *)
Definition run_ops (ops : list op) (pm : t) : t := fold_left (fun pm o => (run_op o pm).2) ops pm.

Lemma wp_discard {A} (m : M t A) pm Q :
  wp m pm (fun r pm' => Q (match r with Ok _ => Ok tt | Throw e => Throw e end) pm') ->
  wp (discard m) pm Q.
Proof. intros H. unfold discard. apply wp_bind. eapply wp_mono; [exact H|]. intros [] ? ?; by try wp_step. Qed.

Definition keeps (pm pm' : t) : Prop :=
  pm_ok pm' /\ (pm_healthy pm -> pm_healthy pm' /\ (pm_synced pm -> pm_synced pm')).

Lemma keeps_same_bytes pm pm' :
  pm_ok pm -> only_file pm pm' -> bytes_of pm' = bytes_of pm -> (pm_healthy pm -> pm_healthy pm') ->
  keeps pm pm'.
Proof.
  intros Hok Hof Hb Hh. assert (pm_ok pm') as Hok' by by apply (pm_ok_same_bytes pm).
  split; [done|]. intros Hp. split; [auto|]. intros Hs. apply (synced_same pm); [done|done|apply Hof|by rewrite Hb|..].
  - intros j. by rewrite (only_file_stored pm pm').
  - rewrite Hb, (only_file_catalog pm pm') by done. apply Hs.
Qed.

Lemma keeps_refl pm : pm_ok pm -> keeps pm pm.
Proof. intros. by split. Qed.

Lemma reserve_keeps pm : pm_ok pm -> wp reserve_page pm (fun _ pm' => keeps pm pm').
Proof.
  intros Hok. wp_use reserve_page_spec; [done|].
  intros r pm' (Hok' & Hb & Ha & Hoth & Hr & Hh). split; [done|].
  intros Hp. destruct (Hh Hp) as [Hp' Hr']. split; [done|]. intros Hs.
  destruct r as [id|e].
  - destruct Hr as (-> & Hc & Hlt & Hst & Hl & Hcat). by apply (synced_grow pm).
  - destruct Hr as [Hc Heq]. rewrite Heq; [done|].
    destruct (decide (page_count_ pm < kCatalogBits)) as [Hlt|]; [by apply Hr' in Hlt|].
    destruct Hok. lia.
Qed.

Lemma materialize_keeps pm id :
  pm_ok pm -> wp (materialize_page_for_recovery id) pm (fun _ pm' => keeps pm pm').
Proof.
  intros Hok. unfold materialize_page_for_recovery. wp_steps; try by apply keeps_refl.
  wp_use reserve_keeps; [done|]. intros [] pm' Hk; wp_steps; done.
Qed.

Lemma validate_physical_keeps pm id :
  pm_ok pm -> is_u64 id ->
  wp (validate_physical_page_for_recovery id) pm (fun _ pm' => keeps pm pm').
Proof.
  intros Hok Hu. unfold validate_physical_page_for_recovery. unfold is_u64 in Hu.
  apply wp_validated_phys; [done|lia| |]; [|intros; by apply keeps_refl].
  intros Hlt. wp_step. wp_use read_block_spec; [done|lia|].
  intros r pm' (Hof & Hb & _ & Hh).
  assert (keeps pm pm') by (apply keeps_same_bytes; try done; intros [? _]; by apply Hh).
  destruct r; [wp_steps|]; done.
Qed.

(** The file may have got new, empty pages; no stored page has changed. *)
Definition extends (pm pm' : t) : Prop :=
  pm_ok pm' /\
  forall j, stored_page pm' j = stored_page pm j \/ stored_page pm j = None /\ stored_page pm' j = Some (new_page j).

Lemma extends_same pm pm' : pm_ok pm' -> (forall j, stored_page pm' j = stored_page pm j) -> extends pm pm'.
Proof. intros Hok Hs. split; [exact Hok|]. intros j. left. apply Hs. Qed.

Lemma extends_trans p1 p2 p3 : extends p1 p2 -> extends p2 p3 -> extends p1 p3.
Proof.
  intros [_ H1] [Hok H2]. split; [exact Hok|]. intros j.
  destruct (H1 j) as [E1|[E1 E1']], (H2 j) as [E2|[E2 E2']].
  - left. etrans; [exact E2|exact E1].
  - right. rewrite E1 in E2. exact (conj E2 E2').
  - right. rewrite E1' in E2. exact (conj E1 E2).
  - rewrite E1' in E2. discriminate E2.
Qed.

Lemma extends_some pm pm' j pg : extends pm pm' -> stored_page pm j = Some pg -> stored_page pm' j = Some pg.
Proof. intros [_ H] E. destruct (H j) as [->|[E' _]]; [exact E|]. rewrite E' in E. discriminate E. Qed.

Lemma reserve_extends pm :
  pm_ok pm -> wp reserve_page pm (fun _ pm' => extends pm pm' /\ (pm_healthy pm -> pm_healthy pm') /\
    forall j, 0 <= j -> is_page_allocated pm' j = is_page_allocated pm j).
Proof.
  intros Hok. wp_use reserve_page_spec; [done|]. intros r pm' (Hok' & Hbm & _ & Hst & Hr & Hh).
  assert (pm_healthy pm -> pm_healthy pm') by (intros; by apply Hh).
  assert (stored_page pm (page_count_ pm) = None) as Hnone.
  { destruct (stored_page pm (page_count_ pm)) eqn:E; [|done].
    destruct (stored_page_range pm (page_count_ pm)); [by rewrite E|lia]. }
  destruct r as [id|e].
  - destruct Hr as (-> & Hc & Hlt & Hnew & _). split; [|split; [done|by apply reserved_unallocated]]. split; [done|].
    intros j. destruct (decide (j = page_count_ pm)) as [->|]; auto.
  - destruct Hr as [Hc _]. split_and!; [|done|].
    + apply extends_same; [done|]. intros j. destruct (decide (j = page_count_ pm)) as [->|]; [|by apply Hst].
      rewrite Hnone. destruct (stored_page pm' (page_count_ pm)) eqn:E; [|done].
      destruct (stored_page_range pm' (page_count_ pm)); [by rewrite E|lia].
    + intros j _. unfold is_page_allocated. by rewrite Hc, Hbm.
Qed.

Lemma materialize_extends pm id :
  pm_ok pm -> wp (materialize_page_for_recovery id) pm (fun _ pm' => extends pm pm' /\ (pm_healthy pm -> pm_healthy pm') /\
    forall j, 0 <= j -> is_page_allocated pm' j = is_page_allocated pm j).
Proof.
  intros Hok. assert (extends pm pm) by by apply extends_same.
  unfold materialize_page_for_recovery. wp_steps; try done.
  wp_use reserve_extends; [done|]. intros [] pm' Hk; wp_steps; done.
Qed.

Lemma validate_physical_same pm id :
  pm_ok pm -> is_u64 id ->
  wp (validate_physical_page_for_recovery id) pm (fun r pm' =>
    pm_ok pm' /\ stored_page pm' = stored_page pm /\ is_page_allocated pm' = is_page_allocated pm /\
    page_count_ pm' = page_count_ pm /\ (r = Ok tt -> is_Some (stored_page pm id)) /\
    (pm_healthy pm -> pm_healthy pm' /\ (is_Some (stored_page pm id) -> r = Ok tt))).
Proof.
  intros Hok Hu. unfold validate_physical_page_for_recovery. unfold is_u64 in Hu.
  apply wp_validated_phys; [done|lia| |].
  2:{ intros e Hge. split_and!; try reflexivity; [exact Hok|discriminate|]. intros ?. split; [done|]. intros Hs%stored_page_range. lia. }
  intros Hlt. wp_step. wp_use read_block_spec; [done|lia|]. intros r pm' (Hof & Hb & Hraw & Hh).
  assert (pm_ok pm' /\ stored_page pm' = stored_page pm /\ is_page_allocated pm' = is_page_allocated pm /\
          page_count_ pm' = page_count_ pm) as (H1 & H2 & H3 & H4).
  { split_and!; [by apply (pm_ok_same_bytes pm)|by apply only_file_stored|by apply only_file_allocated|apply Hof]. }
  assert (pm_healthy pm -> pm_healthy pm') as H5 by (intros [Hp _]; exact (proj2 (Hh Hp))).
  destruct r as [raw|e].
  2:{ split_and!; [exact H1|exact H2|exact H3|exact H4|discriminate|]. intros Hp. split; [exact (H5 Hp)|].
      destruct (Hh (proj1 Hp)) as [Hx _]. discriminate Hx. }
  rewrite (Hraw raw eq_refl). wp_step; bprop.
  - split_and!; [exact H1|exact H2|exact H3|exact H4|discriminate|]. intros Hp. split; [exact (H5 Hp)|].
    intros [pg Hpg]. exfalso. unfold stored_page, file_page in Hpg. case_match eqn:Hc; [|discriminate Hpg]. bprop.
    apply orb_true_iff in H as [?|?]; bprop; congruence.
  - split_and!; [exact H1|exact H2|exact H3|exact H4| |].
    + intros _. eexists. apply stored_page_intro; [lia|done|done].
    + intros Hp. split; [exact (H5 Hp)|reflexivity].
Qed.

Lemma run_op_keeps o pm : pm_ok pm -> op_wf o -> wp (run_op o) pm (fun _ pm' => keeps pm pm').
Proof.
  intros Hok Hwf. destruct o as [| |id|id|id|id|id|id page|]; simpl in *.
  - apply wp_discard. wp_use allocate_page_spec; [done|].
    intros r pm' (Hok' & Hoth & Hr & Hfull & Hh). split; [done|]. intros Hp. destruct (Hh Hp) as [Hp' Hr'].
    split; [done|]. intros Hs. destruct (decide (page_count_ pm < kCatalogBits)) as [Hlt|Hge].
    + destruct (Hr (page_count_ pm)) as (_ & Hc & Hst & Hcat & Hl & _); [by apply Hr'|].
      by apply (synced_grow pm).
    + destruct Hfull as [-> _]; [|done]. destruct Hok; lia.
  - apply wp_discard. eapply wp_mono; [by apply reserve_keeps|]. done.
  - wp_use activate_spec; [done|unfold is_u64 in Hwf; lia|].
    intros r pm' (Hok' & Hc & Hl & Hst & Hr & Hthrow & Hh). split; [done|].
    intros Hp. destruct (Hh Hp) as [Hp' Hr']. split; [done|]. intros Hs.
    destruct (decide (id < page_count_ pm /\ is_page_allocated pm id = false)) as [[Hlt Hna]|Hn].
    + apply (synced_same pm); try done. by apply Hr, Hr'.
    + destruct Hthrow as [-> _]; [|done]. destruct (is_page_allocated pm id); [by right|left].
      destruct (decide (id < page_count_ pm)); [naive_solver|lia].
  - wp_use deallocate_spec; [done|done|].
    intros r pm' (Hok' & Hc & Hl & Hst & Hr & Hthrow & Hh). split; [done|].
    intros Hp. destruct (Hh Hp) as [Hp' Hr']. split; [done|]. intros Hs.
    destruct (is_page_allocated pm id) eqn:Ha.
    + apply (synced_same pm); try done. by apply Hr, Hr'.
    + by destruct Hthrow as [-> _].
  - by apply materialize_keeps.
  - by apply validate_physical_keeps.
  - apply wp_discard. wp_use read_page_spec; [done|done|]. intros r pm' (Hof & Hb & _ & Hh).
    apply keeps_same_bytes; try done. by intros ?; apply Hh.
  - destruct Hwf as [Hu Hpg]. wp_use write_page_spec; [done|done|done|].
    intros r pm' (Hof & Hok' & Hl & Hcat & Hoth & Hr & Hthrow & Hh). split; [done|].
    intros Hp. destruct (Hh Hp) as [Hp' Hr']. split; [done|]. intros Hs.
    destruct (decide (is_page_allocated pm id = true /\ page_id page = id)) as [[Ha Hid]|Hn].
    + destruct Hs as [_ Hlen Hc Hpages].
      split; [done|by rewrite (of_count _ _ Hof); lia| |].
      * rewrite Hcat, Hc. symmetry. by apply only_file_catalog.
      * intros j Hj. rewrite (of_count _ _ Hof) in Hj.
        destruct (decide (j = id)) as [->|]; [|rewrite Hoth by done; auto].
        destruct Hr as (_ & _ & ->); [by apply Hr'|eauto].
    + destruct Hthrow as [-> _]; [|done]. destruct (is_page_allocated pm id); naive_solver.
  - wp_use flush_spec. intros r pm' (Hof & Hb & Hh). apply keeps_same_bytes; try done.
    by intros ?; apply Hh.
Qed.

Lemma run_ops_keeps ops pm : pm_ok pm -> Forall op_wf ops -> keeps pm (run_ops ops pm).
Proof.
  intros Hok Hwf. revert pm Hok. induction Hwf as [|o ops Ho _ IH]; intros pm Hok; simpl.
  - by apply keeps_refl.
  - pose proof (run_op_keeps o pm Hok Ho) as [Hok1 H1]. destruct (IH _ Hok1) as [Hok2 H2].
    split; [done|]. intros Hp. destruct (H1 Hp) as [Hp1 Hs1]. destruct (H2 Hp1) as [Hp2 Hs2]. auto.
Qed.

(** ** Opening *)

Definition env_ok : open_env := mkOpenEnv true true true true.

Lemma zeros_bitmap_clear n i : bitmap_test (zeros n) i = false.
Proof.
  rewrite bitmap_test_spec. unfold byte_at.
  replace (default 0 (zeros n !! Z.to_nat (i / 8))) with 0; [apply Z.bits_0|].
  destruct (zeros n !! Z.to_nat (i / 8)) eqn:E; simpl; [|done].
  Transparent zeros. unfold zeros in E. Opaque zeros.
  by apply lookup_replicate in E as [-> _].
Qed.

(** Creating a database gives an empty, synchronised page manager. *)
Lemma open_new :
  exists pm, open env_ok None [] = Ok pm /\ pm_synced pm /\ pm_healthy pm /\ page_count_ pm = 0.
Proof.
  set (pm0 := mk (open_stream [] []) 0 (zeros (kPageSize - kCatalogHeader)) 0).
  assert (zlen (zeros (kPageSize - kCatalogHeader)) = kPageSize - kCatalogHeader) as Hz
    by (rewrite zeros_length; clia).
  pose proof (write_catalog_spec pm0) as (Hof & _ & Hr & Hh).
  change (open env_ok None []) with
    (match (write_allocation_catalog ;; on_file stream_flush) pm0 with
     | (Ok _, pm) => Ok pm | (Throw e, _) => Throw e end).
  unfold bind. destruct (write_allocation_catalog pm0) as [r pm1]. simpl in *.
  destruct Hh as [-> Hh]; [done|]. specialize (Hr eq_refl).
  assert (catalog_of pm1 = catalog_of pm0) as Hcat by by apply only_file_catalog.
  destruct Hof as [Hc Hb Ha]. simpl in *.
  assert (zlen (catalog_of pm0) = kPageSize) as Hlc by by apply raw_catalog_length.
  assert (bytes_of pm1 = catalog_of pm0) as Hby.
  { rewrite Hr. apply write_at_nil. }
  exists (set_file (stream_flush (file_ pm1)) pm1). split_and!.
  - done.
  - split; simpl; rewrite ?stream_flush_bytes, ?Hby.
    + split; simpl; rewrite ?stream_flush_bytes, ?Hby, ?Hc, ?Hb, ?Ha.
      * clia.
      * done.
      * apply zeros_is_byte.
      * intros i _. apply zeros_bitmap_clear.
      * done.
      * rewrite Hlc. plia.
      * apply raw_catalog_bytes; [done|apply zeros_is_byte].
    + rewrite Hlc, Hc. plia.
    + rewrite slice_full by lia. unfold catalog_of in *. simpl in *. congruence.
    + rewrite Hc. lia.
  - destruct Hh as [Hh Hg]. split; simpl; by rewrite healthy_flush.
  - done.
Qed.

(** Opening the file of a synchronised page manager recovers its catalog. *)
Lemma open_synced pm :
  pm_synced pm ->
  exists pm', open env_ok (Some (bytes_of pm)) [] = Ok pm' /\
    only_file pm pm' /\ bytes_of pm' = bytes_of pm /\ pm_healthy pm'.
Proof.
  intros [Hok Hl Hcat Hp]. pose proof (pm_ok_u64 pm Hok) as [Hun Hua].
  assert (zlen (bytes_of pm) mod kPageSize = 0) as Hal.
  { rewrite Hl. by apply Z.mod_mul. }
  assert (zlen (bytes_of pm) / kPageSize - 1 = page_count_ pm) as Hc.
  { rewrite Hl, Z.div_mul by done. lia. }
  pose proof (ok_count pm Hok) as Hrange. pose proof (ok_bitmap pm Hok) as Hbm.
  unfold open. simpl. rewrite Hal, Hc. simpl.
  replace (zlen (bytes_of pm) =? 0) with false by (rewrite Hl; symmetry; apply Z.eqb_neq; plia).
  unfold stream_seek, stream_read, next_fault, pop_fault. simpl.
  rewrite Hcat. fold (catalog_of pm).
  assert (zlen (catalog_of pm) = kPageSize) as Hlc by by apply raw_catalog_length.
  rewrite Hlc, Z.eqb_refl. unfold catalog_of.
  rewrite raw_catalog_magic, raw_catalog_version, raw_catalog_pages, raw_catalog_allocated,
    raw_catalog_bitmap by done.
  rewrite bool_decide_true, !Z.eqb_refl by done. simpl.
  replace (kCatalogBits <? page_count_ pm) with false by lia.
  rewrite count_allocated_spec by done. simpl. rewrite <- (ok_allocated pm Hok), Z.eqb_refl. simpl.
  eexists. split; [done|]. split; [by split|]. done.
Qed.

(** ** Properties *)

(** C22: Whatever the file system does (any write, read, seek or flush may fail, leaving a
    prefix of its bytes behind) and whatever the clients call, also after exceptions, the page
    manager stays consistent: page count within the catalog's capacity, the bitmap of the
    catalog's size with no bit set beyond the last page, the allocated-page counter equal to
    the number of set bits, and a file that covers every page it claims. *)
Theorem ops_keep_consistency pm ops : pm_ok pm -> Forall op_wf ops -> pm_ok (run_ops ops pm).
Proof. intros Hok Hwf. exact (proj1 (run_ops_keeps ops pm Hok Hwf)). Qed.

(** C21: Closing and reopening a database after any sequence of operations (none of which the
    file system failed) succeeds and gives back the same page count, the same allocation
    bitmap and counter, and the same content for every page. *)
Theorem reopen_after_ops pm0 ops pm :
  open env_ok None [] = Ok pm0 -> Forall op_wf ops -> run_ops ops pm0 = pm ->
  exists pm', open env_ok (Some (bytes_of pm)) [] = Ok pm' /\
    page_count_ pm' = page_count_ pm /\ allocation_bitmap_ pm' = allocation_bitmap_ pm /\
    allocated_page_count_ pm' = allocated_page_count_ pm /\
    (forall id, stored_page pm' id = stored_page pm id) /\
    (forall id, is_page_allocated pm' id = is_page_allocated pm id).
Proof.
  intros Ho Hwf <-. destruct open_new as (pm1 & Ho1 & Hs & Hh & _).
  rewrite Ho in Ho1. injection Ho1 as <-.
  destruct (run_ops_keeps ops pm0) as [_ Hk]; [apply Hs|done|].
  destruct (Hk Hh) as [_ Hs']. destruct (open_synced _ (Hs' Hs)) as (pm' & Ho' & Hof & Hb & _).
  exists pm'. split; [done|]. destruct Hof as [H1 H2 H3]. split_and!; [done..| |].
  - intros id. unfold stored_page. by rewrite Hb, H1.
  - intros id. unfold is_page_allocated. by rewrite H1, H2.
Qed.

(** A page write that returns is read back: every later read of the page that returns
    delivers exactly the page written (identifier, PageLSN and payload), and it does return
    when the file system does not fail it; no other page changed. *)
Theorem write_read_roundtrip pm id pg pm' :
  pm_ok pm -> is_u64 id -> page_wf pg -> write_page id pg pm = (Ok tt, pm') ->
  (forall r pm'', read_page id pm' = (r, pm'') ->
     (forall pg', r = Ok pg' -> pg' = pg) /\ (pm_healthy pm -> r = Ok pg)) /\
  (forall j, j <> id -> stored_page pm' j = stored_page pm j) /\
  (forall j, is_page_allocated pm' j = is_page_allocated pm j).
Proof.
  intros Hok Hu Hpg Hw.
  pose proof (wp_elim _ _ _ _ _ (write_page_spec pm id pg Hok Hu Hpg) Hw)
    as (Hof & Hok' & _ & _ & Hoth & Hr & _ & Hh).
  destruct Hr as (Hid & Ha & Hst); [done|].
  pose proof (only_file_allocated pm pm' Hof) as Hal.
  split_and!; [|done|by rewrite Hal].
  intros r pm'' Hread.
  pose proof (wp_elim _ _ _ _ _ (read_page_spec pm' id Hok' Hu) Hread) as (_ & _ & Hrd & Hrh).
  split.
  - intros pg' Hr'. destruct (Hrd pg' Hr') as [Hst' _]. congruence.
  - intros Hp. destruct (Hh Hp) as [Hp' _]. destruct (Hrh Hp') as [_ H]. apply H; [by rewrite Hal|done].
Qed.

Lemma run_op_monotone o pm : pm_ok pm -> op_wf o -> page_count_ pm <= page_count_ (run_op o pm).2.
Proof.
  intros Hok Hwf. change (wp (run_op o) pm (fun _ pm' => page_count_ pm <= page_count_ pm')).
  destruct o as [| |id|id|id|id|id|id page|]; simpl in *.
  - apply wp_discard. unfold allocate_page. wp_step. wp_use reserve_page_spec; [done|].
    intros [id|e] pm1 (Hok1 & _ & _ & _ & Hr & _); [|lia]. destruct Hr as (-> & Hc & _).
    wp_step. wp_use activate_spec; [done|destruct Hok; lia|].
    intros [] pm2 (_ & Hc2 & _); [wp_step|]; lia.
  - apply wp_discard. wp_use reserve_page_spec; [done|]. intros [] pm' (_ & _ & _ & _ & Hr & _); lia.
  - wp_use activate_spec; [done|unfold is_u64 in Hwf; lia|]. intros r pm' (_ & Hc & _). lia.
  - wp_use deallocate_spec; [done|done|]. intros r pm' (_ & Hc & _). lia.
  - unfold materialize_page_for_recovery. wp_steps; try lia. wp_use reserve_page_spec; [done|].
    intros [] pm' (_ & _ & _ & _ & Hr & _); wp_steps; lia.
  - unfold validate_physical_page_for_recovery. unfold is_u64 in Hwf.
    apply wp_validated_phys; [done|lia| |intros; lia]. intros Hlt. wp_step.
    wp_use read_block_spec; [done|lia|]. intros r pm' ([Hc _ _] & _). destruct r; wp_steps; lia.
  - apply wp_discard. wp_use read_page_spec; [done|done|]. intros r pm' ([Hc _ _] & _). lia.
  - destruct Hwf. wp_use write_page_spec; [done..|]. intros r pm' ([Hc _ _] & _). lia.
  - wp_use flush_spec. intros r pm' ([Hc _ _] & _). lia.
Qed.

Lemma run_ops_monotone ops pm :
  pm_ok pm -> Forall op_wf ops -> page_count_ pm <= page_count_ (run_ops ops pm).
Proof.
  intros Hok Hwf. revert pm Hok. induction Hwf as [|o ops Ho _ IH]; intros pm Hok; simpl; [lia|].
  pose proof (run_op_monotone o pm Hok Ho). pose proof (run_op_keeps o pm Hok Ho) as [Hok1 _].
  specialize (IH _ Hok1). lia.
Qed.

(** Page identifiers are never reused: an allocation returns the next physical position,
    a zeroed page with PageLSN 0 that was not reachable before, and after any further
    operations (deallocation of that page included) no allocation returns it again. *)
Theorem allocate_page_fresh pm id pm1 ops id' pm2 :
  pm_ok pm -> allocate_page pm = (Ok id, pm1) ->
  Forall op_wf ops -> allocate_page (run_ops ops pm1) = (Ok id', pm2) ->
  id = page_count_ pm /\ is_page_allocated pm id = false /\ is_page_allocated pm1 id = true /\
  stored_page pm1 id = Some (new_page id) /\ id < id'.
Proof.
  intros Hok Ha Hwf Ha'.
  pose proof (wp_elim _ _ _ _ _ (allocate_page_spec pm Hok) Ha) as (Hok1 & _ & Hr & _ & _).
  destruct (Hr id eq_refl) as (-> & Hc & Hst & _ & _ & Hal).
  pose proof (run_ops_keeps ops pm1 Hok1 Hwf) as [Hok2 _].
  pose proof (run_ops_monotone ops pm1 Hok1 Hwf).
  pose proof (wp_elim _ _ _ _ _ (allocate_page_spec _ Hok2) Ha') as (_ & _ & Hr' & _ & _).
  destruct (Hr' id' eq_refl) as (-> & _).
  pose proof (ok_count pm Hok). split_and!; [done| | |done|lia].
  - unfold is_page_allocated. replace (_ <? _) with false by lia. by rewrite andb_false_r.
  - rewrite Hal by lia. by rewrite decide_True.
Qed.

(** A reservation that throws (capacity exhausted, or the page or catalog write failed,
    possibly after a prefix) leaves page count, bitmap and counter as they were, and no page
    below the count has changed. *)
Theorem reserve_page_failure pm e pm' :
  pm_ok pm -> reserve_page pm = (Throw e, pm') ->
  page_count_ pm' = page_count_ pm /\ allocation_bitmap_ pm' = allocation_bitmap_ pm /\
  allocated_page_count_ pm' = allocated_page_count_ pm /\ pm_ok pm' /\
  forall j, j < page_count_ pm -> stored_page pm' j = stored_page pm j.
Proof.
  intros Hok H. pose proof (wp_elim _ _ _ _ _ (reserve_page_spec pm Hok) H)
    as (Hok' & Hb & Ha & Hoth & [Hc _] & _).
  split_and!; [done..|]. intros j Hj. apply Hoth. lia.
Qed.

(** Deallocation hides a page at once and only that page: reads and writes of it throw a
    [StorageError] and change nothing, while its bytes stay in the file and every other page
    keeps its allocation state. *)
Theorem deallocate_page_hides pm id pm' pg :
  pm_ok pm -> is_u64 id -> deallocate_page id pm = (Ok tt, pm') ->
  (exists e, read_page id pm' = (Throw (StorageError e), pm')) /\
  (exists e, write_page id pg pm' = (Throw (StorageError e), pm')) /\
  stored_page pm' id = stored_page pm id /\
  (forall j, 0 <= j -> j <> id -> is_page_allocated pm' j = is_page_allocated pm j).
Proof.
  intros Hok Hu H. pose proof (wp_elim _ _ _ _ _ (deallocate_spec pm id Hok Hu) H)
    as (Hok' & _ & _ & Hst & Hr & _ & _).
  destruct (Hr eq_refl) as (_ & _ & Hal). unfold is_u64 in Hu.
  assert (is_page_allocated pm' id = false) as Hna by (rewrite Hal by lia; by rewrite decide_True).
  destruct (validate_logically_throws pm' id Hok' Hu Hna) as [e He].
  split_and!; [exists e..|apply Hst|].
  - unfold read_page. by apply bind_run_throw.
  - unfold write_page. by apply bind_run_throw.
  - intros j Hj Hne. rewrite Hal by done. by rewrite decide_False.
Qed.

(** ** Concrete instances *)

(** A new database, and the same database with a file system that fails two of the next
    operations. *)
Definition pm_new : t :=
  match open env_ok None [] with Ok pm => pm | Throw _ => mk (open_stream [] []) 0 [] 0 end.
Definition pm_failing : t :=
  set_file (mkStream (bytes_of pm_new) 0 true [None; None; None; Some 100; None; Some 8]) pm_new.
Definition pm_one : t := (allocate_page pm_new).2.
Definition page_one : Page := mkPage 0 7 (42 :: zeros (kPagePayloadSize - 1)).

Lemma pm_new_synced : pm_synced pm_new /\ pm_healthy pm_new.
Proof. unfold pm_new. destruct open_new as (pm & -> & Hs & Hh & _). done. Qed.

Lemma pm_failing_ok : pm_ok pm_failing.
Proof. apply (pm_ok_same_bytes pm_new); [apply pm_new_synced|by split|done]. Qed.

Lemma pm_one_ok : pm_ok pm_one.
Proof.
  apply (wp_elim allocate_page pm_new _ (allocate_page pm_new).1 _ (allocate_page_spec pm_new (sy_ok _ (proj1 pm_new_synced)))).
  apply surjective_pairing.
Qed.

Lemma page_one_wf : page_wf page_one.
Proof.
  split; [unfold is_u64; simpl; lia..|reflexivity|].
  constructor; [unfold is_byte; lia|apply zeros_is_byte].
Qed.

Ltac ops_wf :=
  repeat (apply Forall_cons_2;
    [first [exact I | split; [unfold is_u64; lia|exact page_one_wf] | simpl; unfold is_u64; lia]|]);
  apply Forall_nil_2.

Lemma ops_keep_consistency_witness :
  pm_ok (run_ops [OpAllocate; OpAllocate; OpWrite 0 page_one; OpDeallocate 0] pm_failing).
Proof.
  apply ops_keep_consistency; [exact pm_failing_ok|].
  ops_wf.
Defined.

Lemma reopen_after_ops_witness :
  exists pm', open env_ok (Some (bytes_of (run_ops [OpAllocate; OpWrite 0 page_one; OpReserve] pm_new))) []
                = Ok pm' /\
    page_count_ pm' = 2 /\ stored_page pm' 0 = Some page_one /\ is_page_allocated pm' 1 = false.
Proof.
  destruct (reopen_after_ops pm_new [OpAllocate; OpWrite 0 page_one; OpReserve]
              (run_ops [OpAllocate; OpWrite 0 page_one; OpReserve] pm_new))
    as (pm' & H1 & H2 & _ & _ & H3 & H4).
  - vm_compute. reflexivity.
  - ops_wf.
  - reflexivity.
  - exists pm'. split; [exact H1|]. rewrite H2, H3, H4. vm_compute. auto.
Defined.

Lemma write_read_roundtrip_witness :
  exists pm', write_page 0 page_one pm_one = (Ok tt, pm') /\
    (forall r pm'', read_page 0 pm' = (r, pm'') -> pm_healthy pm_one -> r = Ok page_one).
Proof.
  exists (write_page 0 page_one pm_one).2. split; [vm_compute; reflexivity|].
  intros r pm'' Hr. eapply (write_read_roundtrip pm_one 0 page_one); [exact pm_one_ok| | | |exact Hr].
  - unfold is_u64. lia.
  - exact page_one_wf.
  - vm_compute. reflexivity.
Defined.

Lemma allocate_page_fresh_witness :
  is_page_allocated pm_new 0 = false /\ is_page_allocated pm_one 0 = true /\ 0 < 1.
Proof.
  destruct (allocate_page_fresh pm_new 0 pm_one [OpDeallocate 0] 1
              (allocate_page (run_ops [OpDeallocate 0] pm_one)).2) as (_ & H1 & H2 & _ & H3).
  - apply pm_new_synced.
  - vm_compute. reflexivity.
  - ops_wf.
  - vm_compute. reflexivity.
  - auto.
Defined.

Lemma reserve_page_failure_witness :
  exists e pm', reserve_page pm_failing = (Throw e, pm') /\ page_count_ pm' = 0.
Proof.
  eexists _, (reserve_page pm_failing).2. split; [vm_compute; reflexivity|].
  eapply (reserve_page_failure pm_failing); [exact pm_failing_ok|vm_compute; reflexivity].
Defined.

Lemma deallocate_page_hides_witness :
  exists pm', deallocate_page 0 pm_one = (Ok tt, pm') /\
    exists e, read_page 0 pm' = (Throw (StorageError e), pm').
Proof.
  exists (deallocate_page 0 pm_one).2. split; [vm_compute; reflexivity|].
  apply (deallocate_page_hides pm_one 0 _ page_one); [exact pm_one_ok|unfold is_u64; lia|].
  vm_compute. reflexivity.
Defined.



(** A new database whose file system stops working in the middle of a reservation: after 100
    bytes of the page, or between the page and the catalog. *)
Definition pm_torn : t := set_file (mkStream (bytes_of pm_new) 0 true [None; Some 100]) pm_new.
Definition pm_uncataloged : t := set_file (mkStream (bytes_of pm_new) 0 true [None; None; Some 0]) pm_new.

(** An interrupted reservation makes the database unreadable.  A reservation extends the
    file before it updates the catalog, and nothing is undone in the file when a write fails:
    if the page write stops halfway the file is no longer page-aligned, if the catalog write
    does not happen the catalog disagrees with the file size, and in both cases the next
    [PageManager] refuses to open the file. *)
Theorem interrupted_reservation_blocks_open :
  (exists e, (reserve_page pm_torn).1 = Throw (StorageError e)) /\
  open env_ok (Some (bytes_of (reserve_page pm_torn).2)) [] =
    Throw (StorageError "database file is truncated or corrupt (not page-aligned)") /\
  (exists e, (reserve_page pm_uncataloged).1 = Throw (StorageError e)) /\
  open env_ok (Some (bytes_of (reserve_page pm_uncataloged).2)) [] =
    Throw (StorageError "invalid allocation catalog bounds").
Proof. split_and!; [eexists|..|eexists|]; by vm_compute. Qed.

End PM.

(** ** The page manager implements the page store of the buffer pool *)

#[global] Instance pm_store : PageStore PM.t := {
  ps_allocated := PM.is_page_allocated;
  ps_read := PM.read_page;
  ps_write := PM.write_page;
  ps_flush := PM.flush;
}.

#[global] Program Instance pm_store_laws : PageStoreLaws PM.t := {
  ps_ok := PM.pm_ok;
  ps_page := PM.stored_page;
  ps_healthy := PM.pm_healthy;
}.
Next Obligation.
  intros p id r p' Hok Hu H.
  pose proof (wp_elim _ _ _ _ _ (PM.read_page_spec p id Hok Hu) H) as (Hof & Hb & Hr & Hh).
  split_and!.
  - by apply (PM.pm_ok_same_bytes p).
  - by apply PM.only_file_stored.
  - by apply PM.only_file_allocated.
  - intros Hp. by apply Hh.
  - intros pg ->. destruct (Hr pg eq_refl) as [Hst Ha].
    assert (page_wf pg /\ page_id pg = id) as []; [|done].
    destruct Hok. eapply PM.file_page_wf; [..|exact Hst]; [done|lia|done].
Qed.
Next Obligation.
  intros p id pg r p' Hok Hu Hpg H.
  pose proof (wp_elim _ _ _ _ _ (PM.write_page_spec p id pg Hok Hu Hpg) H)
    as (Hof & Hok' & _ & _ & Hoth & Hr & _ & Hh).
  split_and!; [done|by apply PM.only_file_allocated| |done|done].
  intros Hp. by apply Hh.
Qed.
Next Obligation.
  intros p id pg r p' Hok Hu Hpg Hst H.
  exact (wp_elim _ _ _ _ _ (PM.write_page_same p id pg Hok Hu Hpg Hst) H).
Qed.
Next Obligation.
  intros p r p' Hok H.
  pose proof (wp_elim _ _ _ _ _ (PM.flush_spec p) H) as (Hof & Hb & Hh).
  split_and!; [by apply (PM.pm_ok_same_bytes p)|by apply PM.only_file_stored|
    by apply PM.only_file_allocated|done].
Qed.
Next Obligation.
  intros p id Hok Hu Hp Ha [pg Hpg]. destruct (PM.read_page id p) as [r p'] eqn:H.
  pose proof (wp_elim _ _ _ _ _ (PM.read_page_spec p id Hok Hu) H) as (_ & _ & _ & Hh).
  destruct (Hh Hp) as [_ Hr]. simpl. rewrite H, (Hr Ha pg Hpg). eauto.
Qed.
Next Obligation.
  intros p id pg Hok Hu Hp Hpg Ha Hid. destruct (PM.write_page id pg p) as [r p'] eqn:H.
  pose proof (wp_elim _ _ _ _ _ (PM.write_page_spec p id pg Hok Hu Hpg) H)
    as (_ & _ & _ & _ & _ & _ & _ & Hh).
  destruct (Hh Hp) as [_ Hr]. simpl. rewrite H, (Hr Ha Hid). eauto.
Qed.
Next Obligation.
  intros p id pg Hok Hu Ha. destruct (PM.validate_logically_throws p id Hok Hu Ha) as [e He].
  split; exists e.
  - by apply bind_run_throw.
  - by apply bind_run_throw.
Qed.
