(* ===== verification/Wal.v ===== *)
(** * The write-ahead log format

    [WalRecord] and the static codec of [LogManager] (src/storage/log_manager.cpp): [encode],
    [decode], the payload codecs for physical mutations and page allocations, and the scanner
    [read_records] that recovery and reopening share.  [PhysicalMutation] is the struct of
    include/ddb/storage/physical_mutation.h.  The file handle and the LSN counters are in
    LogManager.v. *)

From S2P Require Import Prelude Bytes Page.

(** ** Records *)

Inductive WalRecordType : Type := Begin | PhysicalMutationRecord | Commit | Abort | PageAllocate.

#[global] Instance WalRecordType_eq_dec : EqDecision WalRecordType.
Proof. solve_decision. Defined.

(** The enumerators' values, and [static_cast<WalRecordType>] on a checked value. *)
Definition type_code (ty : WalRecordType) : Z :=
  match ty with
  | Begin => 1 | PhysicalMutationRecord => 2 | Commit => 3 | Abort => 4 | PageAllocate => 5
  end.
Definition type_of_code (c : Z) : option WalRecordType :=
  if c =? 1 then Some Begin else if c =? 2 then Some PhysicalMutationRecord
  else if c =? 3 then Some Commit else if c =? 4 then Some Abort
  else if c =? 5 then Some PageAllocate else None.

Record WalRecord : Type := mkRecord {
  rec_lsn : Z;
  rec_tx : Z;
  rec_type : WalRecordType;
  rec_payload : bytes;
}.

#[global] Instance WalRecord_eq_dec : EqDecision WalRecord.
Proof. solve_decision. Defined.

Inductive MutationKind : Type := PayloadWrite.
Definition kind_code (k : MutationKind) : Z := match k with PayloadWrite => 0 end.

Record PhysicalMutation : Type := mkMutation {
  mut_page : PageId;
  mut_kind : MutationKind;
  mut_sequence : Z;
  mut_before : bytes;
  mut_after : bytes;
  mut_previous_lsn : Z;
}.

(** ** Codec *)

(** "DWAL" *)
Definition kWalMagic : bytes := [68; 87; 65; 76].
Definition kVersion : Z := 1.
Definition kHeaderSize : Z := 36.
Definition kChecksumSize : Z := 4.
Definition kMinimumRecordSize : Z := kHeaderSize + kChecksumSize.
Definition kMaxRecordSize : Z := 32 * 1024 * 1024.

(** [require(condition, message)] *)
Definition require (c : bool) (what : string) {A} (k : outcome A) : outcome A :=
  if c then k else Throw (WalError what).

(** The bytes [encode] pushes before the checksum. *)
Definition encode_body (r : WalRecord) : bytes :=
  let length := to_u32 (kMinimumRecordSize + zlen (rec_payload r)) in
  let out := [] ++ kWalMagic in
  let out := push16 out kVersion in
  let out := push16 out kHeaderSize in
  let out := push32 out length in
  let out := push64 out (rec_lsn r) in
  let out := push64 out (rec_tx r) in
  let out := out ++ [type_code (rec_type r)] in
  let out := out ++ zeros 3 in
  let out := push32 out (to_u32 (zlen (rec_payload r))) in
  out ++ rec_payload r.

Definition encode (r : WalRecord) : outcome bytes :=
  require (negb (rec_lsn r =? 0)) "WAL LSN must be nonzero"
  (require ((1 <=? type_code (rec_type r)) && (type_code (rec_type r) <=? 5)) "invalid WAL record type"
  (require (zlen (rec_payload r) <=? kMaxRecordSize - kMinimumRecordSize) "WAL payload is too large"
  (Ok (push32 (encode_body r) (checksum (encode_body r)))))).

Definition decode (bs : bytes) : outcome WalRecord :=
  require (kMinimumRecordSize <=? zlen bs) "truncated WAL record"
  (require (bool_decide (slice bs 0 4 = kWalMagic)) "invalid WAL magic"
  (require (get16 bs 4 =? kVersion) "unsupported WAL version"
  (require (get16 bs 6 =? kHeaderSize) "invalid WAL header length"
  (let length := get32 bs 8 in
   let payload_length := get32 bs 32 in
   require ((length =? zlen bs) && (kMinimumRecordSize <=? length) && (length <=? kMaxRecordSize))
     "invalid WAL record length"
  (require (payload_length =? length - kMinimumRecordSize) "invalid WAL payload length"
  (let saved_checksum := get32 bs (zlen bs - kChecksumSize) in
   let checked := slice bs 0 (zlen bs - kChecksumSize) in
   require (checksum checked =? saved_checksum) "invalid WAL checksum"
  (match type_of_code (byte_at bs 28) with
   | None => Throw (WalError "invalid WAL record type")
   | Some ty =>
       let lsn := get64 bs 12 in
       require (negb (lsn =? 0)) "invalid WAL LSN"
       (Ok (mkRecord lsn (get64 bs 20) ty
              (slice bs kHeaderSize (zlen bs - kChecksumSize - kHeaderSize))))
   end))))))).

Definition encode_physical_mutation (m : PhysicalMutation) : outcome bytes :=
  require (is_valid (mut_page m)) "invalid WAL mutation page id"
  (require ((zlen (mut_before m) =? kPagePayloadSize) && (zlen (mut_after m) =? kPagePayloadSize))
     "invalid WAL mutation image size"
  (let out := push64 [] (mut_page m) in
   let out := out ++ [kind_code (mut_kind m)] in
   let out := push64 out (mut_sequence m) in
   let out := push32 out (to_u32 (zlen (mut_before m))) in
   let out := push32 out (to_u32 (zlen (mut_after m))) in
   Ok (out ++ mut_before m ++ mut_after m))).

Definition decode_physical_mutation (bs : bytes) : outcome PhysicalMutation :=
  require (25 <=? zlen bs) "truncated WAL mutation payload"
  (let before_length := get32 bs 17 in
   let after_length := get32 bs 21 in
   require ((before_length =? kPagePayloadSize) && (after_length =? kPagePayloadSize)
            && (zlen bs =? 25 + before_length + after_length)) "invalid WAL mutation image lengths"
  (require (byte_at bs 8 =? kind_code PayloadWrite) "invalid WAL mutation kind"
  (let page := get64 bs 0 in
   require (is_valid page) "invalid WAL mutation page id"
  (Ok (mkMutation page PayloadWrite (get64 bs 9) (slice bs 25 before_length)
         (slice bs (25 + before_length) (zlen bs - 25 - before_length)) 0))))).

Definition encode_page_allocate (page : PageId) : outcome bytes :=
  require (is_valid page) "invalid WAL allocation page id" (Ok (push64 [] page)).

Definition decode_page_allocate (bs : bytes) : outcome PageId :=
  require (zlen bs =? 8) "invalid WAL allocation payload length"
  (let page := get64 bs 0 in
   require (is_valid page) "invalid WAL allocation page id" (Ok page)).

(** ** The scanner *)

(** One pass of the loop of [read_records] per unit of fuel: every record takes at least
    [kMinimumRecordSize] bytes, so one more unit than the file has bytes is enough. *)
Fixpoint scan (fuel : nat) (input : bytes) (out : list WalRecord) : outcome (list WalRecord) :=
  match fuel with
  | O => Throw (LogicError "scan fuel")
  | S fuel =>
      let header := slice input 0 kHeaderSize in
      if negb (zlen header =? kHeaderSize) then Ok out
      else
      let length := get32 header 8 in
      if (length <? kMinimumRecordSize) || (kMaxRecordSize <? length)
      then Throw (WalError "invalid WAL record length")
      else
      let body := slice input kHeaderSize (length - kHeaderSize) in
      if negb (zlen body =? length - kHeaderSize) then Ok out
      else
      match decode (header ++ body) with
      | Throw e => Throw e
      | Ok record =>
          if match list.last out with Some r => rec_lsn record <=? rec_lsn r | None => false end
          then Throw (WalError "non-monotonic WAL LSN")
          else scan fuel (drop (Z.to_nat length) input) (out ++ [record])
      end
  end.

(** [read_records(path)]; [None] is a file that cannot be opened. *)
Definition read_records (file : option bytes) : outcome (list WalRecord) :=
  match file with
  | None => Throw (WalError "cannot read WAL file")
  | Some input => scan (S (length input)) input []
  end.

(** ** Well-formed records *)

Record record_wf (r : WalRecord) : Prop := {
  rw_lsn : 0 < rec_lsn r < 2 ^ 64;
  rw_tx : is_u64 (rec_tx r);
  rw_size : zlen (rec_payload r) <= kMaxRecordSize - kMinimumRecordSize;
  rw_bytes : Forall is_byte (rec_payload r);
}.

Ltac wal_lia := unfold kMaxRecordSize, kMinimumRecordSize, kHeaderSize, kChecksumSize in *; lia.

Definition record_size (r : WalRecord) : Z := kMinimumRecordSize + zlen (rec_payload r).

Definition body_fields (r : WalRecord) : bytes :=
  kWalMagic ++ le_bytes 2 kVersion ++ le_bytes 2 kHeaderSize ++ le_bytes 4 (record_size r) ++
  le_bytes 8 (rec_lsn r) ++ le_bytes 8 (rec_tx r) ++ [type_code (rec_type r)] ++ zeros 3 ++
  le_bytes 4 (zlen (rec_payload r)) ++ rec_payload r.

(** The bytes of a record on disk. *)
Definition encoded (r : WalRecord) : bytes := body_fields r ++ le_bytes 4 (checksum (body_fields r)).

Lemma encode_body_fields r : record_wf r -> encode_body r = body_fields r.
Proof.
  intros []. unfold encode_body, body_fields, push16, push32, push64, record_size, to_u32.
  rewrite !Z.mod_small by wal_lia. rewrite <- !app_assoc. done.
Qed.

Lemma type_code_roundtrip ty : type_of_code (type_code ty) = Some ty.
Proof. by destruct ty. Qed.

Lemma encode_encoded r : record_wf r -> encode r = Ok (encoded r).
Proof.
  intros Hwf. unfold encode, encoded. rewrite encode_body_fields by done.
  destruct Hwf. unfold require.
  replace (rec_lsn r =? 0) with false by lia.
  replace (zlen (rec_payload r) <=? kMaxRecordSize - kMinimumRecordSize) with true by lia.
  by destruct (rec_type r).
Qed.

Lemma body_fields_length r : zlen (body_fields r) = kHeaderSize + zlen (rec_payload r).
Proof. unfold body_fields. len. wal_lia. Qed.

Lemma encoded_length r : zlen (encoded r) = record_size r.
Proof.
  unfold encoded, record_size. rewrite length_app, Nat2Z.inj_add, body_fields_length. len. wal_lia.
Qed.

Lemma body_fields_is_byte r : record_wf r -> Forall is_byte (body_fields r).
Proof.
  intros []. unfold body_fields.
  repeat apply Forall_app_2; auto using le_bytes_is_byte, zeros_is_byte.
  - unfold kWalMagic, is_byte. repeat constructor; lia.
  - constructor; [|done]. unfold is_byte. destruct (rec_type r); simpl; lia.
Qed.

Lemma encoded_is_byte r : record_wf r -> Forall is_byte (encoded r).
Proof.
  intros. apply Forall_app_2; [by apply body_fields_is_byte|apply le_bytes_is_byte].
Qed.

(** ** Decoding an encoded record *)

Ltac wal_field :=
  rewrite <- ?app_assoc;
  repeat (rewrite slice_app_r by (len; wal_lia));
  apply slice_here; len.

Section encoded_fields.
Context (r : WalRecord) (post : bytes) (Hwf : record_wf r).

Lemma enc_magic : slice (encoded r ++ post) 0 4 = kWalMagic.
Proof. unfold encoded, body_fields. wal_field. Qed.
Lemma enc_version : get16 (encoded r ++ post) 4 = kVersion.
Proof. apply le_value_at; [done|unfold encoded, body_fields; wal_field|done]. Qed.
Lemma enc_header : get16 (encoded r ++ post) 6 = kHeaderSize.
Proof. apply le_value_at; [done|unfold encoded, body_fields; wal_field|done]. Qed.
Lemma enc_length : get32 (encoded r ++ post) 8 = record_size r.
Proof.
  apply le_value_at; [done|unfold encoded, body_fields; wal_field|].
  destruct Hwf. unfold record_size. wal_lia.
Qed.
Lemma enc_lsn : get64 (encoded r ++ post) 12 = rec_lsn r.
Proof.
  apply le_value_at; [done|unfold encoded, body_fields; wal_field|]. destruct Hwf. lia.
Qed.
Lemma enc_tx : get64 (encoded r ++ post) 20 = rec_tx r.
Proof.
  apply le_value_at; [done|unfold encoded, body_fields; wal_field|]. by destruct Hwf.
Qed.
Lemma enc_type : byte_at (encoded r ++ post) 28 = type_code (rec_type r).
Proof.
  assert (slice (encoded r ++ post) 28 1 = [type_code (rec_type r)]) as Hs
    by (unfold encoded, body_fields; wal_field).
  apply (f_equal (fun l => l !! 0%nat)) in Hs. rewrite slice_lookup in Hs by lia.
  unfold byte_at. replace (Z.to_nat 28) with (Z.to_nat 28 + 0)%nat by lia. by rewrite Hs.
Qed.
Lemma enc_payload_length : get32 (encoded r ++ post) 32 = zlen (rec_payload r).
Proof.
  apply le_value_at; [done|unfold encoded, body_fields; wal_field|]. destruct Hwf. wal_lia.
Qed.
End encoded_fields.

Lemma enc_checksum r : get32 (encoded r) (zlen (encoded r) - kChecksumSize) = checksum (body_fields r).
Proof.
  apply le_value_at; [rewrite encoded_length; unfold record_size; wal_lia| |].
  - rewrite encoded_length. unfold encoded. rewrite slice_app_r.
    + apply slice_whole; [|by len]. rewrite body_fields_length. unfold record_size. wal_lia.
    + rewrite body_fields_length. unfold record_size. wal_lia.
  - apply checksum_range.
Qed.

Lemma enc_checked r : slice (encoded r) 0 (zlen (encoded r) - kChecksumSize) = body_fields r.
Proof.
  rewrite encoded_length. unfold encoded. apply slice_here; [done|].
  rewrite body_fields_length. unfold record_size. wal_lia.
Qed.

Lemma enc_payload r :
  slice (encoded r) kHeaderSize (zlen (encoded r) - kChecksumSize - kHeaderSize) = rec_payload r.
Proof.
  rewrite encoded_length. unfold encoded, body_fields. rewrite <- !app_assoc.
  repeat (rewrite slice_app_r by (len; wal_lia)).
  apply slice_here; len; unfold record_size; wal_lia.
Qed.

Lemma decode_encoded r : record_wf r -> decode (encoded r) = Ok r.
Proof.
  intros Hwf. unfold decode, require.
  pose proof (enc_magic r []) as H1. pose proof (enc_version r []) as H2.
  pose proof (enc_header r []) as H3. pose proof (enc_length r [] Hwf) as H4.
  pose proof (enc_lsn r [] Hwf) as H5. pose proof (enc_tx r [] Hwf) as H6.
  pose proof (enc_type r []) as H7. pose proof (enc_payload_length r [] Hwf) as H8.
  rewrite app_nil_r in *.
  rewrite enc_checksum, enc_checked, enc_payload, H1, H2, H3, H4, H5, H6, H7, H8.
  rewrite encoded_length, type_code_roundtrip, bool_decide_true, !Z.eqb_refl by done.
  destruct Hwf. unfold record_size.
  replace (kMinimumRecordSize <=? _) with true by wal_lia.
  replace (_ <=? kMaxRecordSize) with true by wal_lia.
  replace (zlen (rec_payload r) =? _) with true by lia.
  replace (rec_lsn r =? 0) with false by lia. by destruct r.
Qed.

(** ** Properties of the record codec *)

(** Every record the log can write (nonzero 64-bit LSN, 64-bit transaction id, any type,
    payload of at most 32 MiB less the envelope) is encoded to [kMinimumRecordSize] bytes plus
    its payload, and decoding these bytes gives the record back. *)
Theorem record_roundtrip r :
  record_wf r ->
  exists bs, encode r = Ok bs /\ zlen bs = kMinimumRecordSize + zlen (rec_payload r) /\ decode bs = Ok r.
Proof.
  intros Hwf. exists (encoded r). split; [by apply encode_encoded|].
  split; [apply encoded_length|by apply decode_encoded].
Qed.

(** Every failure of [decode] is a [WalError]. *)
Lemma require_throw {A} c w (k : outcome A) e :
  require c w k = Throw e -> (c = false /\ e = WalError w) \/ (c = true /\ k = Throw e).
Proof. destruct c; simpl; intros; simplify_eq; auto. Qed.

Lemma require_ok {A} c w (k : outcome A) a : require c w k = Ok a -> c = true /\ k = Ok a.
Proof. by destruct c. Qed.

Lemma decode_wal_error bs e : decode bs = Throw e -> exists w, e = WalError w.
Proof.
  unfold decode. intros H.
  repeat (apply require_throw in H as [[_ ->]|[_ H]]; [by eexists|]).
  destruct (type_of_code _); [|simplify_eq; by eexists].
  repeat (apply require_throw in H as [[_ ->]|[_ H]]; [by eexists|]). done.
Qed.

(** What an accepted record guarantees about its bytes. *)
Lemma decode_ok_inv bs r :
  decode bs = Ok r ->
  kMinimumRecordSize <= zlen bs <= kMaxRecordSize /\ get32 bs 8 = zlen bs /\
  checksum (slice bs 0 (zlen bs - kChecksumSize)) = get32 bs (zlen bs - kChecksumSize) /\
  rec_lsn r = get64 bs 12 /\ rec_lsn r <> 0 /\ rec_tx r = get64 bs 20 /\
  type_of_code (byte_at bs 28) = Some (rec_type r) /\
  rec_payload r = slice bs kHeaderSize (zlen bs - kChecksumSize - kHeaderSize).
Proof.
  unfold decode. intros H.
  repeat match goal with H : require _ _ _ = Ok _ |- _ => apply require_ok in H as [? H] end.
  destruct (type_of_code (byte_at bs 28)) eqn:Ht; [|done].
  apply require_ok in H as [? H]. simplify_eq/=. bprop. split_and!; auto; lia.
Qed.

Lemma decode_record_wf bs r : Forall is_byte bs -> decode bs = Ok r -> record_wf r.
Proof.
  intros Hb H. destruct (decode_ok_inv bs r H) as (Hsz & _ & _ & Hl & Hnz & Ht & _ & Hp). split.
  - rewrite Hl in *. pose proof (le_value_range 8 bs 12 Hb) as Hr. unfold get64 in *.
    change (2 ^ (Z.of_nat 8 * 8)) with (2 ^ 64) in Hr. wal_lia.
  - rewrite Ht. apply (le_value_range 8 bs 20 Hb); wal_lia.
  - rewrite Hp, slice_length. wal_lia.
  - rewrite Hp. by apply Forall_take, Forall_drop.
Qed.

Lemma decode_size bs r : decode bs = Ok r -> zlen bs = record_size r.
Proof.
  intros H. destruct (decode_ok_inv bs r H) as (Hsz & _ & _ & _ & _ & _ & _ & Hp).
  unfold record_size. rewrite Hp, slice_length. wal_lia.
Qed.

(** Changing one byte inside or outside a prefix. *)
Lemma insert_slice_in (bs : bytes) i b n :
  (i < Z.to_nat n)%nat -> 0 <= n -> n <= zlen bs ->
  slice (<[i := b]> bs) 0 n = <[i := b]> (slice bs 0 n).
Proof. intros. unfold slice. rewrite !drop_0. apply take_insert_lt. lia. Qed.

Lemma insert_slice_out (bs : bytes) i b n :
  (Z.to_nat n <= i)%nat -> slice (<[i := b]> bs) 0 n = slice bs 0 n.
Proof. intros. unfold slice. rewrite !drop_0. by apply take_insert_ge. Qed.

Lemma checksum_insert (l : bytes) i b b0 :
  Forall is_byte l -> l !! i = Some b0 -> is_byte b ->
  checksum (<[i := b]> l) = checksum l -> b = b0.
Proof.
  intros Hl Hi Hb H. assert (i < length l)%nat by by eapply lookup_lt_Some.
  rewrite insert_take_drop in H by done.
  rewrite <- (take_drop_middle l i b0) in H at 3 by done.
  apply checksum_one_byte in H; auto using Forall_take, Forall_drop.
  by eapply Forall_lookup_1 in Hi.
Qed.

Lemma get32_insert_inj (bs : bytes) i b b0 p :
  Forall is_byte bs -> bs !! i = Some b0 -> is_byte b -> 0 <= p -> p + 4 <= zlen bs ->
  (Z.to_nat p <= i < Z.to_nat p + 4)%nat ->
  get32 (<[i := b]> bs) p = get32 bs p -> b = b0.
Proof.
  intros Hbs Hi Hb Hp Hl Hr H. unfold get32 in H.
  rewrite !le_value_combine in H by (rewrite ?length_insert; lia).
  assert (forall l, Forall is_byte l -> p + 4 <= zlen l ->
            le_bytes 4 (le_combine (slice l p (Z.of_nat 4))) = slice l p (Z.of_nat 4)) as Hinj.
  { intros l Hl' Hlen. rewrite <- (le_bytes_combine (slice l p (Z.of_nat 4))) at 2
      by by apply Forall_take, Forall_drop.
    f_equal. rewrite slice_length. lia. }
  apply (f_equal (le_bytes 4)) in H. rewrite !Hinj in H; rewrite ?length_insert; auto using Forall_insert.
  apply (f_equal (fun l => l !! (i - Z.to_nat p)%nat)) in H. rewrite !slice_lookup in H by lia.
  replace (Z.to_nat p + (i - Z.to_nat p))%nat with i in H by lia.
  rewrite list_lookup_insert_eq in H by by eapply lookup_lt_Some. congruence.
Qed.

(** The checksum catches every single-byte corruption: changing any one byte of an encoded
    record to any other byte value makes [decode] throw a [WalError]. *)
Theorem decode_detects_corruption r i b0 b :
  record_wf r -> encoded r !! i = Some b0 -> is_byte b -> b <> b0 ->
  exists w, decode (<[i := b]> (encoded r)) = Throw (WalError w).
Proof.
  intros Hwf Hi Hb Hne. set (bs := <[i := b]> (encoded r)).
  destruct (decode bs) as [r'|e] eqn:E.
  2:{ destruct (decode_wal_error bs e E) as [w ->]. by exists w. }
  exfalso. apply Hne.
  destruct (decode_ok_inv bs r' E) as (Hsz & _ & Hck & _).
  assert (zlen bs = zlen (encoded r)) as Hlen by (unfold bs; by rewrite length_insert).
  assert (i < length (encoded r))%nat by by eapply lookup_lt_Some.
  pose proof (encoded_is_byte r Hwf) as Hbytes.
  assert (Forall is_byte bs) by by apply Forall_insert.
  rewrite Hlen in Hck, Hsz. set (n := zlen (encoded r) - kChecksumSize) in *.
  assert (checksum (slice (encoded r) 0 n) = get32 (encoded r) n) as Hck0.
  { unfold n. rewrite enc_checksum, enc_checked. done. }
  destruct (decide (i < Z.to_nat n)%nat) as [Hlt|Hge].
  - assert (get32 bs n = get32 (encoded r) n) as Hsame.
    { unfold get32. apply le_value_slice_eq; try (unfold n in *; wal_lia).
      apply list_eq. intros j. destruct (decide (j < 4)%nat).
      - rewrite !slice_lookup by lia. apply list_lookup_insert_ne. unfold n in *; wal_lia.
      - rewrite !lookup_ge_None_2; [done|rewrite slice_length; lia..]. }
    unfold bs in Hck at 1. rewrite insert_slice_in in Hck by (unfold n in *; wal_lia).
    eapply (checksum_insert (slice (encoded r) 0 n) i); [by apply Forall_take, Forall_drop| |done|congruence].
    by rewrite slice_lookup.
  - unfold bs in Hck at 1. rewrite insert_slice_out in Hck by lia.
    eapply (get32_insert_inj (encoded r) i b b0 n); try done; try (unfold n in *; wal_lia).
    fold bs. congruence.
Qed.

(** ** Properties of the payload codecs *)

Record mutation_wf (m : PhysicalMutation) : Prop := {
  mw_page : is_u64 (mut_page m) /\ is_valid (mut_page m) = true;
  mw_sequence : is_u64 (mut_sequence m);
  mw_before : zlen (mut_before m) = kPagePayloadSize;
  mw_after : zlen (mut_after m) = kPagePayloadSize;
}.

(** A captured mutation survives its trip through a log record: page, kind, sequence and
    both images come back; only [previous_page_lsn], which is not a log field, is reset. *)
Theorem mutation_roundtrip m :
  mutation_wf m ->
  exists bs, encode_physical_mutation m = Ok bs /\ zlen bs = 25 + 2 * kPagePayloadSize /\
    decode_physical_mutation bs =
      Ok (mkMutation (mut_page m) (mut_kind m) (mut_sequence m) (mut_before m) (mut_after m) 0).
Proof.
  intros [[Hpu Hpv] Hseq Hb Ha].
  set (bs := le_bytes 8 (mut_page m) ++ [0] ++ le_bytes 8 (mut_sequence m) ++
             le_bytes 4 kPagePayloadSize ++ le_bytes 4 kPagePayloadSize ++ mut_before m ++ mut_after m).
  assert (zlen bs = 25 + 2 * kPagePayloadSize) as Hl by (unfold bs; len).
  exists bs. split_and!; [|done|].
  - unfold encode_physical_mutation, require, push64, push32. rewrite Hpv, Hb, Ha, Z.eqb_refl. simpl.
    unfold bs. destruct (mut_kind m). rewrite <- ?app_assoc. done.
  - assert (get32 bs 17 = kPagePayloadSize) as H17.
    { apply le_value_at; [done|unfold bs; slice_field|done]. }
    assert (get32 bs 21 = kPagePayloadSize) as H21.
    { apply le_value_at; [done|unfold bs; slice_field|done]. }
    assert (get64 bs 0 = mut_page m) as H0.
    { apply le_value_at; [done|unfold bs; slice_field|done]. }
    assert (get64 bs 9 = mut_sequence m) as H9.
    { apply le_value_at; [done|unfold bs; slice_field|done]. }
    assert (byte_at bs 8 = 0) as H8 by done.
    unfold decode_physical_mutation, require. rewrite H17, H21, H0, H9, H8, Hpv, Hl.
    replace (25 <=? _) with true by plia.
    replace (25 + 2 * kPagePayloadSize =? 25 + kPagePayloadSize + kPagePayloadSize) with true by plia.
    rewrite !Z.eqb_refl. cbn [kind_code andb Z.eqb]. destruct (mut_kind m). f_equal. f_equal.
    + unfold bs. slice_field.
    + unfold bs. repeat (rewrite slice_app_r by (len; plia)). apply slice_whole; len; plia.
Qed.

(** The payload of a page-allocation record is the 64-bit page id, for every valid id. *)
Theorem page_allocate_roundtrip id :
  is_u64 id -> is_valid id = true ->
  exists bs, encode_page_allocate id = Ok bs /\ zlen bs = 8 /\ decode_page_allocate bs = Ok id.
Proof.
  intros Hu Hv. exists (le_bytes 8 id). unfold encode_page_allocate, decode_page_allocate, require.
  rewrite Hv. split; [done|]. split; [by len|].
  replace (zlen (le_bytes 8 id) =? 8) with true by done.
  assert (get64 (le_bytes 8 id) 0 = id) as ->.
  { apply le_value_at; [done|apply slice_full; by len|done]. }
  by rewrite Hv.
Qed.

(** ** The scanner on well-formed logs and their prefixes *)

Definition log_bytes (rs : list WalRecord) : bytes := concat (encoded <$> rs).

(** LSNs strictly increase, from above [prev]. *)
Fixpoint ascending (prev : Z) (rs : list WalRecord) : Prop :=
  match rs with
  | [] => True
  | r :: rs => prev < rec_lsn r /\ ascending (rec_lsn r) rs
  end.

Definition last_lsn (rs : list WalRecord) : Z := from_option rec_lsn 0 (list.last rs).

(** The records whose encoding fits in the first [k] bytes of the log. *)
Fixpoint complete (k : Z) (rs : list WalRecord) : list WalRecord :=
  match rs with
  | [] => []
  | r :: rs => if record_size r <=? k then r :: complete (k - record_size r) rs else []
  end.

Lemma log_bytes_cons r rs : log_bytes (r :: rs) = encoded r ++ log_bytes rs.
Proof. done. Qed.

Lemma log_bytes_app rs1 rs2 : log_bytes (rs1 ++ rs2) = log_bytes rs1 ++ log_bytes rs2.
Proof. unfold log_bytes. by rewrite fmap_app, concat_app. Qed.

Lemma record_size_range r :
  record_wf r -> kMinimumRecordSize <= record_size r <= kMaxRecordSize.
Proof. intros []. unfold record_size. wal_lia. Qed.

Lemma encoded_header r k :
  record_wf r -> (Z.to_nat kHeaderSize <= k)%nat ->
  get32 (slice (take k (encoded r)) 0 kHeaderSize) 8 = record_size r.
Proof.
  intros Hwf Hk. pose proof (record_size_range r Hwf). pose proof (encoded_length r).
  rewrite <- (enc_length r [] Hwf), app_nil_r. unfold get32.
  apply le_value_slice_eq; [done..|rewrite slice_length, length_take; wal_lia|wal_lia|].
  rewrite slice_slice by wal_lia. unfold slice. rewrite skipn_firstn_comm, take_take.
  f_equal. wal_lia.
Qed.

Lemma scan_step fuel out r post :
  record_wf r -> last_lsn out < rec_lsn r ->
  scan (S fuel) (encoded r ++ post) out = scan fuel post (out ++ [r]).
Proof.
  intros Hwf Hlt. pose proof (record_size_range r Hwf) as Hsz. pose proof (encoded_length r) as Hl.
  cbn [scan].
  assert (slice (encoded r ++ post) 0 kHeaderSize = slice (encoded r) 0 kHeaderSize) as ->
    by (apply slice_app_l; wal_lia).
  replace (zlen (slice (encoded r) 0 kHeaderSize) =? kHeaderSize) with true
    by (symmetry; apply Z.eqb_eq; rewrite slice_length; wal_lia). cbn [negb].
  pose proof (encoded_header r (length (encoded r)) Hwf) as Hh. rewrite firstn_all in Hh.
  rewrite Hh by wal_lia.
  replace (record_size r <? kMinimumRecordSize) with false by lia.
  replace (kMaxRecordSize <? record_size r) with false by lia. cbn [orb].
  assert (slice (encoded r ++ post) kHeaderSize (record_size r - kHeaderSize) =
          slice (encoded r) kHeaderSize (record_size r - kHeaderSize)) as ->
    by (apply slice_app_l; wal_lia).
  replace (zlen (slice (encoded r) kHeaderSize (record_size r - kHeaderSize))
             =? record_size r - kHeaderSize) with true
    by (symmetry; apply Z.eqb_eq; rewrite slice_length; wal_lia). cbn [negb].
  assert (slice (encoded r) 0 kHeaderSize ++
          slice (encoded r) kHeaderSize (record_size r - kHeaderSize) = encoded r) as ->.
  { unfold slice. rewrite drop_0. rewrite (take_ge (drop _ _)) by (rewrite length_drop; wal_lia).
    apply take_drop. }
  rewrite decode_encoded by done.
  replace (match list.last out with Some r0 => rec_lsn r <=? rec_lsn r0 | None => false end) with false.
  2:{ unfold last_lsn in Hlt. destruct (list.last out); simpl in Hlt; [lia|done]. }
  f_equal. apply drop_app_length'. lia.
Qed.

Lemma scan_torn fuel out r k :
  record_wf r -> (k < length (encoded r))%nat -> scan (S fuel) (take k (encoded r)) out = Ok out.
Proof.
  intros Hwf Hk. pose proof (record_size_range r Hwf) as Hsz. pose proof (encoded_length r) as Hl.
  cbn [scan]. destruct (decide (k < Z.to_nat kHeaderSize)%nat) as [Hlt|Hge].
  - replace (zlen _ =? kHeaderSize) with false; [done|].
    symmetry. apply Z.eqb_neq. rewrite slice_length, length_take. wal_lia.
  - replace (zlen (slice (take k (encoded r)) 0 kHeaderSize) =? kHeaderSize) with true
      by (symmetry; apply Z.eqb_eq; rewrite slice_length, length_take; wal_lia). cbn [negb].
    rewrite encoded_header by (done || lia).
    replace (record_size r <? kMinimumRecordSize) with false by lia.
    replace (kMaxRecordSize <? record_size r) with false by lia. cbn [orb].
    replace (zlen _ =? record_size r - kHeaderSize) with false; [done|].
    symmetry. apply Z.eqb_neq. rewrite slice_length, length_take. wal_lia.
Qed.

Lemma scan_nil fuel out : scan (S fuel) [] out = Ok out.
Proof. done. Qed.

Lemma last_lsn_snoc out r : last_lsn (out ++ [r]) = rec_lsn r.
Proof. unfold last_lsn. by rewrite last_snoc. Qed.

Lemma scan_prefix rs fuel out k :
  Forall record_wf rs -> ascending (last_lsn out) rs -> 0 <= k ->
  (length (complete k rs) < fuel)%nat ->
  scan fuel (take (Z.to_nat k) (log_bytes rs)) out = Ok (out ++ complete k rs).
Proof.
  intros Hwf. revert fuel out k. induction Hwf as [|r rs Hr _ IH]; intros fuel out k Ha Hk Hf.
  - change (log_bytes []) with (@nil Z). rewrite take_nil. cbn [complete] in *. rewrite app_nil_r.
    destruct fuel; [simpl in Hf; lia|apply scan_nil].
  - rewrite log_bytes_cons. destruct Ha as [Hlt Ha]. pose proof (encoded_length r) as Hl.
    cbn [complete] in *. destruct fuel as [|fuel]; [lia|].
    destruct (Z.leb_spec (record_size r) k) as [Hle|Hgt].
    + rewrite take_app_ge by lia. rewrite scan_step by done.
      pose proof (record_size_range r Hr).
      replace (Z.to_nat k - length (encoded r))%nat with (Z.to_nat (k - record_size r)) by lia.
      rewrite IH; [by rewrite <- app_assoc| |lia|simpl in Hf; lia].
      by rewrite last_lsn_snoc.
    + rewrite take_app_le by lia. rewrite app_nil_r. apply scan_torn; [done|lia].
Qed.

Lemma complete_length k rs :
  Forall record_wf rs -> 0 <= k -> kMinimumRecordSize * zlen (complete k rs) <= k /\
    kMinimumRecordSize * zlen (complete k rs) <= zlen (log_bytes rs).
Proof.
  intros Hwf. revert k. induction Hwf as [|r rs Hr _ IH]; intros k Hk; cbn [complete]; [simpl; lia|].
  rewrite log_bytes_cons, length_app. pose proof (record_size_range r Hr).
  pose proof (encoded_length r).
  destruct (Z.leb_spec (record_size r) k); [|simpl; lia].
  destruct (IH (k - record_size r)) as [IH1 IH2]; [lia|]. rewrite length_cons. wal_lia.
Qed.

Lemma read_records_prefix_eq rs k :
  Forall record_wf rs -> ascending 0 rs -> 0 <= k ->
  read_records (Some (take (Z.to_nat k) (log_bytes rs))) = Ok (complete k rs).
Proof.
  intros Hwf Ha Hk. unfold read_records. rewrite scan_prefix; [done|done|done|done|].
  destruct (complete_length k rs Hwf Hk). rewrite length_take. wal_lia.
Qed.

Lemma complete_take k rs :
  Forall record_wf rs -> 0 <= k ->
  exists n, complete k rs = take n rs /\ (n <= length rs)%nat /\
    zlen (log_bytes (take n rs)) <= k /\
    ((n < length rs)%nat -> k < zlen (log_bytes (take (S n) rs))).
Proof.
  intros Hwf. revert k. induction Hwf as [|r rs Hr _ IH]; intros k Hk; cbn [complete].
  - exists 0%nat. simpl. split_and!; [done|lia..].
  - pose proof (encoded_length r). destruct (Z.leb_spec (record_size r) k) as [Hle|Hgt].
    + destruct (IH (k - record_size r)) as (n & -> & Hn & Hl & Hg); [lia|].
      exists (S n). cbn [take length]. rewrite !log_bytes_cons, !length_app. split_and!; [done|lia..|].
      intros. lia.
    + exists 0%nat. cbn [take length]. rewrite log_bytes_cons, length_app.
      change (log_bytes []) with (@nil Z). rewrite length_nil. split_and!; [done|lia..].
Qed.

Lemma complete_all k rs : zlen (log_bytes rs) <= k -> complete k rs = rs.
Proof.
  revert k. induction rs as [|r rs IH]; intros k Hk; cbn [complete]; [done|].
  rewrite log_bytes_cons, length_app in Hk. pose proof (encoded_length r).
  replace (record_size r <=? k) with true by lia. f_equal. apply IH. lia.
Qed.

Lemma read_records_log rs : Forall record_wf rs -> ascending 0 rs -> read_records (Some (log_bytes rs)) = Ok rs.
Proof.
  intros Hwf Ha. rewrite <- (take_ge (log_bytes rs) (Z.to_nat (zlen (log_bytes rs)))) by lia.
  rewrite read_records_prefix_eq by (done || lia). f_equal. by apply complete_all.
Qed.

Lemma log_bytes_is_byte rs : Forall record_wf rs -> Forall is_byte (log_bytes rs).
Proof.
  induction 1 as [|r rs Hr _ IH]; [constructor|]. rewrite log_bytes_cons. apply Forall_app_2; [by apply encoded_is_byte|done].
Qed.

(** Scanning what is left of a log after its file was cut off at any byte gives exactly
    the records that are complete in it, in order: the longest prefix of the appended records
    whose bytes fit.  A partial last record is dropped, nothing is reported as an error. *)
Theorem read_records_torn_tail rs k :
  Forall record_wf rs -> ascending 0 rs -> 0 <= k ->
  exists n, read_records (Some (take (Z.to_nat k) (log_bytes rs))) = Ok (take n rs) /\
    (n <= length rs)%nat /\ zlen (log_bytes (take n rs)) <= k /\
    ((n < length rs)%nat -> k < zlen (log_bytes (take (S n) rs))).
Proof.
  intros Hwf Ha Hk. destruct (complete_take k rs Hwf Hk) as (n & Hc & Hrest).
  exists n. split; [|done]. by rewrite read_records_prefix_eq, Hc.
Qed.

(** ** The scanner on arbitrary files *)

Lemma ascending_snoc p rs r :
  ascending p rs -> from_option rec_lsn p (list.last rs) < rec_lsn r -> ascending p (rs ++ [r]).
Proof.
  revert p. induction rs as [|r0 rs IH]; intros p Ha Hl; [by split|].
  destruct Ha as [? Ha]. split; [done|]. apply IH; [done|].
  rewrite last_cons in Hl. by destruct (list.last rs).
Qed.

(** What is known about the records a scan returns. *)
Record scanned (rs : list WalRecord) : Prop := {
  sc_ascending : ascending 0 rs;
  sc_wf : Forall record_wf rs;
}.

Lemma decode_concat_wf input l (r : WalRecord) :
  Forall is_byte input ->
  decode (slice input 0 kHeaderSize ++ slice input kHeaderSize l) = Ok r -> record_wf r.
Proof.
  intros Hb. apply decode_record_wf.
  apply Forall_app_2; by apply Forall_take, Forall_drop.
Qed.

Lemma scan_sound fuel input out rs :
  Forall is_byte input -> scanned out -> scan fuel input out = Ok rs -> scanned rs.
Proof.
  revert input out. induction fuel as [|fuel IH]; intros input out Hb Hout H; [done|].
  cbn [scan] in H.
  destruct (negb (zlen (slice input 0 kHeaderSize) =? kHeaderSize)); [by simplify_eq|].
  destruct (_ || _); [done|]. destruct (negb _); [by simplify_eq|].
  destruct (decode _) as [r|] eqn:Ed; [|done].
  destruct (match list.last out with Some _ => _ | None => _ end) eqn:El; [done|].
  apply decode_concat_wf in Ed; [|done].
  eapply IH; [| |exact H].
  - by apply Forall_drop.
  - destruct Hout as [Ha Hw]. split; [|apply Forall_app_2; auto].
    apply ascending_snoc; [done|]. destruct Ed.
    destruct (list.last out); simpl in *; lia.
Qed.

(** C32: Whatever bytes a log file holds, if the scan accepts it the records it returns are
    well formed and their LSNs are nonzero and strictly increasing. *)
Theorem read_records_sound input rs :
  Forall is_byte input -> read_records (Some input) = Ok rs ->
  ascending 0 rs /\ Forall record_wf rs.
Proof.
  intros Hb H. unfold read_records in H. apply scan_sound in H as [Ha Hw]; [done|done|].
  split; [done|constructor].
Qed.

(** ** Witnesses *)

Definition rec_begin : WalRecord := mkRecord 1 7 Begin [].
Definition rec_alloc : WalRecord := mkRecord 2 7 PageAllocate [5; 0; 0; 0; 0; 0; 0; 0].
Definition rec_commit : WalRecord := mkRecord 3 7 Commit [].
Definition mut_example : PhysicalMutation :=
  mkMutation 4 PayloadWrite 1 (zeros kPagePayloadSize) (blit (zeros kPagePayloadSize) 10 [1; 2; 3]) 6.

Lemma rec_example_wf r : r ∈ [rec_begin; rec_alloc; rec_commit] -> record_wf r.
Proof.
  intros Hr. repeat (apply elem_of_cons in Hr as [->|Hr]); [..|by apply not_elem_of_nil in Hr];
    (split; [split; done|split; done|done|repeat constructor; done]).
Qed.

Lemma rec_examples_wf : Forall record_wf [rec_begin; rec_alloc; rec_commit].
Proof. apply list.Forall_forall. exact rec_example_wf. Qed.

Lemma mut_example_wf : mutation_wf mut_example.
Proof. split; [split; [split|]; done|split; done|done|]. unfold mut_example, mut_after. by rewrite blit_length. Qed.

Lemma record_roundtrip_witness :
  exists bs, encode rec_alloc = Ok bs /\ zlen bs = 48 /\ decode bs = Ok rec_alloc.
Proof. apply (record_roundtrip rec_alloc). apply rec_example_wf. right. left. Defined.

Lemma decode_detects_corruption_witness :
  exists w, decode (<[8%nat := 49]> (encoded rec_alloc)) = Throw (WalError w).
Proof.
  apply (decode_detects_corruption rec_alloc 8 48 49); [|reflexivity|split; done|done].
  apply rec_example_wf. right. left.
Defined.

Lemma mutation_roundtrip_witness :
  exists bs, encode_physical_mutation mut_example = Ok bs /\ zlen bs = 25 + 2 * kPagePayloadSize /\
    decode_physical_mutation bs =
      Ok (mkMutation 4 PayloadWrite 1 (mut_before mut_example) (mut_after mut_example) 0).
Proof. apply (mutation_roundtrip mut_example). exact mut_example_wf. Defined.

Lemma page_allocate_roundtrip_witness :
  exists bs, encode_page_allocate 5 = Ok bs /\ zlen bs = 8 /\ decode_page_allocate bs = Ok 5.
Proof. apply (page_allocate_roundtrip 5); [split; done|done]. Defined.

Lemma read_records_torn_tail_witness :
  exists n, read_records (Some (take (Z.to_nat 100) (log_bytes [rec_begin; rec_alloc; rec_commit]))) =
      Ok (take n [rec_begin; rec_alloc; rec_commit]) /\
    (n <= 3)%nat /\ zlen (log_bytes (take n [rec_begin; rec_alloc; rec_commit])) <= 100 /\
    ((n < 3)%nat -> 100 < zlen (log_bytes (take (S n) [rec_begin; rec_alloc; rec_commit]))).
Proof.
  apply (read_records_torn_tail [rec_begin; rec_alloc; rec_commit] 100);
    [exact rec_examples_wf|done|done].
Defined.

Lemma read_records_sound_witness :
  ascending 0 [rec_begin; rec_alloc] /\ Forall record_wf [rec_begin; rec_alloc].
Proof.
  apply (read_records_sound (log_bytes [rec_begin; rec_alloc])); [|by vm_compute].
  apply (bool_decide_unpack _). by vm_compute.
Defined.

(** ** A damaged length field *)

(** The log of three records with one byte of the first record's length field raised. *)
Definition damaged_log : bytes := <[10%nat := 1]> (log_bytes [rec_begin; rec_alloc; rec_commit]).

(** A damaged length field is taken for a torn tail: when the length of the first record
    exceeds what is left of the file, the scan ends there and reports an empty log, although
    the two records behind it, a commit among them, are intact.  With the record cut out as
    its true length says, the same damage is detected. *)
Theorem damaged_length_drops_log :
  read_records (Some damaged_log) = Ok [] /\
  read_records (Some (drop (length (encoded rec_begin)) damaged_log)) = Ok [rec_alloc; rec_commit] /\
  decode (take (length (encoded rec_begin)) damaged_log) = Throw (WalError "invalid WAL record length").
Proof. by vm_compute. Qed.
