(* ===== verification/LogManager.v ===== *)
(** * LogManager: the append-only write-ahead log

    The stateful part of src/storage/log_manager.cpp (include/ddb/storage/log_manager.h): the
    open log file, the next and the durable LSN, the append operations, [flush], opening with
    its truncation of a torn tail, and [PageManager::allocate_transactional_page]
    (src/storage/page_manager.cpp), which orders a page reservation, its log record and its
    activation.  Every append flushes the stream, so the bytes of the stream are the bytes of
    the file; the platform sync of [flush] exists only in Windows builds and is left out, as
    the preprocessor does on other platforms.  [prepare_commit] and [prepare_abort] call into
    the transaction and are in Transaction.v. *)

From S2P Require Import Prelude Bytes Page Stream PageStore PageManager Wal.

Module LM.

(** ** State *)

Record t : Type := mk {
  file_ : stream;
  next_lsn_ : Z;
  durable_lsn_ : Z;
  fail_next_flush_ : bool;
}.

Definition set_file (f : stream) (lm : t) : t :=
  mk f (next_lsn_ lm) (durable_lsn_ lm) (fail_next_flush_ lm).
Definition set_next_lsn (n : Z) (lm : t) : t :=
  mk (file_ lm) n (durable_lsn_ lm) (fail_next_flush_ lm).
Definition set_durable_lsn (n : Z) (lm : t) : t :=
  mk (file_ lm) (next_lsn_ lm) n (fail_next_flush_ lm).
Definition set_fail_next_flush (b : bool) (lm : t) : t :=
  mk (file_ lm) (next_lsn_ lm) (durable_lsn_ lm) b.

Definition on_file (op : stream -> stream) : M t unit :=
  modify (fun lm => set_file (op (file_ lm)) lm).

Definition require_good (what : string) : M t unit :=
  let! lm := get in throw_if (negb (st_good (file_ lm))) (WalError what).

Definition durable_lsn (lm : t) : Z := durable_lsn_ lm.
Definition next_lsn (lm : t) : Z := next_lsn_ lm.
Definition records (lm : t) : outcome (list WalRecord) := read_records (Some (st_bytes (file_ lm))).

(** ** Appending *)

Definition seek_end (f : stream) : stream := stream_seek (zlen (st_bytes f)) f.

Definition append (ty : WalRecordType) (tx : Z) (payload : bytes) : M t Z :=
  let! lsn := gets next_lsn_ in
  modify (set_next_lsn (to_u64 (lsn + 1))) ;;
  let record := mkRecord lsn tx ty payload in
  let! enc := lift (encode record) in
  on_file stream_clear ;;
  on_file seek_end ;;
  on_file (stream_write enc) ;;
  on_file stream_flush ;;
  require_good "WAL append failed" ;;
  ret lsn.

Definition append_begin (tx : Z) : M t Z := append Begin tx [].
Definition append_physical_mutation (tx : Z) (m : PhysicalMutation) : M t Z :=
  let! payload := lift (encode_physical_mutation m) in
  append PhysicalMutationRecord tx payload.
Definition append_commit (tx : Z) : M t Z := append Commit tx [].
Definition append_abort (tx : Z) : M t Z := append Abort tx [].
Definition append_page_allocate (tx : Z) (id : PageId) : M t Z :=
  let! payload := lift (encode_page_allocate id) in
  append PageAllocate tx payload.

Definition log_begin (tx : Z) : M t unit := append_begin tx ;; ret tt.
Definition log_physical_mutation (tx : Z) (m : PhysicalMutation) : M t Z := append_physical_mutation tx m.

Definition flush : M t unit :=
  let! fail := gets fail_next_flush_ in
  if fail then
    modify (set_fail_next_flush false) ;;
    throw (WalError "forced WAL flush failure")
  else
    on_file stream_flush ;;
    require_good "WAL flush failed" ;;
    let! next := gets next_lsn_ in
    modify (set_durable_lsn (to_u64 (next - 1))).

Definition fail_next_flush_for_testing (lm : t) : t := set_fail_next_flush true lm.

(** [~LogManager]: what [flush] throws is dropped. *)
Definition destroy (lm : t) : t := (flush lm).2.

(** ** Opening *)

(** Which of the file system calls of [open_and_scan] succeed. *)
Record open_env : Type := mkOpenEnv {
  can_inspect : bool; can_create : bool; can_open : bool; can_read : bool;
  can_size : bool; can_resize : bool; can_reopen : bool;
}.

(** [for (record : records_on_disk) valid_bytes += encode(record).size();] *)
Fixpoint valid_bytes (rs : list WalRecord) : outcome Z :=
  match rs with
  | [] => Ok 0
  | r :: rs =>
      match encode r with
      | Throw e => Throw e
      | Ok bs => match valid_bytes rs with Throw e => Throw e | Ok n => Ok (zlen bs + n) end
      end
  end.

(** The end of [open_and_scan]: position at the end of [content]. *)
Definition open_at_end (content : bytes) (faults : list (option Z)) (rs : list WalRecord) : outcome t :=
  let f := seek_end (stream_clear (open_stream content faults)) in
  if negb (st_good f) then Throw (WalError "cannot seek WAL append position")
  else Ok (mk f (match list.last rs with Some r => to_u64 (rec_lsn r + 1) | None => 1 end)
             (match list.last rs with Some r => rec_lsn r | None => 0 end) false).

(** [LogManager(path)]: the result and the bytes the file holds afterwards. *)
Definition open (env : open_env) (content : option bytes) (faults : list (option Z)) :
    outcome t * option bytes :=
  let exists_ := can_inspect env && bool_decide (is_Some content) in
  if negb exists_ && negb (can_create env) then (Throw (WalError "cannot create WAL file"), content)
  else
  let content := if exists_ then default [] content else [] in
  if negb (can_inspect env) then (Throw (WalError "cannot inspect WAL file"), Some content)
  else if negb (can_open env) then (Throw (WalError "cannot open WAL file"), Some content)
  else
  match read_records (if can_read env then Some content else None) with
  | Throw e => (Throw e, Some content)
  | Ok rs =>
      match valid_bytes rs with
      | Throw e => (Throw e, Some content)
      | Ok valid =>
          if negb (can_size env) then (Throw (WalError "cannot determine WAL size"), Some content)
          else if negb (zlen content =? valid) then
            if negb (can_resize env)
            then (Throw (WalError "cannot discard truncated WAL tail"), Some content)
            else
            let content := take (Z.to_nat valid) content in
            if negb (can_reopen env)
            then (Throw (WalError "cannot reopen WAL after truncating tail"), Some content)
            else (open_at_end content faults rs, Some content)
          else (open_at_end content faults rs, Some content)
      end
  end.


#[local] Arguments read_records : simpl never.
#[local] Arguments valid_bytes : simpl never.
#[local] Arguments open_at_end : simpl never.

(** ** Invariant *)

(** The log file holds exactly the records [rs]. *)
Record lm_ok (lm : t) (rs : list WalRecord) : Prop := {
  lo_bytes : st_bytes (file_ lm) = log_bytes rs;
  lo_wf : Forall record_wf rs;
  lo_ascending : ascending 0 rs;
  lo_next : last_lsn rs < next_lsn_ lm < 2 ^ 64;
  lo_durable : 0 <= durable_lsn_ lm < next_lsn_ lm;
}.

(** No fault is scheduled for the log file. *)
Definition lm_healthy (lm : t) : Prop := healthy (file_ lm).

Lemma ascending_last p rs : ascending p rs -> p <= from_option rec_lsn p (list.last rs).
Proof.
  revert p. induction rs as [|r rs IH]; intros p Ha; [simpl; lia|].
  destruct Ha as [? Ha]. apply IH in Ha. rewrite last_cons. destruct (list.last rs); simpl in *; lia.
Qed.

Lemma lm_ok_next lm rs : lm_ok lm rs -> 0 < next_lsn_ lm.
Proof. intros []. lia. Qed.

Lemma lm_ok_new lm rs ty tx payload :
  lm_ok lm rs -> is_u64 tx -> Forall is_byte payload ->
  zlen payload <= kMaxRecordSize - kMinimumRecordSize ->
  record_wf (mkRecord (next_lsn_ lm) tx ty payload).
Proof. intros Hok ???. pose proof (lm_ok_next _ _ Hok). destruct Hok. by split; [simpl; lia|..]. Qed.

Lemma lm_ok_extend lm rs lm' r :
  lm_ok lm rs -> record_wf r -> rec_lsn r = next_lsn_ lm -> next_lsn_ lm' = next_lsn_ lm + 1 ->
  next_lsn_ lm + 1 < 2 ^ 64 -> durable_lsn_ lm' = durable_lsn_ lm ->
  st_bytes (file_ lm') = st_bytes (file_ lm) ++ encoded r -> lm_ok lm' (rs ++ [r]).
Proof.
  intros [Hb Hw Ha Hn Hd] Hr Hl Hn' Hlt Hd' Hb'. split.
  - rewrite Hb', Hb, log_bytes_app. f_equal. symmetry. apply app_nil_r.
  - apply Forall_app_2; auto.
  - apply ascending_snoc; [done|]. unfold last_lsn in Hn. lia.
  - rewrite last_lsn_snoc. lia.
  - lia.
Qed.

(** The state after an LSN was taken and nothing else happened. *)
Lemma lm_ok_skip lm rs lm' :
  lm_ok lm rs -> next_lsn_ lm' = next_lsn_ lm + 1 -> next_lsn_ lm + 1 < 2 ^ 64 ->
  durable_lsn_ lm' = durable_lsn_ lm -> st_bytes (file_ lm') = st_bytes (file_ lm) -> lm_ok lm' rs.
Proof. intros [] ????. split; try congruence; lia. Qed.

Lemma lm_ok_records lm rs : lm_ok lm rs -> records lm = Ok rs.
Proof.
  intros []. unfold records. rewrite lo_bytes0. by apply read_records_log.
Qed.

Lemma seek_end_bytes f : st_bytes (seek_end f) = st_bytes f.
Proof. apply stream_seek_bytes. Qed.

Lemma write_at_end (f bs : bytes) : write_at f (zlen f) bs = f ++ bs.
Proof. rewrite write_at_blit by lia. rewrite blit_extend by lia. by rewrite take_ge by lia. Qed.

(** [clear], [seekp(0, end)], [write], [flush]: a prefix of the bytes is added at the end, and
    all of them if the stream is still good. *)
Lemma append_stream_spec bs f :
  let f' := stream_flush (stream_write bs (seek_end (stream_clear f))) in
  (exists k, st_bytes f' = st_bytes f ++ take k bs) /\
  (st_good f' = true -> st_bytes f' = st_bytes f ++ bs) /\
  (healthy f -> healthy f' /\ st_good f' = true).
Proof.
  destruct (seek_write_spec (zlen (st_bytes f)) bs (stream_clear f)) as (Hp & Hg & Hh); [done|lia|].
  unfold seek_end. cbn [stream_clear st_bytes] in *.
  set (g := stream_write bs (stream_seek _ _)) in *. simpl. rewrite stream_flush_bytes. split_and!.
  - destruct Hp as [->|[k ->]]; [exists 0%nat; by rewrite take_0, app_nil_r|].
    exists k. apply write_at_end.
  - intros Hf. rewrite Hg; [apply write_at_end|]. unfold stream_flush in Hf.
    by destruct (st_good g) eqn:E; [|rewrite E in Hf].
  - intros Hf. apply Hh in Hf as [? ?]. by rewrite healthy_flush.
Qed.

(** What an append leaves in the file: all records and a prefix of the new one's bytes. *)
Lemma append_spec lm rs ty tx payload :
  lm_ok lm rs -> is_u64 tx -> Forall is_byte payload -> next_lsn_ lm + 1 < 2 ^ 64 ->
  wp (append ty tx payload) lm (fun r lm' =>
    let new := mkRecord (next_lsn_ lm) tx ty payload in
    next_lsn_ lm' = next_lsn_ lm + 1 /\ durable_lsn_ lm' = durable_lsn_ lm /\
    fail_next_flush_ lm' = fail_next_flush_ lm /\
    match r with
    | Ok lsn => lsn = next_lsn_ lm /\ lm_ok lm' (rs ++ [new])
    | Throw e => (exists w, e = WalError w) /\
        (lm_ok lm' rs \/ record_wf new /\ exists k, st_bytes (file_ lm') = log_bytes rs ++ take k (encoded new))
    end /\
    (lm_healthy lm -> lm_healthy lm' /\
       (zlen payload <= kMaxRecordSize - kMinimumRecordSize -> r = Ok (next_lsn_ lm)))).
Proof.
  intros Hok Htx Hpl Hnext.
  assert (to_u64 (next_lsn_ lm + 1) = next_lsn_ lm + 1) as Hu.
  { apply Z.mod_small. pose proof (lm_ok_next _ _ Hok). lia. }
  unfold append. do 4 wp_step. rewrite Hu. wp_step. wp_step.
  set (new := mkRecord (next_lsn_ lm) tx ty payload).
  destruct (decide (zlen payload <= kMaxRecordSize - kMinimumRecordSize)) as [Hsz|Hsz].
  - pose proof (lm_ok_new lm rs ty tx payload Hok Htx Hpl Hsz) as Hwf.
    rewrite encode_encoded by done. unfold on_file, require_good. wp_steps; simpl in *.
    + destruct (append_stream_spec (encoded new) (file_ lm)) as ([k Hk] & _ & Hh).
      split_and!; [done|done|done|by eexists| |].
      * right. split; [done|]. exists k. simpl. by rewrite Hk, (lo_bytes _ _ Hok).
      * intros Hhe. apply Hh in Hhe as [? Hg]. by rewrite Hg in *.
    + destruct (append_stream_spec (encoded new) (file_ lm)) as (_ & Hg & Hh). bprop.
      split_and!; [done|done|done|done| |].
      * eapply lm_ok_extend; [done|done|done|done|done|done|by apply Hg].
      * intros Hhe. split; [by apply Hh|done].
  - replace (encode new) with (@Throw bytes (WalError "WAL payload is too large")).
    + split_and!; [done|done|done|by eexists| |].
      * left. by apply (lm_ok_skip lm).
      * intros Hhe. by split.
    + unfold encode, require. pose proof (lm_ok_next _ _ Hok). simpl.
      replace (next_lsn_ lm =? 0) with false by lia.
      replace (zlen payload <=? _) with false by lia. by destruct ty.
Qed.

Lemma log_flush_spec lm rs :
  lm_ok lm rs ->
  wp flush lm (fun r lm' =>
    lm_ok lm' rs /\ next_lsn_ lm' = next_lsn_ lm /\ fail_next_flush_ lm' = false /\
    match r with
    | Ok _ => fail_next_flush_ lm = false /\ durable_lsn_ lm' = next_lsn_ lm - 1
    | Throw e => (exists w, e = WalError w) /\ durable_lsn_ lm' = durable_lsn_ lm
    end /\
    (lm_healthy lm -> st_good (file_ lm) = true -> lm_healthy lm' /\ st_good (file_ lm') = true /\
       (fail_next_flush_ lm = false -> r = Ok tt))).
Proof.
  intros Hok. pose proof (lm_ok_next _ _ Hok). pose proof Hok as [].
  assert (to_u64 (next_lsn_ lm - 1) = next_lsn_ lm - 1) as Hu by (apply Z.mod_small; lia).
  unfold flush, on_file, require_good. wp_steps; simpl in *; bprop.
  - split_and!; [by split|done|done|by eexists|done|]. intros ??. split_and!; [done|done|congruence].
  - split_and!; [|done|done|by eexists|done|].
    + by split; simpl; rewrite ?stream_flush_bytes.
    + intros Hh Hg. rewrite healthy_flush in * by done. done.
  - split_and!; [|done|done|done|done|].
    + split; simpl; rewrite ?stream_flush_bytes, ?Hu; auto; lia.
    + intros Hh Hg. by rewrite healthy_flush.
Qed.

(** A record takes part of the log as soon as its LSN is durable. *)
Definition durable_part (lm : t) (rs : list WalRecord) : list WalRecord :=
  filter (fun r => rec_lsn r <= durable_lsn_ lm) rs.

Lemma ascending_above p rs r : ascending p rs -> r ∈ rs -> p < rec_lsn r.
Proof.
  revert p. induction rs as [|r0 rs IH]; intros p Ha Hr; [by apply not_elem_of_nil in Hr|].
  destruct Ha as [? Ha]. apply elem_of_cons in Hr as [->|Hr]; [done|]. apply IH in Ha; [lia|done].
Qed.

(** The durable records are a prefix of the log. *)
Lemma durable_prefix p d rs : ascending p rs -> filter (fun r => rec_lsn r <= d) rs `prefix_of` rs.
Proof.
  revert p. induction rs as [|r rs IH]; intros p Ha; [done|].
  destruct Ha as [? Ha]. destruct (decide (rec_lsn r <= d)) as [Hle|Hgt].
  - rewrite filter_cons_True by done. apply prefix_cons. by eapply IH.
  - rewrite filter_cons_False by done.
    replace (filter _ rs) with (@nil WalRecord); [apply prefix_nil|].
    destruct (filter _ rs) as [|x l] eqn:E; [done|].
    assert (x ∈ filter (fun r => rec_lsn r <= d) rs) as Hx by (rewrite E; left).
    apply list_elem_of_filter in Hx as [Hx1 Hx2].
    pose proof (ascending_above _ _ _ Ha Hx2). lia.
Qed.

(** ** Opening what a crash left *)

Definition env_ok : open_env := mkOpenEnv true true true true true true true.

Lemma valid_bytes_spec rs : Forall record_wf rs -> valid_bytes rs = Ok (zlen (log_bytes rs)).
Proof.
  induction 1 as [|r rs Hr _ IH]; [done|]. unfold valid_bytes. fold valid_bytes. rewrite encode_encoded, IH by done.
  rewrite log_bytes_cons, length_app. f_equal. lia.
Qed.

Lemma open_at_end_ok content rs :
  content = log_bytes rs -> Forall record_wf rs -> ascending 0 rs -> last_lsn rs + 1 < 2 ^ 64 ->
  exists lm, open_at_end content [] rs = Ok lm /\ lm_ok lm rs /\ lm_healthy lm /\
    next_lsn_ lm = last_lsn rs + 1 /\ durable_lsn_ lm = last_lsn rs.
Proof.
  intros -> Hw Ha Hl. unfold open_at_end, seek_end. rewrite healthy_seek by done. simpl.
  pose proof (ascending_last 0 rs Ha : 0 <= last_lsn rs) as Hp.
  assert (match list.last rs with Some r => to_u64 (rec_lsn r + 1) | None => 1 end = last_lsn rs + 1) as Hn.
  { unfold last_lsn in *. destruct (list.last rs); simpl in *; [|lia]. apply Z.mod_small. lia. }
  assert (match list.last rs with Some r => rec_lsn r | None => 0 end = last_lsn rs) as Hd
    by (unfold last_lsn; by destruct (list.last rs)).
  rewrite Hn, Hd. eexists. split; [done|].
  split_and!; [split; cbn; [done|done|done|lia|lia]|done|done|done].
Qed.

Lemma complete_prefix k rs : complete k rs `prefix_of` rs.
Proof.
  revert k. induction rs as [|r rs IH]; intros k; simpl; [done|].
  destruct (_ <=? _); [apply prefix_cons, IH|apply prefix_nil].
Qed.

Lemma complete_contains k rs pre :
  pre `prefix_of` rs -> zlen (log_bytes pre) <= k -> pre `prefix_of` complete k rs.
Proof.
  revert k rs. induction pre as [|r pre IH]; intros k rs Hp Hk; [apply prefix_nil|].
  destruct rs as [|r' rs]; [by apply prefix_nil_not in Hp|].
  pose proof (prefix_cons_inv_1 _ _ _ _ Hp) as ->. apply prefix_cons_inv_2 in Hp.
  rewrite log_bytes_cons, length_app in Hk. pose proof (encoded_length r'). simpl.
  replace (record_size r' <=? k) with true by lia. apply prefix_cons, IH; [done|lia].
Qed.

Lemma complete_fits k rs : 0 <= k -> zlen (log_bytes (complete k rs)) <= k.
Proof.
  revert k. induction rs as [|r rs IH]; intros k Hk; cbn [complete]; [done|].
  destruct (Z.leb_spec (record_size r) k); [|done].
  rewrite log_bytes_cons, length_app. pose proof (encoded_length r).
  specialize (IH (k - record_size r)). lia.
Qed.

Lemma complete_cut k rs :
  0 <= k -> take (Z.to_nat (zlen (log_bytes (complete k rs)))) (take (Z.to_nat k) (log_bytes rs)) =
            log_bytes (complete k rs).
Proof.
  intros Hk. pose proof (complete_fits k rs Hk). destruct (complete_prefix k rs) as [post Hpost].
  rewrite take_take, Nat.min_l by lia. rewrite Hpost at 2. rewrite log_bytes_app, Nat2Z.id.
  apply take_app_length.
Qed.

Lemma ascending_prefix p rs pre :
  pre `prefix_of` rs -> ascending p rs ->
  ascending p pre /\ from_option rec_lsn p (list.last pre) <= from_option rec_lsn p (list.last rs).
Proof.
  revert p rs. induction pre as [|r pre IH]; intros p rs Hp Ha; [split; [done|by apply ascending_last]|].
  destruct rs as [|r' rs]; [by apply prefix_nil_not in Hp|].
  pose proof (prefix_cons_inv_1 _ _ _ _ Hp) as ->. apply prefix_cons_inv_2 in Hp.
  destruct Ha as [? Ha]. destruct (IH _ _ Hp Ha) as [Ha' Hl]. split; [by split|].
  rewrite !last_cons. destruct (list.last pre), (list.last rs); simpl in *; lia.
Qed.

Lemma Forall_prefix {A} (P : A -> Prop) l1 l2 : l1 `prefix_of` l2 -> Forall P l2 -> Forall P l1.
Proof. intros [l ->]. by intros [? _]%Forall_app. Qed.

(** Opening a log file that was cut off at any byte. *)
Lemma open_cut rs k :
  Forall record_wf rs -> ascending 0 rs -> last_lsn rs + 1 < 2 ^ 64 -> 0 <= k ->
  exists lm,
    open env_ok (Some (take (Z.to_nat k) (log_bytes rs))) [] = (Ok lm, Some (log_bytes (complete k rs))) /\
    lm_ok lm (complete k rs) /\ lm_healthy lm /\
    next_lsn_ lm = last_lsn (complete k rs) + 1 /\ durable_lsn_ lm = last_lsn (complete k rs).
Proof.
  intros Hw Ha Hl Hk. pose proof (complete_prefix k rs) as Hp.
  destruct (ascending_prefix _ _ _ Hp Ha) as [Ha' Hl'].
  pose proof (Forall_prefix _ _ _ Hp Hw) as Hw'.
  destruct (open_at_end_ok (log_bytes (complete k rs)) (complete k rs)) as (lm & He & Hrest);
    [done|done|done|unfold last_lsn in *; lia|].
  exists lm. split; [|done]. unfold open. simpl.
  rewrite read_records_prefix_eq, valid_bytes_spec by done.
  destruct (Z.eqb_spec (zlen (take (Z.to_nat k) (log_bytes rs))) (zlen (log_bytes (complete k rs))))
    as [Heq|Hne]; simpl.
  - pose proof (complete_cut k rs Hk) as Hc. rewrite take_ge in Hc by lia. by rewrite Hc, He.
  - by rewrite complete_cut, He.
Qed.

(** ** Sequences of log operations *)

Inductive log_op : Type :=
  | OBegin (tx : Z) | OMutation (tx : Z) (m : PhysicalMutation) | OCommit (tx : Z) | OAbort (tx : Z)
  | OAllocate (tx : Z) (id : PageId) | OFlush.

Definition run_op (o : log_op) : M t unit :=
  match o with
  | OBegin tx => log_begin tx
  | OMutation tx m => log_physical_mutation tx m ;; ret tt
  | OCommit tx => append_commit tx ;; ret tt
  | OAbort tx => append_abort tx ;; ret tt
  | OAllocate tx id => append_page_allocate tx id ;; ret tt
  | OFlush => flush
  end.

Definition op_wf (o : log_op) : Prop :=
  match o with
  | OBegin tx | OCommit tx | OAbort tx | OAllocate tx _ => is_u64 tx
  | OMutation tx m => is_u64 tx /\ Forall is_byte (mut_before m) /\ Forall is_byte (mut_after m)
  | OFlush => True
  end.

(** The file is a cut of a log that begins with [rs], not shorter than [rs] itself. *)
Definition holds_at_least (lm : t) (rs : list WalRecord) : Prop :=
  exists rs' j, st_bytes (file_ lm) = take j (log_bytes rs') /\ rs `prefix_of` rs' /\
    zlen (log_bytes rs) <= Z.of_nat j /\ Forall record_wf rs' /\ ascending 0 rs' /\
    last_lsn rs' + 1 < 2 ^ 64.

Lemma lm_ok_holds lm rs rs' :
  lm_ok lm rs' -> rs `prefix_of` rs' -> holds_at_least lm rs.
Proof.
  intros [] [post ->]. exists (rs ++ post), (length (log_bytes (rs ++ post))).
  rewrite firstn_all. split_and!; try done; [by apply prefix_app_r| |lia].
  rewrite log_bytes_app, length_app. lia.
Qed.

Lemma torn_holds lm rs rs' new k :
  Forall record_wf rs' -> ascending 0 rs' -> rs `prefix_of` rs' -> record_wf new ->
  last_lsn rs' < rec_lsn new -> rec_lsn new + 1 < 2 ^ 64 ->
  st_bytes (file_ lm) = log_bytes rs' ++ take k (encoded new) -> holds_at_least lm rs.
Proof.
  intros Hw Ha [post ->] Hn Hl Hlt Hb.
  exists ((rs ++ post) ++ [new]), (length (log_bytes (rs ++ post)) + k)%nat. split_and!.
  - rewrite Hb, (log_bytes_app _ [new]), take_app_add. by rewrite (log_bytes_cons new), app_nil_r.
  - rewrite <- app_assoc. by apply prefix_app_r.
  - rewrite log_bytes_app, length_app. lia.
  - apply Forall_app_2; auto.
  - by apply ascending_snoc.
  - by rewrite last_lsn_snoc.
Qed.

(** The outcome of one operation of a sequence. *)
Definition step_ok (lm : t) (rs : list WalRecord) (r : outcome unit) (lm' : t) : Prop :=
  next_lsn_ lm' <= next_lsn_ lm + 1 /\
  match r with
  | Ok _ => exists post, lm_ok lm' (rs ++ post)
  | Throw _ => holds_at_least lm' rs
  end.

Definition forget {A} (r : outcome A) : outcome unit :=
  match r with Ok _ => Ok tt | Throw e => Throw e end.

Lemma append_step lm rs ty tx payload :
  lm_ok lm rs -> is_u64 tx -> Forall is_byte payload -> next_lsn_ lm + 1 < 2 ^ 64 ->
  wp (append ty tx payload) lm (fun r => step_ok lm rs (forget r)).
Proof.
  intros Hok Htx Hp Hn. wp_use append_spec; [done..|].
  intros [lsn|e] lm' (Hn' & _ & _ & Hr & _); (split; [lia|]); simpl.
  - destruct Hr as [_ Hok']. by eexists.
  - destruct Hr as [_ [Hok'|[Hwf [k Hk]]]]; [by eapply lm_ok_holds|].
    destruct Hok. eapply torn_holds; [..|exact Hk]; simpl; first [done|lia].
Qed.

Lemma wp_forget {A} (m : M t A) lm Q :
  wp m lm (fun r => Q (forget r)) -> wp (m ;; ret tt) lm Q.
Proof. intros H. apply wp_bind. wp_use H. by intros [|]. Qed.

Lemma lift_throw_step lm rs e : lm_ok lm rs -> step_ok lm rs (Throw e) lm.
Proof. intros. split; [lia|by eapply lm_ok_holds]. Qed.

Lemma encode_mutation_bytes m bs :
  Forall is_byte (mut_before m) -> Forall is_byte (mut_after m) ->
  encode_physical_mutation m = Ok bs -> Forall is_byte bs.
Proof.
  intros Hb Ha H. unfold encode_physical_mutation in H.
  repeat apply require_ok in H as [_ H]. apply Ok_inj in H as <-.
  unfold push64, push32. repeat apply Forall_app_2; auto using le_bytes_is_byte, Forall_nil_2.
  apply Forall_singleton. by destruct (mut_kind m).
Qed.

Lemma encode_allocate_bytes id bs : encode_page_allocate id = Ok bs -> Forall is_byte bs.
Proof.
  intros H. unfold encode_page_allocate in H. apply require_ok in H as [_ H]. apply Ok_inj in H as <-.
  apply Forall_app_2; [done|apply le_bytes_is_byte].
Qed.

Lemma run_op_step o lm rs :
  lm_ok lm rs -> op_wf o -> next_lsn_ lm + 1 < 2 ^ 64 -> wp (run_op o) lm (step_ok lm rs).
Proof.
  intros Hok Hwf Hn. destruct o as [tx|tx m|tx|tx|tx id|]; simpl in *;
    try (apply wp_forget; by apply append_step).
  - destruct Hwf as (? & ? & ?). apply wp_forget, wp_bind, wp_lift.
    destruct (encode_physical_mutation m) as [bs|e] eqn:E; [|by apply lift_throw_step].
    apply append_step; auto. by eapply encode_mutation_bytes.
  - apply wp_forget, wp_bind, wp_lift.
    destruct (encode_page_allocate id) as [bs|e] eqn:E; [|by apply lift_throw_step].
    apply append_step; auto. by eapply encode_allocate_bytes.
  - wp_use log_flush_spec; [done|]. intros r lm' (Hok' & Hn' & _ & _). split; [lia|].
    destruct r; [|by eapply lm_ok_holds]. exists []. by rewrite app_nil_r.
Qed.

(** A sequence that stops at its first failure never loses what the log held. *)
Lemma run_ops_hold ops lm rs :
  lm_ok lm rs -> Forall op_wf ops -> next_lsn_ lm + zlen ops < 2 ^ 64 ->
  wp (for_each ops run_op) lm (fun _ lm' => holds_at_least lm' rs).
Proof.
  intros Hok Hwf. revert lm rs Hok. induction Hwf as [|o ops Ho _ IH]; intros lm rs Hok Hn.
  - simpl. wp_steps. by eapply lm_ok_holds.
  - rewrite length_cons in Hn. cbn [for_each]. wp_step.
    wp_use run_op_step; [done|done|lia|]. intros [[]|e] lm' [Hn' Hr]; [|done].
    destruct Hr as [post Hok']. wp_use IH; [done|lia|].
    intros r lm'' (rs' & j & ? & [p ->] & ? & ? & ? & ?).
    exists ((rs ++ post) ++ p), j. split_and!; try done.
    + rewrite <- app_assoc. by apply prefix_app_r.
    + rewrite log_bytes_app, length_app in *. lia.
Qed.

(** Opening any cut, not below [rs], of a file that holds at least [rs]. *)
Lemma holds_reopen lm rs k :
  holds_at_least lm rs -> zlen (log_bytes rs) <= k ->
  exists lm' file rs', open env_ok (Some (take (Z.to_nat k) (st_bytes (file_ lm)))) [] = (Ok lm', Some file) /\
    lm_ok lm' rs' /\ rs `prefix_of` rs'.
Proof.
  intros (rs' & j & Hb & Hp & Hj & Hw & Ha & Hl) Hk.
  destruct (open_cut rs' (Z.min k (Z.of_nat j))) as (lm' & Hopen & Hok & _); [done|done|done|lia|].
  exists lm'. eexists. exists (complete (Z.min k (Z.of_nat j)) rs'). split_and!; [|done|].
  - rewrite Hb, take_take. rewrite <- Hopen. repeat f_equal. lia.
  - apply complete_contains; [done|lia].
Qed.

(** ** Properties of the log *)

(** C27: A failing append is atomic: on whichever byte the write stops, or if the flush behind
    it fails, a scan of the log file returns the records that were there, with or without the
    new one, and never an error or anything else.  When the append returns, the new record is
    in the file under the LSN it returned. *)
Theorem append_atomic lm rs ty tx payload r lm' :
  lm_ok lm rs -> is_u64 tx -> Forall is_byte payload -> next_lsn_ lm + 1 < 2 ^ 64 ->
  append ty tx payload lm = (r, lm') ->
  let new := mkRecord (next_lsn_ lm) tx ty payload in
  match r with
  | Ok lsn => lsn = rec_lsn new /\ records lm' = Ok (rs ++ [new])
  | Throw e => records lm' = Ok rs \/ records lm' = Ok (rs ++ [new])
  end.
Proof.
  intros Hok Htx Hp Hn H. eapply wp_elim in H; [|by apply append_spec].
  destruct H as (_ & _ & _ & Hr & _). simpl in *. destruct r as [lsn|e].
  - destruct Hr as [-> Hok']. split; [done|]. by apply lm_ok_records.
  - destruct Hr as [_ [Hok'|[Hwf [k Hk]]]]; [left; by apply lm_ok_records|].
    set (new := mkRecord _ _ _ _) in *. destruct Hok.
    assert (log_bytes rs ++ take k (encoded new) =
            take (Z.to_nat (zlen (log_bytes rs) + Z.of_nat k)) (log_bytes (rs ++ [new]))) as Hcut.
    { rewrite log_bytes_app, (log_bytes_cons new), app_nil_r.
      replace (Z.to_nat _) with (length (log_bytes rs) + k)%nat by lia. by rewrite take_app_add. }
    unfold records. rewrite Hk, Hcut, read_records_prefix_eq.
    + set (c := complete _ _).
      assert (rs `prefix_of` c) as [p1 Hp1] by (apply complete_contains; [by apply prefix_app_r|lia]).
      assert (c `prefix_of` rs ++ [new]) as [p2 Hp2] by apply complete_prefix.
      rewrite Hp1, <- app_assoc in Hp2. apply app_inv_head in Hp2.
      destruct p1 as [|x p1]; [left; by rewrite Hp1, app_nil_r|]. right. simplify_eq/=.
      destruct p1; [by rewrite Hp1|done].
    + apply Forall_app_2; auto.
    + apply ascending_snoc; [done|]. unfold last_lsn in *. simpl. lia.
    + lia.
Qed.

(** C2: A commit that was acknowledged survives a crash.  Once [append_commit] and [flush]
    returned, any further log operations may follow, the last one failing at any point, and the
    file may then be cut off at any byte not below its length at the flush: the log opens, and
    the records it returns start with everything that was in the log at the flush, the commit
    record last. *)
Theorem commit_survives_crash lm rs tx lm1 ops r lm2 k :
  lm_ok lm rs -> is_u64 tx -> Forall op_wf ops -> next_lsn_ lm + 1 + zlen ops < 2 ^ 64 ->
  (append_commit tx ;; flush) lm = (Ok tt, lm1) ->
  for_each ops run_op lm1 = (r, lm2) ->
  zlen (st_bytes (file_ lm1)) <= k ->
  durable_lsn lm1 = next_lsn_ lm /\
  exists lm3 file rs3,
    open env_ok (Some (take (Z.to_nat k) (st_bytes (file_ lm2)))) [] = (Ok lm3, Some file) /\
    records lm3 = Ok rs3 /\ rs ++ [mkRecord (next_lsn_ lm) tx Commit []] `prefix_of` rs3.
Proof.
  intros Hok Htx Hops Hn Hc Hrun Hk.
  apply bind_ok in Hc as (lsn & lm0 & Happ & Hfl). unfold append_commit in Happ.
  eapply wp_elim in Happ; [|apply append_spec; [done|done|constructor|lia]].
  destruct Happ as (Hn0 & _ & _ & [_ Hok0] & _).
  eapply wp_elim in Hfl; [|by apply log_flush_spec].
  destruct Hfl as (Hok1 & Hn1 & _ & [_ Hd] & _).
  split; [unfold durable_lsn; lia|].
  eapply wp_elim in Hrun; [|apply (run_ops_hold _ _ _ Hok1 Hops); lia].
  rewrite (lo_bytes _ _ Hok1) in Hk.
  destruct (holds_reopen _ _ k Hrun Hk) as (lm3 & file & rs3 & Ho & Hok3 & Hp).
  exists lm3, file, rs3. split_and!; [done|by apply lm_ok_records|done].
Qed.

(** The log restarts where it ended: after any prefix of the file survived, opening gives
    a manager whose file holds exactly the complete records, whose next LSN is one above the
    last of them, and whose durable LSN is that last one; every record up to the previous
    durable LSN is among them when the durable bytes survived. *)
Theorem reopen_after_crash lm rs k :
  lm_ok lm rs -> next_lsn_ lm + 1 < 2 ^ 64 -> zlen (log_bytes (durable_part lm rs)) <= k ->
  exists lm' rs', open env_ok (Some (take (Z.to_nat k) (st_bytes (file_ lm)))) [] =
      (Ok lm', Some (log_bytes rs')) /\
    rs' `prefix_of` rs /\ (forall r, r ∈ rs -> rec_lsn r <= durable_lsn_ lm -> r ∈ rs') /\
    lm_ok lm' rs' /\ next_lsn lm' = last_lsn rs' + 1 /\ durable_lsn lm' = last_lsn rs'.
Proof.
  intros Hok Hn Hk. destruct (open_cut rs k) as (lm' & Ho & Hok' & _ & Hn' & Hd');
    [apply Hok|apply Hok|destruct Hok; lia|lia|].
  exists lm', (complete k rs). split_and!; try done.
  - by rewrite (lo_bytes _ _ Hok).
  - apply complete_prefix.
  - intros r Hr Hle. apply elem_of_prefix with (durable_part lm rs).
    + by apply list_elem_of_filter.
    + apply complete_contains; [|done]. eapply durable_prefix, Hok.
Qed.

End LM.

(** ** Transactional page allocation *)

(** The state the allocator works on: the database file and the log. *)
Record Storage : Type := mkStorage { sto_pages : PM.t; sto_log : LM.t }.

Definition on_pages {A} (m : M PM.t A) : M Storage A :=
  zoom sto_pages (fun p s => mkStorage p (sto_log s)) m.
Definition on_log {A} (m : M LM.t A) : M Storage A :=
  zoom sto_log (fun l s => mkStorage (sto_pages s) l) m.

(** [PageManager::allocate_transactional_page]; [LogManager::allocate_page] forwards to it. *)
Definition allocate_transactional_page (tx : Z) : M Storage PageId :=
  let! id := on_pages PM.reserve_page in
  on_log (LM.append_page_allocate tx id) ;;
  on_log LM.flush ;;
  on_pages (PM.activate_reserved_page id) ;;
  ret id.

Lemma wp_on_pages {A} (m : M PM.t A) s Q :
  wp m (sto_pages s) (fun r p => Q r (mkStorage p (sto_log s))) -> wp (on_pages m) s Q.
Proof. intros H. by apply wp_zoom. Qed.

Lemma wp_on_log {A} (m : M LM.t A) s Q :
  wp m (sto_log s) (fun r l => Q r (mkStorage (sto_pages s) l)) -> wp (on_log m) s Q.
Proof. intros H. by apply wp_zoom. Qed.

Lemma append_allocate_spec lm rs tx id :
  LM.lm_ok lm rs -> is_u64 tx -> is_u64 id -> is_valid id = true -> LM.next_lsn_ lm + 1 < 2 ^ 64 ->
  wp (LM.append_page_allocate tx id) lm (fun r lm' =>
    LM.next_lsn_ lm' = LM.next_lsn_ lm + 1 /\ LM.fail_next_flush_ lm' = LM.fail_next_flush_ lm /\
    (forall lsn, r = Ok lsn ->
       LM.lm_ok lm' (rs ++ [mkRecord (LM.next_lsn_ lm) tx PageAllocate (le_bytes 8 id)])) /\
    (LM.lm_healthy lm -> LM.lm_healthy lm' /\ r = Ok (LM.next_lsn_ lm))).
Proof.
  intros Hok Htx Hid Hv Hn. unfold LM.append_page_allocate, encode_page_allocate, require. rewrite Hv.
  apply wp_bind, wp_lift.
  wp_use LM.append_spec; [done|done|apply le_bytes_is_byte|done|].
  intros r lm' (Hn' & _ & Hf & Hr & Hh). split_and!; [done|done| |].
  - intros lsn ->. apply Hr.
  - intros H. apply Hh in H as [? H]. split; [done|]. by apply H.
Qed.

(** What changes between [s] and [s']: at most page [id] became allocated, and only with the
    record [new] at the end of the log and durable. *)
Record alloc_logged (s : Storage) (rs : list WalRecord) (id : PageId) (new : WalRecord) (s' : Storage) : Prop := {
  al_ok : PM.pm_ok (sto_pages s');
  al_new : forall j, 0 <= j -> PM.is_page_allocated (sto_pages s') j = true ->
     PM.is_page_allocated (sto_pages s) j = true \/
     j = id /\ LM.records (sto_log s') = Ok (rs ++ [new]) /\ rec_lsn new <= LM.durable_lsn (sto_log s');
  al_kept : forall j, 0 <= j -> PM.is_page_allocated (sto_pages s) j = true ->
     PM.is_page_allocated (sto_pages s') j = true;
}.

Lemma alloc_logged_same s rs id new pm l :
  PM.pm_ok pm -> (forall j, 0 <= j -> PM.is_page_allocated pm j = PM.is_page_allocated (sto_pages s) j) ->
  alloc_logged s rs id new (mkStorage pm l).
Proof. intros Hok Hun. split; [done| |]; intros j Hj; simpl; rewrite Hun by done; auto. Qed.

Lemma allocate_spec s rs tx :
  PM.pm_ok (sto_pages s) -> LM.lm_ok (sto_log s) rs -> is_u64 tx ->
  LM.next_lsn_ (sto_log s) + 1 < 2 ^ 64 ->
  let id := PM.page_count_ (sto_pages s) in
  let new := mkRecord (LM.next_lsn_ (sto_log s)) tx PageAllocate (le_bytes 8 id) in
  wp (allocate_transactional_page tx) s (fun r s' =>
    alloc_logged s rs id new s' /\
    (forall id', r = Ok id' -> id' = id /\ PM.is_page_allocated (sto_pages s') id = true /\
       PM.stored_page (sto_pages s') id = Some (new_page id))).
Proof.
  intros Hpm Hlm Htx Hn id new. unfold allocate_transactional_page.
  wp_step. apply wp_on_pages. wp_use PM.reserve_page_spec; [done|].
  intros [id'|e] pm1 (Hok1 & Hbm & _ & _ & Hr & _).
  2:{ destruct Hr as [Hc _]. split; [|done]. apply alloc_logged_same; [done|].
      intros j _. unfold PM.is_page_allocated. by rewrite Hc, Hbm. }
  destruct Hr as (-> & Hc & Hlt & Hst & _). fold id in Hc, Hlt, Hst |- *.
  assert (0 <= id < 2 ^ 63) as Hid by (destruct Hpm; unfold id; PM.clia).
  pose proof (PM.reserved_unallocated _ _ Hpm Hlt Hc Hbm) as Hun.
  wp_step. apply wp_on_log. wp_use append_allocate_spec; [done|done|split; lia|by apply PM.page_valid|done|].
  intros [lsn|e] lm1 (Hn1 & _ & Hok2 & _); [|split; [by apply alloc_logged_same|done]].
  specialize (Hok2 _ eq_refl). wp_step. apply wp_on_log. wp_use LM.log_flush_spec; [done|].
  intros [[]|e] lm2 (Hok3 & _ & _ & Hd & _); [|split; [by apply alloc_logged_same|done]].
  destruct Hd as [_ Hd]. wp_step. apply wp_on_pages. simpl.
  assert (PM.is_page_allocated pm1 id = false) as Hfree.
  { rewrite Hun by lia. unfold PM.is_page_allocated, id. rewrite Z.ltb_irrefl. by rewrite andb_false_r. }
  apply wp_intro. intros r2 pm2 Hact.
  pose proof (wp_elim _ _ _ _ _ (PM.activate_spec pm1 id Hok1 (proj1 Hid)) Hact) as (Hok4 & _ & _ & Hst2 & _).
  assert (0 <= id < PM.page_count_ pm1) as Hid1 by lia.
  pose proof (wp_elim _ _ _ _ _ (PM.activate_allocated pm1 id Hok1 Hid1 Hfree) Hact) as Hal. cbn beta in Hal.
  assert (LM.records lm2 = Ok (rs ++ [new]) /\ rec_lsn new <= LM.durable_lsn lm2) as Hlog.
  { split; [by apply LM.lm_ok_records|]. unfold LM.durable_lsn. simpl in *. lia. }
  assert (alloc_logged s rs id new (mkStorage pm2 lm2)) as Hl.
  { split; [done| |]; intros j Hj; simpl; rewrite Hal, Hun by done; case_decide; auto. }
  destruct r2 as [[]|e]; [wp_step|]; (split; [done|]); [|done].
  intros id' Hid'. apply Ok_inj in Hid' as <-. cbn [sto_pages].
  rewrite Hst2, Hal by apply Hid. by rewrite decide_True.
Qed.

(** C7: A page becomes allocated only behind a durable log record.  Whatever fails in
    [allocate_transactional_page] and wherever, a page that is allocated afterwards and was not
    before is the next page of the file, its allocation record is the last record of the log,
    and the log's durable LSN covers it.  No allocated page is lost.  When the call returns,
    the page it names is allocated, zeroed, with PageLSN 0. *)
Theorem allocation_is_logged s rs tx r s' :
  PM.pm_ok (sto_pages s) -> LM.lm_ok (sto_log s) rs -> is_u64 tx ->
  LM.next_lsn_ (sto_log s) + 1 < 2 ^ 64 ->
  allocate_transactional_page tx s = (r, s') ->
  let id := PM.page_count_ (sto_pages s) in
  let new := mkRecord (LM.next_lsn_ (sto_log s)) tx PageAllocate (le_bytes 8 id) in
  (forall j, 0 <= j -> PM.is_page_allocated (sto_pages s') j = true ->
     PM.is_page_allocated (sto_pages s) j = true \/
     j = id /\ LM.records (sto_log s') = Ok (rs ++ [new]) /\ rec_lsn new <= LM.durable_lsn (sto_log s')) /\
  (forall j, 0 <= j -> PM.is_page_allocated (sto_pages s) j = true ->
     PM.is_page_allocated (sto_pages s') j = true) /\
  (forall id', r = Ok id' -> id' = id /\ PM.is_page_allocated (sto_pages s') id = true /\
     PM.stored_page (sto_pages s') id = Some (new_page id)).
Proof.
  intros Hpm Hlm Htx Hn H. eapply wp_elim in H; [|by eapply allocate_spec].
  destruct H as [[_ Hnew Hkept] Hr]. done.
Qed.

(** ** Witnesses *)

Definition lm_new : LM.t :=
  match LM.open LM.env_ok None [] with
  | (Ok lm, _) => lm
  | (Throw _, _) => LM.mk (open_stream [] []) 1 0 false
  end.
Definition lm_of (rs : list WalRecord) (faults : list (option Z)) (next durable : Z) : LM.t :=
  LM.mk (open_stream (log_bytes rs) faults) next durable false.

Lemma lm_new_ok : LM.lm_ok lm_new [].
Proof. split; [done|constructor|done|done|done]. Qed.

Lemma lm_of_ok rs faults next durable :
  Forall record_wf rs -> ascending 0 rs -> last_lsn rs < next < 2 ^ 64 -> 0 <= durable < next ->
  LM.lm_ok (lm_of rs faults next durable) rs.
Proof. by split. Qed.

(** The write of the second record stops after 17 bytes. *)
Lemma append_atomic_witness :
  let lm := lm_of [rec_begin] [None; Some 17] 2 1 in
  let lm' := (LM.append Commit 7 [] lm).2 in
  LM.records lm' = Ok [rec_begin] \/ LM.records lm' = Ok [rec_begin; mkRecord 2 7 Commit []].
Proof.
  apply (LM.append_atomic (lm_of [rec_begin] [None; Some 17] 2 1) [rec_begin] Commit 7 []
           (Throw (WalError "WAL append failed")) (LM.append Commit 7 [] (lm_of [rec_begin] [None; Some 17] 2 1)).2).
  - apply lm_of_ok; [constructor; [apply rec_example_wf; left|constructor]|done|done|done].
  - done.
  - constructor.
  - done.
  - by vm_compute.
Defined.

Definition lm_committed : LM.t := ((LM.append_commit 7 ;; LM.flush) lm_new).2.
Definition lm_later : LM.t := (for_each [LM.OBegin 8; LM.OAllocate 8 3] LM.run_op lm_committed).2.

(** The file is cut in the middle of the records that followed the commit. *)
Lemma commit_survives_crash_witness :
  LM.durable_lsn lm_committed = 1 /\
  exists lm3 file rs3,
    LM.open LM.env_ok (Some (take (Z.to_nat 61) (st_bytes (LM.file_ lm_later)))) [] = (Ok lm3, Some file) /\
    LM.records lm3 = Ok rs3 /\ [mkRecord 1 7 Commit []] `prefix_of` rs3.
Proof.
  apply (LM.commit_survives_crash lm_new [] 7 lm_committed [LM.OBegin 8; LM.OAllocate 8 3] (Ok tt) lm_later 61);
    [exact lm_new_ok|done|repeat constructor; done|done|by vm_compute|by vm_compute|by vm_compute].
Defined.

Lemma reopen_after_crash_witness :
  let lm := lm_of [rec_begin; rec_alloc; rec_commit] [] 4 2 in
  exists lm' rs', LM.open LM.env_ok (Some (take (Z.to_nat 100) (st_bytes (LM.file_ lm)))) [] =
      (Ok lm', Some (log_bytes rs')) /\
    rs' `prefix_of` [rec_begin; rec_alloc; rec_commit] /\
    (forall r, r ∈ [rec_begin; rec_alloc; rec_commit] -> rec_lsn r <= 2 -> r ∈ rs') /\
    LM.lm_ok lm' rs' /\ LM.next_lsn lm' = last_lsn rs' + 1 /\ LM.durable_lsn lm' = last_lsn rs'.
Proof.
  apply (LM.reopen_after_crash (lm_of [rec_begin; rec_alloc; rec_commit] [] 4 2)
           [rec_begin; rec_alloc; rec_commit] 100); [|done|by vm_compute].
  apply lm_of_ok; [exact rec_examples_wf|done|done|done].
Defined.

Definition storage_new : Storage := mkStorage PM.pm_new lm_new.
Definition storage_one : Storage := (allocate_transactional_page 7 storage_new).2.

Lemma allocation_is_logged_witness :
  (allocate_transactional_page 7 storage_new).1 = Ok 0 /\
  PM.is_page_allocated (sto_pages storage_one) 0 = true /\
  PM.stored_page (sto_pages storage_one) 0 = Some (new_page 0).
Proof.
  assert ((allocate_transactional_page 7 storage_new).1 = Ok 0) as Hr by (vm_compute; reflexivity).
  split; [exact Hr|].
  refine (proj2 (proj2 (proj2 (allocation_is_logged storage_new [] 7 (Ok 0) storage_one _ _ _ _ _)) 0 eq_refl)).
  - apply PM.pm_new_synced.
  - exact lm_new_ok.
  - done.
  - done.
  - rewrite <- Hr. apply surjective_pairing.
Defined.

(** ** An append behind a torn one *)

Definition lm_torn : LM.t := lm_of [rec_begin] [None; Some 17] 2 1.

(** A torn append poisons the log.  After an append failed halfway, the next append is put
    behind the torn bytes and succeeds, and so does the flush, which reports the commit as
    durable; but the scan that reopening uses fails on the torn record, and recovery cannot
    read the log, the acknowledged commit included. *)
Theorem append_after_torn_append :
  let lm1 := (LM.append_page_allocate 7 5 lm_torn).2 in
  let lm2 := ((LM.append_commit 7 ;; LM.flush) lm1).2 in
  (LM.append_page_allocate 7 5 lm_torn).1 = Throw (WalError "WAL append failed") /\
  ((LM.append_commit 7 ;; LM.flush) lm1).1 = Ok tt /\ LM.durable_lsn lm2 = 3 /\
  LM.records lm2 = Throw (WalError "invalid WAL payload length").
Proof. by vm_compute. Qed.
