(* ===== verification/BufferPool.v ===== *)
(** * BufferPoolManager: the page cache

    Models src/buffer/buffer_pool_manager.cpp and include/ddb/buffer/buffer_pool_manager.h
    over any page store that implements PageStore.v.  Frames are a list, the page table a
    finite map, the free list a list whose back is its last element, the LRU list a list with
    the set of frames that have a recorded position in it.  The pointer [fetch_page] returns is
    the frame's index; a client writes through it with [write_frame].  The durable LSN of the
    log ([WalDurabilityProvider]) is an argument of the operations that may write a page, [None]
    when the pool has no provider. *)

From S2P Require Import Prelude Bytes Page Stream PageStore PageManager.

Module BP.

(** ** State *)

Record Frame : Type := mkFrame {
  fr_page : Page;
  fr_pin : Z;
  fr_dirty : bool;
  fr_occupied : bool;
  fr_pending : Z;
}.

Definition empty_frame : Frame := mkFrame (new_page kInvalidValue) 0 false false 0.

Record Stats : Type := mkStats { fetches : Z; cache_hits : Z; disk_reads : Z; disk_writes : Z }.

Record t : Type := mk {
  frames_ : list Frame;
  page_table_ : gmap Z nat;
  free_frames_ : list nat;
  lru_ : list nat;
  lru_positions_ : gset nat;
  stats_ : Stats;
}.

Definition set_frames (v : list Frame) (s : t) : t :=
  mk v (page_table_ s) (free_frames_ s) (lru_ s) (lru_positions_ s) (stats_ s).
Definition set_page_table (v : gmap Z nat) (s : t) : t :=
  mk (frames_ s) v (free_frames_ s) (lru_ s) (lru_positions_ s) (stats_ s).
Definition set_free (v : list nat) (s : t) : t :=
  mk (frames_ s) (page_table_ s) v (lru_ s) (lru_positions_ s) (stats_ s).
Definition set_lru (l : list nat) (p : gset nat) (s : t) : t :=
  mk (frames_ s) (page_table_ s) (free_frames_ s) l p (stats_ s).
Definition set_stats (v : Stats) (s : t) : t :=
  mk (frames_ s) (page_table_ s) (free_frames_ s) (lru_ s) (lru_positions_ s) v.

Definition set_page (v : Page) (f : Frame) : Frame :=
  mkFrame v (fr_pin f) (fr_dirty f) (fr_occupied f) (fr_pending f).
Definition set_pin (v : Z) (f : Frame) : Frame :=
  mkFrame (fr_page f) v (fr_dirty f) (fr_occupied f) (fr_pending f).
Definition set_dirty (v : bool) (f : Frame) : Frame :=
  mkFrame (fr_page f) (fr_pin f) v (fr_occupied f) (fr_pending f).
Definition set_occupied (v : bool) (f : Frame) : Frame :=
  mkFrame (fr_page f) (fr_pin f) (fr_dirty f) v (fr_pending f).
Definition set_pending (v : Z) (f : Frame) : Frame :=
  mkFrame (fr_page f) (fr_pin f) (fr_dirty f) (fr_occupied f) v.

Definition kMaxU32 : Z := 2 ^ 32 - 1.

(** [frames_[i]]; the pool's invariant keeps every index in range. *)
Definition frame (s : t) (i : nat) : Frame := default empty_frame (frames_ s !! i).
Definition upd_frame (i : nat) (f : Frame -> Frame) (s : t) : t :=
  set_frames (<[i := f (frame s i)]> (frames_ s)) s.

Definition count_fetch (s : t) : t :=
  set_stats (mkStats (to_u64 (fetches (stats_ s) + 1)) (cache_hits (stats_ s))
               (disk_reads (stats_ s)) (disk_writes (stats_ s))) s.
Definition count_hit (s : t) : t :=
  set_stats (mkStats (fetches (stats_ s)) (to_u64 (cache_hits (stats_ s) + 1))
               (disk_reads (stats_ s)) (disk_writes (stats_ s))) s.
Definition count_read (s : t) : t :=
  set_stats (mkStats (fetches (stats_ s)) (cache_hits (stats_ s))
               (to_u64 (disk_reads (stats_ s) + 1)) (disk_writes (stats_ s))) s.
Definition count_write (s : t) : t :=
  set_stats (mkStats (fetches (stats_ s)) (cache_hits (stats_ s))
               (disk_reads (stats_ s)) (to_u64 (disk_writes (stats_ s) + 1))) s.

(** [BufferPoolManager(page_manager, capacity)]: frame 0 is handed out first. *)
Definition create (capacity : nat) : t :=
  mk (replicate capacity empty_frame) ∅ (reverse (seq 0 capacity)) [] ∅ (mkStats 0 0 0 0).

(** ** Observers *)

Definition contains (s : t) (id : PageId) : bool := bool_decide (is_Some (page_table_ s !! id)).
Definition pin_count (s : t) (id : PageId) : option Z := (fun i => fr_pin (frame s i)) <$> page_table_ s !! id.
Definition is_dirty (s : t) (id : PageId) : option bool := (fun i => fr_dirty (frame s i)) <$> page_table_ s !! id.
Definition pending_mutation_count (s : t) (id : PageId) : option Z :=
  (fun i => fr_pending (frame s i)) <$> page_table_ s !! id.
Definition capacity (s : t) : Z := zlen (frames_ s).
Definition cached_page_count (s : t) : Z := Z.of_nat (size (page_table_ s)).

(** ** Frame bookkeeping *)

(** The iterator [lru_positions_] records for a frame is the frame's entry of [lru_]. *)
Definition remove_from_lru (i : nat) (s : t) : t :=
  if decide (i ∈ lru_positions_ s)
  then set_lru (filter (fun j => j <> i) (lru_ s)) (lru_positions_ s ∖ {[i]}) s else s.

Definition make_evictable (i : nat) (s : t) : t :=
  let s := remove_from_lru i s in
  set_lru (lru_ s ++ [i]) ({[i]} ∪ lru_positions_ s) s.

Definition reset_frame (i : nat) (s : t) : t := upd_frame i (fun _ => empty_frame) s.

Section operations.
Context {P : Type} `{PageStore P}.

(** The pool and the page manager it works on. *)
Abbreviation st := (t * P)%type.

Definition on_pool (f : t -> t) : M st unit := modify (fun s => (f s.1, s.2)).
Definition on_store {A} (m : M P A) : M st A := zoom snd (fun p s => (s.1, p)) m.
Definition pool : M st t := gets fst.

(** ** Write-back *)

Definition require_mutations_finalized (f : Frame) : M st unit :=
  throw_if (negb (fr_pending f =? 0)) (LogicError "page write blocked until captured mutations have PageLSNs").

Definition wal_covers (wal : option Z) (lsn : Z) : bool :=
  (lsn =? 0) || match wal with None => false | Some durable => negb (durable <? lsn) end.

Definition require_wal_durable (wal : option Z) (f : Frame) : M st unit :=
  throw_if (negb (wal_covers wal (page_lsn (fr_page f))))
    (WalDurabilityError "page write blocked until WAL is durable through PageLSN").

Definition write_dirty_frame (wal : option Z) (i : nat) : M st unit :=
  let! s := pool in
  let f := frame s i in
  if fr_dirty f then
    require_mutations_finalized f ;;
    require_wal_durable wal f ;;
    on_store (ps_write (page_id (fr_page f)) (fr_page f)) ;;
    on_pool count_write ;;
    on_pool (upd_frame i (set_dirty false))
  else ret tt.

(** ** Fetching *)

Definition acquire_frame (wal : option Z) : M st (option nat) :=
  let! s := pool in
  match list.last (free_frames_ s) with
  | Some i => on_pool (set_free (removelast (free_frames_ s))) ;; ret (Some i)
  | None =>
      match lru_ s with
      | [] => ret None
      | victim :: _ =>
          write_dirty_frame wal victim ;;
          on_pool (fun s => set_lru (tail (lru_ s)) (lru_positions_ s ∖ {[victim]}) s) ;;
          on_pool (fun s => set_page_table (delete (page_id (fr_page (frame s victim))) (page_table_ s)) s) ;;
          on_pool (reset_frame victim) ;;
          ret (Some victim)
      end
  end.

(** Gives a frame back to the free list. *)
Definition release_frame (i : nat) : M st unit :=
  on_pool (reset_frame i) ;; on_pool (fun s => set_free (free_frames_ s ++ [i]) s).

(** The part of [fetch_page] behind a successful [acquire_frame]. *)
Definition load_page (id : PageId) (i : nat) : M st (option nat) :=
  on_throw
    (let! pg := on_store (ps_read id) in
     on_pool (upd_frame i (set_page pg)) ;;
     on_pool count_read)
    (release_frame i) ;;
  on_pool (upd_frame i (fun f => set_occupied true (set_dirty false (set_pin 1 f)))) ;;
  on_throw
    (let! s := pool in
     throw_if (bool_decide (is_Some (page_table_ s !! id))) (LogicError "duplicate page-table insertion") ;;
     on_pool (set_page_table (<[id := i]> (page_table_ s))))
    (release_frame i) ;;
  ret (Some i).

Definition fetch_page (wal : option Z) (id : PageId) : M st (option nat) :=
  on_pool count_fetch ;;
  if negb (is_valid id) then ret None
  else
  let! s := get in
  throw_if (negb (ps_allocated s.2 id)) (StorageError "cannot fetch logically unallocated page") ;;
  match page_table_ s.1 !! id with
  | Some i =>
      if fr_pin (frame s.1 i) =? kMaxU32 then ret None
      else
        on_pool (upd_frame i (fun f => set_pin (fr_pin f + 1) f)) ;;
        on_pool (remove_from_lru i) ;;
        on_pool count_hit ;;
        ret (Some i)
  | None =>
      let! acquired := acquire_frame wal in
      match acquired with
      | None => ret None
      | Some i => load_page id i
      end
  end.

Definition unpin_page (id : PageId) (dirty : bool) : M st bool :=
  let! s := pool in
  match page_table_ s !! id with
  | None => ret false
  | Some i =>
      if fr_pin (frame s i) =? 0 then ret false
      else
        on_pool (upd_frame i (fun f => set_dirty (fr_dirty f || dirty) (set_pin (fr_pin f - 1) f))) ;;
        (let! s := pool in
         if fr_pin (frame s i) =? 0 then on_pool (make_evictable i) else ret tt) ;;
        ret true
  end.

(** A client's write through the pointer it holds: [memcpy] into [data()] and [set_lsn]. *)
Definition write_frame (i : nat) (f : Page -> Page) : M st unit :=
  on_pool (upd_frame i (fun fr => set_page (f (fr_page fr)) fr)).

(** ** Flushing and deleting *)

Definition flush_page (wal : option Z) (id : PageId) : M st bool :=
  let! s := pool in
  match page_table_ s !! id with
  | None => ret false
  | Some i =>
      let f := frame s i in
      (if fr_dirty f then require_mutations_finalized f ;; require_wal_durable wal f else ret tt) ;;
      on_store (ps_write id (fr_page f)) ;;
      on_pool count_write ;;
      on_store ps_flush ;;
      on_pool (upd_frame i (set_dirty false)) ;;
      ret true
  end.

Definition delete_page (wal : option Z) (id : PageId) : M st bool :=
  let! s := pool in
  match page_table_ s !! id with
  | None => ret true
  | Some i =>
      if negb (fr_pin (frame s i) =? 0) then ret false
      else
        write_dirty_frame wal i ;;
        on_pool (remove_from_lru i) ;;
        on_pool (fun s => set_page_table (delete id (page_table_ s)) s) ;;
        release_frame i ;;
        ret true
  end.

(** The body of the first loop of [flush_all_pages]. *)
Definition flush_frame (wal : option Z) (i : nat) : M st unit :=
  let! s := pool in
  let f := frame s i in
  if fr_occupied f && fr_dirty f then
    require_mutations_finalized f ;;
    require_wal_durable wal f ;;
    on_store (ps_write (page_id (fr_page f)) (fr_page f)) ;;
    on_pool count_write
  else ret tt.

Definition clear_dirty (f : Frame) : Frame := if fr_occupied f then set_dirty false f else f.

Definition flush_all_pages (wal : option Z) : M st unit :=
  let! s := pool in
  for_each (seq 0 (length (frames_ s))) (flush_frame wal) ;;
  on_store ps_flush ;;
  on_pool (fun s => set_frames (clear_dirty <$> frames_ s) s).

(** [~BufferPoolManager]: what [flush_all_pages] throws is dropped. *)
Definition destroy (wal : option Z) (s : st) : st := (flush_all_pages wal s).2.

(** ** Pending mutations and PageLSNs *)

Definition mark_mutation_pending (id : PageId) : M st unit :=
  let! s := pool in
  match page_table_ s !! id with
  | None => throw (LogicError "pending mutation requires a pinned page")
  | Some i =>
      throw_if (fr_pin (frame s i) =? 0) (LogicError "pending mutation requires a pinned page") ;;
      throw_if (fr_pending (frame s i) =? kMaxU32) (OverflowError "too many pending page mutations") ;;
      on_pool (upd_frame i (fun f => set_pending (fr_pending f + 1) f))
  end.

(** [frame.page.set_lsn(lsn)] *)
Definition stamp_lsn (lsn : Z) (f : Frame) : Frame := set_page (set_lsn lsn (fr_page f)) f.

Definition finalize_pending_mutation (id : PageId) (lsn : Z) : M st unit :=
  let! s := pool in
  match page_table_ s !! id with
  | None => throw (LogicError "mutation page is no longer resident")
  | Some i =>
      throw_if (fr_pending (frame s i) =? 0) (LogicError "no pending mutation for page") ;;
      throw_if (lsn =? 0) (InvalidArgument "a finalized mutation requires a nonzero LSN") ;;
      on_pool (upd_frame i (stamp_lsn lsn)) ;;
      on_pool (upd_frame i (fun f => set_pending (fr_pending f - 1) f))
  end.

Definition resolve_pending_mutation (id : PageId) (restored : Z) : M st unit :=
  let! s := pool in
  match page_table_ s !! id with
  | None => throw (LogicError "mutation page is no longer resident")
  | Some i =>
      throw_if (fr_pending (frame s i) =? 0) (LogicError "no pending mutation for page") ;;
      on_pool (upd_frame i (stamp_lsn restored)) ;;
      on_pool (upd_frame i (fun f => set_pending (fr_pending f - 1) f))
  end.

Definition restore_page_lsn_after_undo (id : PageId) (restored : Z) : M st unit :=
  let! s := pool in
  match page_table_ s !! id with
  | None => throw (LogicError "undo page is no longer resident")
  | Some i =>
      throw_if (negb (fr_pending (frame s i) =? 0))
        (LogicError "cannot restore PageLSN before pending mutations are resolved") ;;
      on_pool (upd_frame i (stamp_lsn restored))
  end.

End operations.

(** ** The self-check *)

Definition validate_invariants (s : t) : bool :=
  bool_decide (size (page_table_ s) + length (free_frames_ s) = length (frames_ s))%nat &&
  forallb (fun '(id, i) =>
    bool_decide (i < length (frames_ s))%nat && fr_occupied (frame s i) &&
    (page_id (fr_page (frame s i)) =? id) &&
    eqb (fr_pin (frame s i) =? 0) (bool_decide (i ∈ lru_positions_ s))) (map_to_list (page_table_ s)) &&
  forallb (fun i =>
    bool_decide (i < length (frames_ s))%nat && negb (fr_occupied (frame s i)) &&
    negb (bool_decide (i ∈ lru_positions_ s))) (free_frames_ s) &&
  bool_decide (length (lru_ s) = size (lru_positions_ s)) &&
  forallb (fun i =>
    bool_decide (i < length (frames_ s))%nat && fr_occupied (frame s i) &&
    (fr_pin (frame s i) =? 0)) (lru_ s).

(** ** Invariant *)

Record frame_ok (f : Frame) : Prop := {
  fo_pin : 0 <= fr_pin f <= kMaxU32;
  fo_pending : 0 <= fr_pending f <= kMaxU32;
  fo_page : page_wf (fr_page f);
}.

(** The bookkeeping is consistent; [hole] is a frame that was taken from the free list or from
    a victim and does not hold a page yet. *)
Record pool_wf (hole : option nat) (s : t) : Prop := {
  wf_free_nodup : NoDup (free_frames_ s);
  wf_lru_nodup : NoDup (lru_ s);
  wf_positions : lru_positions_ s = list_to_set (lru_ s);
  wf_table : forall id i, page_table_ s !! id = Some i ->
    exists f, frames_ s !! i = Some f /\ fr_occupied f = true /\ page_id (fr_page f) = id;
  wf_occupied : forall i f, frames_ s !! i = Some f -> fr_occupied f = true ->
    page_table_ s !! page_id (fr_page f) = Some i;
  wf_free : forall i, i ∈ free_frames_ s <->
    (exists f, frames_ s !! i = Some f /\ fr_occupied f = false) /\ hole <> Some i;
  wf_lru : forall i, i ∈ lru_ s <->
    exists f, frames_ s !! i = Some f /\ fr_occupied f = true /\ fr_pin f = 0;
  wf_frames : forall i f, frames_ s !! i = Some f -> frame_ok f;
  wf_hole : forall i, hole = Some i -> exists f, frames_ s !! i = Some f /\ fr_occupied f = false;
}.

Lemma frame_lookup s i f : frames_ s !! i = Some f -> frame s i = f.
Proof. unfold frame. by intros ->. Qed.

Lemma empty_frame_ok : frame_ok empty_frame.
Proof.
  split; [done|done|]. apply new_page_wf. done.
Qed.

Lemma upd_frame_lookup s i j f g :
  frames_ s !! i = Some f ->
  frames_ (upd_frame i g s) !! j = if decide (j = i) then Some (g f) else frames_ s !! j.
Proof.
  intros Hi. simpl. rewrite (frame_lookup _ _ _ Hi). case_decide as Hd.
  - subst. rewrite list_lookup_insert_eq; [done|]. by eapply lookup_lt_Some.
  - by rewrite list_lookup_insert_ne.
Qed.

(** Case analysis on whether a looked-up frame is the updated one. *)
Ltac upd_cases Hi :=
  repeat match goal with
  | H : context [frames_ (upd_frame _ _ _) !! _] |- _ =>
      rewrite (upd_frame_lookup _ _ _ _ _ Hi) in H; case_decide; simplify_eq/=
  | |- context [frames_ (upd_frame _ _ _) !! _] =>
      rewrite (upd_frame_lookup _ _ _ _ _ Hi); case_decide; simplify_eq/=
  end.

Lemma create_wf n : pool_wf None (create n).
Proof.
  split; simpl.
  - rewrite reverse_Permutation. apply NoDup_seq.
  - apply NoDup_nil_2.
  - done.
  - intros id i. by rewrite lookup_empty.
  - intros i f Hi. apply lookup_replicate in Hi as [-> _]. done.
  - intros i. rewrite elem_of_reverse, elem_of_seq. split.
    + intros. split; [|done]. exists empty_frame. split; [|done]. apply lookup_replicate. split; [done|lia].
    + intros [(f & Hf & _) _]. apply lookup_replicate in Hf as [_ ?]. lia.
  - intros i. split; [by intros ?%not_elem_of_nil|].
    intros (f & Hf & Ho & _). apply lookup_replicate in Hf as [-> _]. done.
  - intros i f Hi. apply lookup_replicate in Hi as [-> _]. apply empty_frame_ok.
  - done.
Qed.

Lemma wf_stats hole s v : pool_wf hole s -> pool_wf hole (set_stats v s).
Proof. by destruct 1; split. Qed.

(** A change of one frame that keeps what the bookkeeping looks at. *)
Lemma wf_upd hole s i f g :
  pool_wf hole s -> frames_ s !! i = Some f -> frame_ok (g f) ->
  fr_occupied (g f) = fr_occupied f -> page_id (fr_page (g f)) = page_id (fr_page f) ->
  (fr_pin (g f) = 0 <-> fr_pin f = 0) -> pool_wf hole (upd_frame i g s).
Proof.
  intros Hwf Hi Hok Ho Hp Hz. pose proof Hwf as []. split; try done.
  - intros id j Hj. apply wf_table0 in Hj as (f' & Hf' & Ho' & Hid). upd_cases Hi; eauto.
  - intros j f' Hj Hf'. upd_cases Hi; [|eauto]. rewrite Hp. apply wf_occupied0; congruence.
  - intros j. rewrite wf_free0. f_equiv. upd_cases Hi; [|done].
    split; intros (f' & Hf' & Hx); simplify_eq; eexists; split; eauto; congruence.
  - intros j. rewrite wf_lru0. upd_cases Hi; [|done].
    split; intros (f' & Hf' & Hx & Hy); simplify_eq; eexists; split_and!; eauto; try congruence; tauto.
  - intros j f' Hj. upd_cases Hi; eauto.
  - intros j Hj. apply wf_hole0 in Hj as (f' & Hf' & Hx). upd_cases Hi; eauto.
Qed.

Lemma remove_from_lru_wf_fields i s :
  NoDup (lru_ s) -> lru_positions_ s = list_to_set (lru_ s) ->
  NoDup (lru_ (remove_from_lru i s)) /\
  lru_positions_ (remove_from_lru i s) = list_to_set (lru_ (remove_from_lru i s)) /\
  (forall j, j ∈ lru_ (remove_from_lru i s) <-> j ∈ lru_ s /\ j <> i) /\
  frames_ (remove_from_lru i s) = frames_ s /\ page_table_ (remove_from_lru i s) = page_table_ s /\
  free_frames_ (remove_from_lru i s) = free_frames_ s /\ stats_ (remove_from_lru i s) = stats_ s.
Proof.
  intros Hn Hp. unfold remove_from_lru. case_decide as Hd; simpl.
  - split_and!; try done.
    + by apply list.NoDup_filter.
    + rewrite Hp. apply set_eq. intros j.
      rewrite elem_of_difference, elem_of_singleton, !elem_of_list_to_set, list_elem_of_filter. tauto.
    + intros j. rewrite list_elem_of_filter. tauto.
  - split_and!; try done. intros j. split; [|tauto]. intros Hj. split; [done|].
    intros ->. apply Hd. by rewrite Hp, elem_of_list_to_set.
Qed.

(** Pinning an occupied frame takes it off the LRU list. *)
Lemma wf_pin hole s i f :
  pool_wf hole s -> frames_ s !! i = Some f -> fr_occupied f = true -> fr_pin f < kMaxU32 ->
  pool_wf hole (remove_from_lru i (upd_frame i (fun f => set_pin (fr_pin f + 1) f) s)).
Proof.
  intros Hwf Hi Ho Hlt. pose proof Hwf as [].
  set (s1 := upd_frame _ _ s).
  destruct (remove_from_lru_wf_fields i s1) as (Hn & Hp & Hl & Hfr & Hpt & Hfree & _); [done..|].
  assert (frame_ok f) as [] by eauto.
  split; rewrite ?Hfr, ?Hpt, ?Hfree; try done.
  - intros id j Hj. apply wf_table0 in Hj as (f' & Hf' & Ho' & Hid). unfold s1. upd_cases Hi; eauto.
  - unfold s1. intros j f' Hj Hf'. upd_cases Hi; eauto.
  - unfold s1. intros j. rewrite (wf_free0 j : j ∈ free_frames_ (upd_frame _ _ s) <-> _). f_equiv.
    upd_cases Hi; [|done]. split; intros (f' & Hf' & Hx); simplify_eq/=; congruence.
  - unfold s1 in *. intros j. rewrite Hl, (wf_lru0 j : j ∈ lru_ (upd_frame _ _ s) <-> _). upd_cases Hi.
    + split; [tauto|]. intros (f' & ? & _ & Hz). simplify_eq/=. lia.
    + tauto.
  - unfold s1. intros j f' Hj. upd_cases Hi; eauto. split; simpl; [lia|done|done].
  - unfold s1. intros j Hj. apply wf_hole0 in Hj as (f' & Hf' & Hx). upd_cases Hi; eauto.
Qed.

(** Dropping the last pin of a frame puts it at the back of the LRU list. *)
Lemma wf_unpin_last hole s i f d :
  pool_wf hole s -> frames_ s !! i = Some f -> fr_occupied f = true -> fr_pin f = 1 ->
  pool_wf hole (make_evictable i
    (upd_frame i (fun f => set_dirty (fr_dirty f || d) (set_pin (fr_pin f - 1) f)) s)).
Proof.
  intros Hwf Hi Ho H1. pose proof Hwf as [].
  set (s1 := upd_frame _ _ s). unfold make_evictable.
  destruct (remove_from_lru_wf_fields i s1) as (Hn & Hp & Hl & Hfr & Hpt & Hfree & _); [done..|].
  assert (frame_ok f) as [] by eauto.
  split; simpl; rewrite ?Hfr, ?Hpt, ?Hfree; try done.
  - apply list.NoDup_app. split_and!; [done| |apply NoDup_singleton].
    intros j Hj. rewrite list_elem_of_singleton. apply Hl in Hj. tauto.
  - rewrite Hp. apply set_eq. intros j.
    rewrite elem_of_union, !elem_of_list_to_set, elem_of_app, list_elem_of_singleton, elem_of_singleton. tauto.
  - intros id j Hj. apply wf_table0 in Hj as (f' & Hf' & Ho' & Hid). unfold s1. upd_cases Hi; eauto.
  - unfold s1. intros j f' Hj Hf'. upd_cases Hi; eauto.
  - unfold s1. intros j. rewrite (wf_free0 j : j ∈ free_frames_ (upd_frame _ _ s) <-> _). f_equiv.
    upd_cases Hi; [|done]. split; intros (f' & Hf' & Hx); simplify_eq/=; congruence.
  - unfold s1 in *. intros j. rewrite elem_of_app, list_elem_of_singleton, Hl, (wf_lru0 j : j ∈ lru_ (upd_frame _ _ s) <-> _).
    upd_cases Hi; [|tauto]. split; [|by right]. intros _. eexists. split; [done|]. simpl. split; [done|lia].
  - unfold s1. intros j f' Hj. upd_cases Hi; eauto. split; simpl; [lia|done|done].
  - unfold s1. intros j Hj. apply wf_hole0 in Hj as (f' & Hf' & Hx). upd_cases Hi; eauto.
Qed.

(** Taking an unpinned page out of the pool leaves its frame as the hole. *)
Lemma wf_detach s i f lru' pos' :
  pool_wf None s -> frames_ s !! i = Some f -> fr_occupied f = true ->
  NoDup lru' -> pos' = list_to_set lru' -> (forall j, j ∈ lru' <-> j ∈ lru_ s /\ j <> i) ->
  pool_wf (Some i)
    (reset_frame i (set_page_table (delete (page_id (fr_page f)) (page_table_ s)) (set_lru lru' pos' s))).
Proof.
  intros Hwf Hi Ho Hn Hp Hl. pose proof Hwf as [].
  unfold reset_frame. set (s1 := set_page_table _ _). assert (frames_ s1 !! i = Some f) as Hi1 by done.
  split; try done.
  - intros id j Hj. simpl in Hj. apply lookup_delete_Some in Hj as [Hne Hj].
    apply wf_table0 in Hj as (f' & Hf' & Ho' & Hid). upd_cases Hi1; eauto.
  - intros j f' Hj Hf'. upd_cases Hi1. change (frames_ s1) with (frames_ s) in *.
    simpl. apply lookup_delete_Some. split; [|eauto]. intros Heq.
    pose proof (wf_occupied0 _ _ Hi Ho) as H1. pose proof (wf_occupied0 _ _ Hj Hf') as H2. congruence.
  - intros j. rewrite (wf_free0 j : j ∈ free_frames_ (upd_frame _ _ s1) <-> _).
    rewrite (upd_frame_lookup s1 i j f _ Hi1). change (frames_ s1) with (frames_ s). case_decide as Hd.
    + subst. split; [|naive_solver]. intros [(f' & Hf' & Hx) _]. congruence.
    + split; intros [? _]; (split; [done|congruence]).
  - intros j. rewrite (Hl j : j ∈ lru_ (upd_frame _ _ s1) <-> _), wf_lru0.
    rewrite (upd_frame_lookup s1 i j f _ Hi1). change (frames_ s1) with (frames_ s). case_decide as Hd.
    + subst. split; [tauto|]. intros (f' & ? & Hx & _). simplify_eq/=.
    + tauto.
  - intros j f' Hj. upd_cases Hi1; [apply empty_frame_ok|eauto].
  - intros j [= <-]. upd_cases Hi1. eauto.
Qed.

(** The hole goes back to the free list. *)
Lemma wf_release s i :
  pool_wf (Some i) s -> pool_wf None (set_free (free_frames_ s ++ [i]) (reset_frame i s)).
Proof.
  intros Hwf. pose proof Hwf as []. destruct (wf_hole0 i eq_refl) as (f & Hi & Hf).
  unfold reset_frame. set (s1 := set_free _ _).
  assert (frames_ s1 = frames_ (upd_frame i (fun _ => empty_frame) s)) as Hfr by done.
  split; simpl; try done; fold (frames_ s1); rewrite ?Hfr.
  - apply list.NoDup_app. split_and!; [done| |apply NoDup_singleton].
    intros j Hj. rewrite list_elem_of_singleton. intros ->. apply wf_free0 in Hj as [_ Hj]. done.
  - intros id j Hj. apply wf_table0 in Hj as (f' & Hf' & Ho' & Hid).
    change (<[i:=empty_frame]> (frames_ s)) with (frames_ (upd_frame i (fun _ => empty_frame) s)).
    upd_cases Hi; [congruence|eauto].
  - intros j f'.
    change (<[i:=empty_frame]> (frames_ s)) with (frames_ (upd_frame i (fun _ => empty_frame) s)).
    intros Hj Hf'. upd_cases Hi; eauto.
  - intros j. rewrite elem_of_app, list_elem_of_singleton, wf_free0.
    change (<[i:=empty_frame]> (frames_ s)) with (frames_ (upd_frame i (fun _ => empty_frame) s)).
    upd_cases Hi.
    + split; [|by right]. intros _. split; [eauto|done].
    + split; [intros [[? _]|?]; done|]. intros [? _]. left. split; [done|congruence].
  - intros j. rewrite wf_lru0.
    change (<[i:=empty_frame]> (frames_ s)) with (frames_ (upd_frame i (fun _ => empty_frame) s)).
    upd_cases Hi; [|done]. split; intros (f' & ? & Hx & _); simplify_eq/=; congruence.
  - intros j f'.
    change (<[i:=empty_frame]> (frames_ s)) with (frames_ (upd_frame i (fun _ => empty_frame) s)).
    intros Hj. upd_cases Hi; [apply empty_frame_ok|eauto].
Qed.

(** The hole receives page [id]. *)
Lemma wf_occupy s i f g id :
  pool_wf (Some i) s -> frames_ s !! i = Some f -> page_table_ s !! id = None ->
  fr_occupied (g f) = true -> page_id (fr_page (g f)) = id -> 0 < fr_pin (g f) -> frame_ok (g f) ->
  pool_wf None (set_page_table (<[id := i]> (page_table_ s)) (upd_frame i g s)).
Proof.
  intros Hwf Hi Hid Ho Hp Hpin Hok. pose proof Hwf as [].
  destruct (wf_hole0 i eq_refl) as (f0 & Hi' & Hf). rewrite Hi in Hi'. injection Hi' as <-.
  split; try done.
  - intros id' j Hj. simpl in Hj. apply lookup_insert_Some in Hj as [[-> ->]|[Hne Hj]].
    + exists (g f). split; [|done]. simpl. fold (frames_ (upd_frame j g s)).
      change (<[j:=g (frame s j)]> (frames_ s)) with (frames_ (upd_frame j g s)). upd_cases Hi. done.
    + apply wf_table0 in Hj as (f' & Hf' & Ho' & Hid').
      exists f'. split; [|done]. change (frames_ (upd_frame i g s) !! j = Some f').
      upd_cases Hi; [congruence|done].
  - intros j f' Hj Hf'. change (frames_ (upd_frame i g s) !! j = Some f') in Hj. simpl. upd_cases Hi.
    + by rewrite lookup_insert_eq.
    + rewrite lookup_insert_ne; [eauto|]. intros Heq. pose proof (wf_occupied0 _ _ Hj Hf') as Hx.
      rewrite <- Heq in Hx. congruence.
  - intros j. etrans; [apply (wf_free0 j)|]. cbn [set_page_table frames_]. upd_cases Hi.
    + split; [naive_solver|]. intros [(f' & ? & ?) _]. simplify_eq/=. congruence.
    + split; intros [? _]; (split; [done|congruence]).
  - intros j. etrans; [apply (wf_lru0 j)|]. cbn [set_page_table frames_]. upd_cases Hi; [|done].
    split; intros (f' & ? & ? & ?); simplify_eq/=; [congruence|lia].
  - intros j f' Hj. change (frames_ (upd_frame i g s) !! j = Some f') in Hj. upd_cases Hi; eauto.
Qed.

(** The last free frame becomes the hole. *)
Lemma wf_pop s i :
  pool_wf None s -> list.last (free_frames_ s) = Some i ->
  pool_wf (Some i) (set_free (removelast (free_frames_ s)) s).
Proof.
  intros Hwf Hl. pose proof Hwf as []. apply last_Some in Hl as [l Hl].
  assert (removelast (free_frames_ s) = l) as -> by (rewrite Hl; apply removelast_last).
  rewrite Hl in *. apply list.NoDup_app in wf_free_nodup0 as (Hn & Hd & _).
  assert (forall j, j ∈ l <-> j ∈ l ++ [i] /\ j <> i) as Hel.
  { intros j. rewrite elem_of_app, list_elem_of_singleton. split; [|tauto]. intros Hj. split; [tauto|].
    intros ->. by apply (Hd i Hj), list_elem_of_singleton. }
  split; try done.
  - intros j. simpl. rewrite Hel, wf_free0. split.
    + intros [[? _] ?]. split; [done|congruence].
    + intros [? ?]. split; [|congruence]. by split.
  - intros j [= <-]. apply wf_free0. apply elem_of_app. right. by apply list_elem_of_singleton.
Qed.

(** ** The self-check accepts every well-formed pool *)

Definition occupied_at (s : t) (i : nat) : Prop := fr_occupied (frame s i) = true.
#[local] Instance occupied_at_dec s i : Decision (occupied_at s i).
Proof. unfold occupied_at. apply _. Defined.

Lemma lookup_frame s i : (i < length (frames_ s))%nat -> frames_ s !! i = Some (frame s i).
Proof. intros Hi. unfold frame. by destruct (lookup_lt_is_Some_2 _ _ Hi) as [f ->]. Qed.

Lemma table_permutation s :
  pool_wf None s ->
  (map_to_list (page_table_ s)).*2 ≡ₚ filter (occupied_at s) (seq 0 (length (frames_ s))).
Proof.
  intros []. apply list.NoDup_Permutation.
  - apply NoDup_fmap_2_strong; [|apply NoDup_map_to_list].
    intros [id1 i1] [id2 i2] H1%elem_of_map_to_list H2%elem_of_map_to_list; simpl. intros ->.
    apply wf_table0 in H1 as (f1 & ? & _ & <-). apply wf_table0 in H2 as (f2 & ? & _ & <-). by simplify_eq.
  - apply list.NoDup_filter, NoDup_seq.
  - intros i. rewrite list_elem_of_fmap, list_elem_of_filter, elem_of_seq. split.
    + intros ([id j] & -> & Hj%elem_of_map_to_list). simpl. apply wf_table0 in Hj as (f & Hf & Ho & _).
      split; [unfold occupied_at; by rewrite (frame_lookup _ _ _ Hf)|].
      apply lookup_lt_Some in Hf. lia.
    + intros [Ho Hi]. pose proof (lookup_frame s i ltac:(lia)) as Hf.
      exists (page_id (fr_page (frame s i)), i). split; [done|]. apply elem_of_map_to_list. eauto.
Qed.

Lemma free_permutation s :
  pool_wf None s ->
  free_frames_ s ≡ₚ filter (fun i => ~ occupied_at s i) (seq 0 (length (frames_ s))).
Proof.
  intros []. apply list.NoDup_Permutation; [done|apply list.NoDup_filter, NoDup_seq|].
  intros i. rewrite list_elem_of_filter, elem_of_seq, wf_free0. unfold occupied_at. split.
  - intros [(f & Hf & Ho) _]. rewrite (frame_lookup _ _ _ Hf), Ho. apply lookup_lt_Some in Hf. split; [done|lia].
  - intros [Ho Hi]. split; [|done]. exists (frame s i). split; [apply lookup_frame; lia|].
    by destruct (fr_occupied (frame s i)).
Qed.

Lemma table_and_free_size s :
  pool_wf None s -> (size (page_table_ s) + length (free_frames_ s) = length (frames_ s))%nat.
Proof.
  intros Hwf. rewrite <- length_map_to_list, <- (length_fmap snd).
  rewrite (table_permutation s Hwf), (free_permutation s Hwf).
  rewrite <- length_app, filter_app_complement. apply length_seq.
Qed.

Lemma validate_invariants_wf s : pool_wf None s -> validate_invariants s = true.
Proof.
  intros Hwf. pose proof Hwf as []. unfold validate_invariants.
  rewrite bool_decide_true by by apply table_and_free_size.
  rewrite (bool_decide_true (length _ = size _)) by (rewrite wf_positions0, size_list_to_set by done; done).
  assert (forall i, bool_decide (i ∈ lru_positions_ s) = bool_decide (i ∈ lru_ s)) as Hpos.
  { intros i. apply bool_decide_ext. by rewrite wf_positions0, elem_of_list_to_set. }
  rewrite !andb_true_iff. split_and!; try done; apply forallb_forall.
  - intros [id i] Hin%list_elem_of_In%elem_of_map_to_list.
    apply wf_table0 in Hin as (f & Hf & Ho & <-).
    rewrite Hpos, (frame_lookup _ _ _ Hf), Ho, Z.eqb_refl.
    rewrite bool_decide_true by by eapply lookup_lt_Some. simpl. apply eqb_true_iff.
    destruct (Z.eqb_spec (fr_pin f) 0); symmetry.
    + apply bool_decide_true. apply wf_lru0. eauto.
    + apply bool_decide_false. intros (f' & ? & _ & ?)%wf_lru0. by simplify_eq.
  - intros i Hin%list_elem_of_In. apply wf_free0 in Hin as [(f & Hf & Ho) _].
    rewrite Hpos, (frame_lookup _ _ _ Hf), Ho, bool_decide_true by by eapply lookup_lt_Some. simpl.
    rewrite bool_decide_false; [done|]. intros (f' & ? & ? & _)%wf_lru0. simplify_eq; congruence.
  - intros i Hin%list_elem_of_In. apply wf_lru0 in Hin as (f & Hf & Ho & Hz).
    rewrite (frame_lookup _ _ _ Hf), Ho, Hz, bool_decide_true by by eapply lookup_lt_Some. done.
Qed.

#[local] Arguments upd_frame : simpl never.
#[local] Arguments reset_frame : simpl never.

(** ** The pool over its store *)

Section refinement.
Context {P : Type} `{PageStoreLaws P}.
Abbreviation st := (t * P)%type.
Implicit Types (x : t * P) (id : PageId) (i : nat).

(** The content the pool stands for: the cached page, or the stored one. *)
Definition view x id : option Page :=
  match page_table_ x.1 !! id with
  | Some i => Some (fr_page (frame x.1 i))
  | None => ps_page x.2 id
  end.

Definition pins (s : t) id : Z :=
  match page_table_ s !! id with Some i => fr_pin (frame s i) | None => 0 end.

Lemma pins_table s id i : page_table_ s !! id = Some i -> pins s id = fr_pin (frame s i).
Proof. unfold pins. by intros ->. Qed.

(** An unpinned clean frame holds what the store holds. *)
Definition coherent (frames : list Frame) (stored : PageId -> option Page) : Prop :=
  forall i f, frames !! i = Some f -> fr_occupied f = true -> fr_pin f = 0 -> fr_dirty f = false ->
    stored (page_id (fr_page f)) = Some (fr_page f).

Record pool_inv (hole : option nat) x : Prop := {
  pi_wf : pool_wf hole x.1;
  pi_coherent : coherent (frames_ x.1) (ps_page x.2);
  pi_store : ps_ok x.2;
}.

(** A page may be written back: it is dirty, all its mutations have LSNs, and the log is
    durable up to its PageLSN. *)
Definition writable (wal : option Z) (s : t) id : Prop :=
  exists i, page_table_ s !! id = Some i /\ fr_dirty (frame s i) = true /\
    fr_pending (frame s i) = 0 /\ wal_covers wal (page_lsn (fr_page (frame s i))) = true.

(** What an operation that is not a client's write guarantees, however it ends. *)
Record transparent (wal : option Z) x x' : Prop := {
  tr_view : forall id, view x' id = view x id;
  tr_pinned : forall id i, page_table_ x.1 !! id = Some i -> 0 < fr_pin (frame x.1 i) ->
    page_table_ x'.1 !! id = Some i;
  (** A page is stored again only if it may be, and then, the file system working, as it is. *)
  tr_written : forall id, ps_page x'.2 id = ps_page x.2 id \/
    writable wal x.1 id /\ (ps_healthy x.2 -> ps_page x'.2 id = view x id);
  tr_allocated : ps_allocated x'.2 = ps_allocated x.2;
  tr_healthy : ps_healthy x.2 -> ps_healthy x'.2;
}.

Lemma transparent_refl wal x : transparent wal x x.
Proof. split; auto. Qed.

Lemma table_frame hole s id i :
  pool_wf hole s -> page_table_ s !! id = Some i ->
  frames_ s !! i = Some (frame s i) /\ fr_occupied (frame s i) = true /\ page_id (fr_page (frame s i)) = id.
Proof. intros [] Hi. apply wf_table0 in Hi as (f & Hf & ? & ?). by rewrite (frame_lookup _ _ _ Hf). Qed.

Lemma frame_upd s i j f g :
  frames_ s !! i = Some f -> frame (upd_frame i g s) j = if decide (j = i) then g f else frame s j.
Proof.
  intros Hi. unfold frame at 1. rewrite (upd_frame_lookup _ _ _ _ _ Hi). by case_decide.
Qed.

(** Updating one frame of a coherent pool. *)
Lemma coherent_upd s i f g stored :
  coherent (frames_ s) stored -> frames_ s !! i = Some f ->
  (fr_occupied (g f) = true -> fr_pin (g f) = 0 -> fr_dirty (g f) = false ->
     stored (page_id (fr_page (g f))) = Some (fr_page (g f))) ->
  coherent (frames_ (upd_frame i g s)) stored.
Proof. intros Hc Hi Hg j f' Hj ???. upd_cases Hi; eauto. Qed.

(** Replacing what the store holds for the page of a frame that is not clean. *)
Lemma coherent_store hole s i f stored stored' :
  pool_wf hole s -> coherent (frames_ s) stored -> frames_ s !! i = Some f -> fr_occupied f = true ->
  fr_dirty f = true \/ fr_pin f <> 0 \/ stored' (page_id (fr_page f)) = Some (fr_page f) ->
  (forall j, j <> page_id (fr_page f) -> stored' j = stored j) -> coherent (frames_ s) stored'.
Proof.
  intros Hwf Hc Hi Ho Hd Hst j f' Hj Ho' Hp Hd'.
  destruct (decide (page_id (fr_page f') = page_id (fr_page f))) as [Heq|Hne].
  - pose proof (wf_occupied _ _ Hwf _ _ Hj Ho') as H1. pose proof (wf_occupied _ _ Hwf _ _ Hi Ho) as H2.
    assert (i = j) as <- by congruence. simplify_eq. destruct Hd as [?|[?|?]]; [congruence|done|done].
  - rewrite Hst by done. by eapply Hc.
Qed.

Lemma view_cached x id i : page_table_ x.1 !! id = Some i -> view x id = Some (fr_page (frame x.1 i)).
Proof. unfold view. by intros ->. Qed.

(** Writing a frame back, on a working file system, stores its page or nothing. *)
Lemma stored_back s p i f r p' :
  ps_ok p -> frames_ s !! i = Some f -> page_table_ s !! page_id (fr_page f) = Some i -> page_wf (fr_page f) ->
  ps_write (page_id (fr_page f)) (fr_page f) p = (r, p') ->
  ps_page p' (page_id (fr_page f)) = ps_page p (page_id (fr_page f)) \/
  (ps_healthy p -> ps_page p' (page_id (fr_page f)) = view (s, p) (page_id (fr_page f))).
Proof.
  intros Hs Hi Htab Hpg Hw. destruct (ps_allocated p (page_id (fr_page f))) eqn:Ha.
  - right. intros Hh. destruct (ps_write_live p (page_id (fr_page f)) (fr_page f)) as [p2 Hw2]; [done|apply Hpg|done..|].
    rewrite Hw2 in Hw. injection Hw as <- <-. rewrite (view_cached (s, p) _ i Htab). cbn [fst]. rewrite (frame_lookup _ _ _ Hi).
    by apply (ps_write_spec _ _ _ _ _ Hs (pw_id _ Hpg) Hpg Hw2).
  - left. destruct (ps_unallocated p (page_id (fr_page f)) (fr_page f)) as [_ [e He]]; [done|apply Hpg|done|].
    rewrite He in Hw. by injection Hw as _ <-.
Qed.

Lemma write_dirty_frame_spec hole wal i f x :
  pool_inv hole x -> frames_ x.1 !! i = Some f -> fr_occupied f = true ->
  wp (write_dirty_frame wal i) x (fun r x' =>
    pool_inv hole x' /\ transparent wal x x' /\
    (forall j, j <> page_id (fr_page f) -> ps_page x'.2 j = ps_page x.2 j) /\
    match r with
    | Ok _ => x' = x /\ fr_dirty f = false \/
        fr_dirty f = true /\ x'.1 = upd_frame i (set_dirty false) (count_write x.1) /\
        ps_page x'.2 (page_id (fr_page f)) = Some (fr_page f)
    | Throw _ => x'.1 = x.1
    end /\
    (ps_healthy x.2 -> ps_allocated x.2 (page_id (fr_page f)) = true ->
       fr_dirty f = false \/ fr_pending f = 0 /\ wal_covers wal (page_lsn (fr_page f)) = true -> r = Ok tt)).
Proof.
  intros [Hwf Hc Hs] Hi Ho. destruct x as [s p]. simpl in *.
  unfold write_dirty_frame, require_mutations_finalized, require_wal_durable, pool, on_pool.
  wp_step. wp_step. simpl. rewrite (frame_lookup _ _ _ Hi).
  pose proof (wf_frames _ _ Hwf _ _ Hi) as [_ _ Hpg].
  pose proof (wf_occupied _ _ Hwf _ _ Hi Ho) as Htab.
  destruct (fr_dirty f) eqn:Hd.
  2:{ wp_steps. split_and!; [done|apply transparent_refl|done|by left|done]. }
  wp_step. wp_step; bprop.
  { split_and!; [done|apply transparent_refl|done|done|]. intros _ _ [?|[? _]]; [done|congruence]. }
  wp_step. wp_step; bprop.
  { split_and!; [done|apply transparent_refl|done|done|]. intros _ _ [?|[_ ?]]; [done|congruence]. }
  wp_step. apply wp_zoom. apply wp_intro. intros r p' Hw. simpl in *.
  pose proof (ps_write_spec _ _ _ _ _ Hs (pw_id _ Hpg) Hpg Hw) as (Hs' & Hal & Hh & Hoth & Hok).
  assert (writable wal s (page_id (fr_page f))) as Hwr.
  { exists i. by rewrite (frame_lookup _ _ _ Hi). }
  pose proof (stored_back s p i f r p' Hs Hi Htab Hpg Hw) as Hback.
  assert (forall id, ps_page p' id = ps_page p id \/
    writable wal s id /\ (ps_healthy p -> ps_page p' id = view (s, p) id)) as Hwritten.
  { intros id. destruct (decide (id = page_id (fr_page f))) as [->|]; [|auto]. destruct Hback; auto. }
  destruct r as [[]|e].
  - destruct (Hok eq_refl) as (_ & Halloc & Hst). wp_steps. simpl.
    set (s1 := upd_frame i (set_dirty false) (count_write s)).
    assert (frames_ (count_write s) !! i = Some f) as Hi1 by done.
    split_and!; [| |done|by right|done].
    + split; simpl.
      * unfold s1. eapply wf_upd; [exact (wf_stats _ _ _ Hwf)|done|..]; try done.
        split; simpl; apply (wf_frames _ _ Hwf _ _ Hi).
      * apply (coherent_upd (count_write s) i f); [|done|done].
        apply (coherent_store hole s i f (ps_page p)); auto.
      * done.
    + split; simpl; try done.
      * intros id. unfold view. simpl. destruct (page_table_ s !! id) as [j|] eqn:Hj.
        -- f_equal. unfold s1. rewrite (frame_upd _ _ _ _ _ Hi1). case_decide as Hd'; [|done].
           subst. by rewrite (frame_lookup _ _ _ Hi).
        -- apply Hoth. congruence.
  - split_and!; [| |done|done|].
    + split; simpl; [done| |done]. apply (coherent_store hole s i f (ps_page p)); auto.
    + split; simpl; try done.
      * intros id. unfold view. simpl. destruct (page_table_ s !! id) as [j|] eqn:Hj; [done|].
        apply Hoth. congruence.
    + intros Hhe Ha _. destruct (ps_write_live p _ (fr_page f) Hs (pw_id _ Hpg) Hhe Hpg Ha eq_refl) as [p2 Hp2].
      congruence.
Qed.

(** A step that leaves the store alone. *)
Definition local_step x x' : Prop :=
  (forall id, view x' id = view x id) /\
  (forall id i, page_table_ x.1 !! id = Some i -> 0 < fr_pin (frame x.1 i) -> page_table_ x'.1 !! id = Some i) /\
  x'.2 = x.2.

Lemma transparent_then wal x x1 x' :
  transparent wal x x1 -> (forall i, fr_pin (frame x1.1 i) = fr_pin (frame x.1 i)) ->
  local_step x1 x' -> transparent wal x x'.
Proof.
  intros [Hv Hp Hw Ha Hh] Hpin (Hv' & Hp' & Hs). split.
  - intros id. by rewrite Hv', Hv.
  - intros id i Hi Hlt. apply Hp'; [by apply Hp|]. by rewrite Hpin.
  - by rewrite Hs.
  - by rewrite Hs.
  - by rewrite Hs.
Qed.

Lemma local_transparent wal x x' : local_step x x' -> transparent wal x x'.
Proof. intros Hl. eapply transparent_then; [apply transparent_refl|done|done]. Qed.

(** Taking a clean, unpinned page out of the pool. *)
Lemma detach_spec x i f lru' pos' :
  pool_inv None x -> frames_ x.1 !! i = Some f -> fr_occupied f = true -> fr_pin f = 0 -> fr_dirty f = false ->
  NoDup lru' -> pos' = list_to_set lru' -> (forall j, j ∈ lru' <-> j ∈ lru_ x.1 /\ j <> i) ->
  let x' := (reset_frame i (set_page_table (delete (page_id (fr_page f)) (page_table_ x.1))
                              (set_lru lru' pos' x.1)), x.2) in
  pool_inv (Some i) x' /\ local_step x x' /\ (forall id, pins x'.1 id = pins x.1 id) /\
  page_table_ x'.1 = delete (page_id (fr_page f)) (page_table_ x.1).
Proof.
  intros [Hwf Hc Hs] Hi Ho Hz Hd Hn Hpos Hl. destruct x as [s p]. simpl in *.
  pose proof (wf_detach s i f lru' pos' Hwf Hi Ho Hn Hpos Hl) as Hwf'.
  set (s1 := set_page_table _ _) in *. assert (frames_ s1 !! i = Some f) as Hi1 by done.
  pose proof (wf_occupied _ _ Hwf _ _ Hi Ho) as Htab.
  assert (forall id j, id <> page_id (fr_page f) -> page_table_ s !! id = Some j ->
            frame (reset_frame i s1) j = frame s j) as Hfr.
  { intros id j Hne Hj. unfold reset_frame. rewrite (frame_upd _ _ _ _ _ Hi1). case_decide as Hd'; [|done].
    subst. destruct (table_frame _ _ _ _ Hwf Hj) as (Hf & _ & Hid). congruence. }
  split_and!; [| | |done].
  - split; [done| |done]. by apply (coherent_upd s1 i f).
  - split_and!; [| |done]; simpl.
    + intros id. unfold view. simpl. destruct (decide (id = page_id (fr_page f))) as [->|Hne].
      * rewrite lookup_delete_eq, Htab, (frame_lookup _ _ _ Hi). by eapply Hc.
      * rewrite lookup_delete_ne by done. destruct (page_table_ s !! id) as [j|] eqn:Hj; [|done].
        by rewrite (Hfr id j).
    + intros id j Hj Hp. apply lookup_delete_Some. split; [|done]. intros <-.
      assert (j = i) as -> by congruence. rewrite (frame_lookup _ _ _ Hi) in Hp. lia.
  - intros id. unfold pins. simpl. destruct (decide (id = page_id (fr_page f))) as [->|Hne].
    + by rewrite lookup_delete_eq, Htab, (frame_lookup _ _ _ Hi).
    + rewrite lookup_delete_ne by done. destruct (page_table_ s !! id) as [j|] eqn:Hj; [|done].
      by rewrite (Hfr id j).
Qed.

(** The pool after a write-back of frame [i] that returned. *)
Lemma written_frame x x' i f :
  frames_ x.1 !! i = Some f ->
  x' = x /\ fr_dirty f = false \/
  fr_dirty f = true /\ x'.1 = upd_frame i (set_dirty false) (count_write x.1) /\
    ps_page x'.2 (page_id (fr_page f)) = Some (fr_page f) ->
  frames_ x'.1 !! i = Some (set_dirty false f) /\ page_table_ x'.1 = page_table_ x.1 /\
  lru_ x'.1 = lru_ x.1 /\ lru_positions_ x'.1 = lru_positions_ x.1 /\ free_frames_ x'.1 = free_frames_ x.1 /\
  (forall j, fr_pin (frame x'.1 j) = fr_pin (frame x.1 j)).
Proof.
  intros Hi [[-> Hd]|(Hd & Hx & _)].
  - split_and!; try done. rewrite Hi. f_equal. destruct f; simpl in *; by subst.
  - assert (frames_ (count_write x.1) !! i = Some f) as Hi1 by done.
    rewrite Hx. split_and!; try done.
    + rewrite (upd_frame_lookup _ _ _ _ _ Hi1). by rewrite decide_True.
    + intros j. rewrite (frame_upd _ _ _ _ _ Hi1). case_decide; [|done].
      subst. by rewrite (frame_lookup _ _ _ Hi).
Qed.

(** The least recently used page can be written back now. *)
Definition evictable (wal : option Z) x : Prop :=
  exists victim rest, lru_ x.1 = victim :: rest /\
    ps_allocated x.2 (page_id (fr_page (frame x.1 victim))) = true /\
    (fr_dirty (frame x.1 victim) = false \/
     fr_pending (frame x.1 victim) = 0 /\
     wal_covers wal (page_lsn (fr_page (frame x.1 victim))) = true).

Lemma acquire_frame_spec wal x :
  pool_inv None x ->
  wp (acquire_frame wal) x (fun r x' =>
    transparent wal x x' /\ (forall id, pins x'.1 id = pins x.1 id) /\
    (forall id, page_table_ x.1 !! id = None -> page_table_ x'.1 !! id = None) /\
    match r with
    | Ok (Some i) => pool_inv (Some i) x'
    | Ok None => x' = x /\ free_frames_ x.1 = [] /\ lru_ x.1 = []
    | Throw _ => pool_inv None x' /\ x'.1 = x.1
    end /\
    (ps_healthy x.2 -> free_frames_ x.1 <> [] \/ evictable wal x -> exists i, r = Ok (Some i))).
Proof.
  intros Hinv. pose proof Hinv as [Hwf Hc Hs]. unfold acquire_frame, pool. wp_step. wp_step.
  destruct (list.last (free_frames_ x.1)) as [i|] eqn:Hlast.
  - unfold on_pool. wp_steps. split_and!; try done.
    + by apply local_transparent.
    + split; simpl; [by apply wf_pop|done|done].
    + eauto.
  - apply last_None in Hlast. destruct (lru_ x.1) as [|victim rest] eqn:Hlru.
    + wp_steps. split_and!; try done; [apply transparent_refl|].
      intros _ [?|(v & r & Hv & _)]; [done|]. congruence.
    + destruct (proj1 (wf_lru _ _ Hwf victim)) as (f & Hi & Ho & Hz); [rewrite Hlru; left|].
      wp_step. wp_use write_dirty_frame_spec; [done|done|done|].
      intros [[]|e] x1 (Hinv1 & Htr & _ & Hr & Hlive).
      2:{ assert (frame x1.1 = frame x.1) as Hfr by (unfold frame; by rewrite Hr).
          split_and!; [done|unfold pins; by rewrite Hr|by rewrite Hr|done|done|].
          intros Hh [?|(v & rst & Hv & Ha & Hw)]; [done|]. simplify_eq.
          rewrite Hlru in Hv. injection Hv as -> ->. rewrite (frame_lookup _ _ _ Hi) in *.
          by specialize (Hlive Hh Ha Hw). }
      destruct (written_frame _ _ _ _ Hi Hr) as (Hi1 & Hpt & Hl1 & Hp1 & Hf1 & Hpin).
      unfold on_pool. wp_steps.
      pose proof (wf_lru_nodup _ _ Hwf) as Hnd. rewrite Hlru in Hnd. apply list.NoDup_cons in Hnd as [Hni Hnd].
      assert (lru_positions_ x1.1 ∖ {[victim]} = list_to_set rest) as Hpos.
      { rewrite Hp1, (wf_positions _ _ Hwf), Hlru. apply set_eq. intros j.
        rewrite elem_of_difference, elem_of_singleton, !elem_of_list_to_set, elem_of_cons. naive_solver. }
      destruct (detach_spec x1 victim (set_dirty false f) rest (lru_positions_ x1.1 ∖ {[victim]}))
        as (Hinv2 & Hloc & Hpins & Hpt2); [done|done|done|done|done|done|done| |].
      { intros j. rewrite Hl1, Hlru, elem_of_cons. naive_solver. }
      assert (tail (lru_ x1.1) = rest) as Htl by (by rewrite Hl1, Hlru).
      simpl. rewrite Htl.
      assert (page_id (fr_page (frame (set_lru rest (lru_positions_ x1.1 ∖ {[victim]}) x1.1) victim)) =
              page_id (fr_page (set_dirty false f))) as ->.
      { change (frame (set_lru rest _ x1.1) victim) with (frame x1.1 victim).
        by rewrite (frame_lookup _ _ _ Hi1). }
      split_and!; [by eapply transparent_then|..].
      * intros id. etrans; [apply Hpins|]. unfold pins. rewrite Hpt.
        by destruct (page_table_ x.1 !! id).
      * intros id Hid. etrans; [apply (f_equal (fun m => m !! id) Hpt2)|].
        rewrite Hpt. apply lookup_delete_None. by right.
      * done.
      * eauto.
Qed.

Lemma upd_frame_upd i g1 g2 f s :
  frames_ s !! i = Some f -> upd_frame i g2 (upd_frame i g1 s) = upd_frame i (fun f => g2 (g1 f)) s.
Proof.
  intros Hi. unfold upd_frame at 1. rewrite (frame_upd _ _ _ _ _ Hi), decide_True by done.
  unfold upd_frame. rewrite (frame_lookup _ _ _ Hi). unfold set_frames. simpl. by rewrite list_insert_insert_eq.
Qed.

Lemma reset_reset i f s : frames_ s !! i = Some f -> reset_frame i (reset_frame i s) = reset_frame i s.
Proof. exact (upd_frame_upd i (fun _ => empty_frame) (fun _ => empty_frame) f s). Qed.

(** Frames that hold pages are not touched by work on the hole. *)
Lemma hole_frame s i g id j :
  pool_wf (Some i) s -> page_table_ s !! id = Some j -> frame (upd_frame i g s) j = frame s j.
Proof.
  intros Hwf Hj. destruct (wf_hole _ _ Hwf i eq_refl) as (f & Hi & Hf).
  rewrite (frame_upd _ _ _ _ _ Hi). case_decide as Hd; [|done]. subst.
  destruct (table_frame _ _ _ _ Hwf Hj) as (Hf' & ? & _). congruence.
Qed.

Lemma release_spec x i :
  pool_inv (Some i) x ->
  let x' := (set_free (free_frames_ x.1 ++ [i]) (reset_frame i x.1), x.2) in
  pool_inv None x' /\ local_step x x' /\ (forall id, pins x'.1 id = pins x.1 id).
Proof.
  intros [Hwf Hc Hs]. destruct x as [s p]. simpl in *.
  destruct (wf_hole _ _ Hwf i eq_refl) as (f & Hi & Hf).
  assert (forall id j, page_table_ s !! id = Some j ->
            frame (set_free (free_frames_ s ++ [i]) (reset_frame i s)) j = frame s j) as Hfr.
  { intros id j Hj. change (frame (set_free _ (reset_frame i s)) j) with (frame (reset_frame i s) j).
    by eapply hole_frame. }
  split_and!.
  - split; [by apply wf_release| |done]. by apply (coherent_upd s i f).
  - split_and!; [|done|done]. intros id. unfold view. simpl.
    destruct (page_table_ s !! id) as [j|] eqn:Hj; [|done]. by rewrite (Hfr id j).
  - intros id. unfold pins. simpl. destruct (page_table_ s !! id) as [j|] eqn:Hj; [|done]. by rewrite (Hfr id j).
Qed.

(** Loading page [id] into the hole. *)
Lemma occupy_spec x i g id pg v :
  pool_inv (Some i) x -> page_table_ x.1 !! id = None -> ps_page x.2 id = Some pg -> page_wf pg ->
  page_id pg = id -> (forall f, g f = set_occupied true (set_dirty false (set_pin 1 (set_page pg f)))) ->
  let x' := (set_page_table (<[id := i]> (page_table_ x.1)) (upd_frame i g (set_stats v x.1)), x.2) in
  pool_inv None x' /\ local_step x x' /\ page_table_ x'.1 !! id = Some i /\
  fr_page (frame x'.1 i) = pg /\ pins x'.1 id = 1 /\ (forall j, j <> id -> pins x'.1 j = pins x.1 j).
Proof.
  intros [Hwf0 Hc Hs] Hid Hst Hpg Hpid Hg. destruct x as [s0 p]. cbn [fst snd] in *.
  pose proof (wf_stats _ _ v Hwf0) as Hwf. set (s := set_stats v s0) in *.
  change (page_table_ s0) with (page_table_ s) in *. change (frames_ s0) with (frames_ s) in Hc.
  set (s' := set_page_table (<[id := i]> (page_table_ s)) (upd_frame i g s)).
  assert (page_table_ s' = <[id := i]> (page_table_ s)) as Hpt by done.
  destruct (wf_hole _ _ Hwf i eq_refl) as (f & Hi & Hf).
  assert (frame s' i = g f) as Hfi.
  { change (frame s' i) with (frame (upd_frame i g s) i).
    rewrite (frame_upd _ _ _ _ _ Hi). by rewrite decide_True. }
  assert (forall id j, page_table_ s !! id = Some j -> frame s' j = frame s0 j) as Hfr.
  { intros id' j Hj. exact (hole_frame s i g id' j Hwf Hj). }
  split_and!.
  - split; [| |done]; cbn [fst snd].
    + eapply wf_occupy; [done|done|done|..]; rewrite Hg; simpl; [done|done|lia|].
      destruct (wf_frames _ _ Hwf _ _ Hi). split; simpl; [done|done|done].
    + apply (coherent_upd s i f); [done|done|]. rewrite Hg. done.
  - split_and!; [| |done]; cbn [fst snd].
    + intros j. unfold view. cbn [fst snd]. rewrite Hpt. change (page_table_ s0) with (page_table_ s).
      destruct (decide (j = id)) as [->|Hne].
      * by rewrite lookup_insert_eq, Hfi, Hg, Hid.
      * rewrite lookup_insert_ne by done. destruct (page_table_ s !! j) as [k|] eqn:Hk; [|done].
        by rewrite (Hfr j k).
    + intros j k Hj _. rewrite Hpt, lookup_insert_ne; [done|].
      change (page_table_ s0) with (page_table_ s) in Hj. congruence.
  - apply lookup_insert_eq.
  - by rewrite Hfi, Hg.
  - unfold pins. by rewrite Hpt, lookup_insert_eq, Hfi, Hg.
  - intros j Hne. unfold pins. rewrite Hpt, lookup_insert_ne by done.
    change (page_table_ s0) with (page_table_ s).
    destruct (page_table_ s !! j) as [k|] eqn:Hk; [|done]. by rewrite (Hfr j k).
Qed.

Lemma pool_inv_stats hole v x : pool_inv hole x -> pool_inv hole (set_stats v x.1, x.2).
Proof. intros []. split; [by apply wf_stats|done|done]. Qed.

Lemma frame_remove i s j : frame (remove_from_lru i s) j = frame s j.
Proof. unfold remove_from_lru. by case_decide. Qed.
Lemma table_remove i s : page_table_ (remove_from_lru i s) = page_table_ s.
Proof. unfold remove_from_lru. by case_decide. Qed.
Lemma frames_remove i s : frames_ (remove_from_lru i s) = frames_ s.
Proof. unfold remove_from_lru. by case_decide. Qed.

Lemma remove_set_lru i s :
  remove_from_lru i s = set_lru (lru_ (remove_from_lru i s)) (lru_positions_ (remove_from_lru i s)) s.
Proof. unfold remove_from_lru. case_decide; [done|]. by destruct s. Qed.
Lemma frames_evictable i s : frames_ (make_evictable i s) = frames_ s.
Proof. apply frames_remove. Qed.
Lemma table_evictable i s : page_table_ (make_evictable i s) = page_table_ s.
Proof. apply table_remove. Qed.
Lemma frame_evictable i s j : frame (make_evictable i s) j = frame s j.
Proof. unfold frame. by rewrite frames_evictable. Qed.

(** Changing one resident frame without changing its page, keeping the page table. *)
Lemma resident_local x id i g s' :
  pool_wf None x.1 -> page_table_ x.1 !! id = Some i ->
  page_table_ s' = page_table_ x.1 -> (forall j, frame s' j = frame (upd_frame i g x.1) j) ->
  fr_page (g (frame x.1 i)) = fr_page (frame x.1 i) ->
  local_step x (s', x.2) /\ pins s' id = fr_pin (g (frame x.1 i)) /\
  (forall j, j <> id -> pins s' j = pins x.1 j).
Proof.
  intros Hwf Hid Hpt Hfr Hg. destruct (table_frame _ _ _ _ Hwf Hid) as (Hi & Ho & Hpid).
  assert (forall j, frame s' j = if decide (j = i) then g (frame x.1 i) else frame x.1 j) as Hfr'.
  { intros j. by rewrite Hfr, (frame_upd _ _ _ _ _ Hi). }
  split_and!.
  - split_and!; [| |done]; simpl.
    + intros j. unfold view. simpl. rewrite Hpt. destruct (page_table_ x.1 !! j) as [k|] eqn:Hk; [|done].
      rewrite Hfr'. case_decide; [|done]. subst. by rewrite Hg.
    + intros j k Hj _. by rewrite Hpt.
  - unfold pins. rewrite Hpt, Hid, Hfr'. by rewrite decide_True.
  - intros j Hne. unfold pins. rewrite Hpt. destruct (page_table_ x.1 !! j) as [k|] eqn:Hk; [|done].
    rewrite Hfr'. case_decide; [|done]. subst.
    destruct (table_frame _ _ _ _ Hwf Hk) as (_ & _ & Hx). congruence.
Qed.

Lemma pin_spec x id i :
  pool_inv None x -> page_table_ x.1 !! id = Some i -> fr_pin (frame x.1 i) < kMaxU32 ->
  let s' := remove_from_lru i (upd_frame i (fun f => set_pin (fr_pin f + 1) f) x.1) in
  pool_inv None (s', x.2) /\ local_step x (s', x.2) /\
  pins s' id = pins x.1 id + 1 /\ (forall j, j <> id -> pins s' j = pins x.1 j) /\
  page_table_ s' = page_table_ x.1 /\ fr_page (frame s' i) = fr_page (frame x.1 i).
Proof.
  intros [Hwf Hc Hs] Hid Hlt. destruct (table_frame _ _ _ _ Hwf Hid) as (Hi & Ho & Hpid).
  pose proof (wf_frames _ _ Hwf _ _ Hi) as [Hpin _ _]. cbv zeta.
  destruct (resident_local x id i (fun f => set_pin (fr_pin f + 1) f)
    (remove_from_lru i (upd_frame i (fun f => set_pin (fr_pin f + 1) f) x.1)) Hwf Hid) as (H1 & H2 & H3);
    [by rewrite table_remove|intros j; by rewrite frame_remove|done|].
  split_and!; [|done| |done|by rewrite table_remove|].
  - split; simpl; [by eapply wf_pin| |done]. rewrite frames_remove.
    eapply coherent_upd; [done|done|]. simpl. lia.
  - rewrite H2. unfold pins. by rewrite Hid.
  - rewrite frame_remove, (frame_upd _ _ _ _ _ Hi). by rewrite decide_True.
Qed.

Definition fetchable (wal : option Z) x id : Prop :=
  (exists i, page_table_ x.1 !! id = Some i /\ fr_pin (frame x.1 i) < kMaxU32) \/
  page_table_ x.1 !! id = None /\ (free_frames_ x.1 <> [] \/ evictable wal x).

(** Releasing a pin: a caller that passes [false] has not changed the page. *)
Definition unpin_allowed x id (d : bool) : Prop :=
  forall i, page_table_ x.1 !! id = Some i -> d = true \/ fr_dirty (frame x.1 i) = true \/
    1 < fr_pin (frame x.1 i) \/ ps_page x.2 id = Some (fr_page (frame x.1 i)).

Lemma same_pins_hit x id : page_table_ x.1 !! id = None -> pins x.1 id = 0.
Proof. unfold pins. by intros ->. Qed.

Lemma load_page_spec x i id :
  pool_inv (Some i) x -> is_u64 id -> page_table_ x.1 !! id = None ->
  wp (load_page id i) x (fun r x' =>
    pool_inv None x' /\ (forall j, view x' j = view x j) /\
    (forall j k, page_table_ x.1 !! j = Some k -> page_table_ x'.1 !! j = Some k) /\
    ps_page x'.2 = ps_page x.2 /\ ps_allocated x'.2 = ps_allocated x.2 /\ (ps_healthy x.2 -> ps_healthy x'.2) /\
    (forall j, j <> id -> pins x'.1 j = pins x.1 j) /\
    match r with
    | Ok (Some k) => k = i /\ page_table_ x'.1 !! id = Some i /\ view x id = Some (fr_page (frame x'.1 i)) /\
        pins x'.1 id = 1
    | Ok None => False
    | Throw _ => pins x'.1 id = 0
    end /\
    (ps_healthy x.2 -> ps_allocated x.2 id = true -> is_Some (ps_page x.2 id) -> r = Ok (Some i))).
Proof.
  intros Hinv Hid Hnone. pose proof Hinv as [Hwf Hc Hs]. destruct x as [s p]. cbn [fst snd] in *.
  unfold load_page, release_frame, on_pool, on_store, pool.
  match goal with |- wp _ _ ?Q => set (Post := Q) end.
  do 4 wp_step. cbn [snd]. apply wp_intro. intros r p1 Hrd. cbn [fst snd].
  pose proof (ps_read_spec _ _ _ _ Hs Hid Hrd) as (Hs1 & Hpg1 & Hal1 & Hh1 & Hr).
  assert (pool_inv (Some i) (s, p1)) as Hinv1 by (split; simpl; [done|by rewrite Hpg1|done]).
  assert (forall j, view (s, p1) j = view (s, p) j) as Hv1 by (intros j; unfold view; simpl; by rewrite Hpg1).
  destruct r as [pg|e].
  - destruct (Hr pg eq_refl) as (Hst & Hal & Hpwf & Hpid). destruct (wf_hole _ _ Hwf i eq_refl) as (f & Hi & Hf).
    wp_steps; cbn [fst snd] in *; bprop.
    { match goal with H : is_Some (page_table_ _ !! id) |- _ => destruct H as [k Hk] end.
      change (page_table_ s !! id = Some k) in Hk. congruence. }
    destruct (occupy_spec (s, p1) i
      (fun f => set_occupied true (set_dirty false (set_pin 1 (set_page pg f)))) id pg
      (stats_ (count_read s)))
      as (Hinv2 & (Hv2 & Hp2 & _) & Ht2 & Hf2 & Hpn2 & Hpo2); [done|done|simpl; by rewrite Hpg1|done|done|done|].
    cbn [fst snd] in *.
    change (count_read (upd_frame i (set_page pg) s)) with (upd_frame i (set_page pg) (count_read s)).
    rewrite (upd_frame_upd i _ _ f (count_read s) Hi).
    unfold Post. split_and!; try done.
    + intros j. by rewrite Hv2, Hv1.
    + intros j k Hj. cbn [fst]. simpl. rewrite lookup_insert_ne; [done|]. congruence.
    + etrans; [symmetry; apply Hv1|]. etrans; [symmetry; apply Hv2|]. exact (view_cached (_, p1) id i Ht2).
  - wp_steps; cbn [fst snd] in *.
    destruct (release_spec (s, p1) i Hinv1) as (Hinv2 & (Hv2 & Hp2 & _) & Hpins).
    unfold Post. split_and!; try done.
    + intros j. etrans; [apply Hv2|apply Hv1].
    + etrans; [apply Hpins|]. by apply (same_pins_hit (s, p1)).
    + intros Hhe Hal Hsome. destruct (ps_read_live p id Hs Hid Hhe Hal Hsome) as (pg & p2 & Hp2'). congruence.
Qed.

(** A page that is not allocated is not fetched, resident or not. *)
Lemma fetch_unallocated wal id x :
  ps_allocated x.2 id = false ->
  (fetch_page wal id x).1 = if is_valid id then Throw (StorageError "cannot fetch logically unallocated page") else Ok None.
Proof.
  intros Ha. unfold fetch_page. destruct (is_valid id);
    unfold bind, on_pool, zoom, count_fetch, modify, throw_if, get; cbn; [|done]. by rewrite Ha.
Qed.

Lemma fetch_page_spec wal x id :
  pool_inv None x -> is_u64 id ->
  wp (fetch_page wal id) x (fun r x' =>
    pool_inv None x' /\ transparent wal x x' /\
    match r with
    | Ok (Some i) => ps_allocated x.2 id = true /\ page_table_ x'.1 !! id = Some i /\
        view x id = Some (fr_page (frame x'.1 i)) /\ pins x'.1 id = pins x.1 id + 1 /\
        (forall j, j <> id -> pins x'.1 j = pins x.1 j) /\ unpin_allowed x' id false
    | _ => forall j, pins x'.1 j = pins x.1 j
    end /\
    (ps_healthy x.2 -> is_valid id = true -> ps_allocated x.2 id = true -> is_Some (view x id) ->
     fetchable wal x id -> exists i, r = Ok (Some i))).
Proof.
  intros Hinv Hid. unfold fetch_page, on_pool. wp_step. wp_step.
  set (x0 := (count_fetch x.1, x.2)).
  assert (pool_inv None x0) as Hinv0 by by apply pool_inv_stats.
  assert (transparent wal x x0) as Htr0 by by apply local_transparent.
  pose proof (pi_wf _ _ Hinv0) as Hwf0.
  destruct (is_valid id) eqn:Hv; simpl.
  2:{ wp_steps. by split_and!. }
  wp_step. wp_step. wp_step. wp_step; bprop.
  { split_and!; [done|done|done|]. simpl in *. congruence. }
  destruct (page_table_ x0.1 !! id) as [i|] eqn:Htab.
  - destruct (Z.eqb_spec (fr_pin (frame x0.1 i)) kMaxU32) as [Hmax|Hmax].
    + wp_steps. split_and!; [done|done|done|].
      intros _ _ _ _ [(j & Hj & Hlt)|[Hj _]]; simpl in *; [|congruence].
      rewrite Htab in Hj. injection Hj as <-. change (frame (count_fetch x.1) i) with (frame x.1 i) in Hmax. lia.
    + destruct (table_frame _ _ _ _ Hwf0 Htab) as (Hi & _ & _).
      pose proof (wf_frames _ _ Hwf0 _ _ Hi) as [Hpin _ _].
      destruct (pin_spec x0 id i Hinv0 Htab) as (Hinv1 & Hloc & Hp1 & Hp2 & Hpt & Hpg); [lia|].
      wp_steps. split_and!.
      * exact (pool_inv_stats _ _ _ Hinv1).
      * by apply local_transparent.
      * done.
      * by rewrite <- Htab, <- Hpt.
      * rewrite <- (tr_view _ _ _ Htr0), (view_cached x0 id i Htab). f_equal. by rewrite <- Hpg.
      * exact Hp1.
      * exact Hp2.
      * intros k Hk. cbn [fst snd] in *. change (page_table_ (count_hit ?s)) with (page_table_ s) in Hk.
        rewrite Hpt, Htab in Hk. injection Hk as <-.
        change (frame (count_hit ?s) i) with (frame s i). rewrite frame_remove, (frame_upd _ _ _ _ _ Hi), decide_True by done.
        cbn [fr_dirty fr_pin fr_page set_pin]. destruct (fr_dirty (frame x0.1 i)) eqn:Hdi; [by right; left|].
        destruct (decide (fr_pin (frame x0.1 i) = 0)) as [Hz|]; [|right; right; left; lia]. right; right; right.
        destruct (table_frame _ _ _ _ Hwf0 Htab) as (_ & Ho & Hpid).
        rewrite <- Hpid at 1. by apply (pi_coherent _ _ Hinv0 i).
      * eauto.
  - assert (pins x.1 id = 0) as Hz by by apply (same_pins_hit x).
    assert (forall j, pins x0.1 j = pins x.1 j) as Hp0 by done.
    wp_step. wp_use acquire_frame_spec; [done|].
    intros [[i|]|e] x1 (Htr1 & Hpins1 & Hnone & Hr & Hlive1).
    + wp_use load_page_spec; [done|done|by apply Hnone|].
      intros r x2 (Hinv2 & Hv2 & Ht2 & Hst2 & Hal2 & Hh2 & Hpo2 & Hr2 & Hlive2).
      assert (forall j, j <> id -> pins x2.1 j = pins x.1 j) as Hpo by (intros j Hj; by rewrite Hpo2, Hpins1).
      split_and!.
      * done.
      * destruct Htr1 as [Hv1 Hp1 Hw1 Ha1 Hh1]. split.
        -- intros j. by rewrite Hv2, Hv1.
        -- intros j k Hj Hlt. apply Ht2. by apply Hp1.
        -- intros j. rewrite Hst2. apply Hw1.
        -- by rewrite Hal2, Ha1.
        -- auto.
      * assert (forall j, pins x2.1 id = 0 -> pins x2.1 j = pins x.1 j) as Hsame.
        { intros j Hx. destruct (decide (j = id)) as [->|]; [congruence|auto]. }
        destruct r as [[k|]|e]; [|done|auto].
        destruct Hr2 as (-> & Ht & Hvw & Hp). split_and!; [done|done| |lia|done|].
        -- rewrite <- Hvw. symmetry. apply (tr_view _ _ _ Htr1).
        -- intros k Hk. rewrite Ht in Hk. injection Hk as <-. do 3 right. rewrite Hst2, <- Hvw.
           unfold view. by rewrite Hnone.
      * intros Hhe Hva Hal Hsome _. exists i. apply Hlive2; [by apply (tr_healthy _ _ _ Htr1)| |].
        -- by rewrite (tr_allocated _ _ _ Htr1).
        -- rewrite <- (tr_view _ _ _ Htr0), <- (tr_view _ _ _ Htr1) in Hsome. unfold view in Hsome.
           by rewrite Hnone in Hsome.
    + wp_steps. destruct Hr as (-> & Hf & Hl). split_and!; [done|done|done|].
      intros _ _ _ _ [(j & Hj & _)|[_ [Hfr|(v & rest & Hv' & _)]]]; [|done|].
      * change (page_table_ x.1 !! id = None) in Htab. congruence.
      * change (lru_ x.1 = []) in Hl. congruence.
    + destruct Hr as [Hinv1 Hx1]. split_and!; [done| |intros j; by rewrite Hpins1|].
      * destruct Htr1 as [Hv1 Hp1 Hw1 Ha1 Hh1]. by split.
      * intros Hhe _ _ _ [(j & Hj & _)|[_ Hcase]].
        -- change (page_table_ x.1 !! id = None) in Htab. congruence.
        -- destruct (Hlive1 Hhe Hcase) as [i Hi]. done.
Qed.

Lemma unpin_page_spec x id d :
  pool_inv None x -> unpin_allowed x id d ->
  wp (unpin_page id d) x (fun r x' =>
    pool_inv None x' /\ local_step x x' /\ page_table_ x'.1 = page_table_ x.1 /\
    r = Ok (0 <? pins x.1 id) /\
    pins x'.1 id = (if 0 <? pins x.1 id then pins x.1 id - 1 else pins x.1 id) /\
    (forall j, j <> id -> pins x'.1 j = pins x.1 j) /\
    (forall i, page_table_ x.1 !! id = Some i -> 0 < fr_pin (frame x.1 i) ->
       fr_dirty (frame x'.1 i) = fr_dirty (frame x.1 i) || d /\
       fr_pending (frame x'.1 i) = fr_pending (frame x.1 i))).
Proof.
  intros Hinv Hal. pose proof Hinv as [Hwf Hc Hs]. unfold unpin_page, pool, on_pool.
  wp_step. wp_step. assert (local_step x x) as Hrefl by (by split_and!).
  destruct (page_table_ x.1 !! id) as [i|] eqn:Hid.
  2:{ wp_steps. unfold pins. rewrite Hid. split_and!; try done. }
  destruct (table_frame _ _ _ _ Hwf Hid) as (Hi & Ho & Hpid).
  pose proof (wf_frames _ _ Hwf _ _ Hi) as [Hpin Hpend Hpg].
  assert (pins x.1 id = fr_pin (frame x.1 i)) as Hpins by (unfold pins; by rewrite Hid).
  destruct (Z.eqb_spec (fr_pin (frame x.1 i)) 0) as [Hz|Hz].
  { wp_steps. rewrite Hpins, Hz. split_and!; try done. intros j Hj ?. simplify_eq. lia. }
  rewrite Hpins. replace (0 <? fr_pin (frame x.1 i)) with true by lia.
  set (g := fun f => set_dirty (fr_dirty f || d) (set_pin (fr_pin f - 1) f)).
  assert (forall s', page_table_ s' = page_table_ x.1 -> (forall j, frame s' j = frame (upd_frame i g x.1) j) ->
    pool_inv None (s', x.2) ->
    pool_inv None (s', x.2) /\ local_step x (s', x.2) /\ page_table_ (s', x.2).1 = page_table_ x.1 /\
    Ok true = Ok true /\ pins s' id = fr_pin (frame x.1 i) - 1 /\ (forall j, j <> id -> pins s' j = pins x.1 j) /\
    (forall j, Some i = Some j -> 0 < fr_pin (frame x.1 j) ->
       fr_dirty (frame s' j) = fr_dirty (frame x.1 j) || d /\ fr_pending (frame s' j) = fr_pending (frame x.1 j)))
    as Hfin.
  { intros s' Hpt Hfr Hinv'.
    destruct (resident_local x id i g s' Hwf Hid Hpt Hfr eq_refl) as (H1 & H2 & H3).
    split_and!; try done. intros j [= <-] _. rewrite Hfr, (frame_upd _ _ _ _ _ Hi). by rewrite decide_True. }
  assert (frame (upd_frame i g x.1) i = g (frame x.1 i)) as Hgi
    by (rewrite (frame_upd _ _ _ _ _ Hi); by rewrite decide_True).
  assert (fr_pin (frame x.1 i) = 1 -> coherent (frames_ (upd_frame i g x.1)) (ps_page x.2)) as Hcoh1.
  { intros H1. eapply coherent_upd; [done|done|]. simpl. intros _ _ Hd. apply orb_false_iff in Hd as [Hd ->].
    destruct (Hal i Hid) as [?|[?|[?|?]]]; [done|congruence|lia|]. by rewrite Hpid. }
  wp_steps; cbn [fst snd] in *; bprop.
  - rewrite Hgi in Heqb. assert (fr_pin (frame x.1 i) = 1) as H1 by (simpl in Heqb; lia). apply Hfin.
    + by rewrite table_evictable.
    + intros j. by rewrite frame_evictable.
    + split; cbn [fst snd]; [by eapply wf_unpin_last| |done]. rewrite frames_evictable. by apply Hcoh1.
  - rewrite Hgi in Heqb. simpl in Heqb. apply Hfin; [done|done|]. split; cbn [fst snd]; [| |done].
    + eapply wf_upd; [done|done| |done|done|simpl; lia]. split; simpl; [lia|done|done].
    + eapply coherent_upd; [done|done|]. simpl. lia.
Qed.

Lemma delete_page_spec wal x id :
  pool_inv None x ->
  wp (delete_page wal id) x (fun r x' =>
    pool_inv None x' /\ transparent wal x x' /\ (forall j, pins x'.1 j = pins x.1 j) /\
    match r with
    | Ok true => page_table_ x'.1 !! id = None /\ pins x.1 id = 0
    | Ok false => x' = x /\ 0 < pins x.1 id
    | Throw _ => x'.1 = x.1
    end).
Proof.
  intros Hinv. pose proof Hinv as [Hwf Hc Hs]. unfold delete_page, pool, on_pool, release_frame.
  wp_step. wp_step. destruct (page_table_ x.1 !! id) as [i|] eqn:Hid.
  2:{ wp_steps. split_and!; try done; [apply transparent_refl|by apply (same_pins_hit x)]. }
  destruct (table_frame _ _ _ _ Hwf Hid) as (Hi & Ho & Hpid).
  pose proof (wf_frames _ _ Hwf _ _ Hi) as [Hpin Hpend Hpg].
  assert (pins x.1 id = fr_pin (frame x.1 i)) as Hpins by (unfold pins; by rewrite Hid).
  destruct (Z.eqb_spec (fr_pin (frame x.1 i)) 0) as [Hz|Hz]; simpl.
  2:{ wp_steps. rewrite Hpins. split_and!; try done; [apply transparent_refl|lia]. }
  wp_step. wp_use write_dirty_frame_spec; [done|done|done|].
  intros [[]|e] x1 (Hinv1 & Htr & _ & Hr & _).
  2:{ split_and!; try done. intros j. unfold pins, frame. by rewrite Hr. }
  destruct (written_frame _ _ _ _ Hi Hr) as (Hi1 & Hpt & Hl1 & Hp1 & Hf1 & Hpin1).
  unfold on_pool. wp_steps. cbn [fst snd].
  set (f1 := set_dirty false (frame x.1 i)) in *.
  destruct (remove_from_lru_wf_fields i x1.1) as (Hn & Hpos & Hel & _);
    [rewrite Hl1; apply Hwf|rewrite Hl1, Hp1; apply Hwf|].
  destruct (detach_spec x1 i f1 (lru_ (remove_from_lru i x1.1)) (lru_positions_ (remove_from_lru i x1.1)))
    as (Hinv2 & Hloc2 & Hpins2 & Hpt2); [done|done|done|done|done|done|done|done|].
  match type of Hinv2 with pool_inv _ (?s2, _) => set (s2' := s2) in * end.
  destruct (release_spec (s2', x1.2) i Hinv2) as (Hinv3 & Hloc3 & Hpins3).
  assert (reset_frame i s2' = s2') as Hrr.
  { apply (reset_reset i f1). done. }
  assert (reset_frame i (set_page_table (delete id (page_table_ (remove_from_lru i x1.1)))
            (remove_from_lru i x1.1)) = s2') as Hs2.
  { unfold s2'. rewrite table_remove, remove_set_lru. by rewrite <- Hpid. }
  rewrite Hs2. cbn [fst snd] in *. rewrite Hrr in Hinv3, Hloc3, Hpins3. split_and!.
  - done.
  - eapply transparent_then; [done|done|]. destruct Hloc2 as (Hv2 & Hpn2 & _), Hloc3 as (Hv3 & _ & _).
    split_and!; [|done|done]. intros j. etrans; [apply Hv3|apply Hv2].
  - intros j. etrans; [apply Hpins3|]. etrans; [apply Hpins2|]. unfold pins. rewrite Hpt.
    destruct (page_table_ x.1 !! j); [apply Hpin1|done].
  - etrans; [exact (f_equal (fun m => m !! id) Hpt2)|]. simpl. rewrite Hpid. apply lookup_delete_eq.
  - by rewrite Hpins.
Qed.

(** ** Flushing *)

Lemma write_back_store hole s p i f r p' :
  pool_wf hole s -> coherent (frames_ s) (ps_page p) -> ps_ok p -> frames_ s !! i = Some f ->
  fr_occupied f = true -> ps_write (page_id (fr_page f)) (fr_page f) p = (r, p') ->
  ps_ok p' /\ ps_allocated p' = ps_allocated p /\ (ps_healthy p -> ps_healthy p') /\
  (forall j, j <> page_id (fr_page f) -> ps_page p' j = ps_page p j) /\
  (r = Ok tt -> ps_page p' (page_id (fr_page f)) = Some (fr_page f)) /\
  (ps_page p (page_id (fr_page f)) = Some (fr_page f) ->
   ps_page p' (page_id (fr_page f)) = Some (fr_page f)) /\
  coherent (frames_ s) (ps_page p').
Proof.
  intros Hwf Hc Hs Hi Ho Hw. pose proof (wf_frames _ _ Hwf _ _ Hi) as [_ _ Hpg].
  pose proof (ps_write_spec _ _ _ _ _ Hs (pw_id _ Hpg) Hpg Hw) as (Hs' & Hal & Hh & Hoth & Hok).
  assert (ps_page p (page_id (fr_page f)) = Some (fr_page f) ->
          ps_page p' (page_id (fr_page f)) = Some (fr_page f)) as Hsame.
  { intros Hst. eapply ps_write_same; [exact Hs|apply Hpg|exact Hpg|exact Hst|exact Hw]. }
  split_and!; [done|done|done|done|intros Hr; by apply Hok|done|].
  eapply (coherent_store hole s i f (ps_page p)); [done|done|done|done| |done].
  destruct (fr_dirty f) eqn:Hd; [by left|]. destruct (decide (fr_pin f = 0)) as [Hz|]; [|right; by left].
  right. right. apply Hsame. by eapply Hc.
Qed.

(** What [flush_page] does, on every path; the log is consulted only for a dirty frame. *)
Lemma flush_page_spec wal x id :
  pool_inv None x ->
  wp (flush_page wal id) x (fun r x' =>
    pool_inv None x' /\ (forall j, view x' j = view x j) /\ page_table_ x'.1 = page_table_ x.1 /\
    (forall j, pins x'.1 j = pins x.1 j) /\ ps_allocated x'.2 = ps_allocated x.2 /\
    (ps_healthy x.2 -> ps_healthy x'.2) /\
    (forall j, j <> id -> ps_page x'.2 j = ps_page x.2 j) /\
    match r with
    | Ok true => ps_page x'.2 id = view x id /\ is_dirty x'.1 id = Some false
    | Ok false => x' = x /\ page_table_ x.1 !! id = None
    | Throw _ => is_dirty x'.1 id = is_dirty x.1 id
    end /\
    (is_dirty x.1 id = Some true -> ~ writable wal x.1 id -> x' = x /\ exists e, r = Throw e)).
Proof.
  intros Hinv. pose proof Hinv as [Hwf Hc Hs]. unfold flush_page, pool, on_pool, on_store.
  wp_step. wp_step. destruct (page_table_ x.1 !! id) as [i|] eqn:Hid.
  2:{ wp_steps. split_and!; try done. unfold is_dirty. by rewrite Hid. }
  assert (is_dirty x.1 id = Some (fr_dirty (frame x.1 i))) as Hdirty by (unfold is_dirty; by rewrite Hid).
  destruct (table_frame _ _ _ _ Hwf Hid) as (Hi & Ho & Hpid).
  match goal with |- wp _ _ ?Q => set (Post := Q) end.
  unfold require_mutations_finalized, require_wal_durable.
  assert (forall e, Post (Throw e) x) as Hthrow.
  { intros e. unfold Post. split_and!; try done. intros _ _. eauto. }
  wp_step. match goal with |- wp ?m x ?Q => set (guard := m); set (Q1 := Q) end.
  assert ((fr_dirty (frame x.1 i) = true -> writable wal x.1 id) -> Q1 (Ok tt) x) as Hgo.
  2:{ unfold guard. destruct (fr_dirty (frame x.1 i)) eqn:Hd; [|wp_steps; by apply Hgo].
      wp_steps; bprop; [apply Hthrow..|]. apply Hgo. intros _. exists i. by rewrite Hd. }
  intros Hw. unfold Q1. clear Q1 guard Hthrow. wp_step. wp_step. cbn [fst snd].
  apply wp_intro. intros r p1 Hwr. rewrite <- Hpid in Hwr.
  destruct (write_back_store None x.1 x.2 i (frame x.1 i) r p1 Hwf Hc Hs Hi Ho Hwr)
    as (Hs1 & Hal1 & Hh1 & Hoth1 & Hok1 & Hsame1 & Hc1). rewrite Hpid in *.
  assert (forall s' p', page_table_ s' = page_table_ x.1 -> (forall j, fr_page (frame s' j) = fr_page (frame x.1 j)) ->
    (forall j, j <> id -> ps_page p' j = ps_page x.2 j) -> forall j, view (s', p') j = view x j) as Hview.
  { intros s' p' Hpt Hfr Hst j. unfold view. simpl. rewrite Hpt.
    destruct (page_table_ x.1 !! j) eqn:Hj; [by rewrite Hfr|]. apply Hst. congruence. }
  assert (fr_dirty (frame x.1 i) = true -> ~ writable wal x.1 id -> False) as Hcontra by tauto.
  destruct r as [[]|e].
  - wp_step. wp_step. cbn [fst snd]. wp_step. wp_step. cbn [fst snd].
    apply wp_intro. intros r2 p2 Hfl.
    destruct (ps_flush_spec _ _ _ Hs1 Hfl) as (Hs2 & Hpg2 & Hal2 & Hh2). destruct r2 as [[]|e].
    + wp_steps. cbn [fst snd]. assert (frames_ (count_write x.1) !! i = Some (frame x.1 i)) as Hi1 by done.
      assert (forall j, frame (upd_frame i (set_dirty false) (count_write x.1)) j =
                if decide (j = i) then set_dirty false (frame x.1 i) else frame x.1 j) as Hfr.
      { intros j. by rewrite (frame_upd _ _ _ _ _ Hi1). }
      unfold Post. split_and!; cbn [fst snd]; try done.
      * split; cbn [fst snd]; [| |done].
        -- eapply wf_upd; [exact (wf_stats _ _ _ Hwf)|done| |done|done|done].
           destruct (wf_frames _ _ Hwf _ _ Hi). by split.
        -- rewrite Hpg2. apply (coherent_upd (count_write x.1) i (frame x.1 i)); [done|done|].
           intros _ _ _. simpl. rewrite Hpid. by apply Hok1.
      * apply Hview; [done| |rewrite Hpg2; done]. intros j. rewrite Hfr. by case_decide; subst.
      * intros j. unfold pins. simpl. destruct (page_table_ x.1 !! j); [|done]. rewrite Hfr. by case_decide; subst.
      * by rewrite Hal2.
      * intros Hh. by apply Hh2, Hh1.
      * by rewrite Hpg2.
      * rewrite Hpg2, (view_cached x id i Hid). by apply Hok1.
      * unfold is_dirty. simpl. rewrite Hid. simpl. rewrite Hfr. by rewrite decide_True.
      * intros Hd Hnw. exfalso. apply Hcontra; [|done]. congruence.
    + unfold Post. split_and!; cbn [fst snd]; try done.
      * split; cbn [fst snd]; [exact (wf_stats _ _ _ Hwf)|by rewrite Hpg2|done].
      * apply Hview; [done|done|rewrite Hpg2; done].
      * by rewrite Hal2.
      * intros Hh. by apply Hh2, Hh1.
      * by rewrite Hpg2.
      * intros Hd Hnw. exfalso. apply Hcontra; [|done]. congruence.
  - unfold Post. split_and!; cbn [fst snd]; try done.
    + by apply Hview.
    + intros Hd Hnw. exfalso. apply Hcontra; [|done]. congruence.
Qed.

Lemma transparent_stats wal x x1 x2 v :
  transparent wal x x1 -> x1.1 = set_stats v x.1 -> transparent wal x1 x2 -> transparent wal x x2.
Proof.
  intros [Hv1 Hp1 Hw1 Ha1 Hh1] Hx [Hv2 Hp2 Hw2 Ha2 Hh2].
  split.
  - intros id. by rewrite Hv2, Hv1.
  - intros id i Hi Hlt. apply Hp2; rewrite Hx; done.
  - intros id. destruct (Hw2 id) as [->|[Hw Hst]]; [apply Hw1|]. rewrite Hx in Hw. right. split; [done|].
    intros Hh. rewrite Hst by auto. apply Hv1.
  - by rewrite Ha2, Ha1.
  - auto.
Qed.

(** The pages of dirty frames that the store already holds. *)
Definition saved x x' (i : nat) : Prop :=
  forall f, frames_ x.1 !! i = Some f -> fr_occupied f = true -> fr_dirty f = true ->
    ps_page x'.2 (page_id (fr_page f)) = Some (fr_page f).

Lemma flush_frame_spec wal x i :
  pool_inv None x ->
  wp (flush_frame wal i) x (fun r x' =>
    pool_inv None x' /\ (exists v, x'.1 = set_stats v x.1) /\ transparent wal x x' /\
    (r = Ok tt -> saved x x' i) /\ (forall j, saved x x j -> saved x x' j)).
Proof.
  intros Hinv. pose proof Hinv as [Hwf Hc Hs].
  assert (exists v, x.1 = set_stats v x.1) as Hst by (exists (stats_ x.1); by destruct x.1).
  unfold flush_frame, pool, on_pool, on_store, require_mutations_finalized, require_wal_durable.
  wp_step. wp_step. destruct (frames_ x.1 !! i) as [f|] eqn:Hi.
  2:{ replace (frame x.1 i) with empty_frame by (unfold frame; by rewrite Hi). simpl. wp_steps.
      split_and!; try done; [apply transparent_refl|]. intros _ f' Hf'. congruence. }
  rewrite (frame_lookup _ _ _ Hi). destruct (fr_occupied f && fr_dirty f) eqn:Hod.
  2:{ wp_steps. split_and!; try done; [apply transparent_refl|]. intros _ f' Hf' H1 H2.
      simplify_eq. by rewrite H1, H2 in Hod. }
  apply andb_true_iff in Hod as [Ho Hd]. wp_step. wp_step.
  { split_and!; try done; apply transparent_refl. }
  wp_step. wp_step; bprop.
  { split_and!; try done; apply transparent_refl. }
  wp_step. wp_step. cbn [fst snd]. apply wp_intro. intros r p1 Hwr.
  destruct (write_back_store None x.1 x.2 i f r p1 Hwf Hc Hs Hi Ho Hwr)
    as (Hs1 & Hal1 & Hh1 & Hoth1 & Hok1 & Hsame1 & Hc1).
  pose proof (wf_occupied _ _ Hwf _ _ Hi Ho) as Htab.
  assert (forall s', page_table_ s' = page_table_ x.1 -> frames_ s' = frames_ x.1 ->
            transparent wal x (s', p1)) as Htr.
  { intros s' Hpt Hfr. split; cbn [fst snd]; [| | |done|done].
    - intros j. unfold view, frame. cbn [fst snd]. rewrite Hpt, Hfr.
      destruct (page_table_ x.1 !! j) eqn:Hj; [done|]. apply Hoth1. congruence.
    - intros j k Hj _. by rewrite Hpt.
    - intros j. destruct (decide (j = page_id (fr_page f))) as [->|]; [|left; auto].
      destruct (stored_back x.1 x.2 i f r p1 Hs Hi Htab (fo_page _ (wf_frames _ _ Hwf _ _ Hi)) Hwr) as [?|Hback]; [by left|].
      right. split; [|by destruct x]. exists i. by rewrite (frame_lookup _ _ _ Hi). }
  assert (forall j s', saved x x j -> saved x (s', p1) j) as Hkeep.
  { intros j s' Hsv f' Hf' Ho' Hd'. cbn [snd].
    destruct (decide (page_id (fr_page f') = page_id (fr_page f))) as [Heq|Hne].
    - pose proof (wf_occupied _ _ Hwf _ _ Hf' Ho') as Htab'. rewrite Heq in Htab'.
      assert (i = j) as <- by congruence. simplify_eq. apply Hsame1. by apply Hsv.
    - rewrite Hoth1 by done. by apply Hsv. }
  destruct r as [[]|e].
  - wp_steps. cbn [fst snd]. split_and!.
    + split; cbn [fst snd]; [exact (wf_stats _ _ _ Hwf)|done|done].
    + by eexists.
    + by apply Htr.
    + intros _ f' Hf' _ _. simplify_eq. by apply Hok1.
    + intros j. apply Hkeep.
  - split_and!; [by split|done|by apply Htr|done|intros j; apply Hkeep].
Qed.

Lemma flush_frames_spec wal l x :
  pool_inv None x ->
  wp (for_each l (flush_frame wal)) x (fun r x' =>
    pool_inv None x' /\ (exists v, x'.1 = set_stats v x.1) /\ transparent wal x x' /\
    (r = Ok tt -> forall i, i ∈ l -> saved x x' i) /\ (forall j, saved x x j -> saved x x' j)).
Proof.
  revert x. induction l as [|i l IH]; intros x Hinv; cbn [for_each].
  - wp_steps. split_and!; [done|exists (stats_ x.1); by destruct x.1|apply transparent_refl| |done].
    intros _ i Hi. by apply not_elem_of_nil in Hi.
  - wp_step. wp_use flush_frame_spec; [done|]. intros [[]|e] x1 (Hinv1 & [v1 Hx1] & Htr1 & Hsv1 & Hk1).
    2:{ split_and!; [done|by eexists|done|done|done]. }
    wp_use IH; [done|]. intros r x2 (Hinv2 & [v2 Hx2] & Htr2 & Hsv2 & Hk2).
    assert (forall x3 j, saved x1 x3 j <-> saved x x3 j) as Heq by (intros; unfold saved; by rewrite Hx1).
    split_and!.
    + done.
    + exists v2. by rewrite Hx2, Hx1.
    + by eapply transparent_stats.
    + intros Hr j Hj. apply elem_of_cons in Hj as [->|Hj]; apply Heq; [|by apply Hsv2].
      apply Hk2. apply Heq. by apply Hsv1.
    + intros j Hj. apply Heq, Hk2, Heq, Hk1, Hj.
Qed.

Lemma clear_dirty_lookup s i :
  frames_ (set_frames (clear_dirty <$> frames_ s) s) !! i = clear_dirty <$> frames_ s !! i.
Proof. simpl. apply list_lookup_fmap. Qed.

Lemma wf_clear_dirty s : pool_wf None s -> pool_wf None (set_frames (clear_dirty <$> frames_ s) s).
Proof.
  intros []. assert (forall f, fr_occupied (clear_dirty f) = fr_occupied f /\ fr_pin (clear_dirty f) = fr_pin f /\
    fr_page (clear_dirty f) = fr_page f /\ fr_pending (clear_dirty f) = fr_pending f) as Hcd.
  { intros f. unfold clear_dirty. by destruct (fr_occupied f) eqn:E; rewrite ?E. }
  assert (forall P : Frame -> Prop, (forall f, P (clear_dirty f) <-> P f) -> forall i,
    (exists f, frames_ (set_frames (clear_dirty <$> frames_ s) s) !! i = Some f /\ P f) <->
    (exists f, frames_ s !! i = Some f /\ P f)) as Hex.
  { intros Q HQ i. rewrite clear_dirty_lookup. split.
    - intros (f & Hf & HQf). apply fmap_Some in Hf as (f' & Hf' & ->). exists f'. split; [done|by apply HQ].
    - intros (f & Hf & HQf). exists (clear_dirty f). rewrite Hf. split; [done|by apply HQ]. }
  split; try done.
  - intros id i Hi. apply Hex; [|eauto]. intros f. by destruct (Hcd f) as (-> & _ & -> & _).
  - intros i f Hf Ho. rewrite clear_dirty_lookup in Hf. apply fmap_Some in Hf as (f' & Hf' & ->).
    destruct (Hcd f') as (Ho' & _ & -> & _). rewrite Ho' in Ho. by apply wf_occupied0.
  - intros i. rewrite (Hex (fun f => fr_occupied f = false)); [apply wf_free0|].
    intros f. by destruct (Hcd f) as (-> & _).
  - intros i. rewrite (Hex (fun f => fr_occupied f = true /\ fr_pin f = 0)); [apply wf_lru0|].
    intros f. by destruct (Hcd f) as (-> & -> & _).
  - intros i f Hf. rewrite clear_dirty_lookup in Hf. apply fmap_Some in Hf as (f' & Hf' & ->).
    destruct (Hcd f') as (_ & Hp & Hpg & Hpn). destruct (wf_frames0 _ _ Hf').
    split; [by rewrite Hp|by rewrite Hpn|by rewrite Hpg].
Qed.

Lemma flush_all_pages_spec wal x :
  pool_inv None x ->
  wp (flush_all_pages wal) x (fun r x' =>
    pool_inv None x' /\ transparent wal x x' /\ page_table_ x'.1 = page_table_ x.1 /\
    (forall j, pins x'.1 j = pins x.1 j) /\
    (r = Ok tt -> forall id i, page_table_ x.1 !! id = Some i ->
       is_dirty x'.1 id = Some false /\
       (fr_dirty (frame x.1 i) = true \/ fr_pin (frame x.1 i) = 0 -> ps_page x'.2 id = view x id))).
Proof.
  intros Hinv. unfold flush_all_pages, pool, on_pool, on_store. wp_step. wp_step. wp_step.
  wp_use flush_frames_spec; [done|]. intros [[]|e] x1 (Hinv1 & [v Hx1] & Htr1 & Hsv & _).
  2:{ assert (page_table_ x1.1 = page_table_ x.1) as Hpt by by rewrite Hx1.
      split_and!; [done|done|done| |done]. intros j. by rewrite Hx1. }
  wp_step. wp_step. apply wp_intro. intros r p2 Hfl.
  destruct (ps_flush_spec _ _ _ (pi_store _ _ Hinv1) Hfl) as (Hs2 & Hpg2 & Hal2 & Hh2).
  destruct Htr1 as [Hv1 Hp1 Hw1 Ha1 Hh1].
  assert (forall s', page_table_ s' = page_table_ x.1 -> (forall j, fr_page (frame s' j) = fr_page (frame x.1 j)) ->
            transparent wal x (s', p2)) as Htr.
  { intros s' Hpt Hfr. split; cbn [fst snd].
    - intros j. rewrite <- Hv1. unfold view. cbn [fst snd]. rewrite Hpt, Hpg2, Hx1.
      change (page_table_ (set_stats v x.1)) with (page_table_ x.1).
      destruct (page_table_ x.1 !! j); [by rewrite Hfr|done].
    - intros j k Hj _. by rewrite Hpt.
    - rewrite Hpg2. apply Hw1.
    - by rewrite Hal2, Ha1.
    - intros Hh. by apply Hh2, Hh1. }
  destruct r as [[]|e].
  2:{ rewrite Hx1. split_and!; try done.
      - destruct Hinv1 as [Hwf1 Hc1 _]. split; cbn [fst snd]; [by rewrite <- Hx1|by rewrite Hpg2, <- Hx1|done].
      - by apply Htr. }
  wp_steps. cbn [fst snd]. rewrite Hx1 in *. cbn [fst snd frames_ set_stats] in *.
  set (s' := set_frames _ _).
  assert (forall i, frame s' i = clear_dirty (frame x.1 i)) as Hfr.
  { intros i. unfold frame. change (frames_ s') with (clear_dirty <$> frames_ x.1).
    rewrite list_lookup_fmap. by destruct (frames_ x.1 !! i). }
  assert (forall f, fr_page (clear_dirty f) = fr_page f /\ fr_pin (clear_dirty f) = fr_pin f) as Hcd.
  { intros f. unfold clear_dirty. by destruct (fr_occupied f). }
  assert (forall i f, frames_ x.1 !! i = Some f -> fr_occupied f = true ->
    fr_dirty f = true \/ fr_pin f = 0 -> ps_page p2 (page_id (fr_page f)) = Some (fr_page f)) as Hall.
  { intros i f Hi Ho Hcase. rewrite Hpg2. destruct (fr_dirty f) eqn:Hd.
    - apply (Hsv eq_refl i); [|done|done|done]. apply elem_of_seq. apply lookup_lt_Some in Hi. lia.
    - destruct Hcase as [?|Hz]; [done|]. eapply (pi_coherent _ _ Hinv1); [|done|done|done]. by rewrite Hx1. }
  split_and!.
  - split; cbn [fst snd]; [|intros i f Hi Ho Hz _|done].
    + apply (wf_clear_dirty (set_stats v x.1)). apply wf_stats, Hinv.
    + change (frames_ s') with (clear_dirty <$> frames_ x.1) in Hi. rewrite list_lookup_fmap in Hi.
      apply fmap_Some in Hi as (f' & Hf' & ->). destruct (Hcd f') as [-> Hp].
      apply (Hall i); [done| |right; by rewrite <- Hp].
      unfold clear_dirty in Ho. by destruct (fr_occupied f') eqn:E; rewrite ?E in Ho.
  - apply Htr; [done|]. intros j. rewrite Hfr. apply Hcd.
  - done.
  - intros j. unfold pins. change (page_table_ s') with (page_table_ x.1).
    destruct (page_table_ x.1 !! j); [|done]. rewrite Hfr. apply Hcd.
  - intros _ id i Hi. destruct (table_frame _ _ _ _ (pi_wf _ _ Hinv) Hi) as (Hf & Ho & Hpid). split.
    + unfold is_dirty. change (page_table_ s') with (page_table_ x.1). rewrite Hi. simpl. rewrite Hfr.
      unfold clear_dirty. by rewrite Ho.
    + intros Hcase. rewrite (view_cached x id i Hi), <- Hpid. by apply (Hall i).
Qed.

(** ** Writes of clients and PageLSN changes *)

Lemma touch_spec x id i g :
  pool_inv None x -> page_table_ x.1 !! id = Some i ->
  frame_ok (g (frame x.1 i)) -> fr_occupied (g (frame x.1 i)) = true ->
  page_id (fr_page (g (frame x.1 i))) = id -> fr_pin (g (frame x.1 i)) = fr_pin (frame x.1 i) ->
  (fr_page (g (frame x.1 i)) = fr_page (frame x.1 i) /\ fr_dirty (g (frame x.1 i)) = fr_dirty (frame x.1 i) \/
   fr_dirty (g (frame x.1 i)) = true \/ 0 < fr_pin (frame x.1 i)) ->
  let x' := (upd_frame i g x.1, x.2) in
  pool_inv None x' /\ page_table_ x'.1 = page_table_ x.1 /\ (forall j, pins x'.1 j = pins x.1 j) /\
  view x' id = Some (fr_page (g (frame x.1 i))) /\ (forall j, j <> id -> view x' j = view x j).
Proof.
  intros [Hwf Hc Hs] Hid Hok Ho Hp Hpin Hcl. destruct (table_frame _ _ _ _ Hwf Hid) as (Hi & Ho' & Hpid).
  assert (forall j, frame (upd_frame i g x.1) j = if decide (j = i) then g (frame x.1 i) else frame x.1 j) as Hfr.
  { intros j. by rewrite (frame_upd _ _ _ _ _ Hi). }
  split_and!.
  - split; cbn [fst snd]; [| |done].
    + eapply wf_upd; [done|done|done|congruence|congruence|by rewrite Hpin].
    + eapply coherent_upd; [done|done|]. intros _ Hz Hd. destruct Hcl as [[Hpg Hdd]|[?|?]]; [|congruence|lia].
      rewrite Hpg. apply (Hc i); congruence.
  - done.
  - intros j. unfold pins. simpl. destruct (page_table_ x.1 !! j); [|done]. rewrite Hfr. by case_decide; subst.
  - unfold view. simpl. rewrite Hid, Hfr. by rewrite decide_True.
  - intros j Hne. unfold view. simpl. destruct (page_table_ x.1 !! j) as [k|] eqn:Hk; [|done].
    rewrite Hfr. case_decide; [|done]. subst. destruct (table_frame _ _ _ _ Hwf Hk) as (_ & _ & ?). congruence.
Qed.

(** ** Frames without pending mutations *)

Definition no_pending (s : t) : Prop := forall i, fr_pending (frame s i) = 0.

Lemma no_pending_upd s i g :
  no_pending s -> (forall f, fr_pending f = 0 -> fr_pending (g f) = 0) -> no_pending (upd_frame i g s).
Proof.
  intros Hs Hg j. destruct (frames_ s !! i) as [f|] eqn:Hi.
  - rewrite (frame_upd _ _ _ _ _ Hi). case_decide; [|apply Hs]. apply Hg.
    by rewrite <- (frame_lookup _ _ _ Hi).
  - unfold frame, upd_frame, set_frames. cbn [frames_]. rewrite list_insert_ge; [apply Hs|by apply lookup_ge_None].
Qed.

Lemma no_pending_remove s i : no_pending s -> no_pending (remove_from_lru i s).
Proof. intros Hs j. by rewrite frame_remove. Qed.

Lemma no_pending_evictable s i : no_pending s -> no_pending (make_evictable i s).
Proof. intros Hs j. by rewrite frame_evictable. Qed.

(** Symbolic execution up to the operations of the store, which leave the pool alone. *)
Ltac no_pending_steps :=
  unfold on_pool, pool, on_store;
  repeat (wp_steps; cbn [fst snd];
    first [ assumption | done
          | match goal with
            | |- no_pending (upd_frame ?i ?g ?s) => apply (no_pending_upd s i g); [|done]
            | |- no_pending (remove_from_lru _ _) => apply no_pending_remove
            | |- no_pending (make_evictable _ _) => apply no_pending_evictable
            | |- no_pending (set_page_table _ ?s) => change (no_pending s)
            | |- no_pending (set_lru _ _ ?s) => change (no_pending s)
            | |- no_pending (set_free _ ?s) => change (no_pending s)
            | |- no_pending (count_hit ?s) => change (no_pending s)
            | |- no_pending (count_read ?s) => change (no_pending s)
            | |- no_pending (count_write ?s) => change (no_pending s)
            end
          | lazymatch goal with |- wp (_ _) _ _ => apply wp_intro; intros [?|?] ? _; cbn beta iota end ]).

Lemma write_dirty_frame_pending wal i x :
  no_pending x.1 -> wp (write_dirty_frame wal i) x (fun _ x' => no_pending x'.1).
Proof.
  intros Hs. unfold write_dirty_frame, require_mutations_finalized, require_wal_durable. no_pending_steps.
Qed.

Lemma acquire_frame_pending wal x :
  no_pending x.1 -> wp (acquire_frame wal) x (fun _ x' => no_pending x'.1).
Proof.
  intros Hs. unfold acquire_frame, reset_frame. unfold on_pool, pool. wp_steps; try done.
  wp_use write_dirty_frame_pending; [done|]. intros [?|?] x' Hs'; no_pending_steps.
Qed.

Lemma fetch_page_pending wal id x :
  no_pending x.1 -> wp (fetch_page wal id) x (fun _ x' => no_pending x'.1).
Proof.
  intros Hs. unfold fetch_page. unfold on_pool. wp_step. wp_step. wp_step; [by wp_steps|].
  wp_step. wp_step. wp_step. wp_step; [done|]. wp_step; [|].
  - no_pending_steps.
  - wp_step. wp_use acquire_frame_pending; [done|]. intros [[i|]|e] x' Hs'; [|by wp_steps|done].
    unfold load_page, release_frame, reset_frame. no_pending_steps.
Qed.

Lemma unpin_page_pending id d x :
  no_pending x.1 -> wp (unpin_page id d) x (fun _ x' => no_pending x'.1).
Proof. intros Hs. unfold unpin_page. no_pending_steps. Qed.

(** ** Composition of transparent operations *)

(** A step after which every page has its content and its pins back. *)
Record quiet x x' : Prop := {
  q_view : forall id, view x' id = view x id;
  q_pins : forall id, pins x'.1 id = pins x.1 id;
  q_pinned : forall id i, page_table_ x.1 !! id = Some i -> 0 < fr_pin (frame x.1 i) -> page_table_ x'.1 !! id = Some i;
  q_allocated : ps_allocated x'.2 = ps_allocated x.2;
  q_healthy : ps_healthy x.2 -> ps_healthy x'.2;
}.

(** A fetch that finds the page cached returns its frame and moves no page. *)
Lemma fetch_hit wal x id i :
  page_table_ x.1 !! id = Some i -> fr_pin (frame x.1 i) < kMaxU32 -> is_valid id = true ->
  ps_allocated x.2 id = true ->
  exists x', fetch_page wal id x = (Ok (Some i), x') /\ page_table_ x'.1 = page_table_ x.1.
Proof.
  intros Hid Hlt Hv Ha. unfold fetch_page, on_pool, bind, modify, get, throw_if. rewrite Hv. cbn [negb fst snd].
  rewrite Ha. cbn [negb ret]. change (page_table_ (count_fetch x.1)) with (page_table_ x.1). rewrite Hid.
  change (frame (count_fetch x.1) i) with (frame x.1 i). replace (fr_pin (frame x.1 i) =? kMaxU32) with false by lia.
  eexists. split; [done|]. cbn [fst]. change (page_table_ (count_hit ?s)) with (page_table_ s). by rewrite table_remove.
Qed.

(** ** Pools whose frames can always be reused *)

(** The length of the frame table of an updated pool. *)
Ltac frames_len :=
  unfold reset_frame, upd_frame;
  cbn [fst frames_ set_free set_frames count_read count_write set_page_table set_stats set_lru];
  rewrite ?length_insert, ?frames_remove, ?length_insert.

(** No mutation is waiting for its LSN, the log is durable up to every PageLSN, and only
    allocated pages are cached. *)
Record tidy (wal : option Z) x : Prop := {
  td_pending : no_pending x.1;
  td_frames : frames_ x.1 <> [];
  td_allocated : forall j, is_Some (page_table_ x.1 !! j) -> ps_allocated x.2 j = true;
  td_durable : forall j pg, view x j = Some pg -> wal_covers wal (page_lsn pg) = true;
}.

Definition unpinned (s : t) : Prop := forall id, pins s id = 0.

Lemma tidy_fetchable wal x id : pool_inv None x -> tidy wal x -> unpinned x.1 -> fetchable wal x id.
Proof.
  intros Hinv [Hp Hf Ha Hd] Hu. pose proof (pi_wf _ _ Hinv) as Hwf. destruct (page_table_ x.1 !! id) as [i|] eqn:Hid.
  - left. exists i. split; [done|]. rewrite <- (pins_table _ _ _ Hid), Hu. done.
  - right. split; [done|]. destruct (frames_ x.1 !! 0%nat) as [f|] eqn:E0.
    2:{ apply lookup_ge_None in E0. destruct (frames_ x.1); [done|simpl in E0; lia]. }
    destruct (fr_occupied f) eqn:Ho.
    2:{ left. intros Hnil. assert (0%nat ∈ free_frames_ x.1) as Hin.
        { apply (wf_free _ _ Hwf). split; [by exists f|done]. }
        rewrite Hnil in Hin. by apply not_elem_of_nil in Hin. }
    right. assert (0%nat ∈ lru_ x.1) as Hin.
    { apply (wf_lru _ _ Hwf). exists f. split_and!; [done|done|]. pose proof (wf_occupied _ _ Hwf _ _ E0 Ho) as Ht.
      rewrite <- (frame_lookup _ _ _ E0), <- (pins_table _ _ _ Ht). apply Hu. }
    destruct (lru_ x.1) as [|v rest] eqn:Hl; [by apply not_elem_of_nil in Hin|]. exists v, rest. split; [done|].
    destruct (proj1 (wf_lru _ _ Hwf v)) as (g & Hg & Hgo & _); [rewrite Hl; left|].
    pose proof (wf_occupied _ _ Hwf _ _ Hg Hgo) as Ht. rewrite (frame_lookup _ _ _ Hg). split; [by apply Ha|].
    right. split; [rewrite <- (frame_lookup _ _ _ Hg); apply Hp|]. apply (Hd (page_id (fr_page g))).
    by rewrite (view_cached _ _ _ Ht), (frame_lookup _ _ _ Hg).
Qed.

(** The number of frames never changes and a fetch caches at most the page it is asked for. *)
Definition caches (ok : PageId -> Prop) x x' : Prop :=
  length (frames_ x'.1) = length (frames_ x.1) /\
  forall j, is_Some (page_table_ x'.1 !! j) -> is_Some (page_table_ x.1 !! j) \/ ok j.

Lemma caches_same ok x x' :
  length (frames_ x'.1) = length (frames_ x.1) -> page_table_ x'.1 = page_table_ x.1 -> caches ok x x'.
Proof. intros Hl Ht. split; [done|]. intros j. rewrite Ht. by left. Qed.

Lemma write_dirty_frame_caches ok wal i x : wp (write_dirty_frame wal i) x (fun _ x' => caches ok x x').
Proof.
  unfold write_dirty_frame, require_mutations_finalized, require_wal_durable, on_pool, pool, on_store.
  wp_steps; try by apply caches_same. apply wp_intro. intros [] x' _; wp_steps; apply caches_same; try done.
  cbn [fst]. unfold upd_frame. simpl. by rewrite length_insert.
Qed.

Lemma frames_length_upd i g s : length (frames_ (upd_frame i g s)) = length (frames_ s).
Proof. unfold upd_frame. simpl. apply length_insert. Qed.

Lemma acquire_frame_caches ok wal x : wp (acquire_frame wal) x (fun _ x' => caches ok x x').
Proof.
  unfold acquire_frame, on_pool, pool. wp_step. wp_step. wp_step; [by wp_steps; apply caches_same|].
  wp_step; [by wp_steps; apply caches_same|]. wp_step. wp_use write_dirty_frame_caches. intros [[]|e] x1 [Hl Ht]; [|done].
  wp_steps. cbn [fst snd]. split; [by frames_len|].
  intros j Hj. apply Ht. change (is_Some (delete (page_id (fr_page (frame x1.1 n))) (page_table_ x1.1) !! j)) in Hj.
  destruct Hj as [i [_ Hi]%lookup_delete_Some]. by exists i.
Qed.

Lemma fetch_page_caches wal id x :
  wp (fetch_page wal id) x (fun _ x' => caches (fun j => j = id /\ ps_allocated x.2 id = true) x x').
Proof.
  unfold fetch_page, on_pool. wp_step. wp_step. wp_step; [by wp_steps; apply caches_same|].
  wp_step. wp_step. wp_step. wp_step; bprop; [by apply caches_same|]. cbn [fst snd] in *.
  set (ok := fun j => j = id /\ ps_allocated x.2 id = true). wp_step.
  - wp_steps; apply caches_same; try done; cbn [fst]; change (frames_ (count_hit ?s)) with (frames_ s);
      change (page_table_ (count_hit ?s)) with (page_table_ s); rewrite ?frames_remove, ?table_remove; [|done].
    by rewrite frames_length_upd.
  - wp_step. wp_use (acquire_frame_caches ok). intros [[i|]|e] x1 [Hl Ht]; [|by wp_steps|done].
    unfold load_page, release_frame, on_pool, on_store, pool, reset_frame. wp_steps. apply wp_intro.
    intros [pg|e] p1 _; wp_steps; cbn [fst snd].
    + split; [by frames_len|done].
    + split; [by frames_len|]. intros j Hj. change (is_Some (<[id := i]> (page_table_ x1.1) !! j)) in Hj.
      destruct (decide (j = id)) as [->|Hne]; [by right|]. rewrite lookup_insert_ne in Hj by done. by apply Ht.
    + split; [by frames_len|done].
Qed.

Lemma unpin_page_frames id d x : wp (unpin_page id d) x (fun _ x' => length (frames_ x'.1) = length (frames_ x.1)).
Proof.
  unfold unpin_page, on_pool, pool. wp_steps; try done; cbn [fst];
    rewrite ?frames_evictable; by rewrite ?frames_length_upd.
Qed.

Lemma delete_page_caches ok wal id x : wp (delete_page wal id) x (fun _ x' => caches ok x x').
Proof.
  unfold delete_page, release_frame, reset_frame, on_pool, pool. wp_step. wp_step.
  wp_step; [|by wp_steps; apply caches_same]. wp_step; [by wp_steps; apply caches_same|].
  wp_step. wp_use write_dirty_frame_caches. intros [[]|e] x1 [Hl Ht]; [|done]. wp_steps. cbn [fst snd].
  split; [by frames_len|].
  intros j Hj. apply Ht.
  change (is_Some (delete id (page_table_ (remove_from_lru n x1.1)) !! j)) in Hj. rewrite table_remove in Hj. destruct Hj as [i [_ Hi]%lookup_delete_Some]. by exists i.
Qed.

Lemma delete_page_pending wal id x :
  no_pending x.1 -> wp (delete_page wal id) x (fun _ x' => no_pending x'.1).
Proof.
  intros Hs. unfold delete_page, release_frame, reset_frame, on_pool, pool. wp_step. wp_step. wp_step; [|by wp_steps].
  wp_step; [by wp_steps|]. wp_step. wp_use write_dirty_frame_pending; [done|]. intros [[]|e] x' Hs'; no_pending_steps.
Qed.

Lemma frames_nonempty s s' : length (frames_ s') = length (frames_ s) -> frames_ s <> [] -> frames_ s' <> [].
Proof. intros Hl Hs Hs'. rewrite Hs' in Hl. by destruct (frames_ s). Qed.

(** Every operation that changes no content keeps a pool tidy. *)
Lemma tidy_step wal ok x x' :
  tidy wal x -> no_pending x'.1 -> caches ok x x' -> (forall j, ok j -> ps_allocated x.2 j = true) ->
  ps_allocated x'.2 = ps_allocated x.2 -> (forall j, view x' j = view x j) -> tidy wal x'.
Proof.
  intros [Hp Hf Ha Hd] Hp' [Hl Ht] Hok Hal Hv. split.
  - done.
  - by eapply frames_nonempty.
  - intros j Hj. rewrite Hal. destruct (Ht j Hj); auto.
  - intros j pg. rewrite Hv. apply Hd.
Qed.

Lemma fetch_page_tidy wal x id :
  pool_inv None x -> is_u64 id -> tidy wal x -> wp (fetch_page wal id) x (fun _ x' => tidy wal x').
Proof.
  intros Hinv Hid Htd. apply wp_intro. intros r x' E.
  pose proof (wp_elim _ _ _ _ _ (fetch_page_spec wal x id Hinv Hid) E) as (_ & Htr & _).
  eapply tidy_step; [done|exact (wp_elim _ _ _ _ _ (fetch_page_pending wal id x (td_pending _ _ Htd)) E)
    |exact (wp_elim _ _ _ _ _ (fetch_page_caches wal id x) E)|by intros j [-> ?]|apply Htr|apply Htr].
Qed.

Lemma unpin_page_tidy wal x id d :
  pool_inv None x -> unpin_allowed x id d -> tidy wal x -> wp (unpin_page id d) x (fun _ x' => tidy wal x').
Proof.
  intros Hinv Hal Htd. apply wp_intro. intros r x' E.
  pose proof (wp_elim _ _ _ _ _ (unpin_page_spec x id d Hinv Hal) E) as (_ & (Hv & _ & Hs) & Ht & _).
  eapply (tidy_step _ (fun _ => False)); [done|exact (wp_elim _ _ _ _ _ (unpin_page_pending id d x (td_pending _ _ Htd)) E)| |done|by rewrite Hs|done].
  apply caches_same; [|done]. exact (wp_elim _ _ _ _ _ (unpin_page_frames id d x) E).
Qed.

Lemma delete_page_tidy wal x id :
  pool_inv None x -> tidy wal x -> wp (delete_page wal id) x (fun _ x' => tidy wal x').
Proof.
  intros Hinv Htd. apply wp_intro. intros r x' E.
  pose proof (wp_elim _ _ _ _ _ (delete_page_spec wal x id Hinv) E) as (_ & Htr & _).
  eapply (tidy_step _ (fun _ => False)); [done|exact (wp_elim _ _ _ _ _ (delete_page_pending wal id x (td_pending _ _ Htd)) E)
    |exact (wp_elim _ _ _ _ _ (delete_page_caches _ wal id x) E)|done|apply Htr|apply Htr].
Qed.

Lemma delete_page_live wal x id :
  pool_inv None x -> tidy wal x -> unpinned x.1 -> ps_healthy x.2 -> (delete_page wal id x).1 = Ok true.
Proof.
  intros Hinv [Hp _ Ha Hd] Hu Hh.
  change (wp (delete_page wal id) x (fun r _ => r = Ok true)). unfold delete_page, release_frame, on_pool, pool.
  wp_step. wp_step. destruct (page_table_ x.1 !! id) as [i|] eqn:Hid; [|by wp_steps].
  destruct (table_frame _ _ _ _ (pi_wf _ _ Hinv) Hid) as (Hi & Ho & Hpid).
  rewrite <- (pins_table _ _ _ Hid), Hu. cbn [Z.eqb negb]. wp_step.
  wp_use write_dirty_frame_spec; [done|done|done|]. intros r x1 (_ & _ & _ & _ & Hlive).
  rewrite Hlive; [by wp_steps|done|rewrite Hpid; by apply Ha|]. right. split; [apply Hp|].
  apply (Hd id). by apply view_cached.
Qed.
(** ** A flush on a store without faults *)

Lemma flush_frame_live wal x i :
  pool_inv None x -> tidy wal x -> ps_healthy x.2 -> wp (flush_frame wal i) x (fun r _ => r = Ok tt).
Proof.
  intros Hinv [Hp _ Ha Hd] Hh. unfold flush_frame, pool, on_pool, on_store, require_mutations_finalized, require_wal_durable.
  wp_step. wp_step. destruct (frames_ x.1 !! i) as [f|] eqn:Hi.
  2:{ replace (frame x.1 i) with empty_frame by (unfold frame; by rewrite Hi). simpl. by wp_steps. }
  specialize (Hp i). rewrite (frame_lookup _ _ _ Hi) in *. destruct (fr_occupied f && fr_dirty f) eqn:Hod; [|by wp_steps].
  apply andb_true_iff in Hod as [Ho _]. pose proof (pi_wf _ _ Hinv) as Hwf. pose proof (wf_occupied _ _ Hwf _ _ Hi Ho) as Htab.
  destruct (wf_frames _ _ Hwf _ _ Hi) as [Hf1 Hf2 Hpwf]. rewrite Hp. wp_step. wp_step; [done|].
  assert (wal_covers wal (page_lsn (fr_page f)) = true) as ->.
  { apply (Hd (page_id (fr_page f))). rewrite (view_cached _ _ _ Htab). by rewrite (frame_lookup _ _ _ Hi). }
  wp_step. wp_step; [done|]. wp_step. wp_step. apply wp_intro. intros r p E.
  destruct (ps_write_live x.2 (page_id (fr_page f)) (fr_page f)) as [p' E']; [apply Hinv|apply Hpwf|done|done|apply Ha; by exists i|done|].
  rewrite E' in E. injection E as <- <-. by wp_steps.
Qed.

Lemma tidy_stats wal x x' v :
  tidy wal x -> x'.1 = set_stats v x.1 -> transparent wal x x' -> tidy wal x'.
Proof.
  intros Htd Hx Htr. eapply (tidy_step _ (fun _ => False)); [done| | |done|apply Htr|apply Htr].
  - intros j. rewrite Hx. apply Htd.
  - apply caches_same; by rewrite Hx.
Qed.

Lemma flush_frames_live wal l x :
  pool_inv None x -> tidy wal x -> ps_healthy x.2 -> wp (for_each l (flush_frame wal)) x (fun r _ => r = Ok tt).
Proof.
  revert x. induction l as [|i l IH]; intros x Hinv Htd Hh; cbn [for_each]; [by wp_steps|]. wp_step. apply wp_intro. intros r x1 E.
  pose proof (wp_elim _ _ _ _ _ (flush_frame_live wal x i Hinv Htd Hh) E) as ->.
  destruct (wp_elim _ _ _ _ _ (flush_frame_spec wal x i Hinv) E) as (Hinv1 & [v Hx1] & Htr & _). apply IH; [done|by eapply tidy_stats|by apply Htr].
Qed.

Lemma flush_all_pages_frames wal x :
  pool_inv None x -> tidy wal x -> ps_healthy x.2 ->
  wp (flush_all_pages wal) x (fun r x' => r = Ok tt /\ no_pending x'.1 /\ length (frames_ x'.1) = length (frames_ x.1)).
Proof.
  intros Hinv Htd Hh. unfold flush_all_pages, pool, on_pool, on_store. wp_step. wp_step. wp_step. apply wp_intro. intros r1 x1 E1.
  pose proof (wp_elim _ _ _ _ _ (flush_frames_live wal _ x Hinv Htd Hh) E1) as ->.
  destruct (wp_elim _ _ _ _ _ (flush_frames_spec wal _ x Hinv) E1) as (Hinv1 & [v Hx1] & Htr1 & _).
  pose proof (tidy_stats wal x x1 v Htd Hx1 Htr1) as Htd1. wp_step. wp_step. apply wp_intro. intros r2 p2 E2.
  destruct (ps_flush_spec _ _ _ (pi_store _ _ Hinv1) E2) as (_ & _ & _ & Hl). destruct (Hl ltac:(by apply Htr1)) as [_ ->].
  wp_steps. cbn [fst snd]. split_and!; [done| |cbn; by rewrite length_fmap, Hx1].
  intros i. unfold frame. cbn. rewrite list_lookup_fmap. pose proof (td_pending _ _ Htd1 i) as Hp. unfold frame in Hp.
  destruct (frames_ x1.1 !! i) as [f|]; [|done]. cbn. unfold clear_dirty. by destruct (fr_occupied f).
Qed.

Lemma flush_all_pages_live wal x :
  pool_inv None x -> tidy wal x -> ps_healthy x.2 -> wp (flush_all_pages wal) x (fun r x' => r = Ok tt /\ tidy wal x').
Proof.
  intros Hinv Htd Hh. apply wp_intro. intros r x' E.
  destruct (wp_elim _ _ _ _ _ (flush_all_pages_spec wal x Hinv) E) as (_ & Htr & Hpt & _).
  destruct (wp_elim _ _ _ _ _ (flush_all_pages_frames wal x Hinv Htd Hh) E) as (-> & Hnp & Hlen). split; [done|].
  eapply (tidy_step _ (fun _ => False)); [exact Htd|exact Hnp|by apply caches_same|done|apply Htr|apply Htr].
Qed.

Lemma flush_all_pages_pending wal x : no_pending x.1 -> wp (flush_all_pages wal) x (fun _ x' => no_pending x'.1).
Proof.
  intros Hn. unfold flush_all_pages, pool, on_pool, on_store. wp_step. wp_step. wp_step.
  assert (forall l (y : t * P), no_pending y.1 -> wp (for_each l (flush_frame wal)) y (fun _ x' => no_pending x'.1)) as Hloop.
  { induction l as [|i l IH]; intros y Hy; cbn [for_each]; [by wp_steps|].
    wp_step. unfold flush_frame at 1, pool, on_pool, on_store, require_mutations_finalized, require_wal_durable.
    wp_step. wp_step. wp_step; [|wp_step; by apply IH]. wp_step. wp_step; [done|]. wp_step. wp_step; [done|]. wp_step. wp_step.
    apply wp_intro. intros [[]|e] p _; [|done]. wp_step. by apply IH. }
  wp_use Hloop; [exact Hn|]. intros [[]|e] x1 Hx1; [|done]. wp_step. wp_step. apply wp_intro. intros [[]|e] p2 _; [|done]. wp_steps. cbn [fst].
  intros i. unfold frame. cbn. rewrite list_lookup_fmap. pose proof (Hx1 i) as Hp. unfold frame in Hp.
  destruct (frames_ x1.1 !! i) as [f|]; [|done]. cbn. unfold clear_dirty. by destruct (fr_occupied f).
Qed.

(** ** Intact pages stay intact on a store without faults *)

Definition intact_kept x x' : Prop := forall j, is_Some (ps_page x.2 j) -> is_Some (ps_page x'.2 j).

Lemma write_dirty_frame_intact wal i x :
  ps_ok x.2 -> ps_healthy x.2 -> page_wf (fr_page (frame x.1 i)) ->
  wp (write_dirty_frame wal i) x (fun _ x' => intact_kept x x').
Proof.
  intros Hok Hh Hwf. unfold write_dirty_frame, require_mutations_finalized, require_wal_durable, on_pool, pool, on_store.
  wp_step. wp_step. wp_step; [|wp_steps; by intros j]. wp_step. wp_step; [by intros j|]. wp_step. wp_step; [by intros j|]. wp_step. wp_step.
  set (f := frame x.1 i) in *. set (id := page_id (fr_page f)). apply wp_intro. intros r p' E.
  assert (forall j, is_Some (ps_page x.2 j) -> is_Some (ps_page p' j)) as Hk.
  { destruct (ps_allocated x.2 id) eqn:Ha.
    - destruct (ps_write_live x.2 id (fr_page f) Hok (pw_id _ Hwf) Hh Hwf Ha eq_refl) as [p2 E2].
      rewrite E2 in E. injection E as <- <-.
      destruct (ps_write_spec _ _ _ _ _ Hok (pw_id _ Hwf) Hwf E2) as (_ & _ & _ & Hoth & Hr).
      destruct (Hr eq_refl) as (_ & _ & Hid). intros j. destruct (decide (j = id)) as [->|Hne]; [intros _; by exists (fr_page f)|by rewrite Hoth].
    - destruct (ps_unallocated x.2 id (fr_page f) Hok (pw_id _ Hwf) Ha) as [_ [e E2]]. rewrite E2 in E. by injection E as <- <-. }
  destruct r; wp_steps; exact Hk.
Qed.

Lemma acquire_frame_intact wal x :
  pool_inv None x -> ps_healthy x.2 -> wp (acquire_frame wal) x (fun _ x' => intact_kept x x').
Proof.
  intros [Hwf _ Hok] Hh. unfold acquire_frame, on_pool, pool. wp_step. wp_step. wp_step; [wp_steps; by intros j|].
  destruct (lru_ x.1) as [|v rest] eqn:Hl; [wp_steps; by intros j|]. wp_step. wp_use write_dirty_frame_intact; [done|done| |].
  - destruct (proj1 (wf_lru _ _ Hwf v)) as (g & Hg & _); [rewrite Hl; left|].
    rewrite (frame_lookup _ _ _ Hg). apply (wf_frames _ _ Hwf _ _ Hg).
  - intros [] x1 Hk; wp_steps; exact Hk.
Qed.

Lemma fetch_page_intact wal id x :
  pool_inv None x -> is_u64 id -> ps_healthy x.2 -> wp (fetch_page wal id) x (fun _ x' => intact_kept x x').
Proof.
  intros Hinv Hu Hh. unfold fetch_page, on_pool. wp_step. wp_step. wp_step; [wp_steps; by intros j|].
  wp_step. wp_step. wp_step. wp_step; [by intros j|]. wp_step; [wp_steps; by intros j|]. wp_step.
  set (x0 := (count_fetch x.1, x.2)). assert (pool_inv None x0) as Hinv0 by by apply pool_inv_stats.
  apply wp_intro. intros r x1 E.
  pose proof (wp_elim _ _ _ _ _ (acquire_frame_intact wal x0 Hinv0 Hh) E) as Hk.
  pose proof (wp_elim _ _ _ _ _ (acquire_frame_spec wal x0 Hinv0) E) as (_ & _ & _ & Hr & _).
  destruct r as [[i|]|e]; [|wp_steps; exact Hk|exact Hk].
  unfold load_page, release_frame, on_pool, on_store, pool. wp_steps. apply wp_intro. intros r p1 E1.
  destruct (ps_read_spec _ _ _ _ (pi_store _ _ Hr) Hu E1) as (_ & Hs & _).
  assert (forall j, is_Some (ps_page x.2 j) -> is_Some (ps_page p1 j)) as Hk1 by (rewrite Hs; exact Hk).
  destruct r; wp_steps; exact Hk1.
Qed.

(** ** The abstract machine

    A client sees a content for every page and how often it has pinned it.  [op] lists what a
    client can do with the pool; the durable LSN of the log at that moment is part of the
    operations that may write pages back. *)

Inductive op : Type :=
  | OpFetch (wal : option Z) (id : PageId)
  | OpUnpin (id : PageId) (dirty : bool)
  | OpWrite (id : PageId) (pg : Page)
  | OpFlush (wal : option Z) (id : PageId)
  | OpFlushAll (wal : option Z)
  | OpDelete (wal : option Z) (id : PageId)
  | OpPend (id : PageId)
  | OpFinalize (id : PageId) (lsn : Z)
  | OpResolve (id : PageId) (lsn : Z)
  | OpRestore (id : PageId) (lsn : Z).

Definition run (o : op) : M st bool :=
  match o with
  | OpFetch wal id => let! p := fetch_page wal id in ret (bool_decide (is_Some p))
  | OpUnpin id d => unpin_page id d
  | OpWrite id pg =>
      let! s := pool in
      match page_table_ s !! id with
      | Some i => write_frame i (fun _ => pg) ;; ret true
      | None => ret false
      end
  | OpFlush wal id => flush_page wal id
  | OpFlushAll wal => flush_all_pages wal ;; ret true
  | OpDelete wal id => delete_page wal id
  | OpPend id => mark_mutation_pending id ;; ret true
  | OpFinalize id lsn => finalize_pending_mutation id lsn ;; ret true
  | OpResolve id lsn => resolve_pending_mutation id lsn ;; ret true
  | OpRestore id lsn => restore_page_lsn_after_undo id lsn ;; ret true
  end.

(** The rules a client follows: it writes only to pages it has pinned, keeps their identifier,
    declares its changes when it unpins, and changes a PageLSN only on a page that is pinned or
    already dirty. *)
Definition allowed x (o : op) : Prop :=
  match o with
  | OpFetch _ id => is_u64 id
  | OpUnpin id d => unpin_allowed x id d
  | OpWrite id pg => page_wf pg /\ page_id pg = id /\ 0 < pins x.1 id
  | OpFinalize id lsn | OpResolve id lsn | OpRestore id lsn =>
      is_u64 lsn /\ forall i, page_table_ x.1 !! id = Some i -> fr_dirty (frame x.1 i) = true \/ 0 < fr_pin (frame x.1 i)
  | _ => True
  end.

Record abs : Type := mkAbs { content : PageId -> option Page; held : PageId -> Z }.

Definition abstraction x : abs := mkAbs (view x) (pins x.1).

(** The new content of a page, given the operation and its outcome. *)
Definition new_content (o : op) (r : outcome bool) (old : PageId -> option Page) (j : PageId) : option Page :=
  match o, r with
  | OpWrite id pg, Ok true => if decide (j = id) then Some pg else old j
  | OpFinalize id lsn, Ok _ | OpResolve id lsn, Ok _ | OpRestore id lsn, Ok _ =>
      if decide (j = id) then set_lsn lsn <$> old j else old j
  | _, _ => old j
  end.

Definition new_held (o : op) (r : outcome bool) (old : PageId -> Z) (j : PageId) : Z :=
  match o, r with
  | OpFetch _ id, Ok true => if decide (j = id) then old j + 1 else old j
  | OpUnpin id _, Ok true => if decide (j = id) then old j - 1 else old j
  | _, _ => old j
  end.

(** One step of the abstract machine: nothing but an explicit write changes a page, nothing
    but a fetch or an unpin changes a pin; an unpin returns whether the page was pinned. *)
Definition abs_step (o : op) (r : outcome bool) (a a' : abs) : Prop :=
  (forall j, content a' j = new_content o r (content a) j) /\
  (forall j, held a' j = new_held o r (held a) j) /\
  (forall id d, o = OpUnpin id d -> r = Ok (0 <? held a id)) /\
  (forall wal id, o = OpFetch wal id -> r = Ok true -> is_Some (content a id)).

(** The operation that changes a PageLSN. *)
Lemma stamp_spec x id i lsn g :
  pool_inv None x -> is_u64 lsn -> page_table_ x.1 !! id = Some i ->
  fr_dirty (frame x.1 i) = true \/ 0 < fr_pin (frame x.1 i) ->
  (forall f, frame_ok f -> f = frame x.1 i -> 0 <= fr_pending (g f) <= kMaxU32) ->
  (forall f, fr_page (g f) = set_lsn lsn (fr_page f) /\ fr_pin (g f) = fr_pin f /\
             fr_dirty (g f) = fr_dirty f /\ fr_occupied (g f) = fr_occupied f) ->
  let x' := (upd_frame i g x.1, x.2) in
  pool_inv None x' /\ (forall j, pins x'.1 j = pins x.1 j) /\
  (forall j, view x' j = if decide (j = id) then set_lsn lsn <$> view x j else view x j).
Proof.
  intros Hinv Hl Hid Hcase Hpend Hg. pose proof Hinv as [Hwf Hc Hs].
  destruct (table_frame _ _ _ _ Hwf Hid) as (Hi & Ho & Hpid).
  pose proof (wf_frames _ _ Hwf _ _ Hi) as Hfo. pose proof Hfo as [Hp1 Hp2 Hp3].
  destruct (Hg (frame x.1 i)) as (Hgp & Hgn & Hgd & Hgo).
  destruct (touch_spec x id i g) as (H1 & H2 & H3 & H4 & H5); try done.
  - split; [by rewrite Hgn|by apply Hpend|]. rewrite Hgp. destruct Hp3. by split.
  - by rewrite Hgo.
  - by rewrite Hgp.
  - right. rewrite Hgd. tauto.
  - split_and!; [done|done|]. intros j. case_decide as Hd; [|by apply H5]. subst j.
    by rewrite H4, Hgp, (view_cached x id i Hid).
Qed.

(** Operations that leave contents and pins alone. *)
Lemma abs_step_same o r x x' :
  (forall j, view x' j = view x j) -> (forall j, pins x'.1 j = pins x.1 j) ->
  (forall j, new_content o r (view x) j = view x j) -> (forall j, new_held o r (pins x.1) j = pins x.1 j) ->
  (forall id d, o <> OpUnpin id d) -> (forall wal id, o = OpFetch wal id -> r <> Ok true) ->
  abs_step o r (abstraction x) (abstraction x').
Proof.
  intros Hv Hp Hnc Hnh Hu Hf. split_and!; cbn [content held abstraction].
  - intros j. by rewrite Hnc.
  - intros j. by rewrite Hnh.
  - intros id d ->. by destruct (Hu id d).
  - intros wal id Ho Hr. by destruct (Hf wal id Ho).
Qed.

Lemma sim_fetch wal id x :
  pool_inv None x -> is_u64 id ->
  wp (run (OpFetch wal id)) x (fun r x' => pool_inv None x' /\ abs_step (OpFetch wal id) r (abstraction x) (abstraction x')).
Proof.
  intros Hinv Hid. cbn [run]. wp_step. wp_use fetch_page_spec; [done|done|].
  intros [[i|]|e] x' (Hinv' & Htr & Hr & _).
  - wp_steps. split; [done|]. destruct Hr as (_ & _ & Hv & Hp & Hpo & _). split_and!.
    + apply Htr.
    + intros j. cbn. case_decide; subst; auto.
    + done.
    + intros ?? [= <- <-] _. cbn [content abstraction]. by rewrite Hv.
  - wp_steps. split; [done|]. apply abs_step_same; try done. apply Htr.
  - split; [done|]. apply abs_step_same; try done. apply Htr.
Qed.

Lemma sim_unpin id d x :
  pool_inv None x -> unpin_allowed x id d ->
  wp (run (OpUnpin id d)) x (fun r x' => pool_inv None x' /\ abs_step (OpUnpin id d) r (abstraction x) (abstraction x')).
Proof.
  intros Hinv Hal. cbn [run]. wp_use unpin_page_spec; [done|done|].
  intros r x' (Hinv' & (Hv & _) & _ & -> & Hp & Hpo & _). split; [done|]. split_and!; cbn [content held abstraction].
  - done.
  - intros j. cbn [new_held]. destruct (0 <? pins x.1 id).
    + case_decide; subst; auto.
    + destruct (decide (j = id)); subst; auto.
  - by intros ?? [= <- <-].
  - done.
Qed.

Lemma sim_write id pg x :
  pool_inv None x -> allowed x (OpWrite id pg) ->
  wp (run (OpWrite id pg)) x (fun r x' => pool_inv None x' /\ abs_step (OpWrite id pg) r (abstraction x) (abstraction x')).
Proof.
  intros Hinv (Hpg & Hid & Hpin). cbn [run]. unfold pool, write_frame, on_pool. wp_step. wp_step.
  unfold pins in Hpin. destruct (page_table_ x.1 !! id) as [i|] eqn:Htab; [|lia].
  destruct (table_frame _ _ _ _ (pi_wf _ _ Hinv) Htab) as (Hi & Ho & Hpid).
  pose proof (wf_frames _ _ (pi_wf _ _ Hinv) _ _ Hi) as [Hp1 Hp2 Hp3].
  destruct (touch_spec x id i (fun fr => set_page pg fr)) as (H1 & H2 & H3 & H4 & H5); try done.
  { by right; right. }
  wp_steps. split; [done|]. split_and!; cbn [content held abstraction]; [|done|done|done].
  intros j. cbn [new_content]. case_decide; subst; auto.
Qed.

Lemma sim_lsn id lsn x o (m : M st unit) :
  pool_inv None x ->
  wp m x (fun r x' => pool_inv None x' /\ (forall j, pins x'.1 j = pins x.1 j) /\
    match r with
    | Ok _ => forall j, view x' j = if decide (j = id) then set_lsn lsn <$> view x j else view x j
    | Throw _ => x' = x
    end) ->
  o = OpFinalize id lsn \/ o = OpResolve id lsn \/ o = OpRestore id lsn ->
  wp (m ;; ret true) x (fun r x' => pool_inv None x' /\ abs_step o r (abstraction x) (abstraction x')).
Proof.
  intros Hinv Hm Ho. wp_step. wp_use Hm. intros [u|e] x' (Hinv' & Hp & Hr); wp_steps; (split; [done|]).
  - destruct Ho as [->|[->| ->]]; split_and!; try done; intros j; cbn; apply Hr.
  - subst x'. destruct Ho as [->|[->| ->]]; by apply abs_step_same.
Qed.

Lemma lsn_ops_spec o x :
  pool_inv None x -> allowed x o ->
  match o with
  | OpFinalize id lsn | OpResolve id lsn | OpRestore id lsn =>
      wp (run o) x (fun r x' => pool_inv None x' /\ abs_step o r (abstraction x) (abstraction x'))
  | _ => True
  end.
Proof.
  intros Hinv Hal. destruct o as [| | | | | | |id lsn|id lsn|id lsn]; try done;
    destruct Hal as [Hl Hcase]; cbn [run]; (eapply sim_lsn; [done| |eauto]);
    unfold finalize_pending_mutation, resolve_pending_mutation, restore_page_lsn_after_undo, pool, on_pool;
    wp_step; wp_step; (destruct (page_table_ x.1 !! id) as [i|] eqn:Htab; [|wp_steps; by split_and!]);
    destruct (table_frame _ _ _ _ (pi_wf _ _ Hinv) Htab) as (Hi & Ho & Hpid);
    pose proof (wf_frames _ _ (pi_wf _ _ Hinv) _ _ Hi) as [Hp1 Hp2 Hp3]; specialize (Hcase i eq_refl);
    wp_steps; try (by split_and!); bprop; cbn [fst snd].
  - rewrite (upd_frame_upd i _ _ _ x.1 Hi).
    destruct (stamp_spec x id i lsn (fun f => set_pending (fr_pending (stamp_lsn lsn f) - 1) (stamp_lsn lsn f)))
      as (Hs1 & Hs2 & Hs3); try done. intros f _ ->. simpl. lia.
  - rewrite (upd_frame_upd i _ _ _ x.1 Hi).
    destruct (stamp_spec x id i lsn (fun f => set_pending (fr_pending (stamp_lsn lsn f) - 1) (stamp_lsn lsn f)))
      as (Hs1 & Hs2 & Hs3); try done. intros f _ ->. simpl. lia.
  - destruct (stamp_spec x id i lsn (stamp_lsn lsn)) as (Hs1 & Hs2 & Hs3); try done. intros f [] _. done.
Qed.

Lemma sim_pend id x :
  pool_inv None x ->
  wp (run (OpPend id)) x (fun r x' => pool_inv None x' /\ abs_step (OpPend id) r (abstraction x) (abstraction x')).
Proof.
  intros Hinv. cbn [run]. unfold mark_mutation_pending, pool, on_pool. wp_step. wp_step. wp_step.
  assert (forall r, abs_step (OpPend id) r (abstraction x) (abstraction x)) as Hsame
    by (intros r; by apply abs_step_same).
  destruct (page_table_ x.1 !! id) as [i|] eqn:Htab; [|wp_steps; by split].
  destruct (table_frame _ _ _ _ (pi_wf _ _ Hinv) Htab) as (Hi & Ho & Hpid).
  pose proof (wf_frames _ _ (pi_wf _ _ Hinv) _ _ Hi) as [Hp1 Hp2 Hp3].
  wp_steps; bprop; try (by split). cbn [fst snd].
  destruct (touch_spec x id i (fun f => set_pending (fr_pending f + 1) f)) as (Hs1 & Hs2 & Hs3 & Hs4 & Hs5); try done.
  { split; simpl; [done|lia|done]. }
  { by left. }
  split; [done|]. apply abs_step_same; try done. intros j.
  destruct (decide (j = id)) as [->|]; [|by apply Hs5]. by rewrite Hs4, (view_cached x id i Htab).
Qed.

(** Every operation, however it ends, keeps the invariant and is a step of the abstract machine. *)
Lemma simulation o x :
  pool_inv None x -> allowed x o ->
  wp (run o) x (fun r x' => pool_inv None x' /\ abs_step o r (abstraction x) (abstraction x')).
Proof.
  intros Hinv Hal. destruct o as [wal id|id d|id pg|wal id|wal|wal id|id|id lsn|id lsn|id lsn].
  - by apply sim_fetch.
  - by apply sim_unpin.
  - by apply sim_write.
  - cbn [run]. wp_use flush_page_spec; [done|]. intros r x' (Hinv' & Hv & _ & Hp & _).
    split; [done|]. by apply abs_step_same.
  - cbn [run]. wp_step. wp_use flush_all_pages_spec; [done|].
    intros [u|e] x' (Hinv' & Htr & _ & Hp & _); wp_steps; (split; [done|]); apply abs_step_same; try done; apply Htr.
  - cbn [run]. wp_use delete_page_spec; [done|]. intros r x' (Hinv' & Htr & Hp & _).
    split; [done|]. apply abs_step_same; try done. apply Htr.
  - by apply sim_pend.
  - exact (lsn_ops_spec (OpFinalize id lsn) x Hinv Hal).
  - exact (lsn_ops_spec (OpResolve id lsn) x Hinv Hal).
  - exact (lsn_ops_spec (OpRestore id lsn) x Hinv Hal).
Qed.

(** ** Properties of the pool *)

(** A run of the pool, with the outcome of every operation; and of the abstract machine. *)
Inductive exec : st -> list (op * outcome bool) -> st -> Prop :=
  | exec_nil x : exec x [] x
  | exec_cons x o r x1 tr x2 :
      allowed x o -> run o x = (r, x1) -> exec x1 tr x2 -> exec x ((o, r) :: tr) x2.

Inductive abs_exec : abs -> list (op * outcome bool) -> abs -> Prop :=
  | abs_nil a : abs_exec a [] a
  | abs_cons a o r a1 tr a2 : abs_step o r a a1 -> abs_exec a1 tr a2 -> abs_exec a ((o, r) :: tr) a2.

Lemma exec_sim x tr x' :
  pool_inv None x -> exec x tr x' -> pool_inv None x' /\ abs_exec (abstraction x) tr (abstraction x').
Proof.
  intros Hinv Hex. revert Hinv. induction Hex as [x|x o r x1 tr x2 Hal Hrun _ IH]; intros Hinv.
  - split; [done|constructor].
  - pose proof (wp_elim _ _ _ _ _ (simulation o x Hinv Hal) Hrun) as [Hinv1 Hstep].
    destruct (IH Hinv1) as [Hinv2 Habs]. split; [done|]. by econstructor.
Qed.

Lemma create_inv n p : ps_ok p -> pool_inv None (create n, p).
Proof.
  intros Hs. split; [apply create_wf| |done]. intros i f Hi Ho. apply lookup_replicate in Hi as [-> _]. done.
Qed.

(** C3: The buffer pool refines the abstract machine.  A new pool of any capacity stands for
    the store's pages with nothing pinned; and in every run of client operations, with a store
    that may fail at any operation, each step changes page contents and pin counts exactly as
    the abstract machine does: fetching, unpinning, flushing, evicting and deleting never change
    what a page contains, only explicit writes do.  The pool's own consistency check holds at the
    end of every run. *)
Theorem pool_refines n p tr x' :
  ps_ok p -> exec (create n, p) tr x' ->
  validate_invariants x'.1 = true /\ abs_exec (mkAbs (ps_page p) (fun _ => 0)) tr (abstraction x').
Proof.
  intros Hs Hex. destruct (exec_sim _ _ _ (create_inv n p Hs) Hex) as [Hinv Habs].
  split; [|exact Habs]. apply validate_invariants_wf, Hinv.
Qed.

(** The durable LSN an operation is given. *)
Definition wal_of (o : op) : option Z :=
  match o with
  | OpFetch wal _ | OpFlush wal _ | OpFlushAll wal | OpDelete wal _ => wal
  | _ => None
  end.

Definition touches_store (o : op) : bool :=
  match o with OpFetch _ _ | OpFlush _ _ | OpFlushAll _ | OpDelete _ _ => true | _ => false end.

Lemma run_store o x : touches_store o = false -> (run o x).2.2 = x.2.
Proof.
  intros Ho. apply (wp_elim (run o) x (fun _ x' => x'.2 = x.2) (run o x).1); [|apply surjective_pairing].
  destruct o as [wal id|id d|id pg|wal id|wal|wal id|id|id lsn|id lsn|id lsn]; try done; cbn [run];
    unfold unpin_page, write_frame, mark_mutation_pending, finalize_pending_mutation,
      resolve_pending_mutation, restore_page_lsn_after_undo, pool, on_pool; wp_steps; done.
Qed.

(** Which operations change a stored page. *)
Lemma stored_changes o x r x' id :
  pool_inv None x -> allowed x o -> run o x = (r, x') ->
  ps_page x'.2 id <> ps_page x.2 id ->
  writable (wal_of o) x.1 id \/ (exists wal, o = OpFlush wal id) /\ is_dirty x.1 id = Some false.
Proof.
  intros Hinv Hal Hrun Hne. destruct (touches_store o) eqn:Ht.
  2:{ pose proof (run_store o x Ht) as Hs. rewrite Hrun in Hs. by rewrite <- Hs in Hne. }
  destruct o as [wal i|i d|i pg|wal i|wal|wal i|i|i lsn|i lsn|i lsn]; try done; cbn [run wal_of] in *.
  - left. apply bind_inv in Hrun as [(p & x1 & Hf & Hr)|(e & Hf & _)].
    + unfold ret in Hr. simplify_eq. pose proof (wp_elim _ _ _ _ _ (fetch_page_spec wal x i Hinv Hal) Hf) as (_ & Htr & _).
      by destruct (tr_written _ _ _ Htr id) as [?|[? _]].
    + pose proof (wp_elim _ _ _ _ _ (fetch_page_spec wal x i Hinv Hal) Hf) as (_ & Htr & _).
      by destruct (tr_written _ _ _ Htr id) as [?|[? _]].
  - pose proof (wp_elim _ _ _ _ _ (flush_page_spec wal x i Hinv) Hrun)
      as (_ & _ & _ & _ & _ & _ & Hoth & Hr & Hdirty).
    assert (i = id) as -> by (destruct (decide (i = id)); [done|by rewrite Hoth in Hne]).
    destruct (is_dirty x.1 id) as [[]|] eqn:Hd; [|right; eauto|].
    + left. destruct (decide (fr_pending (frame x.1 (default 0%nat (page_table_ x.1 !! id))) = 0 /\
        wal_covers wal (page_lsn (fr_page (frame x.1 (default 0%nat (page_table_ x.1 !! id))))) = true)) as [[Hp Hw]|Hno].
      * unfold is_dirty in Hd. destruct (page_table_ x.1 !! id) as [k|] eqn:Hk; [|done].
        exists k. split_and!; [done|by injection Hd|done|done].
      * destruct Hdirty as [-> _]; [done| |done]. intros (k & Hk & _ & Hp & Hw). apply Hno. by rewrite Hk.
    + unfold is_dirty in Hd. apply fmap_None in Hd. destruct r as [[]|e].
      * destruct Hr as [_ Hr]. unfold is_dirty in Hr.
        exfalso. revert Hrun. unfold flush_page, pool, bind, gets. simpl. by rewrite Hd.
      * destruct Hr as [-> _]. done.
      * exfalso. revert Hrun. unfold flush_page, pool, bind, gets. simpl. by rewrite Hd.
  - left. apply bind_inv in Hrun as [(u & x1 & Hf & Hr)|(e & Hf & _)].
    + unfold ret in Hr. simplify_eq. pose proof (wp_elim _ _ _ _ _ (flush_all_pages_spec wal x Hinv) Hf) as (_ & Htr & _).
      by destruct (tr_written _ _ _ Htr id) as [?|[? _]].
    + pose proof (wp_elim _ _ _ _ _ (flush_all_pages_spec wal x Hinv) Hf) as (_ & Htr & _).
      by destruct (tr_written _ _ _ Htr id) as [?|[? _]].
  - left. pose proof (wp_elim _ _ _ _ _ (delete_page_spec wal x i Hinv) Hrun) as (_ & Htr & _).
    by destruct (tr_written _ _ _ Htr id) as [?|[? _]].
Qed.

(** A dirty page is stored only through the gate. *)
Lemma gate_closed o x r x' id i :
  pool_inv None x -> allowed x o -> run o x = (r, x') -> page_table_ x.1 !! id = Some i -> fr_dirty (frame x.1 i) = true ->
  wal_covers (wal_of o) (page_lsn (fr_page (frame x.1 i))) = false -> ps_page x'.2 id = ps_page x.2 id.
Proof.
  intros Hinv Hal Hrun Hi Hd Hc. apply dec_stable. intros Hne.
  destruct (stored_changes o x r x' id Hinv Hal Hrun Hne) as [(k & Hk & _ & _ & Hw)|[_ Hn]].
  - congruence.
  - unfold is_dirty in Hn. rewrite Hi in Hn. cbn in Hn. congruence.
Qed.

(** C6: Write-ahead logging.  Whatever operation the pool runs and however it ends, a stored
    page changes only if its frame was dirty, had no mutation without an LSN, and carried a
    PageLSN that is zero or durable in the log; the only exception is [flush_page] called on a
    frame that is not marked dirty. *)
Theorem wal_before_data o x r x' id :
  pool_inv None x -> allowed x o -> run o x = (r, x') ->
  ps_page x'.2 id <> ps_page x.2 id ->
  writable (wal_of o) x.1 id \/ (exists wal, o = OpFlush wal id) /\ is_dirty x.1 id = Some false.
Proof. apply stored_changes. Qed.

(** A pinned page stays where it is: the frame a client got from [fetch_page] keeps holding
    that page through every fetch, flush and delete of any page, also when they fail, so the
    pointer stays valid until the client unpins it. *)
Theorem pinned_page_stays o x r x' id i :
  pool_inv None x -> allowed x o -> run o x = (r, x') ->
  page_table_ x.1 !! id = Some i -> 0 < pins x.1 id -> touches_store o = true ->
  page_table_ x'.1 !! id = Some i /\ fr_page (frame x'.1 i) = fr_page (frame x.1 i).
Proof.
  intros Hinv Hal Hrun Hid Hp Ht.
  pose proof (wp_elim _ _ _ _ _ (simulation o x Hinv Hal) Hrun) as [Hinv' [Hv _]].
  assert (page_table_ x'.1 !! id = Some i) as Hid'.
  { unfold pins in Hp. rewrite Hid in Hp. destruct o as [wal j| | |wal j|wal|wal j| | | |]; try done; cbn [run] in Hrun.
    - apply bind_inv in Hrun as [(p & x1 & Hf & Hr)|(e & Hf & _)];
        pose proof (wp_elim _ _ _ _ _ (fetch_page_spec wal x j Hinv Hal) Hf) as (_ & Htr & _);
        unfold ret in *; simplify_eq; by apply (tr_pinned _ _ _ Htr).
    - pose proof (wp_elim _ _ _ _ _ (flush_page_spec wal x j Hinv) Hrun) as (_ & _ & -> & _). done.
    - apply bind_inv in Hrun as [(p & x1 & Hf & Hr)|(e & Hf & _)];
        pose proof (wp_elim _ _ _ _ _ (flush_all_pages_spec wal x Hinv) Hf) as (_ & Htr & _);
        unfold ret in *; simplify_eq; by apply (tr_pinned _ _ _ Htr).
    - pose proof (wp_elim _ _ _ _ _ (delete_page_spec wal x j Hinv) Hrun) as (_ & Htr & _).
      by apply (tr_pinned _ _ _ Htr). }
  split; [done|]. specialize (Hv id). cbn [content abstraction] in Hv.
  assert (view x' id = view x id) as Hvv by (destruct o; try done).
  rewrite (view_cached x' id i Hid'), (view_cached x id i Hid) in Hvv. congruence.
Qed.

(** A fetch succeeds whenever it can: over a store without faults, for an allocated page
    with an intact image, if the page is cached and its pin count is not exhausted, or if it is
    not cached and there is a free frame or the least recently used page may be written back,
    [fetch_page] returns a frame that holds the page's content, pinned once more. *)
Theorem fetch_page_available wal x id :
  pool_inv None x -> is_u64 id -> is_valid id = true -> ps_healthy x.2 -> ps_allocated x.2 id = true ->
  is_Some (view x id) -> fetchable wal x id ->
  exists i x', fetch_page wal id x = (Ok (Some i), x') /\ page_table_ x'.1 !! id = Some i /\
    view x id = Some (fr_page (frame x'.1 i)) /\ fr_pin (frame x'.1 i) = pins x.1 id + 1.
Proof.
  intros Hinv Hid Hv Hh Ha Hs Hf. destruct (fetch_page wal id x) as [r x'] eqn:E.
  pose proof (wp_elim _ _ _ _ _ (fetch_page_spec wal x id Hinv Hid) E) as (_ & _ & Hr & Hlive).
  destruct (Hlive Hh Hv Ha Hs Hf) as [i ->]. destruct Hr as (_ & Ht & Hvw & Hp & _).
  exists i, x'. split_and!; [done|done|done|]. unfold pins in Hp at 1. by rewrite Ht in Hp.
Qed.

(** A victim that must not be written keeps its frame.  When the pool is full and the least
    recently used page has mutations without LSNs or a PageLSN the log has not made durable,
    [fetch_page] of another page throws, and frames, page table, LRU list, pins and the store
    are exactly as before; only the fetch counter advanced. *)
Theorem blocked_eviction wal x id victim rest :
  pool_inv None x -> is_valid id = true -> ps_allocated x.2 id = true ->
  page_table_ x.1 !! id = None -> free_frames_ x.1 = [] -> lru_ x.1 = victim :: rest ->
  fr_dirty (frame x.1 victim) = true ->
  fr_pending (frame x.1 victim) <> 0 \/ wal_covers wal (page_lsn (fr_page (frame x.1 victim))) = false ->
  exists e, fetch_page wal id x = (Throw e, (count_fetch x.1, x.2)).
Proof.
  intros Hinv Hv Ha Hid Hfree Hlru Hd Hblock. destruct (fetch_page wal id x) as [r x'] eqn:E.
  revert E. apply (wp_elim (fetch_page wal id) x
    (fun r x' => exists e, (r, x') = (Throw e, (count_fetch x.1, x.2))) r x').
  unfold fetch_page, acquire_frame, write_dirty_frame, require_mutations_finalized, require_wal_durable, pool, on_pool.
  rewrite Hv. wp_step. wp_step. cbn [negb]. wp_step. wp_step. wp_step. cbn [fst snd]. rewrite Ha.
  wp_step; [done|]. rewrite (Hid : page_table_ (count_fetch x.1) !! id = None).
  wp_step. wp_step. wp_step. cbn [fst snd].
  rewrite (Hfree : free_frames_ (count_fetch x.1) = []), (Hlru : lru_ (count_fetch x.1) = victim :: rest).
  cbn [list.last]. wp_step. wp_step. wp_step. cbn [fst snd].
  change (frame (count_fetch x.1) victim) with (frame x.1 victim). rewrite Hd.
  wp_step. wp_step; [by eexists|]. wp_step. wp_step; [by eexists|]. bprop.
  destruct Hblock; congruence.
Qed.

(** When [flush_all_pages] returns, every cached page that was dirty or unpinned is stored
    with exactly the content the pool had for it, no cached page is dirty any more, and
    contents and pins are unchanged. *)
Theorem flush_all_pages_saves wal x x' :
  pool_inv None x -> flush_all_pages wal x = (Ok tt, x') ->
  (forall id, view x' id = view x id) /\ (forall id, pins x'.1 id = pins x.1 id) /\
  forall id, contains x.1 id = true ->
    is_dirty x'.1 id = Some false /\
    (is_dirty x.1 id = Some true \/ pins x.1 id = 0 -> ps_page x'.2 id = view x id).
Proof.
  intros Hinv H1. pose proof (wp_elim _ _ _ _ _ (flush_all_pages_spec wal x Hinv) H1) as (_ & Htr & _ & Hp & Hr).
  split_and!; [apply Htr|done|]. intros id Hc. unfold contains in Hc. bprop. destruct Hc as [i Hi].
  destruct (Hr eq_refl id i Hi) as [Hd Hs]. split; [done|]. intros Hcase. apply Hs.
  unfold is_dirty, pins in Hcase. rewrite Hi in Hcase. simpl in Hcase. naive_solver.
Qed.

End refinement.

(** ** Witnesses: a pool over the page manager *)

(** A database with two pages, and one with a single frame in front of it. *)
Definition pm_two : PM.t := (PM.allocate_page PM.pm_one).2.
Definition pool_new : t * PM.t := (create 1, pm_two).
Definition page_zero : Page := mkPage 0 9 (42 :: zeros (kPagePayloadSize - 1)).

Lemma pm_two_ok : PM.pm_ok pm_two.
Proof.
  apply (wp_elim PM.allocate_page PM.pm_one _ (PM.allocate_page PM.pm_one).1 _
           (PM.allocate_page_spec PM.pm_one PM.pm_one_ok)).
  apply surjective_pairing.
Qed.

Lemma pm_two_pages j pg : PM.stored_page pm_two j = Some pg -> page_lsn pg = 0.
Proof.
  intros Hj. destruct (PM.stored_page_range pm_two j) as [H1 H2]; [by rewrite Hj|].
  assert (PM.page_count_ pm_two = 2) as Hc by (vm_compute; reflexivity). rewrite Hc in H2.
  assert (page_lsn <$> PM.stored_page pm_two 0 = Some 0 /\ page_lsn <$> PM.stored_page pm_two 1 = Some 0) as [E0 E1]
    by (vm_compute; split; reflexivity).
  assert (j = 0 \/ j = 1) as [-> | ->] by lia; rewrite Hj in *; cbn in *; congruence.
Qed.

Lemma pm_two_healthy : PM.pm_healthy pm_two.
Proof. vm_compute. split; [|reflexivity]. repeat constructor. Qed.

(** A pool without pages shows what is stored. *)
Lemma view_create n (p : PM.t) j : view (create n, p) j = PM.stored_page p j.
Proof. unfold view. cbn [fst snd create page_table_]. by rewrite lookup_empty. Qed.

Lemma create_tidy n (p : PM.t) w :
  (forall j pg, PM.stored_page p j = Some pg -> page_lsn pg = 0) -> tidy w (create (S n), p).
Proof.
  intros Hl. split.
  - intros i. unfold frame, create. cbn [fst frames_]. destruct (replicate (S n) empty_frame !! i) as [f|] eqn:Hi; [|done].
    by apply lookup_replicate in Hi as [-> _].
  - done.
  - intros j [i Hi]. cbn in Hi. by rewrite lookup_empty in Hi.
  - intros j pg. rewrite view_create. intros Hj%Hl. unfold wal_covers. by rewrite Hj.
Qed.

Lemma page_zero_wf : page_wf page_zero.
Proof.
  split; [unfold is_u64; simpl; lia..|reflexivity|].
  constructor; [unfold is_byte; lia|apply zeros_is_byte].
Qed.

Lemma pool_new_inv : pool_inv None pool_new.
Proof. apply (create_inv 1 pm_two). exact pm_two_ok. Qed.

(** Page 0 pinned; then changed; then unpinned. *)
Definition pool_fetched : t * PM.t := (run (OpFetch None 0) pool_new).2.
Definition pool_written : t * PM.t := (run (OpWrite 0 page_zero) pool_fetched).2.
Definition pool_unpinned : t * PM.t := (run (OpUnpin 0 true) pool_written).2.
Definition pool_evicted : t * PM.t := (run (OpFetch (Some 9) 1) pool_unpinned).2.

Lemma run_pair {P} `{PageStore P} (o : op) (x : t * P) r : (run o x).1 = r -> run o x = (r, (run o x).2).
Proof. intros <-. apply surjective_pairing. Qed.

Lemma pool_fetched_run : run (OpFetch None 0) pool_new = (Ok true, pool_fetched).
Proof. unfold pool_fetched. apply run_pair. by vm_compute. Qed.
Lemma pool_written_run : run (OpWrite 0 page_zero) pool_fetched = (Ok true, pool_written).
Proof. unfold pool_written. apply run_pair. by vm_compute. Qed.
Lemma pool_unpinned_run : run (OpUnpin 0 true) pool_written = (Ok true, pool_unpinned).
Proof. unfold pool_unpinned. apply run_pair. by vm_compute. Qed.
Lemma pool_evicted_run : run (OpFetch (Some 9) 1) pool_unpinned = (Ok true, pool_evicted).
Proof. unfold pool_evicted. apply run_pair. by vm_compute. Qed.

Lemma write_allowed : allowed pool_fetched (OpWrite 0 page_zero).
Proof. split; [exact page_zero_wf|split; [done|by vm_compute]]. Qed.
Lemma unpin_dirty_allowed : allowed pool_written (OpUnpin 0 true).
Proof. intros i Hi. by left. Qed.

#[local] Opaque run flush_all_pages fetch_page flush_page.

Lemma pool_exec :
  exec pool_new [(OpFetch None 0, Ok true); (OpWrite 0 page_zero, Ok true); (OpUnpin 0 true, Ok true);
                 (OpFetch (Some 9) 1, Ok true)] pool_evicted.
Proof.
  eapply exec_cons; [by split|exact pool_fetched_run|].
  eapply exec_cons; [exact write_allowed|exact pool_written_run|].
  eapply exec_cons; [exact unpin_dirty_allowed|exact pool_unpinned_run|].
  eapply exec_cons; [by split|exact pool_evicted_run|]. apply exec_nil.
Qed.

Lemma pool_unpinned_inv : pool_inv None pool_unpinned.
Proof.
  refine (proj1 (exec_sim pool_new [(OpFetch None 0, Ok true); (OpWrite 0 page_zero, Ok true);
    (OpUnpin 0 true, Ok true)] pool_unpinned pool_new_inv _)).
  eapply exec_cons; [by split|exact pool_fetched_run|].
  eapply exec_cons; [exact write_allowed|exact pool_written_run|].
  eapply exec_cons; [exact unpin_dirty_allowed|exact pool_unpinned_run|]. apply exec_nil.
Qed.

Lemma pool_refines_witness :
  validate_invariants pool_evicted.1 = true /\
  abs_exec (mkAbs (PM.stored_page pm_two) (fun _ => 0))
    [(OpFetch None 0, Ok true); (OpWrite 0 page_zero, Ok true); (OpUnpin 0 true, Ok true);
     (OpFetch (Some 9) 1, Ok true)] (abstraction pool_evicted).
Proof. exact (pool_refines 1 pm_two _ pool_evicted pm_two_ok pool_exec). Defined.

(** Fetching page 1 evicts and writes page 0. *)
Lemma wal_before_data_witness :
  writable (Some 9) pool_unpinned.1 0 \/
  (exists wal, OpFetch (Some 9) 1 = OpFlush wal 0) /\ is_dirty pool_unpinned.1 0 = Some false.
Proof.
  apply (wal_before_data (OpFetch (Some 9) 1) pool_unpinned (Ok true) pool_evicted 0);
    [exact pool_unpinned_inv|split; done|exact pool_evicted_run|].
  intros He. apply (f_equal (option_map page_lsn)) in He. vm_compute in He. done.
Defined.

Lemma pinned_page_stays_witness :
  page_table_ (run (OpFlushAll None) pool_fetched).2.1 !! 0 = Some 0%nat /\
  fr_page (frame (run (OpFlushAll None) pool_fetched).2.1 0) = fr_page (frame pool_fetched.1 0).
Proof.
  apply (pinned_page_stays (OpFlushAll None) pool_fetched (run (OpFlushAll None) pool_fetched).1
           (run (OpFlushAll None) pool_fetched).2 0 0).
  - refine (proj1 (exec_sim pool_new [(OpFetch None 0, Ok true)] pool_fetched pool_new_inv _)).
    eapply exec_cons; [by split|exact pool_fetched_run|apply exec_nil].
  - done.
  - apply surjective_pairing.
  - by vm_compute.
  - by vm_compute.
  - done.
Defined.

Lemma fetch_page_available_witness :
  exists i x', fetch_page None 0 pool_new = (Ok (Some i), x') /\ page_table_ x'.1 !! 0 = Some i /\
    view pool_new 0 = Some (fr_page (frame x'.1 i)) /\ fr_pin (frame x'.1 i) = 1.
Proof.
  apply (fetch_page_available None pool_new 0).
  - exact pool_new_inv.
  - split; done.
  - done.
  - split; by vm_compute.
  - by vm_compute.
  - apply (bool_decide_unpack _). by vm_compute.
  - right. split; [done|]. left. done.
Defined.

(** PageLSN 9 is not durable when the log is durable up to 8. *)
Lemma blocked_eviction_witness :
  exists e, fetch_page (Some 8) 1 pool_unpinned = (Throw e, (count_fetch pool_unpinned.1, pool_unpinned.2)).
Proof.
  apply (blocked_eviction (Some 8) pool_unpinned 1 0%nat []);
    [exact pool_unpinned_inv|done|by vm_compute|by vm_compute|by vm_compute|by vm_compute|by vm_compute|].
  right. by vm_compute.
Defined.

Lemma flush_all_pages_saves_witness :
  let x' := (flush_all_pages (Some 9) pool_unpinned).2 in
  (forall id, view x' id = view pool_unpinned id) /\ (forall id, pins x'.1 id = pins pool_unpinned.1 id) /\
  forall id, contains pool_unpinned.1 id = true ->
    is_dirty x'.1 id = Some false /\
    (is_dirty pool_unpinned.1 id = Some true \/ pins pool_unpinned.1 id = 0 ->
     ps_page x'.2 id = view pool_unpinned id).
Proof.
  apply (flush_all_pages_saves (Some 9) pool_unpinned (flush_all_pages (Some 9) pool_unpinned).2);
    [exact pool_unpinned_inv|].
  assert ((flush_all_pages (Some 9) pool_unpinned).1 = Ok tt) as <- by by vm_compute.
  apply surjective_pairing.
Defined.

(** ** [flush_page] on a page that is not marked dirty *)

(** [flush_page] does not apply the log rule to a page that was modified but not yet
    unpinned: the page with PageLSN 9 is written to the database file with no log at all, while
    the same page, once unpinned as dirty, is refused. *)
Theorem flush_page_skips_log_check :
  (flush_page None 0 pool_written).1 = Ok true /\
  page_lsn <$> PM.stored_page (flush_page None 0 pool_written).2.2 0 = Some 9 /\
  (flush_page None 0 pool_unpinned).1 =
    Throw (WalDurabilityError "page write blocked until WAL is durable through PageLSN").
Proof. by vm_compute. Qed.

End BP.
