(* ===== verification/LockManager.v ===== *)
(** * LockManager: strict two-phase page locks with WAIT-DIE

    Models src/concurrency/lock_manager.cpp and include/ddb/concurrency/lock_manager.h together
    with the [TransactionState] each [Transaction] carries.  Every public operation runs under
    the manager's mutex, so an execution is a sequence of atomic steps: a call, or one pass of
    the loop of [lock] by a thread that the condition variable let go on.  A thread that blocks
    in [changed_.wait] is an entry of [waiting]. *)

From S2P Require Import Prelude.

Module LK.

(** ** State *)

Inductive TransactionState : Type := Growing | Shrinking | Committed | Aborted.
#[global] Instance TransactionState_eq_dec : EqDecision TransactionState.
Proof. solve_decision. Defined.

Inductive LockMode : Type := Shared | Exclusive.
#[global] Instance LockMode_eq_dec : EqDecision LockMode.
Proof. solve_decision. Defined.

Record Holder : Type := mkHolder { h_tx : Z; h_mode : LockMode }.
#[global] Instance Holder_eq_dec : EqDecision Holder.
Proof. solve_decision. Defined.

Record t : Type := mk {
  table_ : gmap Z (list Holder);
  held_ : gmap Z (gset Z);
  states : gmap Z TransactionState;
  waiting : gmap Z (Z * LockMode);
}.

Definition set_table (v : gmap Z (list Holder)) (s : t) : t := mk v (held_ s) (states s) (waiting s).
Definition set_held (v : gmap Z (gset Z)) (s : t) : t := mk (table_ s) v (states s) (waiting s).
Definition set_waiting (v : gmap Z (Z * LockMode)) (s : t) : t := mk (table_ s) (held_ s) (states s) v.

Definition init : t := mk ∅ ∅ ∅ ∅.

(** [tx.state()]; a transaction object starts as [Growing]. *)
Definition state (s : t) (tx : Z) : TransactionState := default Growing (states s !! tx).
Definition store_state (tx : Z) (v : TransactionState) (s : t) : t :=
  mk (table_ s) (held_ s) (<[tx := v]> (states s)) (waiting s).

Definition terminal (v : TransactionState) : bool :=
  match v with Committed | Aborted => true | _ => false end.

(** ** Conflicts *)

Definition conflicts (requested held : LockMode) : bool :=
  bool_decide (requested = Exclusive) || bool_decide (held = Exclusive).

Definition compatible (s : t) (tx r : Z) (m : LockMode) : bool :=
  match table_ s !! r with
  | None => true
  | Some hs => forallb (fun h => negb (negb (h_tx h =? tx) && conflicts m (h_mode h))) hs
  end.

Definition requester_is_younger_than_conflict (s : t) (tx r : Z) (m : LockMode) : bool :=
  match table_ s !! r with
  | None => false
  | Some hs => existsb (fun h => negb (h_tx h =? tx) && conflicts m (h_mode h) && (h_tx h <? tx)) hs
  end.

Definition owns (tx : Z) (h : Holder) : Prop := h_tx h = tx.
#[global] Instance owns_dec tx h : Decision (owns tx h).
Proof. unfold owns. apply _. Defined.

(** [std::find_if] over the holders of a resource. *)
Definition own (tx : Z) (hs : list Holder) : option Holder := snd <$> list_find (owns tx) hs.

(** ** Releasing *)

(** The body of the loop of [release_all] for one resource. *)
Definition release_one (tx : Z) (tbl : gmap Z (list Holder)) (r : Z) : gmap Z (list Holder) :=
  match tbl !! r with
  | None => tbl
  | Some hs =>
      let v := filter (fun h => ~ owns tx h) hs in
      if decide (v = []) then delete r tbl else <[r := v]> tbl
  end.

Definition release_all (tx : Z) (s : t) : t :=
  match held_ s !! tx with
  | None => s
  | Some rs => set_held (delete tx (held_ s)) (set_table (fold_left (release_one tx) (elements rs) (table_ s)) s)
  end.

(** ** Locking *)

Inductive lock_result : Type := Granted | Refused | Blocked.

(** [own->mode = Exclusive] on the first entry of the transaction. *)
Fixpoint upgrade (tx : Z) (hs : list Holder) : list Holder :=
  match hs with
  | [] => []
  | h :: hs => if decide (owns tx h) then mkHolder (h_tx h) Exclusive :: hs else h :: upgrade tx hs
  end.

Definition add_held (tx r : Z) (s : t) : t :=
  set_held (<[tx := {[r]} ∪ default ∅ (held_ s !! tx)]> (held_ s)) s.

(** The part of the loop behind the checks of the transaction's own entry. *)
Definition lock_request (tx r : Z) (m : LockMode) (holders : list Holder) (s : t) : lock_result * t :=
  if compatible s tx r m then
    match own tx holders with
    | Some _ => (Granted, set_table (<[r := upgrade tx holders]> (table_ s)) s)
    | None => (Granted, add_held tx r (set_table (<[r := holders ++ [mkHolder tx m]]> (table_ s)) s))
    end
  else if requester_is_younger_than_conflict s tx r m
  then (Refused, store_state tx Aborted (release_all tx s))
  else (Blocked, s).

(** One pass of the loop of [lock]; [table_[resource]] creates a missing entry. *)
Definition lock_pass (tx r : Z) (m : LockMode) (s : t) : lock_result * t :=
  let holders := default [] (table_ s !! r) in
  let s := set_table (<[r := holders]> (table_ s)) s in
  match own tx holders with
  | Some h =>
      if decide (h_mode h = m) then (Granted, s)
      else if decide (h_mode h = Exclusive /\ m = Shared) then (Refused, s)
      else lock_request tx r m holders s
  | None => lock_request tx r m holders s
  end.

(** A thread that gets [Blocked] goes to sleep in the condition variable. *)
Definition sleep (tx r : Z) (m : LockMode) (p : lock_result * t) : lock_result * t :=
  match p.1 with
  | Blocked => (Blocked, set_waiting (<[tx := (r, m)]> (waiting p.2)) p.2)
  | _ => p
  end.

(** The call [lock(tx, resource, mode)] up to its return or its first wait. *)
Definition lock (tx r : Z) (m : LockMode) (s : t) : lock_result * t :=
  if decide (state s tx <> Growing) then (Refused, s) else sleep tx r m (lock_pass tx r m s).

(** The predicate a waiting thread is woken for. *)
Definition ready (s : t) (tx r : Z) (m : LockMode) : bool :=
  bool_decide (state s tx = Aborted) || compatible s tx r m.

(** The waiting thread goes on: the test behind [wait], then the next pass of the loop. *)
Definition wake (tx r : Z) (m : LockMode) (s : t) : lock_result * t :=
  let s := set_waiting (delete tx (waiting s)) s in
  if decide (state s tx <> Growing) then (Refused, s) else sleep tx r m (lock_pass tx r m s).

Definition lock_shared (tx r : Z) : t -> lock_result * t := lock tx r Shared.
Definition lock_exclusive (tx r : Z) : t -> lock_result * t := lock tx r Exclusive.

(** [holders.erase(own)] *)
Definition erase_own (tx : Z) (hs : list Holder) : list Holder :=
  match list_find (owns tx) hs with Some (i, _) => delete i hs | None => hs end.

Definition unlock (tx r : Z) (s : t) : bool * t :=
  if decide (state s tx <> Growing /\ state s tx <> Shrinking) then (false, s)
  else
  match table_ s !! r with
  | None => (false, s)
  | Some hs =>
      match own tx hs with
      | None => (false, s)
      | Some _ =>
          let v := erase_own tx hs in
          let s := set_table (if decide (v = []) then delete r (table_ s) else <[r := v]> (table_ s)) s in
          let s := match held_ s !! tx with
                   | None => s
                   | Some rs => set_held (if decide (rs ∖ {[r]} = ∅) then delete tx (held_ s)
                                          else <[tx := rs ∖ {[r]}]> (held_ s)) s
                   end in
          (true, store_state tx Shrinking s)
      end
  end.

Definition commit (tx : Z) (s : t) : t :=
  if terminal (state s tx) then s else store_state tx Committed (release_all tx s).

Definition abort (tx : Z) (s : t) : t :=
  if terminal (state s tx) then s else store_state tx Aborted (release_all tx s).

(** ** Observers *)

Definition lock_count (s : t) : Z := map_fold (fun _ v n => zlen v + n) 0 (table_ s).
Definition held_lock_count (s : t) (tx : Z) : Z :=
  match held_ s !! tx with None => 0 | Some rs => Z.of_nat (size rs) end.
Definition holds (s : t) (tx r : Z) (m : LockMode) : bool :=
  match table_ s !! r with
  | None => false
  | Some hs => existsb (fun h => (h_tx h =? tx) && bool_decide (h_mode h = m)) hs
  end.

(** ** Steps *)

(** A thread runs its transaction: it makes a call only when it is not asleep.  A sleeping
    thread goes on only when its predicate holds.  Any thread may abort any transaction. *)
Inductive step : t -> t -> Prop :=
  | step_lock tx r m s : waiting s !! tx = None -> step s (lock tx r m s).2
  | step_wake tx r m s : waiting s !! tx = Some (r, m) -> ready s tx r m = true -> step s (wake tx r m s).2
  | step_unlock tx r s : waiting s !! tx = None -> step s (unlock tx r s).2
  | step_commit tx s : waiting s !! tx = None -> step s (commit tx s)
  | step_abort tx s : step s (abort tx s).

Definition reachable (s : t) : Prop := rtc step init s.

(** ** Invariant *)

Definition txs (hs : list Holder) : list Z := h_tx <$> hs.

(** A resource has at least one holder, no transaction twice, and an exclusive holder is alone. *)
Record entry_ok (hs : list Holder) : Prop := {
  eo_nonempty : hs <> [];
  eo_nodup : NoDup (txs hs);
  eo_exclusive : forall h, h ∈ hs -> h_mode h = Exclusive -> hs = [h];
}.

Definition holder (s : t) (r : Z) (h : Holder) : Prop := exists hs, table_ s !! r = Some hs /\ h ∈ hs.

Record lk_inv (s : t) : Prop := {
  li_table : forall r hs, table_ s !! r = Some hs -> entry_ok hs;
  li_held : forall tx r, (exists rs, held_ s !! tx = Some rs /\ r ∈ rs) <-> (exists m, holder s r (mkHolder tx m));
  li_nonempty : forall tx rs, held_ s !! tx = Some rs -> rs <> ∅;
  li_terminal : forall tx, terminal (state s tx) = true -> held_ s !! tx = None;
}.

Lemma holder_eta (h : Holder) : mkHolder (h_tx h) (h_mode h) = h.
Proof. by destruct h. Qed.

Lemma own_Some tx hs h : own tx hs = Some h -> h ∈ hs /\ h_tx h = tx.
Proof.
  unfold own. intros H. apply fmap_Some in H as ([i h'] & Hf & ->). simpl.
  apply list_find_Some in Hf as (Hi & Ho & _). split; [by eapply list_elem_of_lookup_2|done].
Qed.

Lemma own_None tx hs h : own tx hs = None -> h ∈ hs -> h_tx h <> tx.
Proof.
  unfold own. intros H Hh. apply fmap_None, list_find_None in H.
  by eapply (proj1 (list.Forall_forall _ _) H).
Qed.

Lemma elem_txs tx hs : tx ∈ txs hs <-> exists m, mkHolder tx m ∈ hs.
Proof.
  unfold txs. rewrite list_elem_of_fmap. split.
  - intros (h & -> & Hh). exists (h_mode h). by rewrite holder_eta.
  - intros [m Hm]. by exists (mkHolder tx m).
Qed.

Lemma txs_inj hs h h' : NoDup (txs hs) -> h ∈ hs -> h' ∈ hs -> h_tx h = h_tx h' -> h = h'.
Proof.
  intros Hn Hh Hh' He. apply list_elem_of_lookup in Hh as [i Hi]. apply list_elem_of_lookup in Hh' as [j Hj].
  assert (i = j) as <-; [|congruence].
  eapply NoDup_lookup; [exact Hn|..]; unfold txs; rewrite list_lookup_fmap; [by rewrite Hi|].
  rewrite Hj. simpl. by rewrite He.
Qed.

Lemma compatible_spec s tx r m hs :
  table_ s !! r = Some hs ->
  compatible s tx r m = true <-> forall h, h ∈ hs -> h_tx h <> tx -> conflicts m (h_mode h) = false.
Proof.
  intros Hr. unfold compatible. rewrite Hr, forallb_forall. split.
  - intros H h Hh Hne. apply list_elem_of_In in Hh. specialize (H h Hh). bprop.
    apply andb_false_iff in H as [H|H]; [|done]. bprop. done.
  - intros H h Hh%list_elem_of_In. apply negb_true_iff, andb_false_iff.
    destruct (decide (h_tx h = tx)) as [He|Hne]; [left; apply negb_false_iff, Z.eqb_eq, He|right; auto].
Qed.

Lemma younger_spec s tx r m hs :
  table_ s !! r = Some hs ->
  requester_is_younger_than_conflict s tx r m = false ->
  forall h, h ∈ hs -> h_tx h <> tx -> conflicts m (h_mode h) = true -> tx < h_tx h.
Proof.
  intros Hr H h Hh Hne Hc. unfold requester_is_younger_than_conflict in H. rewrite Hr in H.
  destruct (Z.ltb_spec (h_tx h) tx) as [Hlt|Hge]; [|lia]. exfalso.
  assert (existsb (fun h => negb (h_tx h =? tx) && conflicts m (h_mode h) && (h_tx h <? tx)) hs = true) as He.
  { apply existsb_exists. exists h. split; [by apply list_elem_of_In|].
    rewrite Hc. apply Z.eqb_neq in Hne. rewrite Hne. simpl. lia. }
  congruence.
Qed.

(** ** Releasing all locks *)

Definition without (tx : Z) (hs : list Holder) : list Holder := filter (fun h => ~ owns tx h) hs.
Definition prune (hs : list Holder) : option (list Holder) := if decide (hs = []) then None else Some hs.

Lemma prune_Some hs : hs <> [] -> prune hs = Some hs.
Proof. intros. unfold prune. by case_decide. Qed.

Lemma elem_without tx hs h : h ∈ without tx hs <-> h ∈ hs /\ h_tx h <> tx.
Proof. unfold without. rewrite list_elem_of_filter. unfold owns. tauto. Qed.

Lemma release_one_lookup tx tbl r r' :
  release_one tx tbl r !! r' = if decide (r' = r) then tbl !! r ≫= (fun hs => prune (without tx hs)) else tbl !! r'.
Proof.
  unfold release_one, prune. destruct (decide (r' = r)) as [->|Hne].
  - destruct (tbl !! r) as [hs|] eqn:Hr; [|done]. simpl. fold (without tx hs).
    case_decide; [apply lookup_delete_eq|apply lookup_insert_eq].
  - destruct (tbl !! r) as [hs|] eqn:Hr; [|done].
    case_decide; [by apply lookup_delete_ne|by apply lookup_insert_ne].
Qed.

Lemma release_fold_lookup tx l tbl r :
  NoDup l ->
  fold_left (release_one tx) l tbl !! r =
  if decide (r ∈ l) then tbl !! r ≫= (fun hs => prune (without tx hs)) else tbl !! r.
Proof.
  intros Hn. revert tbl. induction Hn as [|r0 l Hni Hn IH]; intros tbl; simpl; [done|].
  rewrite IH, release_one_lookup. destruct (decide (r = r0)) as [->|Hne].
  - rewrite (decide_False (P := r0 ∈ l)) by done. by rewrite (decide_True (P := r0 ∈ r0 :: l)) by left.
  - destruct (decide (r ∈ l)) as [Hin|Hin].
    + by rewrite decide_True by by right.
    + rewrite decide_False; [done|]. rewrite elem_of_cons. tauto.
Qed.

Lemma without_id tx hs : (forall h, h ∈ hs -> h_tx h <> tx) -> without tx hs = hs.
Proof.
  intros H. unfold without. induction hs as [|h hs IH]; [done|].
  rewrite filter_cons_True by (apply H; left). f_equal. apply IH. intros h' Hh'. apply H. by right.
Qed.

(** What is left of the table, for every resource. *)
Lemma release_all_table tx s r :
  lk_inv s -> table_ (release_all tx s) !! r = table_ s !! r ≫= (fun hs => prune (without tx hs)).
Proof.
  intros [Ht Hh _ _].
  assert (forall hs, table_ s !! r = Some hs -> ~ (exists m, holder s r (mkHolder tx m)) ->
            prune (without tx hs) = Some hs) as Hid.
  { intros hs Hr Hno. rewrite without_id; [apply prune_Some; by apply (Ht r)|].
    intros h Hin He. apply Hno. exists (h_mode h). exists hs. split; [done|]. subst tx. by rewrite holder_eta. }
  unfold release_all. destruct (held_ s !! tx) as [rs|] eqn:Hheld; simpl.
  - rewrite release_fold_lookup by apply NoDup_elements. case_decide as Hd; [done|].
    rewrite elem_of_elements in Hd.
    destruct (table_ s !! r) as [hs|] eqn:Hr; [|done]. simpl. symmetry. apply Hid; [done|].
    rewrite <- Hh. intros (rs' & Hrs' & Hin). congruence.
  - destruct (table_ s !! r) as [hs|] eqn:Hr; [|done]. simpl. symmetry. apply Hid; [done|].
    rewrite <- Hh. intros (rs' & Hrs' & Hin). congruence.
Qed.

Lemma release_all_held tx s tx' :
  held_ (release_all tx s) !! tx' = if decide (tx' = tx) then None else held_ s !! tx'.
Proof.
  unfold release_all. destruct (held_ s !! tx) as [rs|] eqn:Hh; simpl.
  - case_decide; subst; [apply lookup_delete_eq|by apply lookup_delete_ne].
  - by case_decide; subst.
Qed.

Lemma release_all_states tx s : states (release_all tx s) = states s /\ waiting (release_all tx s) = waiting s.
Proof. unfold release_all. by destruct (held_ s !! tx). Qed.

Lemma release_all_holder tx s r h :
  lk_inv s -> holder (release_all tx s) r h <-> holder s r h /\ h_tx h <> tx.
Proof.
  intros Hinv. unfold holder. rewrite release_all_table by done. split.
  - intros (hs & Hr & Hh). apply bind_Some in Hr as (hs0 & Hr0 & Hp). unfold prune in Hp. case_decide; simplify_eq.
    apply elem_without in Hh as [? ?]. split; [by exists hs0|done].
  - intros [(hs & Hr & Hh) Hne]. exists (without tx hs). rewrite Hr. simpl.
    assert (h ∈ without tx hs) as Hin by by apply elem_without. split; [|done].
    apply prune_Some. intros He. rewrite He in Hin. by apply not_elem_of_nil in Hin.
Qed.

Lemma sublist_entry hs hs' :
  entry_ok hs -> hs' <> [] -> hs' `sublist_of` hs -> entry_ok hs'.
Proof.
  intros [Hne Hn He] Hne' Hsub. split; [done| |].
  - apply (sublist_NoDup _ (txs hs)); [done|]. unfold txs. by apply fmap_sublist.
  - intros h Hh Hm. assert (h ∈ hs) as Hin.
    { eapply elem_of_submseteq; [exact Hh|by apply sublist_submseteq]. }
    rewrite (He h Hin Hm) in Hsub. destruct hs' as [|x [|y l]]; [done| |].
    + apply list_elem_of_singleton in Hh. by subst.
    + apply sublist_length in Hsub. simpl in Hsub. lia.
Qed.

Lemma release_all_inv tx s v :
  lk_inv s -> terminal v = true -> lk_inv (store_state tx v (release_all tx s)).
Proof.
  intros Hinv Hv. pose proof Hinv as [Ht Hh Hn Hst]. split; simpl.
  - intros r hs Hr. rewrite release_all_table in Hr by done. apply bind_Some in Hr as (hs0 & Hr0 & Hp).
    unfold prune in Hp. case_decide; simplify_eq. eapply sublist_entry; [by apply (Ht r)|done|].
    apply sublist_filter.
  - intros tx' r. rewrite release_all_held. change (holder (store_state tx v (release_all tx s))) with (holder (release_all tx s)).
    setoid_rewrite release_all_holder; [|done]. simpl. case_decide as Hd; subst.
    + split; [naive_solver|]. intros (m & _ & ?). done.
    + rewrite Hh. split; intros [m Hm]; exists m; tauto.
  - intros tx' rs. rewrite release_all_held. case_decide; [done|apply Hn].
  - intros tx' Hs. rewrite release_all_held. case_decide as Hd; [done|]. apply Hst.
    unfold state in *. simpl in Hs. rewrite lookup_insert_ne in Hs by done.
    by rewrite (proj1 (release_all_states tx s)) in Hs.
Qed.

(** ** One pass of the lock loop *)

Lemma set_table_id s r hs : table_ s !! r = Some hs -> set_table (<[r := hs]> (table_ s)) s = s.
Proof. intros Hr. rewrite insert_id by done. by destruct s. Qed.

(** The possible outcomes of a pass from a consistent state. *)
Inductive pass_outcome (tx r : Z) (m : LockMode) (s : t) : lock_result * t -> Prop :=
  | po_own : holder s r (mkHolder tx m) -> pass_outcome tx r m s (Granted, s)
  | po_downgrade : holder s r (mkHolder tx Exclusive) -> m = Shared -> pass_outcome tx r m s (Refused, s)
  | po_upgrade : table_ s !! r = Some [mkHolder tx Shared] -> m = Exclusive ->
      pass_outcome tx r m s (Granted, set_table (<[r := [mkHolder tx Exclusive]]> (table_ s)) s)
  | po_new hs : table_ s !! r = Some hs \/ table_ s !! r = None /\ hs = [] ->
      (forall h, h ∈ hs -> h_tx h <> tx /\ conflicts m (h_mode h) = false) ->
      pass_outcome tx r m s (Granted, add_held tx r (set_table (<[r := hs ++ [mkHolder tx m]]> (table_ s)) s))
  | po_die h : holder s r h -> conflicts m (h_mode h) = true -> h_tx h < tx ->
      pass_outcome tx r m s (Refused, store_state tx Aborted (release_all tx s))
  | po_wait h : holder s r h -> h_tx h <> tx -> conflicts m (h_mode h) = true ->
      (forall h', holder s r h' -> h_tx h' <> tx -> conflicts m (h_mode h') = true -> tx < h_tx h') ->
      pass_outcome tx r m s (Blocked, s).

Lemma upgrade_alone tx hs h :
  entry_ok hs -> h ∈ hs -> h_tx h = tx -> h_mode h = Shared ->
  (forall h', h' ∈ hs -> h_tx h' <> tx -> conflicts Exclusive (h_mode h') = false) ->
  hs = [mkHolder tx Shared] /\ upgrade tx hs = [mkHolder tx Exclusive].
Proof.
  intros Hok Hh Htx Hm Hc. assert (hs = [h]) as ->.
  { destruct hs as [|a [|b l]]; [by apply not_elem_of_nil in Hh|by apply list_elem_of_singleton in Hh; subst|].
    assert (forall h', h' ∈ a :: b :: l -> h_tx h' = tx) as Hall.
    { intros h' Hh'. destruct (decide (h_tx h' = tx)) as [|Hne]; [done|]. specialize (Hc h' Hh' Hne). by destruct (h_mode h'). }
    pose proof (eo_nodup _ Hok) as Hn. simpl in Hn. apply list.NoDup_cons in Hn as [Hni _].
    exfalso. apply Hni. rewrite (Hall a) by left. rewrite (Hall b) by (right; left). left. }
  destruct h as [htx hm]. simpl in *. subst. split; [done|]. by rewrite decide_True.
Qed.

Lemma incompatible_holder s tx r m :
  compatible s tx r m = false -> exists h, holder s r h /\ h_tx h <> tx /\ conflicts m (h_mode h) = true.
Proof.
  intros Hc. unfold compatible in Hc. destruct (table_ s !! r) as [hs|] eqn:Hr; [|done].
  assert (exists h, h ∈ hs /\ negb (negb (h_tx h =? tx) && conflicts m (h_mode h)) = false) as (h & Hh & Hb).
  { clear Hr. induction hs as [|h hs IH]; [done|]. simpl in Hc. apply andb_false_iff in Hc as [Hc|Hc].
    - exists h. split; [left|done].
    - destruct (IH Hc) as (h' & ? & ?). exists h'. split; [by right|done]. }
  exists h. split; [by exists hs|]. bprop. done.
Qed.

Lemma lock_pass_spec tx r m s : lk_inv s -> pass_outcome tx r m s (lock_pass tx r m s).
Proof.
  intros Hinv. unfold lock_pass. destruct (table_ s !! r) as [hs|] eqn:Hr; cbn [default from_option id].
  - rewrite set_table_id by done. pose proof (li_table _ Hinv r hs Hr) as Hok.
    assert (forall h0, own tx hs = h0 -> (h0 = None \/ exists h, h0 = Some h /\ h_mode h = Shared /\ m = Exclusive) ->
              pass_outcome tx r m s (lock_request tx r m hs s)) as Hreq.
    { intros h0 Hown Hcase. unfold lock_request. rewrite Hown. destruct (compatible s tx r m) eqn:Hc.
      - rewrite (compatible_spec s tx r m hs Hr) in Hc. destruct Hcase as [->|(h & -> & Hm & ->)].
        + apply po_new; [by left|]. intros h Hh. pose proof (own_None _ _ _ Hown Hh). auto.
        + apply own_Some in Hown as [Hin Htx].
          destruct (upgrade_alone tx hs h Hok Hin Htx Hm Hc) as [Hhs ->]. apply po_upgrade; [by rewrite <- Hhs|done].
      - destruct (requester_is_younger_than_conflict s tx r m) eqn:Hy.
        + unfold requester_is_younger_than_conflict in Hy. rewrite Hr in Hy.
          apply existsb_exists in Hy as (h & Hh%list_elem_of_In & Hb). bprop.
          apply (po_die tx r m s h); [by exists hs|done|done].
        + destruct (incompatible_holder _ _ _ _ Hc) as (h & Hh & Hne & Hcf).
          apply (po_wait tx r m s h); [done|done|done|].
          intros h' (hs' & Hr' & Hh') Hne' Hc'. simplify_eq. by eapply younger_spec. }
    destruct (own tx hs) as [h|] eqn:Hown; [|apply (Hreq None); auto].
    destruct (own_Some _ _ _ Hown) as [Hin Htx]. destruct h as [htx hm]. simpl in *. subst htx.
    case_decide as Hm; [subst; apply po_own; by exists hs|].
    case_decide as Hd; [destruct Hd; subst; apply po_downgrade; [by exists hs|done]|].
    apply (Hreq (Some (mkHolder tx hm))); [done|]. right. exists (mkHolder tx hm). simpl.
    destruct hm, m; naive_solver.
  - unfold own. simpl. unfold lock_request.
    assert (compatible (set_table (<[r:=[]]> (table_ s)) s) tx r m = true) as ->.
    { unfold compatible. simpl. by rewrite lookup_insert_eq. }
    simpl. unfold set_table at 1. simpl. rewrite insert_insert_eq.
    apply (po_new tx r m s []); [by right|]. intros h Hh. by apply not_elem_of_nil in Hh.
Qed.

Lemma add_held_inv tx r m hs s :
  lk_inv s -> terminal (state s tx) = false ->
  table_ s !! r = Some hs \/ table_ s !! r = None /\ hs = [] ->
  (forall h, h ∈ hs -> h_tx h <> tx /\ conflicts m (h_mode h) = false) ->
  lk_inv (add_held tx r (set_table (<[r := hs ++ [mkHolder tx m]]> (table_ s)) s)).
Proof.
  intros Hinv Hst Hr Hc. pose proof Hinv as [Ht Hh Hn Hte].
  assert (NoDup (txs hs) /\ (forall h, h ∈ hs -> h_mode h = Exclusive -> hs = [h])) as [Hnd Hex].
  { destruct Hr as [Hr|[_ ->]]; [by destruct (Ht r hs Hr)|]. split; [apply NoDup_nil_2|].
    intros h Hh'. by apply not_elem_of_nil in Hh'. }
  assert (forall h, holder s r h <-> h ∈ hs) as Hhold.
  { intros h. unfold holder. destruct Hr as [->|[-> ->]]; [naive_solver|].
    split; [naive_solver|]. intros Hx. by apply not_elem_of_nil in Hx. }
  split; simpl.
  - intros r' hs' Hr'. apply lookup_insert_Some in Hr' as [[<- <-]|[_ Hr']]; [|by apply (Ht r')]. split.
    + by destruct hs.
    + unfold txs. rewrite fmap_app. apply list.NoDup_app. split_and!; [done| |apply NoDup_singleton].
      intros x Hx Hx'. apply list_elem_of_singleton in Hx' as ->. apply elem_txs in Hx as [m' Hm'].
      by destruct (Hc _ Hm').
    + intros h Hh' Hm. apply elem_of_app in Hh' as [Hh'|Hh'].
      * destruct (Hc h Hh') as [_ Hcf]. unfold conflicts in Hcf. rewrite Hm in Hcf. by destruct m.
      * apply list_elem_of_singleton in Hh' as ->. simpl in Hm. subst. destruct hs as [|h0 hs]; [done|].
        destruct (Hc h0) as [_ Hcf]; [left|]. by destruct (h_mode h0).
  - intros tx' r'. unfold holder. simpl.
    destruct (decide (r' = r)) as [->|Hner].
    + rewrite lookup_insert_eq.
      destruct (decide (tx' = tx)) as [->|Hne].
      * rewrite lookup_insert_eq. split.
        -- intros _. exists m. eexists. split; [done|]. apply elem_of_app. right. by apply list_elem_of_singleton.
        -- intros _. eexists. split; [done|]. set_solver.
      * rewrite lookup_insert_ne by done. rewrite Hh. split.
        -- intros [m' Hm']. exists m'. eexists. split; [done|]. apply elem_of_app. left. by apply Hhold.
        -- intros (m' & hs' & [= <-] & Hin). apply elem_of_app in Hin as [Hin|Hin].
           ++ exists m'. by apply Hhold.
           ++ apply list_elem_of_singleton in Hin. congruence.
    + rewrite (lookup_insert_ne (table_ s) r r') by done. change (exists m0, exists hs0, table_ s !! r' = Some hs0 /\ mkHolder tx' m0 ∈ hs0)
        with (exists m0, holder s r' (mkHolder tx' m0)). rewrite <- Hh.
      destruct (decide (tx' = tx)) as [->|Hne].
      * rewrite lookup_insert_eq. split.
        -- intros (rs & [= <-] & Hin). apply elem_of_union in Hin as [Hin|Hin]; [set_solver|].
           destruct (held_ s !! tx) as [rs|] eqn:Hrs; [by eexists|set_solver].
        -- intros (rs & Hrs & Hin). eexists. split; [done|]. rewrite Hrs. set_solver.
      * by rewrite lookup_insert_ne.
  - intros tx' rs Hrs. apply lookup_insert_Some in Hrs as [[<- <-]|[_ Hrs]]; [set_solver|by eapply Hn].
  - intros tx' Hterm. change (state (add_held tx r (set_table (<[r:=hs ++ [mkHolder tx m]]> (table_ s)) s)) tx')
      with (state s tx') in Hterm.
    rewrite lookup_insert_ne; [by apply Hte|]. intros <-. congruence.
Qed.

Lemma upgrade_inv tx r s :
  lk_inv s -> table_ s !! r = Some [mkHolder tx Shared] ->
  lk_inv (set_table (<[r := [mkHolder tx Exclusive]]> (table_ s)) s).
Proof.
  intros [Ht Hh Hn Hte] Hr. split; simpl; [| |done|done].
  - intros r' hs Hr'. apply lookup_insert_Some in Hr' as [[<- <-]|[_ Hr']]; [|by apply (Ht r')].
    split; [done|apply NoDup_singleton|]. intros h Hin _. by apply list_elem_of_singleton in Hin as ->.
  - intros tx' r'. rewrite Hh. unfold holder. simpl. destruct (decide (r' = r)) as [->|Hne].
    + rewrite lookup_insert_eq, Hr. split; intros (m & hs & [= <-] & Hin);
        apply list_elem_of_singleton in Hin as [= -> ->]; eexists; eexists; (split; [done|]);
        by apply list_elem_of_singleton.
    + by rewrite lookup_insert_ne.
Qed.

Lemma erase_own_without tx hs : NoDup (txs hs) -> erase_own tx hs = without tx hs.
Proof.
  unfold erase_own. induction hs as [|h hs IH]; intros Hn; [done|].
  simpl in Hn. apply list.NoDup_cons in Hn as [Hni Hn]. unfold without. cbn [list_find].
  destruct (decide (owns tx h)) as [Ho|Ho].
  - rewrite filter_cons_False by naive_solver. simpl. symmetry. apply without_id.
    intros h' Hh' He. apply Hni. unfold owns in Ho. rewrite Ho, <- He. apply elem_txs.
    exists (h_mode h'). by rewrite holder_eta.
  - rewrite filter_cons_True by done. specialize (IH Hn). unfold without in IH. rewrite <- IH.
    by destruct (list_find (owns tx) hs) as [[i h']|].
Qed.

(** The state [unlock] leaves behind when it returns [true]. *)
Lemma unlock_fields tx r s hs h :
  lk_inv s -> (unlock tx r s).1 = true -> table_ s !! r = Some hs -> own tx hs = Some h ->
  let s' := (unlock tx r s).2 in
  (forall r', table_ s' !! r' = if decide (r' = r) then prune (without tx hs) else table_ s !! r') /\
  (forall tx', held_ s' !! tx' = if decide (tx' = tx) then
     held_ s !! tx ≫= (fun rs => if decide (rs ∖ {[r]} = ∅) then None else Some (rs ∖ {[r]})) else held_ s !! tx') /\
  states s' = <[tx := Shrinking]> (states s) /\ waiting s' = waiting s.
Proof.
  intros Hinv Hres Hr Hown. revert Hres. unfold unlock. case_decide; [done|]. rewrite Hr, Hown. intros _. cbn [snd].
  rewrite erase_own_without by apply (li_table _ Hinv r hs Hr). split_and!.
  - intros r'. simpl. assert (table_ (set_table (if decide (without tx hs = []) then delete r (table_ s)
      else <[r:=without tx hs]> (table_ s)) s) !! r' = if decide (r' = r) then prune (without tx hs) else table_ s !! r') as Ht.
    { simpl. unfold prune. destruct (decide (without tx hs = [])), (decide (r' = r)); subst;
        rewrite ?lookup_delete_eq, ?lookup_insert_eq, ?lookup_delete_ne, ?lookup_insert_ne by done; done. }
    by destruct (held_ s !! tx).
  - intros tx'. simpl. destruct (held_ s !! tx) as [rs|] eqn:Hrs; simpl.
    + destruct (decide (rs ∖ {[r]} = ∅)), (decide (tx' = tx)); subst;
        rewrite ?lookup_delete_eq, ?lookup_insert_eq, ?lookup_delete_ne, ?lookup_insert_ne by done; done.
    + by case_decide; subst.
  - simpl. by destruct (held_ s !! tx).
  - simpl. by destruct (held_ s !! tx).
Qed.

Lemma unlock_true tx r s :
  (unlock tx r s).1 = true ->
  (state s tx = Growing \/ state s tx = Shrinking) /\ exists hs h, table_ s !! r = Some hs /\ own tx hs = Some h.
Proof.
  unfold unlock. case_decide as Hd; [done|]. destruct (table_ s !! r) as [hs|]; [|done].
  destruct (own tx hs) as [h|] eqn:Ho; [|done]. intros _. split; [|eauto].
  destruct (state s tx); auto; exfalso; apply Hd; done.
Qed.

Lemma unlock_false tx r s : (unlock tx r s).1 = false -> (unlock tx r s).2 = s.
Proof.
  unfold unlock. case_decide; [done|]. destruct (table_ s !! r) as [hs|]; [|done]. by destruct (own tx hs).
Qed.

(** The locks that are left: all but the released one. *)
Lemma unlock_holder tx r s :
  lk_inv s -> (unlock tx r s).1 = true -> forall r' h,
  holder (unlock tx r s).2 r' h <-> holder s r' h /\ (r' = r -> h_tx h <> tx).
Proof.
  intros Hinv Hres r' h. destruct (unlock_true _ _ _ Hres) as (_ & hs & h0 & Hr & Hown).
  destruct (unlock_fields tx r s hs h0 Hinv Hres Hr Hown) as (Ht & _). unfold holder. rewrite Ht.
  destruct (decide (r' = r)) as [->|Hne]; [|naive_solver]. split.
  - intros (hs' & Hp & Hin). unfold prune in Hp. case_decide; simplify_eq. apply elem_without in Hin. naive_solver.
  - intros [(hs' & Hr' & Hin) Hne]. simplify_eq. assert (h ∈ without tx hs) as Hw by (apply elem_without; auto).
    exists (without tx hs). split; [|done]. apply prune_Some. intros He. rewrite He in Hw. by apply not_elem_of_nil in Hw.
Qed.

Lemma unlock_inv tx r s : lk_inv s -> lk_inv (unlock tx r s).2.
Proof.
  intros Hinv. destruct (unlock tx r s).1 eqn:Hres; [|by rewrite unlock_false].
  destruct (unlock_true _ _ _ Hres) as (Hst & hs & h0 & Hr & Hown).
  pose proof (unlock_holder tx r s Hinv Hres) as Hhold.
  destruct (unlock_fields tx r s hs h0 Hinv Hres Hr Hown) as (Ht & Hhe & Hs & _).
  pose proof Hinv as [It Ih In Ite]. split.
  - intros r' hs' Hr'. rewrite Ht in Hr'. destruct (decide (r' = r)) as [->|]; [|by apply (It r')].
    unfold prune in Hr'. case_decide; simplify_eq. eapply sublist_entry; [by apply (It r)|done|apply sublist_filter].
  - intros tx' r'. setoid_rewrite Hhold. simpl. rewrite Hhe. destruct (decide (tx' = tx)) as [->|Hne].
    + specialize (Ih tx r'). destruct (held_ s !! tx) as [rs|] eqn:Hrs; simpl.
      * split.
        -- intros (rs' & Hd & Hin). case_decide; simplify_eq. apply elem_of_difference in Hin as [Hin Hne'].
           destruct (proj1 Ih) as [m Hm]; [by eexists|]. exists m. split; [done|]. intros ->. set_solver.
        -- intros (m & Hm & Hne'). destruct (proj2 Ih) as (rs' & [= <-] & Hin); [by eexists|].
           assert (r' ∈ rs ∖ {[r]}) as Hx by set_solver. exists (rs ∖ {[r]}). split; [|done].
           case_decide as Hd; [|done]. rewrite Hd in Hx. set_solver.
      * split; [naive_solver|]. intros (m & Hm & _). destruct (proj2 Ih) as (rs' & ? & _); [by eexists|done].
    + rewrite Ih. split; intros [m Hm]; exists m; naive_solver.
  - intros tx' rs Hrs. rewrite Hhe in Hrs. destruct (decide (tx' = tx)) as [->|]; [|by apply (In tx')].
    apply bind_Some in Hrs as (rs0 & _ & Hd). by case_decide; simplify_eq.
  - intros tx' Hterm. unfold state in Hterm. rewrite Hs in Hterm. rewrite Hhe.
    destruct (decide (tx' = tx)) as [->|Hne]; [by rewrite lookup_insert_eq in Hterm|].
    rewrite lookup_insert_ne in Hterm by done. by apply Ite.
Qed.

Lemma pass_inv tx r m s p :
  lk_inv s -> terminal (state s tx) = false -> pass_outcome tx r m s p -> lk_inv p.2.
Proof.
  intros Hinv Hst [| | | | |]; simpl; try done.
  - by apply upgrade_inv.
  - by apply add_held_inv.
  - by apply release_all_inv.
Qed.

Lemma waiting_inv w s : lk_inv s -> lk_inv (set_waiting w s).
Proof. by destruct 1; split. Qed.

Lemma sleep_inv tx r m p : lk_inv p.2 -> lk_inv (sleep tx r m p).2.
Proof. intros. unfold sleep. destruct p.1; simpl; auto using waiting_inv. Qed.

Lemma step_inv s s' : lk_inv s -> step s s' -> lk_inv s'.
Proof.
  intros Hinv Hs. destruct Hs as [tx r m s _|tx r m s _ _|tx r s _|tx s _|tx s].
  - unfold lock. case_decide as Hd; [done|].
    apply sleep_inv. eapply pass_inv; [done| |by apply lock_pass_spec]. by rewrite Hd.
  - unfold wake. case_decide as Hd; [by apply waiting_inv|].
    apply sleep_inv. eapply pass_inv; [by apply waiting_inv| |by apply lock_pass_spec, waiting_inv]. by rewrite Hd.
  - by apply unlock_inv.
  - unfold commit. destruct (terminal _); [done|]. by apply release_all_inv.
  - unfold abort. destruct (terminal _); [done|]. by apply release_all_inv.
Qed.

Lemma init_inv : lk_inv init.
Proof.
  split; simpl.
  - intros r hs. by rewrite lookup_empty.
  - intros tx r. unfold holder. simpl. split.
    + intros (rs & H & _). by rewrite lookup_empty in H.
    + intros (m & hs & H & _). by rewrite lookup_empty in H.
  - intros tx rs H. by rewrite lookup_empty in H.
  - intros tx _. apply lookup_empty.
Qed.

Lemma reachable_inv s : reachable s -> lk_inv s.
Proof.
  unfold reachable. pose proof init_inv as Hinv. revert Hinv. generalize init. intros s0 Hinv Hr.
  induction Hr as [|s0 s1 s2 Hs _ IH]; [done|]. apply IH. by eapply step_inv.
Qed.

(** Nobody has the page: the lock is granted. *)
Lemma lock_free tx r m l :
  state l tx = Growing -> table_ l !! r = None ->
  exists l', lock tx r m l = (Granted, l') /\ table_ l' = <[r := [mkHolder tx m]]> (table_ l) /\ states l' = states l.
Proof.
  intros Hg Hn. unfold lock. rewrite decide_False by (by intros Hx). unfold lock_pass. rewrite Hn.
  cbn [default own list_find fmap option_fmap option_map from_option].
  unfold lock_request, compatible, own. cbn [table_ set_table list_find fmap option_fmap option_map].
  rewrite lookup_insert_eq. cbn. eexists. split_and!; [done|cbn; by rewrite insert_insert_eq|done].
Qed.

(** A request that leaves its transaction aborted has only released the locks of the transaction. *)
Lemma lock_died tx r m s s' :
  lk_inv s -> state s tx = Growing -> lock tx r m s = (Refused, s') -> state s' tx = Aborted ->
  s' = store_state tx Aborted (release_all tx s).
Proof.
  intros Hinv Hg E Ha. unfold lock in E. rewrite decide_False in E by (by intros Hx).
  pose proof (lock_pass_spec tx r m s Hinv) as Hp. destruct (lock_pass tx r m s) as [[] l] eqn:Ep; unfold sleep in E; cbn in E; try congruence.
  injection E as ->. inversion Hp; subst; congruence.
Qed.

(** What a transaction had for itself nobody has when its locks are released. *)
Lemma exclusive_released tx r v s :
  lk_inv s -> holder s r (mkHolder tx Exclusive) -> table_ (store_state tx v (release_all tx s)) !! r = None.
Proof.
  intros Hinv (hs & Hr & Hin). pose proof (eo_exclusive _ (li_table _ Hinv r hs Hr) _ Hin eq_refl) as ->.
  change (table_ (release_all tx s) !! r = None). rewrite release_all_table, Hr by done. change (prune (without tx [mkHolder tx Exclusive]) = None).
  destruct (without tx [mkHolder tx Exclusive]) as [|h hs] eqn:Ew; [done|]. exfalso.
  assert (h ∈ without tx [mkHolder tx Exclusive]) as Hh by (rewrite Ew; left).
  apply elem_without in Hh as [Hh Hne]. apply list_elem_of_singleton in Hh as ->. by apply Hne.
Qed.

(** ** What an operation of one transaction leaves alone *)

Definition same_for (tx' : Z) (s s' : t) : Prop :=
  state s' tx' = state s tx' /\ forall r m, holder s' r (mkHolder tx' m) <-> holder s r (mkHolder tx' m).

Lemma same_for_refl tx' s : same_for tx' s s.
Proof. by split. Qed.

Lemma store_state_other tx tx' v s : tx' <> tx -> state (store_state tx v s) tx' = state s tx'.
Proof. intros. unfold state. simpl. by rewrite lookup_insert_ne. Qed.

Lemma store_state_same tx v s : state (store_state tx v s) tx = v.
Proof. unfold state. simpl. by rewrite lookup_insert_eq. Qed.

Lemma release_state tx s tx' : state (release_all tx s) tx' = state s tx'.
Proof. unfold state. by rewrite (proj1 (release_all_states tx s)). Qed.

Lemma release_same_for tx tx' v s :
  lk_inv s -> tx' <> tx -> same_for tx' s (store_state tx v (release_all tx s)).
Proof.
  intros Hinv Hne. split; [by rewrite store_state_other, release_state|]. intros r m.
  change (holder (store_state tx v (release_all tx s)) r) with (holder (release_all tx s) r).
  rewrite release_all_holder by done. simpl. tauto.
Qed.

Lemma pass_same_for tx r m s p tx' :
  lk_inv s -> pass_outcome tx r m s p -> tx' <> tx -> same_for tx' s p.2.
Proof.
  intros Hinv [| |Hr _|hs Hr _| |] Hne; simpl; try apply same_for_refl.
  - split; [done|]. intros r' m'. unfold holder. simpl. destruct (decide (r' = r)) as [->|].
    + rewrite lookup_insert_eq, Hr. split; intros (hs & [= <-] & Hin);
        apply list_elem_of_singleton in Hin as [= -> _]; done.
    + by rewrite lookup_insert_ne.
  - split; [done|]. intros r' m'. unfold holder. simpl. destruct (decide (r' = r)) as [->|].
    + rewrite lookup_insert_eq. split.
      * intros (hs' & [= <-] & Hin). apply elem_of_app in Hin as [Hin|Hin].
        -- destruct Hr as [Hr|[_ ->]]; [by eexists|]. by apply not_elem_of_nil in Hin.
        -- apply list_elem_of_singleton in Hin. congruence.
      * intros (hs' & Hr' & Hin). eexists. split; [done|]. apply elem_of_app. left.
        destruct Hr as [Hr|[Hr _]]; congruence.
    + by rewrite lookup_insert_ne.
  - by apply release_same_for.
Qed.

Lemma same_for_waiting tx' s s' w : same_for tx' s s' -> same_for tx' s (set_waiting w s').
Proof. done. Qed.

Lemma sleep_same_for tx r m p s tx' : same_for tx' s p.2 -> same_for tx' s (sleep tx r m p).2.
Proof. intros. unfold sleep. by destruct p.1. Qed.

(** Every step is an operation of one transaction; the others keep their state and locks. *)
Lemma step_actor s s' :
  lk_inv s -> step s s' -> exists tx, (forall tx', tx' <> tx -> same_for tx' s s') /\
    (state s tx <> Growing -> state s' tx <> Growing /\
       (terminal (state s tx) = true -> state s' tx = state s tx) /\
       forall r m, holder s' r (mkHolder tx m) -> holder s r (mkHolder tx m)).
Proof.
  intros Hinv Hs. destruct Hs as [tx r m s _|tx r m s _ _|tx r s _|tx s _|tx s]; exists tx.
  - unfold lock. case_decide as Hd; [split; [intros; apply same_for_refl|done]|]. split; [|done].
    intros tx' Hne. apply sleep_same_for. eapply pass_same_for; [done|by apply lock_pass_spec|done].
  - unfold wake. case_decide as Hd; [split; [intros; by apply same_for_waiting|done]|]. split; [|done].
    intros tx' Hne. apply sleep_same_for.
    eapply (pass_same_for tx r m (set_waiting (delete tx (waiting s)) s));
      [by apply waiting_inv|by apply lock_pass_spec, waiting_inv|done].
  - destruct (unlock tx r s).1 eqn:Hres; [|rewrite unlock_false by done; split; [intros; apply same_for_refl|done]].
    destruct (unlock_true _ _ _ Hres) as (Hst & hs & h0 & Hr & Hown).
    pose proof (unlock_holder tx r s Hinv Hres) as Hhold.
    destruct (unlock_fields tx r s hs h0 Hinv Hres Hr Hown) as (_ & _ & Hs & _). split.
    + intros tx' Hne. split; [unfold state; rewrite Hs; by rewrite lookup_insert_ne|].
      intros r' m'. rewrite Hhold. simpl. tauto.
    + intros Hg. unfold state at 1 3. rewrite Hs, lookup_insert_eq. split_and!; [done| |].
      * destruct Hst as [Hst|Hst]; rewrite Hst; done.
      * intros r' m' Hx. by apply Hhold in Hx as [? _].
  - unfold commit. destruct (terminal (state s tx)) eqn:Ht; [split; [intros; apply same_for_refl|done]|].
    split; [intros; by apply release_same_for|]. intros _. rewrite store_state_same. split_and!; [done|done|].
    intros r m Hx. change (holder (release_all tx s) r (mkHolder tx m)) in Hx. by apply release_all_holder in Hx as [? _].
  - unfold abort. destruct (terminal (state s tx)) eqn:Ht; [split; [intros; apply same_for_refl|done]|].
    split; [intros; by apply release_same_for|]. intros _. rewrite store_state_same. split_and!; [done|done|].
    intros r m Hx. change (holder (release_all tx s) r (mkHolder tx m)) in Hx. by apply release_all_holder in Hx as [? _].
Qed.

(** ** Properties of the lock manager *)

(** C8: Mutual exclusion.  In every reachable state, an exclusive lock on a resource excludes
    every other lock on it, no transaction holds a resource twice, the two tables agree on who
    holds what, and a committed or aborted transaction holds nothing. *)
Theorem locks_exclude s :
  reachable s ->
  (forall r tx tx' m, holder s r (mkHolder tx Exclusive) -> holder s r (mkHolder tx' m) -> tx' = tx /\ m = Exclusive) /\
  (forall tx r, (exists rs, held_ s !! tx = Some rs /\ r ∈ rs) <-> (exists m, holder s r (mkHolder tx m))) /\
  (forall tx r m, terminal (state s tx) = true -> ~ holder s r (mkHolder tx m)).
Proof.
  intros Hr. pose proof (reachable_inv s Hr) as [Ht Hh Hn Hte]. split_and!; [|done|].
  - intros r tx tx' m (hs & Hhs & Hin) (hs' & Hhs' & Hin'). simplify_eq.
    rewrite (eo_exclusive _ (Ht r hs Hhs) _ Hin eq_refl) in Hin'. apply list_elem_of_singleton in Hin'. by simplify_eq.
  - intros tx r m Hterm Hx. destruct (proj2 (Hh tx r)) as (rs & Hrs & _); [by eexists|].
    rewrite Hte in Hrs by done. done.
Qed.

(** C30: Two-phase locking.  From the first unlock on, and after commit or abort, no step of the
    system gives a transaction a lock it does not already have, or makes it [Growing] again; a
    terminal state is final. *)
Theorem two_phase_locking s s' tx :
  reachable s -> step s s' -> state s tx <> Growing ->
  state s' tx <> Growing /\ (terminal (state s tx) = true -> state s' tx = state s tx) /\
  forall r m, holder s' r (mkHolder tx m) -> holder s r (mkHolder tx m).
Proof.
  intros Hr Hs Hg. destruct (step_actor s s' (reachable_inv s Hr) Hs) as (tx0 & Hoth & Hact).
  destruct (decide (tx = tx0)) as [->|Hne]; [by apply Hact|].
  destruct (Hoth tx Hne) as [Hst Hh]. rewrite Hst. split_and!; [done|done|]. intros r m. by apply Hh.
Qed.

(** C29: WAIT-DIE.  A call of [lock] by a [Growing] transaction ends in one of three ways: it
    returns with the lock, or reports an X-to-S request; or, when there are conflicting holders,
    it goes to sleep only if it is older than all of them, and otherwise it is aborted at once,
    all its locks are gone and nobody else's are. *)
Theorem wait_die tx r m s :
  reachable s -> state s tx = Growing ->
  let s' := (lock tx r m s).2 in
  match (lock tx r m s).1 with
  | Granted => holder s' r (mkHolder tx m)
  | Blocked => waiting s' !! tx = Some (r, m) /\
      (exists h, holder s r h /\ h_tx h <> tx /\ conflicts m (h_mode h) = true) /\
      (forall h, holder s r h -> h_tx h <> tx -> conflicts m (h_mode h) = true -> tx < h_tx h) /\
      (forall r' h, holder s' r' h <-> holder s r' h)
  | Refused => s' = s /\ m = Shared /\ holder s r (mkHolder tx Exclusive) \/
      state s' tx = Aborted /\
      (exists h, holder s r h /\ conflicts m (h_mode h) = true /\ h_tx h < tx) /\
      (forall r' h, holder s' r' h <-> holder s r' h /\ h_tx h <> tx)
  end.
Proof.
  intros Hr Hg. pose proof (reachable_inv s Hr) as Hinv. unfold lock. rewrite decide_False by naive_solver.
  pose proof (lock_pass_spec tx r m s Hinv) as Hp. destruct Hp as [Ho|Ho ->|Ht ->|hs Hhs Hc|h Hh Hc Hlt|h Hh Hne Hc Hall]; simpl.
  - done.
  - left. done.
  - exists [mkHolder tx Exclusive]. simpl. rewrite lookup_insert_eq. split; [done|]. by apply list_elem_of_singleton.
  - exists (hs ++ [mkHolder tx m]). simpl. rewrite lookup_insert_eq. split; [done|].
    apply elem_of_app. right. by apply list_elem_of_singleton.
  - right. rewrite store_state_same. split_and!; [done|by eexists|]. intros r' h'.
    change (holder (store_state tx Aborted (release_all tx s)) r') with (holder (release_all tx s) r').
    by apply release_all_holder.
  - rewrite lookup_insert_eq. split_and!; [done|by eexists|done|done].
Qed.

(** Commit and abort release everything: afterwards the transaction holds no lock and is
    terminal, every other transaction keeps its state and exactly its locks, and a waiting
    transaction whose only conflicts were with it can go on. *)
Theorem end_releases_locks tx s v s' :
  reachable s -> terminal (state s tx) = false ->
  v = Committed /\ s' = commit tx s \/ v = Aborted /\ s' = abort tx s ->
  state s' tx = v /\ (forall r m, ~ holder s' r (mkHolder tx m)) /\
  (forall tx', tx' <> tx -> same_for tx' s s') /\
  (forall tx' r m, waiting s !! tx' = Some (r, m) ->
     (forall h, holder s r h -> h_tx h <> tx' -> conflicts m (h_mode h) = true -> h_tx h = tx) ->
     waiting s' !! tx' = Some (r, m) /\ ready s' tx' r m = true).
Proof.
  intros Hr Ht Hv. pose proof (reachable_inv s Hr) as Hinv.
  assert (s' = store_state tx v (release_all tx s)) as ->.
  { destruct Hv as [[-> ->]|[-> ->]]; unfold commit, abort; by rewrite Ht. }
  assert (forall r h, holder (store_state tx v (release_all tx s)) r h <-> holder s r h /\ h_tx h <> tx) as Hh.
  { intros r h. by apply (release_all_holder tx s). }
  split_and!; [apply store_state_same| | |].
  - intros r m Hx. by apply Hh in Hx as [_ ?].
  - intros tx' Hne. by apply release_same_for.
  - intros tx' r m Hw Hc. split; [simpl; by rewrite (proj2 (release_all_states tx s))|].
    unfold ready. apply orb_true_iff. right.
    destruct (compatible _ tx' r m) eqn:Hcp; [done|].
    destruct (incompatible_holder _ _ _ _ Hcp) as (h & Hx & Hne & Hcf). apply Hh in Hx as [Hx Hnt].
    by destruct (Hnt (Hc h Hx Hne Hcf)).
Qed.

(** ** A reachable deadlock *)

(** Three transactions, resources 10 and 20.  T2 locks 20; T3 reads 10; T2 waits for 10, which
    only the younger T3 holds; the older T1 is let in to read 10; T3 commits; T1 waits for 20. *)
Definition dead1 : t := (lock 2 20 Exclusive init).2.
Definition dead2 : t := (lock 3 10 Shared dead1).2.
Definition dead3 : t := (lock 2 10 Exclusive dead2).2.
Definition dead4 : t := (lock 1 10 Shared dead3).2.
Definition dead5 : t := commit 3 dead4.
Definition dead6 : t := (lock 1 20 Exclusive dead5).2.

(** C36: WAIT-DIE as implemented does not prevent deadlock.  A transaction that is granted a
    shared lock is not compared with the transactions already waiting for the resource, so a
    reachable state has T1 and T2 asleep, each waiting for a lock the other holds, T3 committed,
    and no sleeping thread ready to go on. *)
Theorem wait_die_deadlock :
  reachable dead6 /\
  waiting dead6 !! 1 = Some (20, Exclusive) /\ holder dead6 20 (mkHolder 2 Exclusive) /\
  waiting dead6 !! 2 = Some (10, Exclusive) /\ holder dead6 10 (mkHolder 1 Shared) /\
  state dead6 3 = Committed /\
  (forall tx r m, waiting dead6 !! tx = Some (r, m) -> ready dead6 tx r m = false).
Proof.
  split_and!.
  - unfold reachable.
    eapply rtc_l; [apply (step_lock 2 20 Exclusive); by vm_compute|].
    eapply rtc_l; [apply (step_lock 3 10 Shared); by vm_compute|].
    eapply rtc_l; [apply (step_lock 2 10 Exclusive); by vm_compute|].
    eapply rtc_l; [apply (step_lock 1 10 Shared); by vm_compute|].
    eapply rtc_l; [apply (step_commit 3); by vm_compute|].
    apply rtc_once. apply (step_lock 1 20 Exclusive). by vm_compute.
  - by vm_compute.
  - exists [mkHolder 2 Exclusive]. split; [by vm_compute|left].
  - by vm_compute.
  - exists [mkHolder 1 Shared]. split; [by vm_compute|left].
  - by vm_compute.
  - assert (waiting dead6 = <[1 := (20, Exclusive)]> {[2 := (10, Exclusive)]}) as -> by by vm_compute.
    intros tx r m H. apply lookup_insert_Some in H as [[<- [= <- <-]]|[_ H]]; [by vm_compute|].
    apply lookup_singleton_Some in H as [<- [= <- <-]]. by vm_compute.
Qed.

(** ** Witnesses *)

Lemma dead3_reachable : reachable dead3.
Proof.
  unfold reachable.
  eapply rtc_l; [apply (step_lock 2 20 Exclusive); by vm_compute|].
  eapply rtc_l; [apply (step_lock 3 10 Shared); by vm_compute|].
  apply rtc_once. apply (step_lock 2 10 Exclusive). by vm_compute.
Qed.

Lemma locks_exclude_witness :
  (forall r tx tx' m, holder dead3 r (mkHolder tx Exclusive) -> holder dead3 r (mkHolder tx' m) ->
     tx' = tx /\ m = Exclusive) /\
  (forall tx r, (exists rs, held_ dead3 !! tx = Some rs /\ r ∈ rs) <-> (exists m, holder dead3 r (mkHolder tx m))) /\
  (forall tx r m, terminal (state dead3 tx) = true -> ~ holder dead3 r (mkHolder tx m)).
Proof. exact (locks_exclude dead3 dead3_reachable). Defined.

(** T3 unlocks 10 and then asks for 20. *)
Definition shrunk : t := (unlock 3 10 dead3).2.

Lemma two_phase_locking_witness :
  let s' := (lock 3 20 Shared shrunk).2 in
  state s' 3 <> Growing /\ (terminal (state shrunk 3) = true -> state s' 3 = state shrunk 3) /\
  forall r m, holder s' r (mkHolder 3 m) -> holder shrunk r (mkHolder 3 m).
Proof.
  apply (two_phase_locking shrunk (lock 3 20 Shared shrunk).2 3).
  - unfold reachable. eapply rtc_r; [exact dead3_reachable|]. apply (step_unlock 3 10). by vm_compute.
  - apply (step_lock 3 20 Shared). by vm_compute.
  - by vm_compute.
Defined.

(** T3, younger than T2, asks for 20 and dies. *)
Lemma wait_die_witness :
  let s' := (lock 3 20 Shared dead3).2 in
  s' = dead3 /\ Shared = Shared /\ holder dead3 20 (mkHolder 3 Exclusive) \/
  state s' 3 = Aborted /\
  (exists h, holder dead3 20 h /\ conflicts Shared (h_mode h) = true /\ h_tx h < 3) /\
  (forall r' h, holder s' r' h <-> holder dead3 r' h /\ h_tx h <> 3).
Proof. apply (wait_die 3 20 Shared dead3); [exact dead3_reachable|by vm_compute]. Defined.

(** T3 commits while T2 waits for its lock. *)
Lemma end_releases_locks_witness :
  state (commit 3 dead3) 3 = Committed /\ (forall r m, ~ holder (commit 3 dead3) r (mkHolder 3 m)) /\
  (forall tx', tx' <> 3 -> same_for tx' dead3 (commit 3 dead3)) /\
  (forall tx' r m, waiting dead3 !! tx' = Some (r, m) ->
     (forall h, holder dead3 r h -> h_tx h <> tx' -> conflicts m (h_mode h) = true -> h_tx h = 3) ->
     waiting (commit 3 dead3) !! tx' = Some (r, m) /\ ready (commit 3 dead3) tx' r m = true).
Proof.
  apply (end_releases_locks 3 dead3 Committed (commit 3 dead3)); [exact dead3_reachable|by vm_compute|by left].
Defined.

End LK.
