(* ===== verification/Mutation.v ===== *)
(** * Capture and replay of page images

    Models [src/src/storage/physical_mutation.cpp] and its header: [MutationContext], which
    takes the image of a page before a change ([watch]) and after it ([finish]) and hands the
    pair to a [MutationFinalizer] or keeps it, and the two functions that put an image back.
    The finalizer is the parameter [finalizer], as the source has it behind a virtual function;
    the transaction layer instantiates it.  A [Page&] argument is the index of its frame. *)

From S2P Require Import Prelude Bytes Page PageStore Wal BufferPool.

Module MC.

(** ** Data *)

Record Pending : Type := mkPending { pd_id : PageId; pd_before : bytes; pd_previous_lsn : Z }.

Record Context : Type := mkContext {
  pending_ : list Pending;
  mutations_ : list PhysicalMutation;
  next_sequence_ : Z;
}.

Definition empty_context : Context := mkContext [] [] 0.
Definition set_pending (v : list Pending) (c : Context) : Context := mkContext v (mutations_ c) (next_sequence_ c).
Definition set_mutations (v : list PhysicalMutation) (c : Context) : Context := mkContext (pending_ c) v (next_sequence_ c).
Definition set_sequence (v : Z) (c : Context) : Context := mkContext (pending_ c) (mutations_ c) v.

Definition has_unfinished_capture (c : Context) : bool := negb (bool_decide (pending_ c = [])).

(** ** Images *)

Section images.
Context {P : Type} `{PageStore P}.
Abbreviation st := (BP.t * P)%type.

(** The payload and PageLSN of a page, through the pool. *)
Definition image (wal : option Z) (id : PageId) : M st (bytes * Z) :=
  let! p := BP.fetch_page wal id in
  match p with
  | None => throw (RuntimeError "cannot fetch mutation page")
  | Some i =>
      let! s := BP.pool in
      let pg := BP.fr_page (BP.frame s i) in
      let! ok := BP.unpin_page id false in
      throw_if (negb ok) (RuntimeError "cannot unpin mutation page") ;;
      ret (page_data pg, page_lsn pg)
  end.

Definition apply (wal : option Z) (m : PhysicalMutation) (bs : bytes) : M st unit :=
  throw_if (negb (zlen bs =? kPagePayloadSize)) (InvalidArgument "invalid mutation payload image") ;;
  let! p := BP.fetch_page wal (mut_page m) in
  match p with
  | None => throw (RuntimeError "cannot fetch replay page")
  | Some i =>
      BP.write_frame i (set_data bs) ;;
      let! ok := BP.unpin_page (mut_page m) true in
      throw_if (negb ok) (RuntimeError "cannot unpin replay page")
  end.

Definition apply_after_image (wal : option Z) (m : PhysicalMutation) : M st unit := apply wal m (mut_after m).
Definition apply_before_image (wal : option Z) (m : PhysicalMutation) : M st unit := apply wal m (mut_before m).

End images.

(** ** The capturing context *)

Section context.
Context {P F : Type} `{PageStore P}.
(** [finalizer_]: null, or the virtual [finalize_mutation] on the finalizer's own state. *)
Context (finalizer : option (PhysicalMutation -> M F (option Z))).
(** The durable LSN the pool's provider reports. *)
Context (wal : F -> option Z).

Record state : Type := mkState { ms_context : Context; ms_pool : BP.t * P; ms_fin : F }.

Definition on_pool {A} (m : M (BP.t * P) A) : M state A :=
  zoom ms_pool (fun p s => mkState (ms_context s) p (ms_fin s)) m.
Definition on_fin {A} (m : M F A) : M state A :=
  zoom ms_fin (fun f s => mkState (ms_context s) (ms_pool s) f) m.
Definition on_context (f : Context -> Context) : M state unit :=
  modify (fun s => mkState (f (ms_context s)) (ms_pool s) (ms_fin s)).
Definition durable : M state (option Z) := gets (fun s => wal (ms_fin s)).

Definition watch (id : PageId) : M state unit :=
  throw_if (negb (is_valid id)) (InvalidArgument "invalid mutation page") ;;
  let! w := durable in
  let! img := on_pool (image w id) in
  on_context (fun c => set_pending (pending_ c ++ [mkPending id img.1 img.2]) c).

(** [std::find_if] over the pending captures. *)
Definition find_pending (id : PageId) (c : Context) : option (nat * Pending) :=
  list_find (fun p => pd_id p = id) (pending_ c).

(** [capture] of the page in frame [i]; [page] tells whether the caller passes the page itself.
    Building the mutation moves the image out of the pending entry. *)
Definition capture (id : PageId) (i : nat) (page : bool) : M state unit :=
  let! s := get in
  match find_pending id (ms_context s) with
  | None => throw (LogicError "finish without watch")
  | Some (k, p) =>
      let after := page_data (BP.fr_page (BP.frame (ms_pool s).1 i)) in
      (if bool_decide (after = pd_before p) then ret tt
       else
         let m := mkMutation id PayloadWrite (next_sequence_ (ms_context s)) (pd_before p) after (pd_previous_lsn p) in
         on_context (fun c => set_sequence (to_u64 (next_sequence_ c + 1)) c) ;;
         on_context (fun c => set_pending (<[k := mkPending id [] (pd_previous_lsn p)]> (pending_ c)) c) ;;
         match finalizer with
         | None => on_context (fun c => set_mutations (mutations_ c ++ [m]) c)
         | Some finalize_mutation =>
             throw_if (negb page) (LogicError "transactional mutation must finish while the page is pinned") ;;
             let! lsn := on_fin (finalize_mutation m) in
             match lsn with
             | Some l =>
                 throw_if (l =? 0) (InvalidArgument "a finalized mutation requires a nonzero LSN") ;;
                 on_pool (BP.write_frame i (set_lsn l))
             | None => on_pool (BP.mark_mutation_pending id)
             end
         end) ;;
      on_context (fun c => set_pending (delete k (pending_ c)) c)
  end.

(** [finish(PageId)]: for a context without finalizer, which pins the page itself. *)
Definition finish_unpinned (id : PageId) : M state unit :=
  throw_if (bool_decide (is_Some finalizer)) (LogicError "transactional mutation must finish while the page is pinned") ;;
  let! w := durable in
  let! p := on_pool (BP.fetch_page w id) in
  match p with
  | None => throw (RuntimeError "cannot fetch mutation page")
  | Some i =>
      on_throw (capture id i false) (on_pool (BP.unpin_page id false) ;; ret tt) ;;
      let! ok := on_pool (BP.unpin_page id false) in
      throw_if (negb ok) (RuntimeError "cannot unpin mutation page")
  end.

(** [finish(PageId, Page&)] *)
Definition finish (id : PageId) (i : nat) : M state unit :=
  let! s := get in
  throw_if (negb (page_id (BP.fr_page (BP.frame (ms_pool s).1 i)) =? id))
    (InvalidArgument "mutation page does not match finish target") ;;
  capture id i true.

Definition drain_captured : M state (list PhysicalMutation) :=
  let! s := get in
  throw_if (has_unfinished_capture (ms_context s)) (LogicError "unfinished mutation capture") ;;
  on_context (set_mutations []) ;;
  ret (mutations_ (ms_context s)).

Definition finalize : M state (list PhysicalMutation) := drain_captured.

End context.

(** ** Specifications *)

Section specs.
Context {P : Type} `{PageStoreLaws P}.
Implicit Types (x : BP.t * P) (id : PageId).

Lemma quiet_fetch_unpin wal x x1 x2 id i :
  BP.transparent wal x x1 -> BP.local_step x1 x2 -> BP.pins x1.1 id = BP.pins x.1 id + 1 ->
  (forall j, j <> id -> BP.pins x1.1 j = BP.pins x.1 j) ->
  BP.pins x2.1 id = BP.pins x1.1 id - 1 -> (forall j, j <> id -> BP.pins x2.1 j = BP.pins x1.1 j) ->
  BP.page_table_ x1.1 !! id = Some i -> BP.page_table_ x2.1 = BP.page_table_ x1.1 -> BP.quiet x x2.
Proof.
  intros [Hv Hp Hw Ha Hh] (Hv2 & Hp2 & Hs2) H1 H1' H2 H2' Hid Ht. split.
  - intros j. by rewrite Hv2, Hv.
  - intros j. destruct (decide (j = id)) as [->|]; [lia|]. rewrite H2', H1'; done.
  - intros j k Hk Hlt. rewrite Ht. by apply Hp.
  - by rewrite Hs2.
  - by rewrite Hs2.
Qed.

Lemma quiet_transparent wal x x' :
  BP.transparent wal x x' -> (forall j, BP.pins x'.1 j = BP.pins x.1 j) -> BP.quiet x x'.
Proof. intros [Hv Hp Hw Ha Hh] Hpins. by split. Qed.

Lemma pins_nonneg hole x id : BP.pool_inv hole x -> 0 <= BP.pins x.1 id.
Proof.
  intros Hinv. unfold BP.pins. destruct (BP.page_table_ x.1 !! id) as [i|] eqn:Hi; [|done].
  destruct (BP.table_frame _ _ _ _ (BP.pi_wf _ _ Hinv) Hi) as (Hf & _).
  apply (BP.wf_frames _ _ (BP.pi_wf _ _ Hinv) _ _ Hf).
Qed.

Lemma image_spec wal x id :
  BP.pool_inv None x -> is_u64 id ->
  wp (image wal id) x (fun r x' =>
    BP.pool_inv None x' /\ BP.quiet x x' /\
    forall d l, r = Ok (d, l) -> exists pg, BP.view x id = Some pg /\ d = page_data pg /\ l = page_lsn pg).
Proof.
  intros Hinv Hid. unfold image, BP.pool. wp_step. wp_use BP.fetch_page_spec; [done|done|].
  intros [[i|]|e] x1 (Hinv1 & Htr & Hr & _).
  - destruct Hr as (_ & Hi & Hv & Hp & Hpo & Hun). pose proof (pins_nonneg _ _ id Hinv).
    do 3 wp_step. wp_use BP.unpin_page_spec; [done|done|].
    intros r x2 (Hinv2 & Hloc & Ht & -> & Hp2 & Hpo2 & _).
    replace (0 <? BP.pins x1.1 id) with true in * by lia.
    assert (BP.quiet x x2) by by eapply quiet_fetch_unpin.
    wp_steps; [done|]. split_and!; [done|done|]. intros d l [= <- <-]. eauto.
  - wp_steps. split_and!; [done|by eapply quiet_transparent|done].
  - split_and!; [done|by eapply quiet_transparent|done].
Qed.

(** Writing through the pointer of a pinned page, and unpinning it. *)
Lemma write_unpin_spec x id i g :
  BP.pool_inv None x -> BP.page_table_ x.1 !! id = Some i -> 0 < BP.pins x.1 id ->
  page_wf (g (BP.fr_page (BP.frame x.1 i))) -> page_id (g (BP.fr_page (BP.frame x.1 i))) = id ->
  wp (BP.write_frame i g ;; BP.unpin_page id true) x (fun r x' =>
    r = Ok true /\ BP.pool_inv None x' /\ x'.2 = x.2 /\ BP.page_table_ x'.1 = BP.page_table_ x.1 /\
    (forall j, BP.view x' j = if decide (j = id) then Some (g (BP.fr_page (BP.frame x.1 i))) else BP.view x j) /\
    BP.pins x'.1 id = BP.pins x.1 id - 1 /\ (forall j, j <> id -> BP.pins x'.1 j = BP.pins x.1 j) /\
    BP.fr_dirty (BP.frame x'.1 i) = true).
Proof.
  intros Hinv Hi Hpin Hwf Hgid. destruct (BP.table_frame _ _ _ _ (BP.pi_wf _ _ Hinv) Hi) as (Hfr & Ho & Hpid).
  pose proof (BP.wf_frames _ _ (BP.pi_wf _ _ Hinv) _ _ Hfr) as [Hp1 Hp2 _]. pose proof (BP.pins_table _ _ _ Hi) as Hpt.
  destruct (BP.touch_spec x id i (fun fr => BP.set_page (g (BP.fr_page fr)) fr))
    as (Hinv2 & Ht2 & Hpn2 & Hv2 & Hvo2); try done.
  { right; right. lia. }
  unfold BP.write_frame, BP.on_pool. wp_step. wp_step. wp_use BP.unpin_page_spec; [done|by left|].
  intros r x3 (Hinv3 & (Hv3 & _ & Hs3) & Ht3 & -> & Hp3 & Hpo3 & Hd3). rewrite !Hpn2 in *.
  replace (0 <? BP.pins x.1 id) with true in * by lia. split_and!; try done.
  - intros j. rewrite Hv3. case_decide; [by subst|]. by apply Hvo2.
  - intros j Hj. by rewrite Hpo3, Hpn2.
  - destruct (Hd3 i) as [Hd _]; [done| |by rewrite Hd, orb_true_r].
    cbn [fst]. rewrite (BP.frame_upd _ _ _ _ _ Hfr), decide_True by done. simpl. lia.
Qed.

Lemma write_unpin_tidy wal x id i g :
  BP.pool_inv None x -> BP.page_table_ x.1 !! id = Some i -> 0 < BP.pins x.1 id ->
  page_wf (g (BP.fr_page (BP.frame x.1 i))) -> page_id (g (BP.fr_page (BP.frame x.1 i))) = id ->
  BP.tidy wal x -> BP.wal_covers wal (page_lsn (g (BP.fr_page (BP.frame x.1 i)))) = true ->
  wp (BP.write_frame i g ;; BP.unpin_page id true) x (fun _ x' => BP.tidy wal x').
Proof.
  intros Hinv Hi Hpin Hwf Hgid [Hp Hf Ha Hd] Hcov. apply wp_intro. intros r x' E.
  destruct (wp_elim _ _ _ _ _ (write_unpin_spec x id i g Hinv Hi Hpin Hwf Hgid) E)
    as (_ & _ & Hs & Ht & Hv & _).
  assert (BP.no_pending x'.1 /\ length (BP.frames_ x'.1) = length (BP.frames_ x.1)) as [Hp' Hl].
  { pattern r, x'. eapply wp_elim; [|exact E]. unfold BP.write_frame, BP.on_pool. wp_step. wp_step. apply wp_and.
    - apply BP.unpin_page_pending. by apply BP.no_pending_upd.
    - eapply wp_mono; [apply BP.unpin_page_frames|]. intros r0 x0 ->. apply BP.frames_length_upd. }
  split.
  - exact Hp'.
  - by eapply BP.frames_nonempty.
  - intros j. rewrite Ht, Hs. apply Ha.
  - intros j pg. rewrite Hv. case_decide; [by intros [= <-]|apply Hd].
Qed.

(** The page of a mutation is cached and can be pinned. *)
Definition resident x id : Prop :=
  is_valid id = true /\ ps_allocated x.2 id = true /\
  exists i, BP.page_table_ x.1 !! id = Some i /\ BP.fr_pin (BP.frame x.1 i) < BP.kMaxU32.

Lemma apply_spec wal x m bs :
  BP.pool_inv None x -> is_u64 (mut_page m) -> Forall is_byte bs ->
  wp (apply wal m bs) x (fun r x' =>
    BP.pool_inv None x' /\ (forall j, BP.pins x'.1 j = BP.pins x.1 j) /\
    ps_allocated x'.2 = ps_allocated x.2 /\ (ps_healthy x.2 -> ps_healthy x'.2) /\
    match r with
    | Ok _ => exists pg i, BP.view x (mut_page m) = Some pg /\
        (forall j, BP.view x' j = if decide (j = mut_page m) then Some (set_data bs pg) else BP.view x j) /\
        BP.page_table_ x'.1 !! mut_page m = Some i /\ BP.fr_dirty (BP.frame x'.1 i) = true
    | Throw _ => forall j, BP.view x' j = BP.view x j
    end /\
    (zlen bs = kPagePayloadSize -> resident x (mut_page m) -> r = Ok tt /\ BP.page_table_ x'.1 = BP.page_table_ x.1)).
Proof.
  intros Hinv Hid Hbs. set (id := mut_page m) in *. unfold apply. fold id. wp_step. wp_step; bprop.
  { split_and!; try done. }
  wp_step. apply wp_intro. intros r x1 Hf.
  pose proof (wp_elim _ _ _ _ _ (BP.fetch_page_spec wal x id Hinv Hid) Hf) as (Hinv1 & Htr & Hr & _).
  assert (resident x id -> r <> Ok None /\ (forall e, r <> Throw e) /\ BP.page_table_ x1.1 = BP.page_table_ x.1) as Hres.
  { intros (Hv & Ha & i & Hi & Hlt). destruct (BP.fetch_hit wal x id i Hi Hlt Hv Ha) as (x' & Hx & Ht).
    rewrite Hf in Hx. by simplify_eq. }
  destruct r as [[i|]|e].
  2:{ wp_steps. split_and!; [done|done|apply Htr|apply Htr|apply Htr|]. intros _ Hx. by destruct (Hres Hx). }
  2:{ split_and!; [done|done|apply Htr|apply Htr|apply Htr|]. intros _ Hx. destruct (Hres Hx) as (_ & Hx' & _).
      by destruct (Hx' e). }
  destruct Hr as (_ & Hi & Hv & Hp & Hpo & _). pose proof (pins_nonneg _ _ id Hinv) as Hnn.
  destruct (BP.table_frame _ _ _ _ (BP.pi_wf _ _ Hinv1) Hi) as (Hfr & Ho & Hpid).
  pose proof (BP.wf_frames _ _ (BP.pi_wf _ _ Hinv1) _ _ Hfr) as [_ _ [Hw1 Hw2 Hw3 Hw4]].
  apply wp_assoc. wp_step. wp_use write_unpin_spec; [done|exact Hi|lia|by split|done|].
  intros r x3 (-> & Hinv3 & Hs3 & Ht3 & Hv3 & Hp3 & Hpo3 & Hd3). wp_steps; [done|]. split_and!.
  - done.
  - intros j. destruct (decide (j = id)) as [->|Hne]; [lia|]. by rewrite Hpo3, Hpo.
  - rewrite Hs3. apply Htr.
  - rewrite Hs3. apply Htr.
  - exists (BP.fr_page (BP.frame x1.1 i)), i. split_and!; [done| |by rewrite Ht3|done].
    intros j. rewrite Hv3. case_decide; [done|]. apply Htr.
  - intros _ Hx. destruct (Hres Hx) as (_ & _ & Hpt). split; [done|]. by rewrite Ht3.
Qed.

Lemma apply_pending wal x m bs :
  BP.no_pending x.1 -> wp (apply wal m bs) x (fun _ x' => BP.no_pending x'.1).
Proof.
  intros Hs. unfold apply. wp_step. wp_step; [done|]. wp_step. wp_use BP.fetch_page_pending; [done|].
  intros [[i|]|e] x' Hs'; [|by wp_steps|done]. unfold BP.write_frame, BP.on_pool. do 2 wp_step.
  wp_step. wp_use BP.unpin_page_pending; [by apply BP.no_pending_upd|]. intros [b|e] x2 Hs2; [|done]. by wp_steps.
Qed.

Lemma image_pending wal x id : BP.no_pending x.1 -> wp (image wal id) x (fun _ x' => BP.no_pending x'.1).
Proof.
  intros Hs. unfold image, BP.pool. wp_step. wp_use BP.fetch_page_pending; [done|].
  intros [[i|]|e] x' Hs'; [|by wp_steps|done]. do 3 wp_step.
  wp_use BP.unpin_page_pending; [done|]. intros [b|e] x2 Hs2; [|done]. by wp_steps.
Qed.

Lemma restore_spec x id i lsn :
  BP.pool_inv None x -> BP.no_pending x.1 -> is_u64 lsn ->
  BP.page_table_ x.1 !! id = Some i -> BP.fr_dirty (BP.frame x.1 i) = true ->
  wp (BP.restore_page_lsn_after_undo id lsn) x (fun r x' =>
    r = Ok tt /\ BP.pool_inv None x' /\ BP.no_pending x'.1 /\ (forall j, BP.pins x'.1 j = BP.pins x.1 j) /\
    (forall j, BP.view x' j = if decide (j = id) then set_lsn lsn <$> BP.view x j else BP.view x j) /\
    x'.2 = x.2 /\ BP.page_table_ x'.1 = BP.page_table_ x.1).
Proof.
  intros Hinv Hnp Hl Hid Hd. unfold BP.restore_page_lsn_after_undo, BP.pool, BP.on_pool. wp_step. wp_step.
  rewrite Hid. wp_step. rewrite Hnp. wp_step; [done|]. wp_step.
  destruct (BP.stamp_spec x id i lsn (BP.stamp_lsn lsn)) as (Hs1 & Hs2 & Hs3); try done.
  { by left. }
  { by intros f [] _. }
  split_and!; try done. by apply BP.no_pending_upd.
Qed.

End specs.
End MC.
