(* ===== verification/Transaction.v ===== *)
(** * Transactions: capture, rollback, commit and abort

    Models [src/src/concurrency/transaction.cpp], [transaction_coordinator.cpp] and the
    transaction hooks of [src/src/storage/log_manager.cpp] ([prepare_commit],
    [prepare_abort]).  A transaction runs in a [World]: its own object, the buffer pool over the
    page manager, and the log.  The state of a transaction ([state_]) is kept by the lock
    manager's model, which writes it. *)

From S2P Require Import Prelude Bytes Page Stream PageStore PageManager Wal LogManager BufferPool LockManager Mutation.

Module TX.

(** ** Data *)

Record Tx : Type := mk {
  id_ : Z;
  (** Which pool the transaction is bound to. *)
  mutation_pool_ : option Z;
  mutation_context_ : option MC.Context;
  pending_mutations_ : list PhysicalMutation;
  undo_resolved_ : list bool;
  finalized_mutations_ : nat;
  (** Whether there is a log sink; it is the log of the world. *)
  log_sink_ : bool;
  (** Whether [allocation_manager_] is set; it is the page manager of the world. *)
  allocation_manager_ : bool;
  allocated_pages_ : list PageId;
}.

Definition new_tx (id : Z) (sink : bool) : Tx := mk id None None [] [] 0 sink false [].

Definition set_context (p : Z) (c : MC.Context) (t : Tx) : Tx :=
  mk (id_ t) (Some p) (Some c) (pending_mutations_ t) (undo_resolved_ t) (finalized_mutations_ t) (log_sink_ t)
     (allocation_manager_ t) (allocated_pages_ t).
Definition upd_context (c : MC.Context) (t : Tx) : Tx :=
  mk (id_ t) (mutation_pool_ t) (Some c) (pending_mutations_ t) (undo_resolved_ t) (finalized_mutations_ t) (log_sink_ t)
     (allocation_manager_ t) (allocated_pages_ t).
Definition push_mutation (m : PhysicalMutation) (t : Tx) : Tx :=
  mk (id_ t) (mutation_pool_ t) (mutation_context_ t) (pending_mutations_ t ++ [m]) (undo_resolved_ t ++ [false])
     (finalized_mutations_ t) (log_sink_ t) (allocation_manager_ t) (allocated_pages_ t).
Definition count_finalized (t : Tx) : Tx :=
  mk (id_ t) (mutation_pool_ t) (mutation_context_ t) (pending_mutations_ t) (undo_resolved_ t)
     (S (finalized_mutations_ t)) (log_sink_ t) (allocation_manager_ t) (allocated_pages_ t).

Definition set_allocated (manager : bool) (v : list PageId) (t : Tx) : Tx :=
  mk (id_ t) (mutation_pool_ t) (mutation_context_ t) (pending_mutations_ t) (undo_resolved_ t)
     (finalized_mutations_ t) (log_sink_ t) manager v.
Definition add_allocated (p : PageId) (t : Tx) : Tx := set_allocated true (allocated_pages_ t ++ [p]) t.
Definition set_resolved (v : list bool) (t : Tx) : Tx :=
  mk (id_ t) (mutation_pool_ t) (mutation_context_ t) (pending_mutations_ t) v
     (finalized_mutations_ t) (log_sink_ t) (allocation_manager_ t) (allocated_pages_ t).
Definition mark_resolved (i : nat) (t : Tx) : Tx := set_resolved (<[i := true]> (undo_resolved_ t)) t.

Record World : Type := mkW { w_tx : Tx; w_pool : BP.t; w_pages : PM.t; w_log : LM.t }.

Definition upd_tx (f : Tx -> Tx) : M World unit :=
  modify (fun w => mkW (f (w_tx w)) (w_pool w) (w_pages w) (w_log w)).
Definition on_pool {A} (m : M (BP.t * PM.t) A) : M World A :=
  zoom (fun w => (w_pool w, w_pages w)) (fun x w => mkW (w_tx w) x.1 x.2 (w_log w)) m.
Definition on_pages {A} (m : M PM.t A) : M World A :=
  zoom w_pages (fun p w => mkW (w_tx w) (w_pool w) p (w_log w)) m.
Definition on_log {A} (m : M LM.t A) : M World A :=
  zoom w_log (fun l w => mkW (w_tx w) (w_pool w) (w_pages w) l) m.
Definition on_storage {A} (m : M Storage A) : M World A :=
  zoom (fun w => mkStorage (w_pages w) (w_log w)) (fun s w => mkW (w_tx w) (w_pool w) (sto_pages s) (sto_log s)) m.

(** ** [TransactionManager::begin] *)

(** The state is [next_id_] and the log. *)
Definition begin (sink : bool) : M (Z * LM.t) Tx :=
  let! s := get in
  let id := s.1 in
  modify (fun s => (to_u64 (s.1 + 1), s.2)) ;;
  (if sink then zoom snd (fun l s => (s.1, l)) (LM.log_begin id) else ret tt) ;;
  ret (new_tx id sink).

(** ** Capturing *)

Definition has_unfinished_capture (t : Tx) : bool :=
  match mutation_context_ t with Some c => MC.has_unfinished_capture c | None => false end.

Definition has_unfinalized_mutations (t : Tx) : bool :=
  has_unfinished_capture t || negb (finalized_mutations_ t =? length (pending_mutations_ t))%nat.

Definition has_unresolved_mutations_for_abort (t : Tx) : bool :=
  has_unfinished_capture t ||
  existsb (fun index => negb (default false (undo_resolved_ t !! index))) (seq 0 (length (pending_mutations_ t))).

(** The finalizer a transaction is for its context; it works on the transaction and the log. *)
Definition finalize_mutation (m : PhysicalMutation) : M (Tx * LM.t) (option Z) :=
  modify (fun s => (push_mutation m s.1, s.2)) ;;
  let! s := get in
  if log_sink_ s.1 then
    let! lsn := zoom snd (fun l s => (s.1, l)) (LM.log_physical_mutation (id_ s.1) m) in
    throw_if (lsn =? 0) (LogicError "WAL mutation logger returned zero LSN") ;;
    modify (fun s => (count_finalized s.1, s.2)) ;;
    ret (Some lsn)
  else ret None.

Section world.
(** Whether the pool asks the log how far it is durable. *)
Context (provider : bool).

Definition wal_of (l : LM.t) : option Z := if provider then Some (LM.durable_lsn l) else None.
Definition durable : M World (option Z) := gets (fun w => wal_of (w_log w)).

(** [mutation_context(pool)]; the reference it returns is used through [in_context]. *)
Definition mutation_context (pool : Z) : M World unit :=
  let! w := get in
  match mutation_context_ (w_tx w) with
  | None => upd_tx (set_context pool MC.empty_context)
  | Some _ => throw_if (negb (bool_decide (mutation_pool_ (w_tx w) = Some pool)))
                (LogicError "a transaction cannot span buffer pools")
  end.

Definition context_state (w : World) : MC.state :=
  MC.mkState (default MC.empty_context (mutation_context_ (w_tx w))) (w_pool w, w_pages w) (w_tx w, w_log w).
Definition in_context {A} (m : M (MC.state (P := PM.t) (F := Tx * LM.t)) A) : M World A :=
  zoom context_state
    (fun s w => mkW (upd_context (MC.ms_context s) (MC.ms_fin s).1) (MC.ms_pool s).1 (MC.ms_pool s).2 (MC.ms_fin s).2) m.

Definition watch (id : PageId) : M World unit := in_context (MC.watch (fun f => wal_of f.2) id).
Definition finish (id : PageId) (i : nat) : M World unit :=
  in_context (MC.finish (Some finalize_mutation) id i).

Definition allocate_page : M World PageId :=
  let! w := get in
  let! page := (if log_sink_ (w_tx w) then on_storage (allocate_transactional_page (id_ (w_tx w)))
                else on_pages PM.allocate_page) in
  upd_tx (add_allocated page) ;;
  ret page.

(** ** Finalization and undo *)

Definition finalize_next_mutation (lsn : Z) : M World unit :=
  let! w := get in
  let t := w_tx w in
  throw_if (bool_decide (mutation_pool_ t = None) || (finalized_mutations_ t =? length (pending_mutations_ t))%nat)
    (LogicError "no captured transaction mutation to finalize") ;;
  match pending_mutations_ t !! finalized_mutations_ t with
  | None => ret tt
  | Some m => on_pool (BP.finalize_pending_mutation (mut_page m) lsn) ;; upd_tx count_finalized
  end.

Definition resolve_mutation_for_undo (index : nat) (restored : Z) : M World unit :=
  let! w := get in
  let t := w_tx w in
  throw_if (bool_decide (mutation_pool_ t = None) || (length (pending_mutations_ t) <=? index)%nat)
    (LogicError "invalid transaction mutation for undo resolution") ;;
  throw_if (default false (undo_resolved_ t !! index)) (LogicError "mutation was already resolved for undo") ;;
  throw_if (existsb negb (drop (S index) (undo_resolved_ t)))
    (LogicError "undo resolution must follow reverse mutation order") ;;
  match pending_mutations_ t !! index with
  | None => ret tt
  | Some m =>
      (if (index <? finalized_mutations_ t)%nat
       then on_pool (BP.restore_page_lsn_after_undo (mut_page m) restored)
       else on_pool (BP.resolve_pending_mutation (mut_page m) restored)) ;;
      upd_tx (mark_resolved index)
  end.

(** The body of the first loop of [rollback_for_abort]. *)
Definition undo_mutation (index : nat) : M World unit :=
  let! w := get in
  let t := w_tx w in
  if default false (undo_resolved_ t !! index) then ret tt
  else
    throw_if (bool_decide (mutation_pool_ t = None)) (LogicError "transaction mutation has no buffer pool") ;;
    match pending_mutations_ t !! index with
    | None => ret tt
    | Some m =>
        on_pool (MC.apply_before_image (wal_of (w_log w)) m) ;;
        resolve_mutation_for_undo index (mut_previous_lsn m)
    end.

(** The body of the second loop. *)
Definition release_page (page : PageId) : M World unit :=
  let! w := get in
  if PM.is_page_allocated (w_pages w) page then on_pages (PM.deallocate_page page) else ret tt.

Definition rollback_for_abort : M World unit :=
  let! w := get in
  throw_if (has_unfinished_capture (w_tx w)) (LogicError "cannot abort unfinished physical mutation capture") ;;
  for_each (rev (seq 0 (length (pending_mutations_ (w_tx w))))) undo_mutation ;;
  let! w := get in
  if allocation_manager_ (w_tx w) then for_each (rev (allocated_pages_ (w_tx w))) release_page else ret tt.

(** ** The log manager as durability participant *)

Definition prepare_commit : M World unit :=
  let! w := get in
  throw_if (has_unfinalized_mutations (w_tx w)) (WalError "cannot commit transaction with unlogged mutations") ;;
  on_log (LM.append_commit (id_ (w_tx w))) ;;
  on_log LM.flush.

Definition prepare_abort : M World unit :=
  rollback_for_abort ;;
  let! w := get in
  throw_if (has_unresolved_mutations_for_abort (w_tx w))
    (WalError "cannot abort transaction with unresolved physical mutations") ;;
  on_log (LM.append_abort (id_ (w_tx w))) ;;
  on_log LM.flush.

(** ** [TransactionCoordinator] *)

(** The participant is absent or the log manager. *)
Context (participant : bool).

Record System : Type := mkSystem { sys_locks : LK.t; sys_world : World }.

Definition on_world {A} (m : M World A) : M System A :=
  zoom sys_world (fun w s => mkSystem (sys_locks s) w) m.
Definition upd_locks (f : LK.t -> LK.t) : M System unit :=
  modify (fun s => mkSystem (f (sys_locks s)) (sys_world s)).
Definition tx_state (s : System) : LK.TransactionState := LK.state (sys_locks s) (id_ (w_tx (sys_world s))).

Definition commit : M System unit :=
  let! s := get in
  if LK.terminal (tx_state s) then ret tt
  else
    (if participant then on_world prepare_commit else ret tt) ;;
    let! s := get in
    throw_if (has_unfinalized_mutations (w_tx (sys_world s)))
      (LogicError "cannot commit transaction with unfinalized physical mutations") ;;
    upd_locks (LK.commit (id_ (w_tx (sys_world s)))).

Definition abort : M System unit :=
  let! s := get in
  if LK.terminal (tx_state s) then ret tt
  else
    (if participant then on_world prepare_abort else ret tt) ;;
    let! s := get in
    throw_if (has_unresolved_mutations_for_abort (w_tx (sys_world s)))
      (LogicError "cannot abort transaction with unresolved physical mutations") ;;
    upd_locks (LK.abort (id_ (w_tx (sys_world s)))).

(** ** A client's change of a page under a transaction

    What every writer of the engine does: pin the page, announce the change, write through the
    pointer, finish the capture while the page is pinned, and unpin it dirty. *)
Definition update_page (id : PageId) (change : bytes -> bytes) : M World unit :=
  let! w := durable in
  let! p := on_pool (BP.fetch_page w id) in
  match p with
  | None => throw (RuntimeError "cannot pin page")
  | Some i =>
      watch id ;;
      on_pool (BP.write_frame i (fun pg => set_data (change (page_data pg)) pg)) ;;
      finish id i ;;
      let! ok := on_pool (BP.unpin_page id true) in
      throw_if (negb ok) (RuntimeError "buffer-pool unpin failed")
  end.

(** ** Rollback *)

#[local] Opaque PM.stored_page PM.is_page_allocated PM.deallocate_page.

Abbreviation wx w := (w_pool w, w_pages w).

(** The page as it was before a mutation. *)
Definition undo_one (m : PhysicalMutation) (v : PageId -> option Page) (j : PageId) : option Page :=
  if decide (j = mut_page m)
  then (fun pg => mkPage (page_id pg) (mut_previous_lsn m) (mut_before m)) <$> v j else v j.

(** Pages with the mutations undone, the last one first. *)
Definition restored (ms : list PhysicalMutation) (v : PageId -> option Page) : PageId -> option Page :=
  foldr undo_one v ms.

Record mutation_ok (m : PhysicalMutation) : Prop := {
  mo_page : is_u64 (mut_page m);
  mo_size : zlen (mut_before m) = kPagePayloadSize;
  mo_bytes : Forall is_byte (mut_before m);
  mo_lsn : is_u64 (mut_previous_lsn m);
}.

(** A logged transaction of which the first [k] mutations are not undone yet. *)
Record undoable (k : nat) (w : World) : Prop := {
  un_pool : BP.pool_inv None (wx w);
  un_pending : BP.no_pending (w_pool w);
  un_bound : mutation_pool_ (w_tx w) <> None;
  un_finalized : finalized_mutations_ (w_tx w) = length (pending_mutations_ (w_tx w));
  un_resolved : undo_resolved_ (w_tx w) =
    replicate k false ++ replicate (length (pending_mutations_ (w_tx w)) - k) true;
  un_bound_k : (k <= length (pending_mutations_ (w_tx w)))%nat;
  un_mutations : Forall mutation_ok (pending_mutations_ (w_tx w));
  un_allocated : Forall is_u64 (allocated_pages_ (w_tx w));
}.

Lemma undo_one_ext m v v' j : (forall j, v j = v' j) -> undo_one m v j = undo_one m v' j.
Proof. intros Hv. unfold undo_one. by rewrite Hv. Qed.

Lemma restored_ext ms v v' j : (forall j, v j = v' j) -> restored ms v j = restored ms v' j.
Proof.
  intros Hv. revert j. induction ms as [|m ms IH]; intros j; [apply Hv|]. by apply undo_one_ext.
Qed.

Lemma existsb_replicate_true n : existsb negb (replicate n true) = false.
Proof. by induction n. Qed.

Lemma existsb_all_resolved n :
  existsb (fun i => negb (default false (replicate n true !! i))) (seq 0 n) = false.
Proof.
  apply not_true_iff_false. intros (i & Hi & Hx)%existsb_exists. apply in_seq in Hi.
  by rewrite lookup_replicate_2 in Hx by lia.
Qed.

Lemma undo_mutation_spec k m w :
  undoable (S k) w -> pending_mutations_ (w_tx w) !! k = Some m ->
  wp (undo_mutation k) w (fun r w' =>
    w_log w' = w_log w /\ PM.is_page_allocated (w_pages w') = PM.is_page_allocated (w_pages w) /\
    (PM.pm_healthy (w_pages w) -> PM.pm_healthy (w_pages w')) /\
    (forall j, BP.pins (w_pool w') j = BP.pins (w_pool w) j) /\
    match r with
    | Ok _ => undoable k w' /\ w_tx w' = mark_resolved k (w_tx w) /\
        forall j, BP.view (wx w') j = undo_one m (BP.view (wx w)) j
    | Throw _ => undoable (S k) w' /\ w_tx w' = w_tx w /\ forall j, BP.view (wx w') j = BP.view (wx w) j
    end /\
    (MC.resident (wx w) (mut_page m) -> r = Ok tt /\ BP.page_table_ (w_pool w') = BP.page_table_ (w_pool w))).
Proof.
  intros [Hinv Hnp Hb Hfin Hres Hk Hms Hpgs] Hm.
  pose proof (proj1 (list.Forall_lookup _ _) Hms k m Hm) as [Hid Hsz Hby Hlsn].
  assert (undo_resolved_ (w_tx w) !! k = Some false) as Hr0.
  { rewrite Hres, lookup_app_l, lookup_replicate_2 by (rewrite ?length_replicate; lia). done. }
  assert (existsb negb (drop (S k) (undo_resolved_ (w_tx w))) = false) as Hlater.
  { rewrite Hres, drop_app_length' by (by rewrite length_replicate). apply existsb_replicate_true. }
  unfold undo_mutation. wp_step. wp_step. rewrite Hr0. cbn [default id]. wp_step.
  rewrite bool_decide_false by done. wp_step; [done|]. rewrite Hm. wp_step. apply wp_zoom.
  eapply wp_mono.
  { apply wp_and; [by apply (MC.apply_spec _ (wx w) m)|by apply MC.apply_pending]. }
  cbn beta. intros r [s1 p1] [(Hinv1 & Hp1 & Ha1 & Hh1 & Hr & Hlive) Hnp1].
  cbn [fst snd w_tx w_pool w_pages w_log] in *. destruct r as [u|e].
  2:{ split_and!; try done. intros Hx. by destruct (Hlive Hsz Hx). }
  destruct Hr as (pg & i & Hv & Hv1 & Hi & Hd). unfold resolve_mutation_for_undo, on_pool, upd_tx.
  wp_step. wp_step. cbn [w_tx]. rewrite bool_decide_false by done. cbn [orb].
  replace (length (pending_mutations_ (w_tx w)) <=? k)%nat with false by (symmetry; apply Nat.leb_gt; lia).
  wp_step. wp_step; [done|]. rewrite Hr0. wp_step. wp_step; [done|].
  wp_step. rewrite Hlater. wp_step; [done|]. rewrite Hm. wp_step.
  replace (k <? finalized_mutations_ (w_tx w))%nat with true by (symmetry; apply Nat.ltb_lt; lia).
  wp_step. cbn [w_pool w_pages]. wp_use MC.restore_spec; try done.
  intros r2 [s2 p2] (-> & Hinv2 & Hnp2 & Hp2 & Hv2 & Hs2 & Ht2). cbn [fst snd] in *. subst p2. wp_step.
  cbn [w_log w_pages w_pool w_tx fst snd]. split_and!; try done.
  - intros j. by rewrite Hp2, Hp1.
  - split; cbn [w_tx w_pool w_pages pending_mutations_ undo_resolved_ finalized_mutations_ mutation_pool_ mark_resolved set_resolved];
      try done; [|lia].
    rewrite Hres, insert_app_l by (rewrite length_replicate; lia).
    replace (S k) with (k + 1)%nat by lia. rewrite replicate_add, insert_app_r_alt by (rewrite length_replicate; lia).
    rewrite length_replicate, Nat.sub_diag, <- app_assoc. f_equal. simpl.
    by replace (length (pending_mutations_ (w_tx w)) - k)%nat
      with (S (length (pending_mutations_ (w_tx w)) - (k + 1)))%nat by lia.
  - intros j. rewrite Hv2, Hv1. unfold undo_one.
    case_decide as Hj; [|done]. subst j. by rewrite Hv.
  - intros Hx. split; [done|]. rewrite Ht2. by apply Hlive.
Qed.

(** What undoing mutations keeps, whatever it returns. *)
Record undoing (w w' : World) : Prop := {
  ug_tx : w_tx w' = set_resolved (undo_resolved_ (w_tx w')) (w_tx w);
  ug_log : w_log w' = w_log w;
  ug_allocated : PM.is_page_allocated (w_pages w') = PM.is_page_allocated (w_pages w);
  ug_healthy : PM.pm_healthy (w_pages w) -> PM.pm_healthy (w_pages w');
  ug_pins : forall j, BP.pins (w_pool w') j = BP.pins (w_pool w) j;
}.

Lemma undoing_refl w : undoing w w.
Proof. split; try done. by destruct (w_tx w). Qed.

Lemma undoing_trans w w1 w2 : undoing w w1 -> undoing w1 w2 -> undoing w w2.
Proof.
  intros [] []. split; try congruence; auto. rewrite ug_tx1. by rewrite ug_tx0.
Qed.

Lemma resident_same w w' id :
  undoing w w' -> BP.page_table_ (w_pool w') = BP.page_table_ (w_pool w) ->
  MC.resident (wx w) id -> MC.resident (wx w') id.
Proof.
  intros [_ _ Ha _ Hp] Ht (Hv & Hal & i & Hi & Hlt). split_and!; [done|by cbn; rewrite Ha|].
  exists i. cbn [fst] in *. split; [by rewrite Ht|].
  specialize (Hp id). rewrite !(BP.pins_table _ _ i) in Hp by (by rewrite ?Ht). lia.
Qed.

(** The undo loop: whatever happens, the mutations marked as resolved are exactly the ones
    undone, so that a rollback can be repeated. *)
Lemma undo_loop_spec k w :
  undoable k w ->
  wp (for_each (rev (seq 0 k)) undo_mutation) w (fun r w' =>
    undoing w w' /\
    (exists k', (k' <= k)%nat /\ undoable k' w' /\ (r = Ok tt -> k' = 0%nat) /\
       forall j, BP.view (wx w') j = restored (drop k' (take k (pending_mutations_ (w_tx w)))) (BP.view (wx w)) j) /\
    (Forall (fun m => MC.resident (wx w) (mut_page m)) (take k (pending_mutations_ (w_tx w))) ->
       r = Ok tt /\ BP.page_table_ (w_pool w') = BP.page_table_ (w_pool w))).
Proof.
  revert w. induction k as [|k IH]; intros w Hun.
  { cbn. apply wp_ret. split_and!; [apply undoing_refl| |done]. exists 0%nat. by split_and!. }
  rewrite seq_S, rev_app_distr. cbn [rev app for_each]. rewrite Nat.add_0_l.
  destruct (lookup_lt_is_Some_2 (pending_mutations_ (w_tx w)) k) as [m Hm]; [apply Hun|].
  pose proof (take_S_r _ _ m Hm) as Htk. wp_step.
  wp_use undo_mutation_spec; [done|done|]. intros [[]|e] w1 (Hlog & Hal & Hh & Hp & Hr & Hlive).
  - destruct Hr as (Hun1 & Htx & Hv1).
    assert (undoing w w1) as Hug by (split; try done; by rewrite Htx).
    assert (pending_mutations_ (w_tx w1) = pending_mutations_ (w_tx w)) as Hms by by rewrite Htx.
    wp_use (IH w1 Hun1). intros r w2 (Hug2 & (k' & Hk' & Hun2 & Hok & Hv2) & Hlive2). rewrite Hms in *. rewrite Htk. split_and!.
    + by eapply undoing_trans.
    + exists k'. split_and!; [lia|done|done|]. intros j. rewrite Hv2.
      rewrite drop_app_le by (rewrite length_take; destruct Hun; lia).
      unfold restored at 2. rewrite foldr_app. by apply restored_ext.
    + intros [Hf Hm1]%Forall_app. rewrite Forall_singleton in Hm1. destruct (Hlive Hm1) as [_ Ht1]. destruct Hlive2 as [-> Ht2]; [|by rewrite Ht2].
      eapply list.Forall_impl; [exact Hf|]. intros m' Hx. by eapply resident_same.
  - destruct Hr as (Hun1 & Htx & Hv1). rewrite Htk. split_and!.
    + split; try done. rewrite Htx. by destruct (w_tx w).
    + exists (S k). split_and!; [lia|done|done|]. intros j. rewrite drop_ge; [apply Hv1|].
      rewrite length_app, length_take. simpl. lia.
    + intros [_ Hm1]%Forall_app. rewrite Forall_singleton in Hm1. by destruct (Hlive Hm1).
Qed.

(** Releasing pages touches only the allocation catalog. *)
Record releasing (w w' : World) : Prop := {
  rl_tx : w_tx w' = w_tx w;
  rl_pool : w_pool w' = w_pool w;
  rl_log : w_log w' = w_log w;
  rl_ok : PM.pm_ok (w_pages w) -> PM.pm_ok (w_pages w');
  rl_stored : forall j, PM.stored_page (w_pages w') j = PM.stored_page (w_pages w) j;
  rl_healthy : PM.pm_healthy (w_pages w) -> PM.pm_healthy (w_pages w');
}.

Lemma release_loop_spec l w :
  PM.pm_ok (w_pages w) -> Forall is_u64 l ->
  wp (for_each l release_page) w (fun r w' =>
    releasing w w' /\ PM.pm_ok (w_pages w') /\
    (r = Ok tt -> forall j, 0 <= j -> PM.is_page_allocated (w_pages w') j =
       if decide (j ∈ l) then false else PM.is_page_allocated (w_pages w) j) /\
    (PM.pm_healthy (w_pages w) -> r = Ok tt)).
Proof.
  revert w. induction l as [|page l IH]; intros w Hok Hl.
  { cbn. apply wp_ret. by split_and!. }
  apply list.Forall_cons in Hl as [Hp Hl]. cbn [for_each]. unfold release_page at 1, on_pages. wp_step. wp_step. wp_step.
  destruct (PM.is_page_allocated (w_pages w) page) eqn:Hal.
  - wp_step. wp_use PM.deallocate_spec; [done|done|].
    intros [[]|e] p1 (Hok1 & _ & _ & Hst & Hr & _ & Hh).
    + destruct (Hr eq_refl) as (_ & _ & Hal1). wp_use IH; [done|done|]. cbn [w_pages].
      intros r w2 ([] & Hok2 & Hr2 & Hh2). cbn [w_tx w_pool w_log w_pages] in *. split_and!.
      * constructor; [assumption..|intros _; assumption|intros j; rewrite rl_stored0; apply Hst|].
        intros Hx. apply rl_healthy0, Hh, Hx.
      * done.
      * intros Hx j Hj. rewrite Hr2, Hal1 by done. destruct (decide (j = page)) as [->|Hne].
        -- rewrite (decide_True (P := page ∈ page :: l)) by left. by case_decide.
        -- apply decide_ext. rewrite elem_of_cons. tauto.
      * intros Hx. by apply Hh2, Hh.
    + split_and!; [|done|done|].
      * constructor; [done..|intros _; exact Hok1|exact Hst|]. intros Hx. apply Hh, Hx.
      * intros Hx. by destruct (Hh Hx) as [_ ?]; auto.
  - wp_step. wp_use IH; [done|done|]. intros r w2 (Hrel & Hok2 & Hr2 & Hh2).
    split_and!; [exact Hrel|exact Hok2| |exact Hh2].
    intros Hx j Hj. rewrite Hr2 by done. destruct (decide (j = page)) as [->|Hne].
    + rewrite Hal. by repeat case_decide.
    + apply decide_ext. set_solver.
Qed.

Lemma releasing_view w w' j : releasing w w' -> BP.view (wx w') j = BP.view (wx w) j.
Proof. intros []. unfold BP.view. cbn. rewrite rl_pool0. destruct (BP.page_table_ (w_pool w) !! j); [done|apply rl_stored0]. Qed.

Lemma releasing_undoable k w w' : undoable k w -> releasing w w' -> PM.pm_ok (w_pages w') -> undoable k w'.
Proof.
  intros [[Hwf Hc Hs]] [] Hok. split; rewrite ?rl_tx0, ?rl_pool0; try fast_done.
  split; [exact Hwf| |exact Hok]. cbn [fst snd] in *. intros i f Hi Ho Hz Hd. rewrite rl_stored0. eauto.
Qed.

(** The loop passes over mutations that are resolved already. *)
Lemma undo_skip k w l :
  undoable k w -> (forall i, i ∈ l -> (k <= i < length (pending_mutations_ (w_tx w)))%nat) ->
  for_each l undo_mutation w = (Ok tt, w).
Proof.
  intros [_ _ _ _ Hres Hk _ _] Hl. induction l as [|i l IH]; [done|].
  cbn [for_each]. etrans; [apply (bind_run_ok _ _ w tt w)|].
  - destruct (Hl i) as [H1 H2]; [left|]. unfold undo_mutation, get, bind.
    rewrite Hres, lookup_app_r, lookup_replicate_2 by (rewrite ?length_replicate; lia). done.
  - apply IH. intros j Hj. apply Hl. by right.
Qed.

Lemma rollback_spec k w :
  undoable k w ->
  wp rollback_for_abort w (fun r w' =>
    w_tx w' = set_resolved (undo_resolved_ (w_tx w')) (w_tx w) /\ w_log w' = w_log w /\
    (forall j, BP.pins (w_pool w') j = BP.pins (w_pool w) j) /\
    (exists k', (k' <= k)%nat /\ undoable k' w' /\ (r = Ok tt -> k' = 0%nat) /\
       forall j, BP.view (wx w') j = restored (drop k' (take k (pending_mutations_ (w_tx w)))) (BP.view (wx w)) j) /\
    (r = Ok tt -> has_unfinished_capture (w_tx w) = false /\
       forall j, 0 <= j -> PM.is_page_allocated (w_pages w') j =
         if decide (allocation_manager_ (w_tx w) = true /\ j ∈ allocated_pages_ (w_tx w)) then false
         else PM.is_page_allocated (w_pages w) j) /\
    (has_unfinished_capture (w_tx w) = false -> PM.pm_healthy (w_pages w) ->
     Forall (fun m => MC.resident (wx w) (mut_page m)) (take k (pending_mutations_ (w_tx w))) -> r = Ok tt)).
Proof.
  intros Hun. unfold rollback_for_abort. wp_step. wp_step. wp_step. wp_step.
  { split_and!; try done; [by destruct (w_tx w)| |].
    - exists k. split_and!; [done|done|done|]. intros j. rewrite drop_ge; [done|]. rewrite length_take. lia.
    - congruence. }
  replace (length (pending_mutations_ (w_tx w))) with (k + (length (pending_mutations_ (w_tx w)) - k))%nat
    by (destruct Hun; lia).
  rewrite seq_app, rev_app_distr, Nat.add_0_l. wp_step.
  eapply wp_eq; [rewrite for_each_app; eapply bind_run_ok, (undo_skip k); [done|]|].
  { intros i Hi. apply list_elem_of_In, in_rev in Hi. rewrite <- list_elem_of_In, elem_of_seq in Hi. destruct Hun; lia. }
  wp_use undo_loop_spec; [done|]. intros r w1 (Hug & (k' & Hk' & Hun1 & Hz & Hv1) & Hlive). destruct r as [[]|e].
  2:{ split_and!; try apply Hug; try done; [by exists k'|]. intros _ _ Hf. by destruct (Hlive Hf). }
  rewrite (Hz eq_refl) in *. wp_step. wp_step. rewrite (ug_tx _ _ Hug).
  cbn [allocation_manager_ allocated_pages_ set_resolved].
  destruct (allocation_manager_ (w_tx w)).
  - wp_use release_loop_spec; [apply Hun1|apply Forall_rev, Hun|].
    intros r w2 (Hrel & Hok2 & Hr2 & Hh2). pose proof Hrel as [Htx Hpl Hlg _ _ _].
    split_and!; [rewrite Htx; apply Hug|rewrite Hlg; apply Hug|rewrite Hpl; apply Hug|..].
    + exists 0%nat. split_and!; [lia|by eapply releasing_undoable|done|]. intros j. by rewrite (releasing_view w1).
    + intros Hx. split; [done|]. intros j Hj. rewrite Hr2, (ug_allocated _ _ Hug) by done.
      apply decide_ext. rewrite !list_elem_of_In, <- in_rev. tauto.
    + intros _ Hh _. apply Hh2. by apply Hug.
  - wp_step. split_and!; try apply Hug; try done; [by exists 0%nat|]. intros _. split; [done|].
    intros j _. rewrite (ug_allocated _ _ Hug). case_decide; naive_solver.
Qed.

(** ** Captured changes *)

(** The transaction works on the pool through its context, and has no capture open. *)
Record capturing (w : World) : Prop := {
  cp_undoable : undoable (length (pending_mutations_ (w_tx w))) w;
  cp_sink : log_sink_ (w_tx w) = true;
  cp_context : exists c, mutation_context_ (w_tx w) = Some c /\ MC.pending_ c = [];
  cp_present : Forall (fun m => is_Some (BP.view (wx w) (mut_page m))) (pending_mutations_ (w_tx w));
}.

Definition payload_change (change : bytes -> bytes) : Prop :=
  forall d, zlen d = kPagePayloadSize -> Forall is_byte d ->
    zlen (change d) = kPagePayloadSize /\ Forall is_byte (change d).

Lemma watch_spec id w c :
  BP.pool_inv None (wx w) -> BP.no_pending (w_pool w) -> is_u64 id -> mutation_context_ (w_tx w) = Some c ->
  wp (watch id) w (fun r w' => exists x c', w' = mkW (upd_context c' (w_tx w)) x.1 x.2 (w_log w) /\
    BP.pool_inv None x /\ BP.no_pending x.1 /\ BP.quiet (wx w) x /\
    match r with
    | Ok _ => exists pg, BP.view (wx w) id = Some pg /\
        c' = MC.set_pending (MC.pending_ c ++ [MC.mkPending id (page_data pg) (page_lsn pg)]) c
    | Throw _ => c' = c
    end).
Proof.
  intros Hinv Hnp Hid Hc. unfold watch, in_context, MC.watch, MC.durable, MC.on_pool, MC.on_context. wp_step.
  unfold context_state. rewrite Hc. cbn [default Datatypes.id]. wp_step. wp_step; cbn [MC.ms_context MC.ms_fin MC.ms_pool fst snd].
  { by exists (wx w), c. }
  do 4 wp_step. cbn [MC.ms_pool MC.ms_fin snd]. eapply wp_mono.
  { apply wp_and; [by apply (MC.image_spec _ (wx w))|by apply MC.image_pending]. }
  cbn beta. intros [[d l]|e] x [(Hinv1 & Hq & Hr) Hnp1].
  - wp_steps. cbn [MC.ms_context MC.ms_fin MC.ms_pool fst snd].
    destruct (Hr d l eq_refl) as (pg & Hv & -> & ->). eexists x, _. split_and!; eauto.
  - cbn [MC.ms_context MC.ms_fin MC.ms_pool fst snd]. by exists x, c.
Qed.

(** Log sequence numbers stay 64-bit values, whatever fails. *)
Lemma append_u64 ty tx payload lm :
  is_u64 (LM.next_lsn_ lm) ->
  wp (LM.append ty tx payload) lm (fun r lm' =>
    is_u64 (LM.next_lsn_ lm') /\ forall lsn, r = Ok lsn -> is_u64 lsn).
Proof.
  intros Hn. unfold LM.append, LM.on_file, LM.require_good.
  assert (is_u64 (to_u64 (LM.next_lsn_ lm + 1))) by (apply Z.mod_pos_bound; done).
  do 6 wp_step. destruct (encode _) as [enc|e]; [|by split]. wp_steps; try (by split).
  split; [done|]. by intros ? [= <-].
Qed.

Lemma flush_u64 lm : is_u64 (LM.next_lsn_ lm) -> wp LM.flush lm (fun _ lm' => is_u64 (LM.next_lsn_ lm')).
Proof. intros Hn. unfold LM.flush, LM.on_file, LM.require_good. by wp_steps. Qed.

Lemma log_mutation_spec tx m lm :
  is_u64 (LM.next_lsn_ lm) ->
  wp (LM.log_physical_mutation tx m) lm (fun r lm' =>
    is_u64 (LM.next_lsn_ lm') /\ forall lsn, r = Ok lsn -> is_u64 lsn).
Proof.
  intros Hn. unfold LM.log_physical_mutation, LM.append_physical_mutation.
  wp_step. wp_step. destruct (encode_physical_mutation m) as [payload|e]; [|by split]. by apply append_u64.
Qed.

(** The page in frame [i] with another PageLSN. *)
Abbreviation stamped i lsn := (BP.upd_frame i (fun f => BP.set_page (set_lsn lsn (BP.fr_page f)) f)).

Lemma finish_spec id i w c before prev :
  let pg := BP.fr_page (BP.frame (w_pool w) i) in
  mutation_context_ (w_tx w) = Some c -> MC.pending_ c = [MC.mkPending id before prev] ->
  page_id pg = id -> log_sink_ (w_tx w) = true -> is_u64 (LM.next_lsn_ (w_log w)) ->
  wp (finish id i) w (fun r w' => is_u64 (LM.next_lsn_ (w_log w')) /\
    match r with
    | Ok _ => exists c', MC.pending_ c' = [] /\
        (page_data pg = before /\ w' = mkW (upd_context c' (w_tx w)) (w_pool w) (w_pages w) (w_log w) \/
         exists lsn m log', is_u64 lsn /\ mut_page m = id /\ mut_before m = before /\ mut_previous_lsn m = prev /\
           mut_after m = page_data pg /\ LM.log_physical_mutation (id_ (w_tx w)) m (w_log w) = (Ok lsn, log') /\
           w' = mkW (upd_context c' (count_finalized (push_mutation m (w_tx w))))
                  (stamped i lsn (w_pool w)) (w_pages w) log')
    | Throw _ => has_unfinished_capture (w_tx w') = true
    end).
Proof.
  intros pg Hc Hpd Hpid Hsink Hn. unfold finish, in_context, MC.finish, MC.capture, MC.on_context, MC.on_pool, MC.on_fin.
  wp_step. match goal with |- wp _ _ ?Q => set (Post := Q) end.
  unfold context_state. rewrite Hc. cbn [default Datatypes.id]. do 3 wp_step. cbn [MC.ms_pool fst snd]. fold pg.
  rewrite Hpid, Z.eqb_refl. wp_step; [done|]. wp_step. wp_step. cbn [MC.ms_context].
  unfold MC.find_pending. rewrite Hpd. cbn [list_find]. rewrite decide_True by done. wp_step.
  cbn [MC.pd_before MC.pd_previous_lsn MC.ms_pool fst]. fold pg. case_bool_decide as Heq.
  - wp_steps. cbn [MC.ms_context MC.ms_fin MC.ms_pool fst snd w_log]. split; [done|].
    eexists. split; [|by left]. simpl. by rewrite Hpd.
  - do 5 wp_step. cbn [negb]. wp_step; [done|]. wp_step. wp_step. unfold finalize_mutation.
    cbn [MC.ms_fin MC.ms_context MC.ms_pool fst snd]. do 4 wp_step. cbn [fst log_sink_ push_mutation]. rewrite Hsink.
    wp_step. wp_step. cbn [snd]. apply wp_intro. intros rl lm' Hlog.
    pose proof (wp_elim _ _ _ _ _ (log_mutation_spec _ _ _ Hn) Hlog) as [Hn' Hl]. destruct rl as [lsn|e].
    + unfold BP.write_frame, BP.on_pool. wp_steps; cbn [fst snd]; unfold Post; cbn -[BP.upd_frame]; rewrite ?Hpd;
        try (split; [exact Hn'|reflexivity]).
      split; [exact Hn'|]. eexists. split; [|right; eexists lsn, _, lm'; split_and!; [by apply Hl|..|exact Hlog|reflexivity]]; done.
    + unfold Post. cbn. rewrite Hpd. by split.
Qed.

Lemma upd_context_same c t : mutation_context_ t = Some c -> upd_context c t = t.
Proof. destruct t. simpl. by intros ->. Qed.

Lemma undoable_pool k w c s p l :
  undoable k w -> BP.pool_inv None (s, p) -> BP.no_pending s -> undoable k (mkW (upd_context c (w_tx w)) s p l).
Proof. intros [] Hinv Hnp. by split. Qed.

Lemma undoable_push w m c s p l :
  undoable (length (pending_mutations_ (w_tx w))) w -> BP.pool_inv None (s, p) -> BP.no_pending s -> mutation_ok m ->
  let t := upd_context c (count_finalized (push_mutation m (w_tx w))) in
  undoable (length (pending_mutations_ t)) (mkW t s p l).
Proof.
  intros [_ _ Hb Hf Hr _ Hm Ha] Hinv Hnp Hmo. split; cbn; try fast_done.
  - rewrite length_app. simpl. lia.
  - rewrite Nat.sub_diag in *. rewrite Hr, !app_nil_r, length_app. symmetry. apply (replicate_add _ 1).
  - by apply Forall_app_2, list.Forall_singleton.
Qed.

(** Undoing the mutation gives the page back that was changed. *)
Lemma restored_push ms m v v' pg j :
  v (mut_page m) = Some pg -> mut_before m = page_data pg -> mut_previous_lsn m = page_lsn pg ->
  (exists pg', v' (mut_page m) = Some pg' /\ page_id pg' = page_id pg) ->
  (forall j, j <> mut_page m -> v' j = v j) ->
  restored (ms ++ [m]) v' j = restored ms v j.
Proof.
  intros Hv Hb Hl (pg' & Hv' & Hid) Hoth. unfold restored. rewrite foldr_app. apply restored_ext. intros k.
  cbn. unfold undo_one. case_decide as Hd; [|by apply Hoth]. subst k.
  rewrite Hv', Hv, Hb, Hl. cbn. rewrite Hid. by destruct pg.
Qed.

(** The end of [update_page]: the page is unpinned and everything else stays. *)
Lemma unpin_dirty_spec id w :
  BP.pool_inv None (wx w) -> BP.no_pending (w_pool w) -> 0 < BP.pins (w_pool w) id ->
  wp (let! ok := on_pool (BP.unpin_page id true) in throw_if (negb ok) (RuntimeError "buffer-pool unpin failed")) w
    (fun r w' => r = Ok tt /\ exists s, w' = mkW (w_tx w) s (w_pages w) (w_log w) /\
       BP.pool_inv None (s, w_pages w) /\ BP.no_pending s /\
       (forall j, BP.view (s, w_pages w) j = BP.view (wx w) j) /\
       BP.pins s id = BP.pins (w_pool w) id - 1 /\ (forall j, j <> id -> BP.pins s j = BP.pins (w_pool w) j)).
Proof.
  intros Hinv Hnp Hp. unfold on_pool. wp_step. wp_step. eapply wp_mono.
  { apply wp_and; [apply (BP.unpin_page_spec (wx w) id true); [done|by left]|by apply BP.unpin_page_pending]. }
  cbn beta. intros r [s p] [(Hinv1 & (Hv & _ & Hs) & _ & -> & Hp1 & Hpo & _) Hnp1]. cbn [fst snd] in *. subst p.
  replace (0 <? BP.pins (w_pool w) id) with true in * by lia.
  wp_step; [done|]. split; [done|]. by exists s.
Qed.

(** A change of a page keeps what undoing the transaction restores; only a capture that failed
    half way leaves the transaction unable to be undone. *)
Definition keeps_undo (w w' : World) : Prop :=
  capturing w' /\ forall j, restored (pending_mutations_ (w_tx w')) (BP.view (wx w')) j =
                            restored (pending_mutations_ (w_tx w)) (BP.view (wx w)) j.

Lemma keeps_undo_pool w w' :
  capturing w -> w_tx w' = w_tx w -> BP.pool_inv None (wx w') -> BP.no_pending (w_pool w') ->
  (forall j, BP.view (wx w') j = BP.view (wx w) j) -> keeps_undo w w'.
Proof.
  intros [Hun Hs (c & Hc & Hp) Hpr] Htx Hinv Hnp Hv. split.
  - split; rewrite Htx; [|done|by exists c|by eapply list.Forall_impl; [exact Hpr|]; intros m; rewrite Hv].
    destruct w' as [t s p l]. cbn in Htx. subst t.
    rewrite <- (upd_context_same c (w_tx w) Hc) at 2. by apply undoable_pool.
  - rewrite Htx. intros j. by apply restored_ext.
Qed.

(** What a change of a page that returns has done: nothing where the payload stays the same, or it
    has logged the change, recorded it in the transaction and put it into the page under its LSN. *)
Definition page_effect (id : PageId) (change : bytes -> bytes) (w w' : World) : Prop :=
  id_ (w_tx w') = id_ (w_tx w) /\
  exists pg, BP.view (wx w) id = Some pg /\
   (change (page_data pg) = page_data pg /\ w_log w' = w_log w /\
      pending_mutations_ (w_tx w') = pending_mutations_ (w_tx w) /\ (forall j, BP.view (wx w') j = BP.view (wx w) j) \/
    exists m lsn, mut_page m = id /\ mut_before m = page_data pg /\ mut_after m = change (page_data pg) /\
      mut_previous_lsn m = page_lsn pg /\
      LM.log_physical_mutation (id_ (w_tx w)) m (w_log w) = (Ok lsn, w_log w') /\
      pending_mutations_ (w_tx w') = pending_mutations_ (w_tx w) ++ [m] /\
      forall j, BP.view (wx w') j = if decide (j = id) then Some (mkPage (page_id pg) lsn (change (page_data pg)))
                                    else BP.view (wx w) j).

Lemma page_effect_pool id change w w1 w' :
  id_ (w_tx w1) = id_ (w_tx w) -> pending_mutations_ (w_tx w1) = pending_mutations_ (w_tx w) ->
  w_log w1 = w_log w -> (forall j, BP.view (wx w1) j = BP.view (wx w) j) ->
  page_effect id change w1 w' -> page_effect id change w w'.
Proof.
  intros Ht Hp Hl Hv [Hid (pg & Hpg & Hc)]. rewrite Ht, Hp, Hl in *. split; [done|]. exists pg. rewrite <- Hv. split; [done|].
  destruct Hc as [(H1 & H2 & H3 & H4)|(m & lsn & H1 & H2 & H3 & H4 & H5 & H6 & H7)].
  - left. split_and!; [done..|]. intros j. by rewrite <- Hv.
  - right. exists m, lsn. split_and!; [done..|]. intros j. by rewrite <- Hv.
Qed.

(** From the write on: the page is pinned in frame [i] and its image is taken. *)
Lemma change_spec id i change w c pg :
  undoable (length (pending_mutations_ (w_tx w))) w -> log_sink_ (w_tx w) = true ->
  Forall (fun m => is_Some (BP.view (wx w) (mut_page m))) (pending_mutations_ (w_tx w)) ->
  mutation_context_ (w_tx w) = Some c -> MC.pending_ c = [MC.mkPending id (page_data pg) (page_lsn pg)] ->
  BP.view (wx w) id = Some pg -> BP.page_table_ (w_pool w) !! id = Some i -> 0 < BP.pins (w_pool w) id ->
  payload_change change -> is_u64 (LM.next_lsn_ (w_log w)) ->
  wp (on_pool (BP.write_frame i (fun pg => set_data (change (page_data pg)) pg)) ;; finish id i ;;
      let! ok := on_pool (BP.unpin_page id true) in throw_if (negb ok) (RuntimeError "buffer-pool unpin failed")) w
    (fun r w' => is_u64 (LM.next_lsn_ (w_log w')) /\
      match r with
      | Ok _ => keeps_undo w w' /\ page_effect id change w w' /\ BP.pins (w_pool w') id = BP.pins (w_pool w) id - 1 /\
          forall j, j <> id -> BP.pins (w_pool w') j = BP.pins (w_pool w) j
      | Throw _ => has_unfinished_capture (w_tx w') = true
      end).
Proof.
  intros Hun Hsink Hpres Hc Hpd Hv Hi Hpin Hch Hn. pose proof Hun as [Hinv Hnp _ _ _ _ _ _].
  match goal with |- wp _ _ ?Q => set (Post := Q) end.
  destruct (BP.table_frame _ _ _ _ (BP.pi_wf _ _ Hinv) Hi) as (Hfr & Ho & Hpid). cbn [fst snd] in *.
  pose proof (BP.wf_frames _ _ (BP.pi_wf _ _ Hinv) _ _ Hfr) as [Hf1 Hf2 Hpwf].
  assert (BP.fr_page (BP.frame (w_pool w) i) = pg) as Hpg.
  { rewrite (BP.view_cached (wx w) id i Hi) in Hv. by simplify_eq. }
  rewrite Hpg in *. pose proof Hpwf as [Hw1 Hw2 Hw3 Hw4]. destruct (Hch _ Hw3 Hw4) as [Hc1 Hc2].
  assert (0 < BP.fr_pin (BP.frame (w_pool w) i)) as Hfp by (rewrite <- (BP.pins_table _ _ _ Hi); done).
  unfold on_pool at 1, BP.write_frame, BP.on_pool. do 3 wp_step. cbn [fst snd w_tx w_log].
  set (g := fun fr => BP.set_page (set_data (change (page_data (BP.fr_page fr))) (BP.fr_page fr)) fr).
  destruct (BP.touch_spec (wx w) id i g) as (Hinv1 & Ht1 & Hp1 & Hv1 & Hvo1); cbn [fst snd] in *; try done.
  { split; [done|done|]. cbn. rewrite Hpg. by split. }
  { cbn. by rewrite Hpg. }
  { by right; right. }
  set (s1 := BP.upd_frame i g (w_pool w)) in *.
  assert (BP.no_pending s1) as Hnp1 by by apply BP.no_pending_upd.
  assert (BP.frame s1 i = g (BP.frame (w_pool w) i)) as Hfr1
    by (unfold s1; rewrite (BP.frame_upd _ _ _ _ _ Hfr); by rewrite decide_True).
  assert (BP.fr_page (BP.frame s1 i) = set_data (change (page_data pg)) pg) as Hpg1
    by (rewrite Hfr1; cbn; by rewrite Hpg).
  wp_step. wp_use finish_spec; [exact Hc|exact Hpd|cbn [w_pool]; by rewrite Hpg1|exact Hsink|exact Hn|].
  cbn [w_pool w_tx w_pages w_log]. intros [[]|e] w2 [Hn2 Hr]; [|by split].
  destruct Hr as (c' & Hc' & [[Hsame ->]|(lsn & m & log' & Hlsn & Hm1 & Hm2 & Hm3 & Hm4 & Hlog & ->)]).
  - wp_use unpin_dirty_spec; [exact Hinv1|exact Hnp1|by rewrite Hp1|]. cbn [w_pool w_tx w_pages w_log].
    intros r w3 (-> & s & -> & Hinv3 & Hnp3 & Hv3 & Hp3 & Hpo3). unfold Post. cbn [w_pool w_log].
    assert (forall j, BP.view (s, w_pages w) j = BP.view (wx w) j) as Hall.
    { intros j. rewrite Hv3. destruct (decide (j = id)) as [->|]; [|by apply Hvo1].
      rewrite Hv1, Hv. cbn. rewrite Hpg in *. rewrite Hpg1 in Hsame. cbn in Hsame. rewrite Hsame. by destruct pg. }
    split; [done|]. split_and!; [| |rewrite Hp3, Hp1; lia|intros j Hj; by rewrite Hpo3, Hp1].
    2:{ split; [done|]. exists pg. split; [done|]. left. split_and!; [|done..]. by rewrite Hpg1 in Hsame. }
    split.
    + split; [by apply undoable_pool|done|by exists c'|]. eapply list.Forall_impl; [exact Hpres|].
      intros m Hm. cbn [w_pool w_pages]. rewrite Hv3. destruct (decide (mut_page m = id)) as [->|];
        [by rewrite Hv1|by rewrite Hvo1].
    + intros j. by apply restored_ext.
  - destruct (BP.touch_spec (s1, w_pages w) id i (fun f => BP.set_page (set_lsn lsn (BP.fr_page f)) f))
      as (Hinv2 & Ht2 & Hp2 & Hv2 & Hvo2); cbn [fst snd] in *; rewrite ?Hfr1, ?Hpg; try done.
    { rewrite <- Hfr1. split; cbn; rewrite ?Hpg1; rewrite ?Hfr1; [done|done|by split]. }
    { cbn. by rewrite Hpg. }
    { by right; right. }
    wp_use unpin_dirty_spec; [exact Hinv2|by apply BP.no_pending_upd|cbn [w_pool]; by rewrite Hp2, Hp1|].
    cbn [w_pool w_tx w_pages w_log].
    intros r w3 (-> & s & -> & Hinv3 & Hnp3 & Hv3 & Hp3 & Hpo3). unfold Post. cbn [w_pool w_log].
    split; [done|]. split_and!; [| |rewrite Hp3, Hp2, Hp1; lia|intros j Hj; by rewrite Hpo3, Hp2, Hp1].
    2:{ split; [done|]. exists pg. split; [done|]. right. exists m, lsn. split_and!; [done|done|by rewrite Hm4, Hpg1|done..|].
        intros j. cbn [w_pool w_pages]. rewrite Hv3. case_decide as Hj; [|by rewrite Hvo2, Hvo1].
        subst j. rewrite Hv2, Hpg1. done. }
    split.
    + assert (forall k, is_Some (BP.view (wx w) k) \/ k = id -> is_Some (BP.view (s, w_pages w) k)) as Hsome.
      { intros k Hk. rewrite Hv3. destruct (decide (k = id)) as [->|]; [by rewrite Hv2|].
        rewrite Hvo2, Hvo1 by done. by destruct Hk. }
      split; [|done|by exists c'|].
      * apply undoable_push; try done. split; congruence.
      * apply Forall_app_2, list.Forall_singleton; [|by apply Hsome; right].
        eapply list.Forall_impl; [exact Hpres|]. intros m' Hm'. apply Hsome. by left.
    + intros j. apply (restored_push _ m _ _ pg); rewrite ?Hm1; try done.
      * eexists. rewrite Hv3, Hv2. split; [done|]. cbn. by rewrite Hpg1.
      * intros k Hk. by rewrite Hv3, Hvo2, Hvo1.
Qed.

Lemma update_page_spec id change w :
  capturing w -> is_u64 id -> payload_change change -> is_u64 (LM.next_lsn_ (w_log w)) ->
  wp (update_page id change) w (fun r w' =>
    is_u64 (LM.next_lsn_ (w_log w')) /\
    match r with
    | Ok _ => keeps_undo w w' /\ page_effect id change w w' /\ forall j, BP.pins (w_pool w') j = BP.pins (w_pool w) j
    | Throw _ => has_unfinished_capture (w_tx w') = true \/ keeps_undo w w'
    end).
Proof.
  intros Hcap Hid Hch Hn. pose proof Hcap as [Hun Hsink (c & Hc & Hpend) Hpres].
  pose proof Hun as [Hinv Hnp _ _ _ _ _ _]. unfold update_page, durable.
  match goal with |- wp _ _ ?Q => set (Post := Q) end. do 3 wp_step. unfold on_pool at 1. wp_step. eapply wp_mono.
  { apply wp_and; [by apply (BP.fetch_page_spec _ (wx w) id)|by apply BP.fetch_page_pending]. }
  cbn beta. intros [[i|]|e] [s1 p1] [(Hinv1 & Htr & Hr & _) Hnp1]; cbn [fst snd] in *.
  2:{ wp_step. unfold Post. split; [done|]. right. by apply keeps_undo_pool; [..|apply Htr]. }
  2:{ unfold Post. split; [done|]. right. by apply keeps_undo_pool; [..|apply Htr]. }
  destruct Hr as (_ & Hi1 & Hv1 & Hp1 & Hpo1 & _). pose proof (MC.pins_nonneg _ _ id Hinv) as Hnn. cbn [fst] in Hnn.
  wp_step. wp_use watch_spec; [done|done|done|exact Hc|]. cbn [w_tx w_pool w_pages w_log].
  intros r w2 ([s2 p2] & c2 & -> & Hinv2 & Hnp2 & Hq & Hr). cbn [fst snd] in *. destruct r as [[]|e].
  2:{ subst c2. rewrite upd_context_same by done. unfold Post. split; [done|]. right.
      apply keeps_undo_pool; try done. intros j. rewrite (BP.q_view _ _ Hq). apply Htr. }
  destruct Hr as (pg & Hvid & ->).
  assert (BP.page_table_ s2 !! id = Some i) as Hi2.
  { apply (BP.q_pinned _ _ Hq); [done|]. cbn [fst]. rewrite <- (BP.pins_table _ _ _ Hi1). lia. }
  pose proof (BP.q_view _ _ Hq) as Hqv. pose proof (BP.q_pins _ _ Hq) as Hqp. cbn [fst] in Hqp.
  wp_use change_spec; cbn [w_tx w_pool w_pages w_log]; try done.
  { by apply undoable_pool. }
  { eapply list.Forall_impl; [exact Hpres|]. intros m. rewrite Hqv, (BP.tr_view _ _ _ Htr). done. }
  { simpl. by rewrite Hpend. }
  { by rewrite Hqv. }
  { rewrite Hqp. lia. }
  intros r w3 [Hn3 Hr]. unfold Post. split; [done|]. destruct r as [u|e]; [|by left].
  destruct Hr as ([Hcap3 Hres] & Heff & Hp3 & Hpo3). split; [split; [done|]|split].
  - intros j. rewrite Hres. apply restored_ext. intros k. rewrite Hqv. apply Htr.
  - eapply page_effect_pool; [..|exact Heff]; [done..|]. intros j. cbn [w_pool w_pages]. rewrite Hqv. apply Htr.
  - intros j. destruct (decide (j = id)) as [->|]; [rewrite Hp3, Hqp; lia|]. by rewrite Hpo3, Hqp, Hpo1.
Qed.

(** ** Allocation by a transaction *)

(** The database file may have grown, but no stored page has changed. *)
Definition grown (p p' : PM.t) : Prop :=
  PM.pm_ok p' /\ forall j, is_Some (PM.stored_page p j) -> PM.stored_page p' j = PM.stored_page p j.

Lemma reserve_grown p : PM.pm_ok p ->
  wp PM.reserve_page p (fun r p' => grown p p' /\ forall id, r = Ok id -> is_u64 id).
Proof.
  intros Hok. wp_use PM.reserve_page_spec; [done|]. intros r p' (Hok' & _ & _ & Hst & Hr & _). split.
  - split; [done|]. intros j Hj. apply Hst. intros ->.
    apply PM.stored_page_range in Hj. lia.
  - intros id ->. destruct Hr as (-> & _ & Hlt & _). destruct Hok. unfold is_u64. PM.clia.
Qed.

Lemma tx_allocate_spec w :
  PM.pm_ok (w_pages w) -> is_u64 (LM.next_lsn_ (w_log w)) -> log_sink_ (w_tx w) = true ->
  wp allocate_page w (fun r w' =>
    grown (w_pages w) (w_pages w') /\ is_u64 (LM.next_lsn_ (w_log w')) /\ w_pool w' = w_pool w /\
    match r with
    | Ok page => is_u64 page /\ w_tx w' = add_allocated page (w_tx w)
    | Throw _ => w_tx w' = w_tx w
    end).
Proof.
  intros Hok Hn Hsink. unfold allocate_page. wp_step. wp_step. wp_step. rewrite Hsink. unfold on_storage.
  apply wp_zoom. match goal with |- wp _ _ ?Q => set (Post := Q) end.
  unfold allocate_transactional_page, LM.append_page_allocate. wp_step. apply wp_on_pages. cbn [sto_pages].
  wp_use reserve_grown; [done|]. intros [id|e] p1 [Hg1 Hid]; [|by unfold Post].
  specialize (Hid _ eq_refl). wp_step. apply wp_on_log. wp_step. wp_step.
  destruct (encode_page_allocate id) as [payload|e]; [|by unfold Post]. cbn [sto_log].
  wp_use append_u64; [done|]. intros [lsn|e] l1 [Hn1 _]; [|by unfold Post].
  wp_step. apply wp_on_log. cbn [sto_log]. wp_use flush_u64; [done|]. intros [[]|e] l2 Hn2; [|by unfold Post].
  wp_step. apply wp_on_pages. cbn [sto_pages sto_log]. destruct Hg1 as [Hok1 Hst1].
  wp_use PM.activate_spec; [done|apply Hid|]. intros r p2 (Hok2 & _ & _ & Hst2 & _).
  assert (grown (w_pages w) p2) as Hg2 by (split; [exact Hok2|]; intros j Hj; by rewrite Hst2, Hst1).
  destruct r as [[]|e]; [|by unfold Post]. wp_step. unfold Post, upd_tx. wp_steps. done.
Qed.

(** A failed capture stays open. *)
Lemma allocate_tx w :
  wp allocate_page w (fun _ w' => mutation_context_ (w_tx w') = mutation_context_ (w_tx w)).
Proof.
  unfold allocate_page, on_storage, on_pages, upd_tx. do 4 wp_step; apply wp_zoom, wp_intro; intros [?|?] ? _; by wp_steps.
Qed.

(** ** The life of a transaction up to its end

    [session before w]: a transaction that began with nothing captured has come to the state
    [w]; [before] is every page as it was before the transaction first changed it (a page it has
    not changed is as it is now).  Other parties may do anything that keeps the pool intact and
    leaves alone the pages the transaction has changed, which its exclusive locks ensure. *)

Definition changed (w : World) (j : PageId) : Prop := j ∈ mut_page <$> pending_mutations_ (w_tx w).
#[local] Instance changed_dec w j : Decision (changed w j).
Proof. unfold changed. apply _. Defined.

Definition fresh (w : World) : Prop :=
  (exists id pool, w_tx w = set_context pool MC.empty_context (new_tx id true)) /\
  BP.pool_inv None (wx w) /\ BP.no_pending (w_pool w) /\ is_u64 (LM.next_lsn_ (w_log w)).

Record others (w w' : World) : Prop := {
  ot_tx : w_tx w' = w_tx w;
  ot_pool : BP.pool_inv None (wx w');
  ot_pending : BP.no_pending (w_pool w');
  ot_lsn : is_u64 (LM.next_lsn_ (w_log w'));
  ot_view : forall j, changed w j -> BP.view (wx w') j = BP.view (wx w) j;
}.

Definition before_now (before : PageId -> option Page) (w' : World) (j : PageId) : option Page :=
  if decide (changed w' j) then before j else BP.view (wx w') j.

Inductive session : (PageId -> option Page) -> World -> Prop :=
  | session_begin w : fresh w -> session (BP.view (wx w)) w
  | session_update before w id change r w' :
      session before w -> has_unfinished_capture (w_tx w) = false -> is_u64 id -> payload_change change ->
      update_page id change w = (r, w') -> session before w'
  | session_allocate before w r w' :
      session before w -> allocate_page w = (r, w') -> session (before_now before w') w'
  | session_others before w w' : session before w -> others w w' -> session (before_now before w') w'.

(** Undoing works on every page by itself. *)
Lemma restored_local ms v v' j : v j = v' j -> restored ms v j = restored ms v' j.
Proof.
  intros Hv. induction ms as [|m ms IH]; [done|].
  change (undo_one m (restored ms v) j = undo_one m (restored ms v') j). unfold undo_one. by rewrite IH.
Qed.

Lemma restored_unchanged w v j : ~ changed w j -> restored (pending_mutations_ (w_tx w)) v j = v j.
Proof.
  unfold changed. induction (pending_mutations_ (w_tx w)) as [|m ms IH]; [done|].
  cbn. rewrite elem_of_cons. intros Hn. unfold undo_one. rewrite decide_False by tauto. apply IH. tauto.
Qed.

Lemma restored_now w before j :
  (changed w j -> restored (pending_mutations_ (w_tx w)) (BP.view (wx w)) j = before j) ->
  restored (pending_mutations_ (w_tx w)) (BP.view (wx w)) j = before_now before w j.
Proof. intros Hc. unfold before_now. case_decide; [auto|]. by apply restored_unchanged. Qed.

Lemma grown_view w p' l t' j :
  grown (w_pages w) p' -> is_Some (BP.view (wx w) j) -> BP.view (wx (mkW t' (w_pool w) p' l)) j = BP.view (wx w) j.
Proof.
  intros [_ Hst]. unfold BP.view. cbn. destruct (BP.page_table_ (w_pool w) !! j); [done|]. apply Hst.
Qed.

Lemma grown_pool s p p' : BP.pool_inv None (s, p) -> grown p p' -> BP.pool_inv None (s, p').
Proof.
  intros [Hwf Hc Hok] [Hok' Hst]. split; [exact Hwf| |exact Hok']. intros i f Hi Ho Hz Hd. cbn [fst snd] in *.
  specialize (Hc i f Hi Ho Hz Hd). cbn in Hc |- *. rewrite Hst; by rewrite Hc.
Qed.

(** What holds in a session, unless a capture has failed half way. *)
Definition session_ok (before : PageId -> option Page) (w : World) : Prop :=
  has_unfinished_capture (w_tx w) = true \/
  capturing w /\ is_u64 (LM.next_lsn_ (w_log w)) /\
  forall j, restored (pending_mutations_ (w_tx w)) (BP.view (wx w)) j = before j.

Lemma capturing_others w w' m ps :
  capturing w -> w_tx w' = set_allocated m ps (w_tx w) -> Forall is_u64 ps ->
  BP.pool_inv None (wx w') -> BP.no_pending (w_pool w') ->
  (forall j, changed w j -> BP.view (wx w') j = BP.view (wx w) j) -> capturing w'.
Proof.
  intros [[] Hs Hc Hpr] Htx Hps Hinv Hnp Hv. split; rewrite Htx; [split; rewrite ?Htx; done|done|done|].
  cbn. rewrite list.Forall_forall in Hpr |- *. intros m' Hm. rewrite Hv; [by apply Hpr|].
  apply list_elem_of_fmap. eauto.
Qed.

Lemma session_invariant before w : session before w -> session_ok before w.
Proof.
  induction 1 as [w ((id & pool & Htx) & Hinv & Hnp & Hn)|before w id change r w' _ IH Hun Hid Hch Hup
    |before w r w' _ IH Hal|before w w' _ IH [Htx Hinv Hnp Hn Hv]].
  - right. split_and!; [|done|by rewrite Htx]. split; rewrite Htx; try done; [split; rewrite ?Htx; done|].
    by eexists.
  - destruct IH as [Hx|(Hcap & Hn & Hb)]; [congruence|].
    pose proof (wp_elim _ _ _ _ _ (update_page_spec id change w Hcap Hid Hch Hn) Hup) as [Hn' Hr].
    assert (keeps_undo w w' -> session_ok before w') as Hk.
    { intros [Hcap' Heq]. right. split_and!; [done|done|]. intros j. by rewrite Heq. }
    destruct r as [[]|e]; [by apply Hk, Hr|]. destruct Hr as [Hx|Hx]; [by left|by apply Hk].
  - destruct IH as [Hx|(Hcap & Hn & Hb)].
    + left. pose proof (wp_elim _ _ _ _ _ (allocate_tx w) Hal) as Hc. cbn beta in Hc.
      unfold has_unfinished_capture in *. by rewrite Hc.
    + pose proof Hcap as [[Hinv Hnp _ _ _ _ _ Hps] Hs _ Hpr].
      pose proof (wp_elim _ _ _ _ _ (tx_allocate_spec w (BP.pi_store _ _ Hinv) Hn Hs) Hal) as (Hg & Hn' & Hpl & Hr).
      assert (forall j, changed w j -> BP.view (wx w') j = BP.view (wx w) j) as Hv.
      { intros j (m & -> & Hm)%list_elem_of_fmap. destruct w' as [t' s' p' l']. cbn in Hpl, Hg. subst s'.
        apply grown_view; [done|]. rewrite list.Forall_forall in Hpr. by apply Hpr. }
      assert (exists m ps, w_tx w' = set_allocated m ps (w_tx w) /\ Forall is_u64 ps) as (m & ps & Htx & Hps').
      { destruct r as [page|e].
        - destruct Hr as [Hpg ->]. eexists true, _. split; [done|]. by apply Forall_app_2, list.Forall_singleton.
        - rewrite Hr. exists (allocation_manager_ (w_tx w)), (allocated_pages_ (w_tx w)). split; [|exact Hps].
          by destruct (w_tx w). }
      assert (pending_mutations_ (w_tx w') = pending_mutations_ (w_tx w)) as Hms by by rewrite Htx.
      right. split_and!; [|done|].
      * eapply capturing_others; try done; rewrite Hpl; [|done]. by eapply grown_pool.
      * intros j. apply restored_now. unfold changed. rewrite Hms. intros Hj. rewrite <- Hb.
        apply restored_local. by apply Hv.
  - destruct IH as [Hx|(Hcap & Hn' & Hb)]; [left; by rewrite Htx|right]. split_and!; [|done|].
    + apply (capturing_others w w' (allocation_manager_ (w_tx w)) (allocated_pages_ (w_tx w)) Hcap); try done;
        [|apply Hcap]. rewrite Htx. by destruct (w_tx w).
    + intros j. apply restored_now. unfold changed. rewrite Htx. intros Hj. rewrite <- Hb.
      apply restored_local. by apply Hv.
Qed.

(** ** Properties of rollback *)

Lemma rollback_unfinished w :
  has_unfinished_capture (w_tx w) = true ->
  rollback_for_abort w = (Throw (LogicError "cannot abort unfinished physical mutation capture"), w).
Proof. intros Hx. unfold rollback_for_abort, bind, get, throw_if. by rewrite Hx. Qed.

Lemma session_undoable before w r w' :
  session before w -> rollback_for_abort w = (r, w') -> r = Ok tt ->
  capturing w /\ forall j, restored (pending_mutations_ (w_tx w)) (BP.view (wx w)) j = before j.
Proof.
  intros Hs Hr ->. destruct (session_invariant _ _ Hs) as [Hx|(Hcap & _ & Hb)]; [|done].
  by rewrite rollback_unfinished in Hr.
Qed.

(** C4: A rollback that returns has undone the transaction: whatever sequence of changes and
    allocations the transaction made, with other parties working in between, every page it
    changed has its content and PageLSN from before the first change, every other page is as it
    is, the pages it allocated are released and no others, and no pin is left. *)
Theorem rollback_undoes_session before w w' :
  session before w -> rollback_for_abort w = (Ok tt, w') ->
  (forall j, BP.view (wx w') j = before j) /\
  (forall j, 0 <= j -> PM.is_page_allocated (w_pages w') j =
     if decide (allocation_manager_ (w_tx w) = true /\ j ∈ allocated_pages_ (w_tx w)) then false
     else PM.is_page_allocated (w_pages w) j) /\
  (forall j, BP.pins (w_pool w') j = BP.pins (w_pool w) j) /\ w_log w' = w_log w /\
  has_unresolved_mutations_for_abort (w_tx w') = false.
Proof.
  intros Hs Hr. destruct (session_undoable _ _ _ _ Hs Hr eq_refl) as [Hcap Hb].
  pose proof (wp_elim _ _ _ _ _ (rollback_spec _ w (cp_undoable _ Hcap)) Hr)
    as (Htx & Hlog & Hpins & (k' & _ & Hun' & Hz & Hv) & Hok & _).
  destruct (Hok eq_refl) as [Hunf Hal]. rewrite (Hz eq_refl) in *. rewrite firstn_all in Hv. split_and!; try done.
  - intros j. rewrite Hv. apply Hb.
  - unfold has_unresolved_mutations_for_abort. rewrite (un_resolved _ _ Hun'). rewrite Htx at 1.
    change (has_unfinished_capture (set_resolved _ (w_tx w))) with (has_unfinished_capture (w_tx w)).
    rewrite Hunf. cbn [orb replicate app]. rewrite Nat.sub_0_r. apply existsb_all_resolved.
Qed.

(** C24: Rollback completes: if no capture is open, the file system works and the pages the
    transaction changed are cached and not pinned to the limit, [rollback_for_abort] returns. *)
Theorem rollback_completes before w :
  session before w -> has_unfinished_capture (w_tx w) = false -> PM.pm_healthy (w_pages w) ->
  Forall (fun m => MC.resident (wx w) (mut_page m)) (pending_mutations_ (w_tx w)) ->
  exists w', rollback_for_abort w = (Ok tt, w').
Proof.
  intros Hs Hun Hh Hres. destruct (session_invariant _ _ Hs) as [Hx|(Hcap & _ & _)]; [congruence|].
  destruct (rollback_for_abort w) as [r w'] eqn:Hr.
  pose proof (wp_elim _ _ _ _ _ (rollback_spec _ w (cp_undoable _ Hcap)) Hr) as (_ & _ & _ & _ & _ & Hlive).
  exists w'. f_equal. apply Hlive; [done|done|by rewrite firstn_all].
Qed.

End world.

(** ** Properties of commit and abort *)

Lemma append_flush_spec ty tx lm rs :
  LM.lm_ok lm rs -> is_u64 tx -> LM.next_lsn_ lm + 1 < 2 ^ 64 ->
  wp (LM.append ty tx [] ;; LM.flush) lm (fun r lm' => r = Ok tt ->
    LM.lm_ok lm' (rs ++ [mkRecord (LM.next_lsn_ lm) tx ty []]) /\ LM.next_lsn_ lm <= LM.durable_lsn lm').
Proof.
  intros Hok Htx Hn. wp_step. wp_use LM.append_spec; [done|done|done|done|].
  intros [lsn|e] lm1 (Hn1 & _ & _ & Hr & _); [|done]. destruct Hr as [_ Hok1].
  wp_use LM.log_flush_spec; [done|]. intros r lm2 (Hok2 & _ & _ & Hr2 & _) ->. destruct Hr2 as [_ Hd].
  split; [done|]. unfold LM.durable_lsn. lia.
Qed.

(** What the transaction's own state may not lose while the log is written. *)
Lemma wp_log_tail {A} (m : M LM.t A) (n : M LM.t unit) w Q :
  wp (m ;; n) (w_log w) (fun r l => Q r (mkW (w_tx w) (w_pool w) (w_pages w) l)) ->
  wp (on_log m ;; on_log n) w Q.
Proof.
  unfold wp, bind, on_log, zoom. destruct (m (w_log w)) as [[a|e] l1]; cbn; [|done]. by destruct (n l1) as [r l2].
Qed.

(** A commit that returns has logged the commit record, flushed the log and dropped the locks. *)
Lemma commit_spec rs s r s' :
  let w := sys_world s in let w' := sys_world s' in
  LM.lm_ok (w_log w) rs -> is_u64 (id_ (w_tx w)) -> LM.next_lsn_ (w_log w) + 1 < 2 ^ 64 ->
  LK.terminal (tx_state s) = false -> commit true s = (r, s') ->
  w_tx w' = w_tx w /\ w_pool w' = w_pool w /\ w_pages w' = w_pages w /\
  match r with
  | Ok _ => has_unfinalized_mutations (w_tx w) = false /\
      LM.lm_ok (w_log w') (rs ++ [mkRecord (LM.next_lsn_ (w_log w)) (id_ (w_tx w)) Commit []]) /\
      LM.next_lsn_ (w_log w) <= LM.durable_lsn (w_log w') /\
      sys_locks s' = LK.commit (id_ (w_tx w)) (sys_locks s)
  | Throw _ => sys_locks s' = sys_locks s
  end.
Proof.
  intros w w' Hok Htx Hn Hterm H. unfold w'. clear w'. pattern r, s'. eapply wp_elim; [|exact H]. clear H. unfold commit, on_world, upd_locks.
  wp_step. wp_step. rewrite Hterm. wp_step. wp_step. fold w. unfold prepare_commit. do 3 wp_step.
  wp_step; [done|]. apply wp_log_tail. wp_use append_flush_spec; [done|done|done|].
  intros [[]|e] l Hl; [|done]. destruct (Hl eq_refl) as [Hrec Hd]. do 3 wp_step. wp_step; [done|]. wp_step. done.
Qed.

(** C5: Commit is write-ahead and releases no lock early.  With the log manager as
    participant, [commit] of a running transaction changes neither pages nor the pool; when it
    returns, every mutation had been logged, the commit record is the last record of the log and
    durable, and only then the locks went; when it throws, the lock table is untouched. *)
Theorem commit_durable rs s r s' :
  let w := sys_world s in
  LM.lm_ok (w_log w) rs -> is_u64 (id_ (w_tx w)) -> LM.next_lsn_ (w_log w) + 1 < 2 ^ 64 ->
  LK.terminal (tx_state s) = false -> commit true s = (r, s') ->
  w_tx (sys_world s') = w_tx w /\ w_pool (sys_world s') = w_pool w /\ w_pages (sys_world s') = w_pages w /\
  match r with
  | Ok _ => has_unfinalized_mutations (w_tx w) = false /\
      LM.records (w_log (sys_world s')) = Ok (rs ++ [mkRecord (LM.next_lsn_ (w_log w)) (id_ (w_tx w)) Commit []]) /\
      LM.next_lsn_ (w_log w) <= LM.durable_lsn (w_log (sys_world s')) /\
      sys_locks s' = LK.commit (id_ (w_tx w)) (sys_locks s)
  | Throw _ => sys_locks s' = sys_locks s
  end.
Proof.
  intros w Hok Htx Hn Hterm H. destruct (commit_spec rs s r s' Hok Htx Hn Hterm H) as (H1 & H2 & H3 & Hr).
  split_and!; [done..|]. destruct r; [|done]. destruct Hr as (Hu & Hrec%LM.lm_ok_records & Hd & Hl). done.
Qed.

(** An abort that returns: the rollback, then the abort record, then the locks. *)
Lemma abort_spec provider before rs s r s' :
  let w := sys_world s in let w' := sys_world s' in
  session provider before w ->
  LM.lm_ok (w_log w) rs -> is_u64 (id_ (w_tx w)) -> LM.next_lsn_ (w_log w) + 1 < 2 ^ 64 ->
  LK.terminal (tx_state s) = false -> abort provider true s = (r, s') ->
  match r with
  | Ok _ => (forall j, BP.view (w_pool w', w_pages w') j = before j) /\
      LM.lm_ok (w_log w') (rs ++ [mkRecord (LM.next_lsn_ (w_log w)) (id_ (w_tx w)) Abort []]) /\
      LM.next_lsn_ (w_log w) <= LM.durable_lsn (w_log w') /\
      sys_locks s' = LK.abort (id_ (w_tx w)) (sys_locks s) /\
      forall j, 0 <= j -> PM.is_page_allocated (w_pages w') j =
        if decide (allocation_manager_ (w_tx w) = true /\ j ∈ allocated_pages_ (w_tx w)) then false
        else PM.is_page_allocated (w_pages w) j
  | Throw _ => sys_locks s' = sys_locks s
  end.
Proof.
  intros w w' Hs Hok Htx Hn Hterm H. unfold w'. clear w'.
  pattern r, s'. eapply wp_elim; [|exact H]. clear H. unfold abort, on_world, upd_locks.
  wp_step. wp_step. rewrite Hterm. wp_step. wp_step. fold w. unfold prepare_abort. wp_step.
  apply wp_intro. intros r1 w1 Hr1. destruct r1 as [[]|e]; [|done].
  destruct (session_undoable _ _ _ _ _ Hs Hr1 eq_refl) as [Hcap Hb].
  pose proof (wp_elim _ _ _ _ _ (rollback_spec _ _ w (cp_undoable _ Hcap)) Hr1)
    as (Ht & Hlog & _ & (k' & _ & Hun' & Hz & Hv) & Hal & _). rewrite (Hz eq_refl), firstn_all in Hv.
  destruct (Hal eq_refl) as [_ Hal'].
  wp_step. wp_step. wp_step. wp_step; [done|].
  apply wp_log_tail. rewrite Ht. cbn [id_ set_resolved]. rewrite Hlog. wp_use append_flush_spec; [done|done|done|].
  intros [[]|e] l Hl; [|done]. destruct (Hl eq_refl) as [Hrec Hd]. do 3 wp_step. wp_step; [done|]. wp_step.
  cbn [sys_world sys_locks w_pool w_pages w_log w_tx]. rewrite <- Ht. split_and!; try done.
  - intros j. rewrite Hv. apply Hb.
  - by rewrite Ht.
Qed.

(** C23: Abort undoes before it releases.  With the log manager as participant, when [abort] of
    a running transaction returns, every page has its content from before the transaction, the
    abort record is the last record of the log and durable, and only then the locks went; when
    it throws, the transaction still holds its locks and may be aborted again. *)
Theorem abort_undoes provider before rs s r s' :
  let w := sys_world s in
  session provider before w ->
  LM.lm_ok (w_log w) rs -> is_u64 (id_ (w_tx w)) -> LM.next_lsn_ (w_log w) + 1 < 2 ^ 64 ->
  LK.terminal (tx_state s) = false -> abort provider true s = (r, s') ->
  match r with
  | Ok _ => (forall j, BP.view (w_pool (sys_world s'), w_pages (sys_world s')) j = before j) /\
      LM.records (w_log (sys_world s')) = Ok (rs ++ [mkRecord (LM.next_lsn_ (w_log w)) (id_ (w_tx w)) Abort []]) /\
      LM.next_lsn_ (w_log w) <= LM.durable_lsn (w_log (sys_world s')) /\
      sys_locks s' = LK.abort (id_ (w_tx w)) (sys_locks s)
  | Throw _ => sys_locks s' = sys_locks s
  end.
Proof.
  intros w Hs Hok Htx Hn Hterm H. pose proof (abort_spec provider before rs s r s' Hs Hok Htx Hn Hterm H) as Hx.
  cbv zeta in Hx. destruct r; [|done]. destruct Hx as (Hv & Hrec%LM.lm_ok_records & Hd & Hl & _). done.
Qed.

(** A failed capture cannot be ended.  When logging a mutation failed while the page was
    being changed, the transaction keeps the capture open for good: every later commit and abort
    throws, nothing is undone and no lock is released. *)
Theorem unfinished_capture_blocks_end provider s :
  has_unfinished_capture (w_tx (sys_world s)) = true -> LK.terminal (tx_state s) = false ->
  (exists e, commit true s = (Throw e, s)) /\ (exists e, abort provider true s = (Throw e, s)).
Proof.
  intros Hun Hterm. destruct s as [lk w]. cbn in *.
  assert (has_unfinalized_mutations (w_tx w) = true) as Hx by (unfold has_unfinalized_mutations; by rewrite Hun).
  split; eexists; unfold commit, abort, bind, get, on_world, zoom; cbn [sys_world sys_locks].
  - change (tx_state _) with (LK.state lk (id_ (w_tx w))) in *. rewrite Hterm.
    cbn [sys_world sys_locks]. unfold prepare_commit, bind, get, throw_if. by rewrite Hx.
  - change (tx_state _) with (LK.state lk (id_ (w_tx w))) in *. rewrite Hterm.
    cbn [sys_world sys_locks]. unfold prepare_abort, bind. by rewrite rollback_unfinished.
Qed.

(** ** Concrete runs *)

Definition poke (d : bytes) : bytes := <[0%nat := 42]> d.

Lemma poke_change : payload_change poke.
Proof.
  intros d Hl Hb. unfold poke. split; [by rewrite length_insert|].
  apply Forall_insert; [done|]. unfold is_byte. lia.
Qed.

(** Transaction 7 on a pool of [n] frames over a file with pages 0 and 1. *)
Definition world_new (n : nat) (l : LM.t) : World :=
  mkW (set_context 0 MC.empty_context (new_tx 7 true)) (BP.create n) BP.pm_two l.

Lemma world_new_session n l :
  is_u64 (LM.next_lsn_ l) ->
  session true (BP.view (w_pool (world_new n l), w_pages (world_new n l))) (world_new n l).
Proof.
  intros Hl. apply session_begin. split_and!; [by exists 7, 0| |intros i|done].
  - apply BP.create_inv. exact BP.pm_two_ok.
  - unfold BP.frame, world_new. cbn. destruct (replicate n BP.empty_frame !! i) as [f|] eqn:Hi; [|done].
    by apply lookup_replicate in Hi as [-> _].
Qed.

Definition world_poked : World := (update_page true 0 poke (world_new 2 lm_new)).2.
Definition world_undone : World := (rollback_for_abort true world_poked).2.

Lemma world_poked_run : update_page true 0 poke (world_new 2 lm_new) = (Ok tt, world_poked).
Proof. unfold world_poked. apply run_split. vm_compute. reflexivity. Qed.

Lemma world_undone_run : rollback_for_abort true world_poked = (Ok tt, world_undone).
Proof. unfold world_undone. apply run_split. vm_compute. reflexivity. Qed.

Lemma world_poked_session :
  session true (BP.view (w_pool (world_new 2 lm_new), w_pages (world_new 2 lm_new))) world_poked.
Proof.
  eapply (session_update true _ (world_new 2 lm_new) 0 poke (Ok tt)).
  - apply world_new_session. by vm_compute.
  - by vm_compute.
  - by vm_compute.
  - exact poke_change.
  - exact world_poked_run.
Qed.

#[local] Opaque world_poked world_undone.

Lemma rollback_undoes_session_witness :
  (fun p => byte_at (page_data p) 0) <$> BP.view (w_pool world_poked, w_pages world_poked) 0 = Some 42 /\
  forall j, BP.view (w_pool world_undone, w_pages world_undone) j =
            BP.view (w_pool (world_new 2 lm_new), w_pages (world_new 2 lm_new)) j.
Proof.
  split; [vm_compute; reflexivity|].
  exact (proj1 (rollback_undoes_session true _ world_poked world_undone world_poked_session world_undone_run)).
Defined.

Lemma rollback_completes_witness : exists w', rollback_for_abort true world_poked = (Ok tt, w').
Proof.
  apply (rollback_completes true _ world_poked world_poked_session).
  - vm_compute. reflexivity.
  - split; vm_compute; reflexivity.
  - assert (mut_page <$> pending_mutations_ (w_tx world_poked) = [0]) as Hm by (vm_compute; reflexivity).
    assert (BP.page_table_ (w_pool world_poked) !! 0 = Some 0%nat) as Ht by (vm_compute; reflexivity).
    assert (BP.fr_pin (BP.frame (w_pool world_poked) 0) = 0) as Hp by (vm_compute; reflexivity).
    change (Forall (MC.resident (w_pool world_poked, w_pages world_poked) ∘ mut_page)
      (pending_mutations_ (w_tx world_poked))).
    rewrite <- Forall_fmap, Hm. constructor; [|constructor]. split_and!; [done|vm_compute; reflexivity|].
    exists 0%nat. split; [exact Ht|]. cbn [fst]. rewrite Hp. unfold BP.kMaxU32. lia.
Defined.

(** Transaction 7 holds page 0 exclusively, transaction 5 page 1. *)
Definition locks_seven : LK.t := (LK.lock 7 0 LK.Exclusive (LK.lock 5 1 LK.Exclusive LK.init).2).2.
Definition system_poked : System := mkSystem locks_seven world_poked.

(** The log of [world_poked] is what the record of its change leaves. *)
Definition mutation_poked : PhysicalMutation :=
  mkMutation 0 PayloadWrite 0 (zeros kPagePayloadSize) (poke (zeros kPagePayloadSize)) 0.
Definition payload_poked : bytes :=
  match encode_physical_mutation mutation_poked with Ok bs => bs | Throw _ => [] end.
Definition log_poked : list WalRecord := [mkRecord 1 7 PhysicalMutationRecord payload_poked].

Lemma world_poked_log : w_log world_poked = (LM.append PhysicalMutationRecord 7 payload_poked lm_new).2.
Proof. vm_compute. reflexivity. Qed.

Lemma payload_poked_bytes : Forall is_byte payload_poked.
Proof. apply (bool_decide_eq_true_1 _). vm_compute. reflexivity. Qed.

Lemma log_poked_ok : LM.lm_ok (w_log world_poked) log_poked.
Proof.
  rewrite world_poked_log.
  destruct (LM.append PhysicalMutationRecord 7 payload_poked lm_new) as [r lm'] eqn:E.
  apply (wp_elim _ _ _ _ _ (LM.append_spec lm_new [] PhysicalMutationRecord 7 payload_poked lm_new_ok
    ltac:(done) payload_poked_bytes ltac:(done))) in E as (_ & _ & _ & Hr & Hh).
  destruct Hh as [_ Hh]; [by split|]. rewrite Hh in Hr by (vm_compute; congruence). by destruct Hr.
Qed.

#[local] Opaque log_poked system_poked.

Definition system_committed : System := (commit true system_poked).2.

Lemma system_committed_run : commit true system_poked = (Ok tt, system_committed).
Proof. unfold system_committed. apply run_split. vm_compute. reflexivity. Qed.

#[local] Opaque system_committed.

Lemma commit_durable_witness :
  LM.records (w_log (sys_world system_committed)) =
    Ok (log_poked ++ [mkRecord (LM.next_lsn_ (w_log (sys_world system_poked))) (id_ (w_tx (sys_world system_poked))) Commit []]) /\
  LM.next_lsn_ (w_log (sys_world system_poked)) <= LM.durable_lsn (w_log (sys_world system_committed)).
Proof.
  assert (is_u64 (id_ (w_tx (sys_world system_poked)))) as H1 by (vm_compute; split; congruence).
  assert (LM.next_lsn_ (w_log (sys_world system_poked)) + 1 < 2 ^ 64) as H2 by (vm_compute; reflexivity).
  assert (LK.terminal (tx_state system_poked) = false) as H3 by (vm_compute; reflexivity).
  pose proof (commit_durable log_poked system_poked (Ok tt) system_committed log_poked_ok H1 H2 H3 system_committed_run)
    as (_ & _ & _ & _ & Hr & Hd & _).
  split; [exact Hr|exact Hd].
Defined.

Definition system_aborted : System := (abort true true system_poked).2.

Lemma system_aborted_run : abort true true system_poked = (Ok tt, system_aborted).
Proof. unfold system_aborted. apply run_split. vm_compute. reflexivity. Qed.

#[local] Opaque system_aborted.

Lemma abort_undoes_witness :
  (forall j, BP.view (w_pool (sys_world system_aborted), w_pages (sys_world system_aborted)) j =
             BP.view (w_pool (world_new 2 lm_new), w_pages (world_new 2 lm_new)) j) /\
  sys_locks system_aborted = LK.abort (id_ (w_tx (sys_world system_poked))) (sys_locks system_poked).
Proof.
  assert (is_u64 (id_ (w_tx (sys_world system_poked)))) as H1 by (vm_compute; split; congruence).
  assert (LM.next_lsn_ (w_log (sys_world system_poked)) + 1 < 2 ^ 64) as H2 by (vm_compute; reflexivity).
  assert (LK.terminal (tx_state system_poked) = false) as H3 by (vm_compute; reflexivity).
  pose proof (abort_undoes true _ log_poked system_poked (Ok tt) system_aborted world_poked_session
    log_poked_ok H1 H2 H3 system_aborted_run) as (Hv & _ & _ & Hl).
  split; [exact Hv|exact Hl].
Defined.

(** A log whose second write fails half way. *)
Definition world_failing : World := (update_page true 0 poke (world_new 2 (lm_of [] [None; Some 17] 1 0))).2.

Lemma unfinished_capture_blocks_end_witness :
  (exists e, commit true (mkSystem locks_seven world_failing) = (Throw e, mkSystem locks_seven world_failing)) /\
  (exists e, abort true true (mkSystem locks_seven world_failing) = (Throw e, mkSystem locks_seven world_failing)).
Proof.
  apply unfinished_capture_blocks_end; vm_compute; reflexivity.
Defined.

(** Transaction 7 asks for page 1 and dies for the older transaction 5. *)
Definition locks_died : LK.t := (LK.lock 7 1 LK.Exclusive locks_seven).2.

(** C35: A transaction that dies under WAIT-DIE is never rolled back.  If a lock request leaves its
    transaction aborted, the lock manager has dropped all its locks, and
    [TransactionCoordinator::abort], which is to undo it, returns at once because the state is
    terminal: the pages, the log and the transaction stay as they are, no change is taken back and
    no abort record is written.  Every page the transaction had locked for writing is granted to
    the next transaction that asks. *)
Theorem died_transaction_not_undone provider l r m l' w :
  LK.reachable l -> LK.state l (id_ (w_tx w)) = LK.Growing ->
  LK.lock (id_ (w_tx w)) r m l = (LK.Refused, l') -> LK.state l' (id_ (w_tx w)) = LK.Aborted ->
  abort provider true (mkSystem l' w) = (Ok tt, mkSystem l' w) /\
  (forall r' h, LK.holder l' r' h -> LK.h_tx h <> id_ (w_tx w)) /\
  (forall r' other m', LK.holder l r' (LK.mkHolder (id_ (w_tx w)) LK.Exclusive) -> LK.state l' other = LK.Growing ->
     exists l2, LK.lock other r' m' l' = (LK.Granted, l2)).
Proof.
  intros Hinv%LK.reachable_inv Hg E Ha. pose proof (LK.lock_died _ _ _ _ _ Hinv Hg E Ha) as ->. split_and!.
  - unfold abort, bind, get, tx_state. cbn [sys_locks sys_world]. by rewrite Ha.
  - intros r' h Hh. by apply (LK.release_all_holder _ l) in Hh as [_ ?].
  - intros r' other m' Hh Ho. destruct (LK.lock_free other r' m' _ Ho) as (l2 & E2 & _); [|by exists l2].
    by apply LK.exclusive_released.
Qed.

Lemma locks_seven_reachable : LK.reachable locks_seven.
Proof.
  eapply rtc_l; [by apply (LK.step_lock 5 1 LK.Exclusive)|]. eapply rtc_l; [|apply rtc_refl].
  unfold locks_seven. by apply LK.step_lock.
Qed.

Lemma died_transaction_not_undone_witness :
  abort true true (mkSystem locks_died world_poked) = (Ok tt, mkSystem locks_died world_poked) /\
  (fun p => byte_at (page_data p) 0) <$> BP.view (w_pool world_poked, w_pages world_poked) 0 = Some 42 /\
  exists l2, LK.lock 5 0 LK.Shared locks_died = (LK.Granted, l2).
Proof.
  assert (id_ (w_tx world_poked) = 7) as H7 by (vm_compute; reflexivity).
  pose proof (died_transaction_not_undone true locks_seven 1 LK.Exclusive locks_died world_poked locks_seven_reachable) as H.
  rewrite H7 in H. destruct H as (H1 & _ & H2); [vm_compute; reflexivity..|].
  split; [exact H1|]. split; [vm_compute; reflexivity|].
  apply H2; [|vm_compute; reflexivity]. exists [LK.mkHolder 7 LK.Exclusive]. split; [vm_compute; reflexivity|left].
Defined.

(** Transaction 7 allocates page 2 through a pool of one frame, changes it and is rolled back. *)
Definition world_allocated : World := (allocate_page (world_new 1 lm_new)).2.
Definition world_filled : World := (update_page true 2 poke world_allocated).2.
Definition world_released : World := (rollback_for_abort true world_filled).2.

Definition storage_error {A} (o : outcome A) : bool :=
  match o with Throw (StorageError _) => true | _ => false end.

Lemma storage_error_throws {A} (o : outcome A) : storage_error o = true -> exists e, o = Throw (StorageError e).
Proof. destruct o as [|[]]; try done. by eexists. Qed.

(** Rolling back an allocation wedges the pool.  Rollback releases the pages the
    transaction allocated but leaves their frames in the pool, dirty.  Such a frame can no longer
    be written, so flushing the pool fails, the page cannot be deleted from it, and as soon as it
    is the least recently used page every fetch that needs a frame fails. *)
Theorem aborted_allocation_wedges_pool :
  let x := (w_pool world_released, w_pages world_released) in
  let wal := Some (LM.durable_lsn (w_log world_released)) in
  (allocate_page (world_new 1 lm_new)).1 = Ok 2 /\
  (update_page true 2 poke world_allocated).1 = Ok tt /\
  (rollback_for_abort true world_filled).1 = Ok tt /\
  (exists e, (BP.flush_all_pages wal x).1 = Throw (StorageError e)) /\
  (exists e, (BP.delete_page wal 2 x).1 = Throw (StorageError e)) /\
  (exists e, (BP.fetch_page wal 0 x).1 = Throw (StorageError e)).
Proof.
  cbv zeta. set (wal := Some (LM.durable_lsn (w_log world_released))). set (x := (w_pool world_released, w_pages world_released)).
  assert (((allocate_page (world_new 1 lm_new)).1, ((update_page true 2 poke world_allocated).1,
      ((rollback_for_abort true world_filled).1, (storage_error (BP.flush_all_pages wal x).1,
        (storage_error (BP.delete_page wal 2 x).1, storage_error (BP.fetch_page wal 0 x).1))))) =
    (Ok 2, (Ok tt, (Ok tt, (true, (true, true)))))) as E by (vm_compute; reflexivity).
  apply pair_split in E as [E1 E]. apply pair_split in E as [E2 E]. apply pair_split in E as [E3 E].
  apply pair_split in E as [E4 E]. apply pair_split in E as [E5 E6].
  refine (conj E1 (conj E2 (conj E3 (conj _ (conj _ _))))); apply storage_error_throws; assumption.
Qed.

End TX.
