(* ===== verification/Analysis.v ===== *)
(** * The analysis pass of recovery

    Models [src/src/recovery/recovery_analysis.cpp] and its header: one pass over the records of
    the log collects the transactions, the page allocations and the physical mutations, and
    classifies every transaction.  [std::map] is a [gmap] that is visited in key order. *)

From stdpp Require Import sorting.
From S2P Require Import Prelude Bytes Page Wal.

Module RA.

(** ** Data *)

Inductive TransactionStatus : Type := Committed | Aborted | Incomplete.
#[global] Instance TransactionStatus_eq_dec : EqDecision TransactionStatus.
Proof. solve_decision. Defined.

Record AllocationRecord : Type := mkAllocation { al_lsn : Z; al_tx : Z; al_page : PageId }.
Record MutationRecord : Type := mkMutationRecord { mr_lsn : Z; mr_tx : Z; mr_mutation : PhysicalMutation }.

Record TransactionAnalysis : Type := mkTransaction {
  transaction_id : Z;
  status : TransactionStatus;
  began : bool;
  committed : bool;
  aborted : bool;
  allocation_indexes : list nat;
  mutation_indexes : list nat;
}.

(** The time measurement is left out. *)
Record RecoveryMetrics : Type := mkMetrics {
  wal_bytes_scanned : Z;
  total_records : Z;
  transactions_observed : Z;
  committed_transactions : Z;
  aborted_transactions : Z;
  incomplete_transactions : Z;
  page_allocates : Z;
  physical_mutations : Z;
  first_lsn : Z;
  last_lsn : Z;
}.

Record RecoveryState : Type := mkState {
  records : list WalRecord;
  allocations : list AllocationRecord;
  mutations : list MutationRecord;
  transactions : gmap Z TransactionAnalysis;
  metrics : RecoveryMetrics;
}.

Definition new_transaction (id : Z) : TransactionAnalysis := mkTransaction id Incomplete false false false [] [].
Definition set_began (t : TransactionAnalysis) : TransactionAnalysis :=
  mkTransaction (transaction_id t) (status t) true (committed t) (aborted t) (allocation_indexes t) (mutation_indexes t).
Definition set_committed (t : TransactionAnalysis) : TransactionAnalysis :=
  mkTransaction (transaction_id t) (status t) (began t) true (aborted t) (allocation_indexes t) (mutation_indexes t).
Definition set_aborted (t : TransactionAnalysis) : TransactionAnalysis :=
  mkTransaction (transaction_id t) (status t) (began t) (committed t) true (allocation_indexes t) (mutation_indexes t).
Definition add_allocation (i : nat) (t : TransactionAnalysis) : TransactionAnalysis :=
  mkTransaction (transaction_id t) (status t) (began t) (committed t) (aborted t) (allocation_indexes t ++ [i]) (mutation_indexes t).
Definition add_mutation (i : nat) (t : TransactionAnalysis) : TransactionAnalysis :=
  mkTransaction (transaction_id t) (status t) (began t) (committed t) (aborted t) (allocation_indexes t) (mutation_indexes t ++ [i]).
Definition set_status (v : TransactionStatus) (t : TransactionAnalysis) : TransactionAnalysis :=
  mkTransaction (transaction_id t) v (began t) (committed t) (aborted t) (allocation_indexes t) (mutation_indexes t).

(** ** Queries *)

Definition transaction (s : RecoveryState) (id : Z) : option TransactionAnalysis := transactions s !! id.
Definition allocations_for_page (s : RecoveryState) (page : PageId) : list AllocationRecord :=
  filter (fun a => al_page a = page) (allocations s).
Definition mutations_for_page (s : RecoveryState) (page : PageId) : list MutationRecord :=
  filter (fun m => mut_page (mr_mutation m) = page) (mutations s).

(** ** The pass *)

(** What the loop has collected so far. *)
Record Collected : Type := mkCollected {
  c_allocations : list AllocationRecord;
  c_mutations : list MutationRecord;
  c_transactions : gmap Z TransactionAnalysis;
}.

Definition validate_empty_payload (r : WalRecord) : outcome unit :=
  if bool_decide (rec_payload r = []) then Ok tt else Throw (WalError "terminal WAL record has a payload").

Definition collect (c : Collected) (r : WalRecord) : outcome Collected :=
  let t := default (new_transaction (rec_tx r)) (c_transactions c !! rec_tx r) in
  let store t := <[rec_tx r := t]> (c_transactions c) in
  match rec_type r with
  | Begin | Commit | Abort =>
      match validate_empty_payload r with
      | Throw e => Throw e
      | Ok _ =>
          let t := match rec_type r with Begin => set_began t | Commit => set_committed t | _ => set_aborted t end in
          Ok (mkCollected (c_allocations c) (c_mutations c) (store t))
      end
  | PageAllocate =>
      match decode_page_allocate (rec_payload r) with
      | Throw e => Throw e
      | Ok page =>
          Ok (mkCollected (c_allocations c ++ [mkAllocation (rec_lsn r) (rec_tx r) page]) (c_mutations c)
                (store (add_allocation (length (c_allocations c)) t)))
      end
  | PhysicalMutationRecord =>
      match decode_physical_mutation (rec_payload r) with
      | Throw e => Throw e
      | Ok m =>
          Ok (mkCollected (c_allocations c) (c_mutations c ++ [mkMutationRecord (rec_lsn r) (rec_tx r) m])
                (store (add_mutation (length (c_mutations c)) t)))
      end
  end.

Fixpoint collect_all (c : Collected) (rs : list WalRecord) : outcome Collected :=
  match rs with
  | [] => Ok c
  | r :: rs => match collect c r with Ok c => collect_all c rs | Throw e => Throw e end
  end.

Definition classify (t : TransactionAnalysis) : TransactionAnalysis :=
  set_status (if committed t then Committed else if aborted t then Aborted else Incomplete) t.

Definition conflicting (t : TransactionAnalysis) : bool := committed t && aborted t.

(** Order by a key. *)
Definition key_le {A} (key : A -> Z) (p q : A) : Prop := key p <= key q.
#[global] Instance key_le_dec {A} (key : A -> Z) p q : Decision (key_le key p q).
Proof. unfold key_le. apply _. Defined.

(** Entries of a map in key order. *)
Definition in_order {A} (m : gmap Z A) : list (Z * A) :=
  merge_sort (key_le fst) (map_to_list m).

Definition count_status (v : TransactionStatus) (m : gmap Z TransactionAnalysis) : Z :=
  count_if (fun p => bool_decide (status p.2 = v)) (in_order m).

(** The passes over the records of a log of [size] bytes. *)
Definition analyze_records (size_ : Z) (rs : list WalRecord) : outcome RecoveryState :=
  match collect_all (mkCollected [] [] ∅) rs with
  | Throw e => Throw e
  | Ok c =>
      if existsb (fun p => conflicting p.2) (in_order (c_transactions c))
      then Throw (WalError "transaction has conflicting terminal WAL records")
      else
        let ts := classify <$> c_transactions c in
        Ok (mkState rs (c_allocations c) (c_mutations c) ts
              (mkMetrics size_ (zlen rs) (Z.of_nat (size ts)) (count_status Committed ts)
                 (count_status Aborted ts) (count_status Incomplete ts) (zlen (c_allocations c))
                 (zlen (c_mutations c)) (from_option rec_lsn 0 (head rs)) (from_option rec_lsn 0 (list.last rs))))
  end.

Definition analyze (file : option bytes) : outcome RecoveryState :=
  match read_records file with
  | Throw e => Throw e
  | Ok rs =>
      match file with
      | None => Throw (WalError "cannot determine WAL size")
      | Some content => analyze_records (zlen content) rs
      end
  end.

Lemma analyze_log rs :
  Forall record_wf rs -> ascending 0 rs -> analyze (Some (log_bytes rs)) = analyze_records (zlen (log_bytes rs)) rs.
Proof. intros Hwf Ha. unfold analyze. by rewrite read_records_log. Qed.

(** ** What the pass collects *)

Definition mutation_of (r : WalRecord) : option MutationRecord :=
  match rec_type r, decode_physical_mutation (rec_payload r) with
  | PhysicalMutationRecord, Ok m => Some (mkMutationRecord (rec_lsn r) (rec_tx r) m)
  | _, _ => None
  end.
Definition allocation_of (r : WalRecord) : option AllocationRecord :=
  match rec_type r, decode_page_allocate (rec_payload r) with
  | PageAllocate, Ok page => Some (mkAllocation (rec_lsn r) (rec_tx r) page)
  | _, _ => None
  end.

(** A record of this type and transaction is in the log. *)
Definition logged (ty : WalRecordType) (tx : Z) (rs : list WalRecord) : bool :=
  existsb (fun r => bool_decide (rec_type r = ty) && (rec_tx r =? tx)) rs.

(** The elements a list of indexes points to. *)
Definition select {A} (l : list A) (ix : list nat) : list A := omap (fun i => l !! i) ix.

Record entry_of (rs : list WalRecord) (c : Collected) (tx : Z) (t : TransactionAnalysis) : Prop := {
  eo_id : transaction_id t = tx;
  eo_began : began t = logged Begin tx rs;
  eo_committed : committed t = logged Commit tx rs;
  eo_aborted : aborted t = logged Abort tx rs;
  eo_mutations : select (c_mutations c) (mutation_indexes t) = filter (fun m => mr_tx m = tx) (c_mutations c);
  eo_allocations : select (c_allocations c) (allocation_indexes t) = filter (fun a => al_tx a = tx) (c_allocations c);
  eo_mutation_range : Forall (fun i => i < length (c_mutations c))%nat (mutation_indexes t);
  eo_allocation_range : Forall (fun i => i < length (c_allocations c))%nat (allocation_indexes t);
}.

Record collected (rs : list WalRecord) (c : Collected) : Prop := {
  co_mutations : c_mutations c = omap mutation_of rs;
  co_allocations : c_allocations c = omap allocation_of rs;
  co_seen : forall tx, is_Some (c_transactions c !! tx) <-> exists r, r ∈ rs /\ rec_tx r = tx;
  co_entry : forall tx t, c_transactions c !! tx = Some t -> entry_of rs c tx t;
}.

Lemma logged_app ty tx rs r :
  logged ty tx (rs ++ [r]) = logged ty tx rs || bool_decide (rec_type r = ty) && (rec_tx r =? tx).
Proof. unfold logged. rewrite existsb_app. simpl. by rewrite orb_false_r. Qed.

Lemma select_app {A} (l : list A) x ix :
  Forall (fun i => i < length l)%nat ix -> select (l ++ [x]) ix = select l ix.
Proof.
  unfold select. induction 1 as [|i ix Hi _ IH]; [done|]. csimpl. rewrite lookup_app_l by done. by rewrite IH.
Qed.

Lemma select_snoc {A} (l : list A) x ix :
  Forall (fun i => i < length l)%nat ix -> select (l ++ [x]) (ix ++ [length l]) = select l ix ++ [x].
Proof.
  intros Hix. unfold select. rewrite omap_app. f_equal; [by apply select_app|].
  simpl. by rewrite list_lookup_middle.
Qed.

Lemma range_app {A} (l : list A) x ix :
  Forall (fun i => i < length l)%nat ix -> Forall (fun i => i < length (l ++ [x]))%nat ix.
Proof. intros Hix. eapply list.Forall_impl; [exact Hix|]. intros i. rewrite length_app. simpl. lia. Qed.

(** The entry of a transaction that has none yet. *)
Lemma fresh_entry rs c tx :
  collected rs c -> c_transactions c !! tx = None -> entry_of rs c tx (new_transaction tx).
Proof.
  intros [Hm Ha Hs _] Hn.
  assert (forall r, r ∈ rs -> rec_tx r <> tx) as Hno.
  { intros r Hr Hx. destruct (proj2 (Hs tx)) as [? Hx']; [by exists r|]. congruence. }
  assert (forall ty, logged ty tx rs = false) as Hl.
  { intros ty. apply not_true_iff_false. intros (r & Hr & Hx)%existsb_exists. apply andb_true_iff in Hx as [_ Hx].
    apply list_elem_of_In in Hr. apply (Hno r Hr). lia. }
  split; rewrite ?Hl; try done; simpl; symmetry; apply filter_none; rewrite ?Hm, ?Ha.
  - intros m (r & Hr & Hx)%list_elem_of_omap. unfold mutation_of in Hx. repeat case_match; simplify_eq/=. by apply Hno.
  - intros m (r & Hr & Hx)%list_elem_of_omap. unfold allocation_of in Hx. repeat case_match; simplify_eq/=. by apply Hno.
Qed.

(** Adding a record to the log of another transaction. *)
Lemma entry_other rs c c' r tx t ms als :
  entry_of rs c tx t -> rec_tx r <> tx ->
  c_mutations c' = c_mutations c ++ ms -> c_allocations c' = c_allocations c ++ als ->
  (ms = [] \/ exists m, ms = [m] /\ mr_tx m = rec_tx r) -> (als = [] \/ exists a, als = [a] /\ al_tx a = rec_tx r) ->
  entry_of (rs ++ [r]) c' tx t.
Proof.
  intros [] Hne Hm Ha Hms Hals.
  assert (forall ty, logged ty tx (rs ++ [r]) = logged ty tx rs) as Hl.
  { intros ty. rewrite logged_app. replace (rec_tx r =? tx) with false by lia. by rewrite andb_false_r, orb_false_r. }
  split; rewrite ?Hl; try done; rewrite ?Hm, ?Ha.
  - destruct Hms as [->|(m & -> & Hx)]; [by rewrite app_nil_r|].
    rewrite select_app, list.filter_app, filter_cons_False, filter_nil, app_nil_r by (done || congruence). done.
  - destruct Hals as [->|(a & -> & Hx)]; [by rewrite app_nil_r|].
    rewrite select_app, list.filter_app, filter_cons_False, filter_nil, app_nil_r by (done || congruence). done.
  - destruct Hms as [->|(m & -> & Hx)]; [by rewrite app_nil_r|by apply range_app].
  - destruct Hals as [->|(a & -> & Hx)]; [by rewrite app_nil_r|by apply range_app].
Qed.

Lemma collect_spec rs c r c' : collected rs c -> collect c r = Ok c' -> collected (rs ++ [r]) c'.
Proof.
  intros Hco H. pose proof Hco as [Hm Ha Hs He]. unfold collect in H.
  set (t := default (new_transaction (rec_tx r)) (c_transactions c !! rec_tx r)) in H.
  assert (entry_of rs c (rec_tx r) t) as Ht.
  { unfold t. destruct (c_transactions c !! rec_tx r) eqn:E; [by apply He|by apply fresh_entry]. }
  assert (exists ms als t', c_mutations c' = c_mutations c ++ ms /\ c_allocations c' = c_allocations c ++ als /\
    c_transactions c' = <[rec_tx r := t']> (c_transactions c) /\
    ms = option_list (mutation_of r) /\ als = option_list (allocation_of r) /\
    entry_of (rs ++ [r]) c' (rec_tx r) t') as (ms & als & t' & Hm' & Ha' & Ht' & -> & -> & Hent).
  { pose proof Ht as [H1 H2 H3 H4 H5 H6 H7 H8]. unfold validate_empty_payload in H.
    destruct (rec_type r) eqn:Hty; unfold mutation_of, allocation_of; rewrite Hty.
    2:{ destruct (decode_physical_mutation (rec_payload r)) as [m|] eqn:Hd; [|done]. simplify_eq.
        eexists [_], [], _. split_and!; [done|by rewrite app_nil_r|done|done|done|].
        split; cbn -[select]; rewrite ?logged_app, ?Hty, ?orb_false_r; try done; rewrite ?orb_false_r; try done.
        - rewrite select_snoc, H5, list.filter_app by done. f_equal. by rewrite filter_cons_True.
        - apply Forall_app_2; [by apply range_app|]. apply list.Forall_singleton. rewrite length_app. simpl. lia. }
    4:{ destruct (decode_page_allocate (rec_payload r)) as [m|] eqn:Hd; [|done]. simplify_eq.
        eexists [], [_], _. split_and!; [by rewrite app_nil_r|done|done|done|done|].
        split; cbn -[select]; rewrite ?logged_app, ?Hty, ?orb_false_r; try done; rewrite ?orb_false_r; try done.
        - rewrite select_snoc, H6, list.filter_app by done. f_equal. by rewrite filter_cons_True.
        - apply Forall_app_2; [by apply range_app|]. apply list.Forall_singleton. rewrite length_app. simpl. lia. }
    all: destruct (bool_decide (rec_payload r = [])); simplify_eq; eexists [], [], _.
    all: split_and!; [by rewrite app_nil_r|by rewrite app_nil_r|done|done|done|].
    all: split; cbn -[select]; rewrite ?logged_app, ?Hty, ?Z.eqb_refl; cbn; rewrite ?orb_false_r, ?orb_true_r; done. }
  assert (forall {A} (f : WalRecord -> option A), omap f (rs ++ [r]) = omap f rs ++ option_list (f r)) as Ho.
  { intros A f. rewrite omap_app. f_equal. }
  split.
  - by rewrite Hm', Ho, Hm.
  - by rewrite Ha', Ho, Ha.
  - intros tx. rewrite Ht', lookup_insert_is_Some', Hs. split.
    + intros [<-|(r0 & Hr & Hx)]; [exists r|exists r0]; rewrite elem_of_app, list_elem_of_singleton; auto.
    + intros (r0 & Hr & Hx). rewrite elem_of_app, list_elem_of_singleton in Hr. destruct Hr as [Hr| ->]; eauto.
  - intros tx t0. rewrite Ht', lookup_insert_Some. intros [[<- <-]|[Hne Hx]]; [done|].
    eapply (entry_other rs c c' r); try done; [by apply He| |].
    + unfold mutation_of. repeat case_match; eauto.
    + unfold allocation_of. repeat case_match; eauto.
Qed.

Lemma collect_all_spec rs rs' c c' : collected rs c -> collect_all c rs' = Ok c' -> collected (rs ++ rs') c'.
Proof.
  revert rs c. induction rs' as [|r rs' IH]; intros rs c Hc H; simpl in H; [by simplify_eq; rewrite app_nil_r|].
  destruct (collect c r) as [c1|] eqn:E; [|done]. change (r :: rs') with ([r] ++ rs'). rewrite app_assoc. eapply IH; [|done].
  by eapply collect_spec.
Qed.

Lemma collected_start : collected [] (mkCollected [] [] ∅).
Proof.
  split; try done.
  intros tx. cbn [c_transactions]. rewrite lookup_empty. split; [by intros []|]. by intros (r & Hr%not_elem_of_nil & _).
Qed.

Lemma in_order_elem {A} (m : gmap Z A) p : p ∈ in_order m <-> m !! p.1 = Some p.2.
Proof. unfold in_order. rewrite merge_sort_Permutation. destruct p. apply elem_of_map_to_list. Qed.

Lemma no_conflict m tx t :
  existsb (fun p => conflicting p.2) (in_order m) = false -> m !! tx = Some t -> conflicting t = false.
Proof.
  intros He Ht. apply not_true_iff_false. intros Hc. apply not_true_iff_false in He. apply He, existsb_exists.
  exists (tx, t). split; [|done]. by apply list_elem_of_In, in_order_elem.
Qed.

(** The payload a record of its type has to have. *)
Definition payload_ok (r : WalRecord) : Prop :=
  match rec_type r with
  | Begin | Commit | Abort => rec_payload r = []
  | PhysicalMutationRecord => exists m, decode_physical_mutation (rec_payload r) = Ok m
  | PageAllocate => exists page, decode_page_allocate (rec_payload r) = Ok page
  end.

Lemma collect_all_payloads rs c c' : collect_all c rs = Ok c' -> Forall payload_ok rs.
Proof.
  revert c. induction rs as [|r rs IH]; intros c H; [constructor|]. cbn [collect_all] in H.
  destruct (collect c r) as [c1|] eqn:E; [|done]. constructor; [|by eapply IH].
  unfold collect, validate_empty_payload in E. unfold payload_ok.
  destruct (rec_type r); try (by case_bool_decide); repeat case_match; simplify_eq; eauto.
Qed.

(** What the analysis promises to the passes behind it. *)
Record analyzed (s : RecoveryState) : Prop := {
  az_mutations : mutations s = omap mutation_of (records s);
  az_allocations : allocations s = omap allocation_of (records s);
  az_seen : forall tx, is_Some (transaction s tx) <-> exists r, r ∈ records s /\ rec_tx r = tx;
  az_status : forall tx t, transaction s tx = Some t ->
    (status t = Committed <-> logged Commit tx (records s) = true) /\
    (status t = Aborted <-> logged Abort tx (records s) = true) /\
    (status t = Incomplete <-> logged Commit tx (records s) = false /\ logged Abort tx (records s) = false);
  az_indexes : forall tx t, transaction s tx = Some t ->
    select (mutations s) (mutation_indexes t) = filter (fun m => mr_tx m = tx) (mutations s) /\
    select (allocations s) (allocation_indexes t) = filter (fun a => al_tx a = tx) (allocations s) /\
    Forall (fun i => i < length (mutations s))%nat (mutation_indexes t) /\
    Forall (fun i => i < length (allocations s))%nat (allocation_indexes t);
  az_payloads : Forall payload_ok (records s);
}.

Lemma analyze_ok content s :
  analyze (Some content) = Ok s -> read_records (Some content) = Ok (records s) /\ analyzed s.
Proof.
  unfold analyze, analyze_records. destruct (read_records (Some content)) as [rs|] eqn:Hr; [|done].
  destruct (collect_all _ rs) as [c|] eqn:Hc; [|done]. case_match eqn:Hex; [done|]. intros [= <-]. split; [done|].
  pose proof (collect_all_spec [] rs _ _ collected_start Hc) as [Hm Ha Hs He]. simpl in *. split; simpl; try done.
  - intros tx. unfold transaction. cbn. by rewrite lookup_fmap, fmap_is_Some.
  - intros tx t. unfold transaction. cbn. rewrite lookup_fmap. intros (t0 & Ht0 & ->)%fmap_Some.
    pose proof (no_conflict _ _ _ Hex Ht0) as Hcf. destruct (He _ _ Ht0) as [_ _ E1 E2 _ _ _ _].
    unfold conflicting in Hcf. rewrite E1, E2 in Hcf. cbn. rewrite E1, E2.
    clear -Hcf. destruct (logged Commit tx rs), (logged Abort tx rs); [done|..]; split_and!; split; naive_solver.
  - intros tx t. unfold transaction. cbn. rewrite lookup_fmap. intros (t0 & Ht0 & ->)%fmap_Some.
    by destruct (He _ _ Ht0).
  - by eapply collect_all_payloads.
Qed.

(** A transaction with both a commit and an abort record is refused. *)
Lemma conflict_refused content rs tx :
  read_records (Some content) = Ok rs -> logged Commit tx rs = true -> logged Abort tx rs = true ->
  exists e, analyze (Some content) = Throw e.
Proof.
  intros Hr Hc Ha. destruct (analyze (Some content)) as [s|e] eqn:E; [exfalso|by exists e].
  destruct (analyze_ok _ _ E) as [Hr' Hs]. assert (records s = rs) as Hrs by congruence.
  assert (is_Some (transaction s tx)) as [t Ht].
  { apply (az_seen _ Hs). rewrite Hrs. unfold logged in Hc. apply existsb_exists in Hc as (r & Hin%list_elem_of_In & Hx).
    apply andb_true_iff in Hx as [_ Hx%Z.eqb_eq]. by exists r. }
  destruct (az_status _ Hs tx t Ht) as (H1 & H2 & _). rewrite Hrs in H1, H2. apply H1 in Hc. apply H2 in Ha. congruence.
Qed.

(** C28: The analysis tells winners from losers.  Whatever file [analyze] accepts, a transaction
    is known exactly if the log has a record of it; it is then committed, aborted or incomplete
    exactly if the log has its commit record, its abort record or neither, and its indexes select
    its own mutations and allocations; all mutations and allocations are those of the log in order. *)
Theorem analysis_classifies content s :
  analyze (Some content) = Ok s ->
  read_records (Some content) = Ok (records s) /\
  mutations s = omap mutation_of (records s) /\ allocations s = omap allocation_of (records s) /\
  forall tx, match transaction s tx with
  | None => forall r, r ∈ records s -> rec_tx r <> tx
  | Some t => (exists r, r ∈ records s /\ rec_tx r = tx) /\
      (status t = Committed <-> logged Commit tx (records s) = true) /\
      (status t = Aborted <-> logged Abort tx (records s) = true) /\
      (status t = Incomplete <-> logged Commit tx (records s) = false /\ logged Abort tx (records s) = false) /\
      select (mutations s) (mutation_indexes t) = filter (fun m => mr_tx m = tx) (mutations s) /\
      select (allocations s) (allocation_indexes t) = filter (fun a => al_tx a = tx) (allocations s)
  end.
Proof.
  intros H. destruct (analyze_ok _ _ H) as [Hr []]. split_and!; [done..|]. intros tx.
  destruct (transaction s tx) as [t|] eqn:Ht.
  - destruct (az_status0 _ _ Ht) as (? & ? & ?), (az_indexes0 _ _ Ht) as (? & ? & _).
    split; [|done]. by apply az_seen0; eexists.
  - intros r Hin Hx. assert (is_Some (transaction s tx)) as [t Hs] by (apply az_seen0; eauto). congruence.
Qed.

(** ** Logs the analysis accepts *)

Lemma logged_take ty tx n rs : logged ty tx (take n rs) = true -> logged ty tx rs = true.
Proof.
  unfold logged. rewrite !existsb_exists. intros (r & Hr & Hx). exists r. split; [|done].
  rewrite <- (take_drop n rs). apply in_or_app. by left.
Qed.

Lemma collect_all_ok rs c : Forall payload_ok rs -> exists c', collect_all c rs = Ok c'.
Proof.
  intros Hf. revert c. induction Hf as [|r rs Hr _ IH]; intros c; simpl; [by eexists|].
  assert (exists c1, collect c r = Ok c1) as [c1 ->]; [|apply IH].
  unfold collect, validate_empty_payload, payload_ok in *.
  destruct (rec_type r); try (rewrite bool_decide_true by done; by eexists);
    destruct Hr as [x ->]; by eexists.
Qed.

(** The analysis accepts every log of finished appends cut off anywhere: if the records are
    well formed, carry the payloads their types ask for and no transaction both committed and
    aborted, [analyze] of the file succeeds with exactly the complete records. *)
Theorem analysis_accepts rs k :
  Forall record_wf rs -> ascending 0 rs -> 0 <= k -> Forall payload_ok rs ->
  (forall tx, logged Commit tx rs && logged Abort tx rs = false) ->
  exists s, analyze (Some (take (Z.to_nat k) (log_bytes rs))) = Ok s /\ records s = complete k rs.
Proof.
  intros Hwf Hasc Hk Hpl Hcf. unfold analyze, analyze_records. rewrite read_records_prefix_eq by done.
  destruct (complete_take k rs Hwf Hk) as (n & -> & _).
  destruct (collect_all_ok (take n rs) (mkCollected [] [] ∅)) as [c Hc]; [by apply Forall_take|]. rewrite Hc.
  pose proof (collect_all_spec [] _ _ _ collected_start Hc) as [_ _ _ He]. simpl in He.
  case_match eqn:Hex; [|by eexists]. apply existsb_exists in Hex as ([tx t] & Hin & Hx).
  apply list_elem_of_In, in_order_elem in Hin. cbn in Hin, Hx. destruct (He _ _ Hin) as [_ _ E1 E2 _ _ _ _].
  unfold conflicting in Hx. rewrite E1, E2 in Hx. apply andb_true_iff in Hx as [H1 H2].
  apply logged_take in H1, H2. specialize (Hcf tx). by rewrite H1, H2 in Hcf.
Qed.

(** ** Examples *)

Definition log_example : list WalRecord := [rec_begin; rec_alloc; rec_commit].

Definition state_example : RecoveryState :=
  match analyze_records (zlen (log_bytes log_example)) log_example with
  | Ok s => s
  | Throw _ => mkState [] [] [] ∅ (mkMetrics 0 0 0 0 0 0 0 0 0 0)
  end.

Lemma analysis_classifies_witness :
  status <$> transaction state_example 7 = Some Committed /\ transaction state_example 8 = None.
Proof.
  assert (analyze (Some (log_bytes log_example)) = Ok state_example) as H1.
  { rewrite analyze_log by exact rec_examples_wf || (vm_compute; split_and!; done). vm_compute. reflexivity. }
  assert (records state_example = log_example) as Hr by (vm_compute; reflexivity).
  pose proof (analysis_classifies _ _ H1) as (_ & _ & _ & Hx). rewrite Hr in Hx. split.
  - specialize (Hx 7). destruct (transaction state_example 7) as [t|].
    + destruct Hx as (_ & Hc & _). cbn. f_equal. apply Hc. vm_compute. reflexivity.
    + exfalso. exact (Hx rec_begin ltac:(left) eq_refl).
  - specialize (Hx 8). destruct (transaction state_example 8) as [t|]; [|done].
    exfalso. destruct Hx as ((r & Hin & Htx) & _). unfold log_example in Hin.
    repeat (apply elem_of_cons in Hin as [-> | Hin]; [discriminate Htx|]). by apply not_elem_of_nil in Hin.
Defined.

Lemma analysis_accepts_witness :
  exists s, analyze (Some (take (Z.to_nat 100) (log_bytes log_example))) = Ok s /\ records s = complete 100 log_example.
Proof.
  apply (analysis_accepts log_example 100).
  - exact rec_examples_wf.
  - vm_compute. split_and!; done.
  - lia.
  - repeat constructor. exists 5. vm_compute. reflexivity.
  - intros tx. unfold logged. cbn. by rewrite !orb_false_r, !andb_false_r.
Defined.

End RA.
