(* ===== verification/Recovery.v ===== *)
(** * Replay, REDO and UNDO

    Models [src/src/recovery/replay_context.cpp], [redo_engine.cpp] and [undo_engine.cpp].  A
    [ReplayContext] changes pages through the buffer pool without writing log records; the REDO
    pass repeats what committed transactions did, in log order, where the PageLSN tells it is
    missing; the UNDO pass rebuilds every page a loser touched from its history and releases the
    pages losers allocated. *)

From stdpp Require Import sorting.
From S2P Require Import Prelude Bytes Page Stream PageStore PageManager Wal LogManager BufferPool Mutation Analysis.

Module RE.

(** ** [ReplayContext] *)

Record Replay : Type := mkReplay {
  active_ : bool;
  undone_lsns_ : gset Z;
  reconstructed_pages_ : gset Z;
}.

Definition new_replay : Replay := mkReplay true ∅ ∅.
(** [~ReplayContext] *)
Definition destroy (r : Replay) : Replay := mkReplay false (undone_lsns_ r) (reconstructed_pages_ r).

Record World : Type := mkW { w_replay : Replay; w_pool : BP.t; w_pages : PM.t }.

Definition on_pool {A} (m : M (BP.t * PM.t) A) : M World A :=
  zoom (fun w => (w_pool w, w_pages w)) (fun x w => mkW (w_replay w) x.1 x.2) m.
Definition on_pages {A} (m : M PM.t A) : M World A :=
  zoom w_pages (fun p w => mkW (w_replay w) (w_pool w) p) m.
Definition mark_undone (lsn : Z) : M World unit :=
  modify (fun w => mkW (mkReplay (active_ (w_replay w)) ({[lsn]} ∪ undone_lsns_ (w_replay w)) (reconstructed_pages_ (w_replay w)))
                     (w_pool w) (w_pages w)).
Definition mark_reconstructed (page : Z) : M World unit :=
  modify (fun w => mkW (mkReplay (active_ (w_replay w)) (undone_lsns_ (w_replay w)) ({[page]} ∪ reconstructed_pages_ (w_replay w)))
                     (w_pool w) (w_pages w)).

(** [if (!pool_.unpin_page(id, dirty)) throw std::runtime_error(what);] *)
Definition unpin (id : PageId) (dirty : bool) (what : string) : M World unit :=
  let! ok := on_pool (BP.unpin_page id dirty) in
  throw_if (negb ok) (RuntimeError what).

Section replay.
(** What the pool's durability provider answers; recovery appends nothing to the log. *)
Context (wal : option Z).

Definition redo_page_allocate (id : PageId) : M World bool :=
  let! w := get in
  throw_if (negb (active_ (w_replay w))) (LogicError "replay context is inactive") ;;
  throw_if (negb (is_valid id)) (StorageError "invalid recovery allocation page id") ;;
  let! materialized :=
    (if id =? PM.page_count_ (w_pages w) then
       throw_if (BP.contains (w_pool w) id) (LogicError "cannot materialize a resident replay page") ;;
       on_pages (PM.materialize_page_for_recovery id) ;;
       ret true
     else
       throw_if (PM.page_count_ (w_pages w) <? id) (StorageError "recovery allocation would create a physical gap") ;;
       ret false) in
  on_pages (PM.validate_physical_page_for_recovery id) ;;
  let! w := get in
  (if PM.is_page_allocated (w_pages w) id then ret tt else on_pages (PM.activate_reserved_page id)) ;;
  ret materialized.

Definition redo_physical_mutation (lsn : Z) (m : PhysicalMutation) : M World bool :=
  let! w := get in
  throw_if (negb (active_ (w_replay w))) (LogicError "replay context is inactive") ;;
  throw_if ((lsn =? 0) || negb (is_valid (mut_page m)) || negb (zlen (mut_after m) =? kPagePayloadSize)
            || negb (zlen (mut_before m) =? kPagePayloadSize)) (InvalidArgument "invalid recovery physical mutation") ;;
  let! p := on_pool (BP.fetch_page wal (mut_page m)) in
  match p with
  | None => throw (RuntimeError "cannot pin recovery mutation page")
  | Some i =>
      let! w := get in
      if lsn <=? page_lsn (BP.fr_page (BP.frame (w_pool w) i)) then
        unpin (mut_page m) false "cannot unpin skipped recovery page" ;;
        ret false
      else
        on_pool (BP.write_frame i (fun pg => set_lsn lsn (set_data (mut_after m) pg))) ;;
        unpin (mut_page m) true "cannot unpin recovery mutation page" ;;
        ret true
  end.

Definition undo_physical_mutation (lsn restored_lsn : Z) (m : PhysicalMutation) : M World bool :=
  let! w := get in
  throw_if (negb (active_ (w_replay w))) (LogicError "UNDO requires an active replay context") ;;
  throw_if ((lsn =? 0) || negb (is_valid (mut_page m)) || negb (zlen (mut_before m) =? kPagePayloadSize))
    (InvalidArgument "invalid recovery undo mutation") ;;
  if bool_decide (lsn ∈ undone_lsns_ (w_replay w)) then ret false
  else
  let! p := on_pool (BP.fetch_page wal (mut_page m)) in
  match p with
  | None => throw (RuntimeError "cannot pin undo page")
  | Some i =>
      let! w := get in
      let current := page_lsn (BP.fr_page (BP.frame (w_pool w) i)) in
      if current <? lsn then
        unpin (mut_page m) false "cannot unpin skipped undo page" ;;
        mark_undone lsn ;;
        ret false
      else if lsn <? current then
        on_pool (BP.unpin_page (mut_page m) false) ;;
        throw (LogicError "impossible undo PageLSN transition")
      else
        on_pool (BP.write_frame i (set_data (mut_before m))) ;;
        on_pool (BP.restore_page_lsn_after_undo (mut_page m) restored_lsn) ;;
        unpin (mut_page m) true "cannot unpin undo page" ;;
        mark_undone lsn ;;
        ret true
  end.

Definition undo_page_allocate (id : PageId) : M World bool :=
  let! w := get in
  throw_if (negb (active_ (w_replay w))) (LogicError "UNDO requires an active replay context") ;;
  throw_if (negb (is_valid id)) (StorageError "invalid undo allocation page id") ;;
  if (PM.page_count_ (w_pages w) <=? id) || negb (PM.is_page_allocated (w_pages w) id) then ret false
  else
    let! ok := on_pool (BP.delete_page wal id) in
    throw_if (negb ok) (LogicError "cannot release pinned undo allocation page") ;;
    on_pages (PM.deallocate_page id) ;;
    ret true.

Definition reconstruct_page (id : PageId) (payload : bytes) (lsn : Z) : M World bool :=
  let! w := get in
  throw_if (negb (active_ (w_replay w))) (LogicError "page reconstruction requires active replay context") ;;
  throw_if (negb (is_valid id) || negb (zlen payload =? kPagePayloadSize))
    (InvalidArgument "invalid reconstructed page image") ;;
  if bool_decide (id ∈ reconstructed_pages_ (w_replay w)) then ret false
  else
  let! p := on_pool (BP.fetch_page wal id) in
  match p with
  | None => throw (RuntimeError "cannot pin reconstructed page")
  | Some i =>
      on_pool (BP.write_frame i (fun pg => set_lsn lsn (set_data payload pg))) ;;
      unpin id true "cannot unpin reconstructed page" ;;
      mark_reconstructed id ;;
      ret true
  end.

(** ** [RedoEngine::run] *)

(** The time measurements are left out. *)
Record RedoMetrics : Type := mkRedo {
  rm_records_considered : Z;
  rm_committed_transactions : Z;
  rm_page_allocates_processed : Z;
  rm_pages_materialized : Z;
  rm_physical_mutations_considered : Z;
  rm_mutations_applied : Z;
  rm_mutations_skipped_page_lsn : Z;
}.

(** Adding to the counters, in the order of the fields. *)
Definition redo_add (a b c d e f g : Z) (m : RedoMetrics) : RedoMetrics :=
  mkRedo (rm_records_considered m + a) (rm_committed_transactions m + b) (rm_page_allocates_processed m + c)
    (rm_pages_materialized m + d) (rm_physical_mutations_considered m + e) (rm_mutations_applied m + f)
    (rm_mutations_skipped_page_lsn m + g).

Definition redo_record (s : RA.RecoveryState) (m : RedoMetrics) (r : WalRecord) : M World RedoMetrics :=
  match RA.transaction s (rec_tx r) with
  | None => throw (LogicError "recovery record has no transaction analysis")
  | Some t =>
      match RA.status t, rec_type r with
      | RA.Committed, PageAllocate =>
          match list_find (fun a => RA.al_lsn a = rec_lsn r /\ RA.al_tx a = rec_tx r) (RA.allocations s) with
          | None => throw (LogicError "missing analyzed PAGE_ALLOCATE record")
          | Some (_, a) =>
              let! materialized := redo_page_allocate (RA.al_page a) in
              ret (redo_add 1 0 1 (if materialized then 1 else 0) 0 0 0 m)
          end
      | RA.Committed, PhysicalMutationRecord =>
          match list_find (fun a => RA.mr_lsn a = rec_lsn r /\ RA.mr_tx a = rec_tx r) (RA.mutations s) with
          | None => throw (LogicError "missing analyzed physical mutation")
          | Some (_, a) =>
              let! applied := redo_physical_mutation (rec_lsn r) (RA.mr_mutation a) in
              ret (redo_add 1 0 0 0 1 (if applied then 1 else 0) (if applied then 0 else 1) m)
          end
      | _, _ => ret (redo_add 1 0 0 0 0 0 0 m)
      end
  end.

Fixpoint redo_records (s : RA.RecoveryState) (m : RedoMetrics) (rs : list WalRecord) : M World RedoMetrics :=
  match rs with
  | [] => ret m
  | r :: rs => let! m := redo_record s m r in redo_records s m rs
  end.

Definition redo_run (s : RA.RecoveryState) : M World RedoMetrics :=
  let! w := get in
  throw_if (negb (active_ (w_replay w))) (LogicError "REDO requires an active replay context") ;;
  redo_records s (mkRedo 0 (RA.count_status RA.Committed (RA.transactions s)) 0 0 0 0 0) (RA.records s).

(** ** [UndoEngine::run] *)

Record UndoMetrics : Type := mkUndo {
  um_records_considered : Z;
  um_committed_transactions_skipped : Z;
  um_aborted_transactions : Z;
  um_incomplete_transactions : Z;
  um_mutations_considered : Z;
  um_mutations_undone : Z;
  um_mutations_skipped : Z;
  um_pages_touched : Z;
  um_allocations_released : Z;
}.

Definition is_committed (s : RA.RecoveryState) (tx : Z) : bool :=
  match RA.transaction s tx with Some t => bool_decide (RA.status t = RA.Committed) | None => false end.

(** [vector::at] for every index. *)
Fixpoint at_all {A} (l : list A) (ix : list nat) : outcome (list A) :=
  match ix with
  | [] => Ok []
  | i :: ix =>
      match l !! i, at_all l ix with
      | None, _ => Throw (OutOfRange "vector::at")
      | _, Throw e => Throw e
      | Some a, Ok rest => Ok (a :: rest)
      end
  end.

(** What the losers changed and allocated, transaction by transaction in the order of their ids. *)
Fixpoint loser_records (s : RA.RecoveryState) (ts : list (Z * RA.TransactionAnalysis)) :
    outcome (list RA.MutationRecord * list RA.AllocationRecord) :=
  match ts with
  | [] => Ok ([], [])
  | (_, t) :: ts =>
      match RA.status t with
      | RA.Committed => loser_records s ts
      | _ =>
          match at_all (RA.mutations s) (RA.mutation_indexes t), at_all (RA.allocations s) (RA.allocation_indexes t),
                loser_records s ts with
          | Throw e, _, _ | _, Throw e, _ | _, _, Throw e => Throw e
          | Ok ms, Ok als, Ok (ms', als') => Ok (ms ++ ms', als ++ als')
          end
      end
  end.

(** [if (before[i] != after[i]) image[i] = after[i]] for every byte of the image. *)
Fixpoint apply_delta (image before after : bytes) : bytes :=
  match image, before, after with
  | i :: image, b :: before, a :: after => (if b =? a then i else a) :: apply_delta image before after
  | _, _, _ => image
  end.

(** The loop over the history of a page: its image and the LSN of the last survivor. *)
Fixpoint replay_history (s : RA.RecoveryState) (image : bytes) (lsn : Z) (h : list RA.MutationRecord) : outcome (bytes * Z) :=
  match h with
  | [] => Ok (image, lsn)
  | e :: h =>
      match RA.transaction s (RA.mr_tx e) with
      | None => Throw (LogicError "mutation without transaction")
      | Some t =>
          if bool_decide (RA.status t = RA.Committed)
          then replay_history s (apply_delta image (mut_before (RA.mr_mutation e)) (mut_after (RA.mr_mutation e))) (RA.mr_lsn e) h
          else replay_history s image lsn h
      end
  end.

Definition history_of (s : RA.RecoveryState) (page : PageId) : list RA.MutationRecord :=
  merge_sort (RA.key_le RA.mr_lsn) (RA.mutations_for_page s page).

(** One page of the loop over the affected pages; returns (undone, skipped, touched). *)
Definition undo_page (s : RA.RecoveryState) (page : PageId) : M World (Z * Z * Z) :=
  let history := history_of s page in
  match history with
  | [] => throw (OutOfRange "map::at")
  | first :: _ =>
      let! result := lift (replay_history s (mut_before (RA.mr_mutation first)) 0 history) in
      let losers := count_if (fun e => negb (is_committed s (RA.mr_tx e))) history in
      let! done := reconstruct_page page result.1 result.2 in
      ret (if done then (losers, 0, 1) else (0, losers, 0))
  end.

Fixpoint undo_pages (s : RA.RecoveryState) (acc : Z * Z * Z) (pages : list PageId) : M World (Z * Z * Z) :=
  match pages with
  | [] => ret acc
  | page :: pages =>
      let! r := undo_page s page in
      undo_pages s (acc.1.1 + r.1.1, acc.1.2 + r.1.2, acc.2 + r.2) pages
  end.

Fixpoint undo_allocations (acc : Z) (als : list RA.AllocationRecord) : M World Z :=
  match als with
  | [] => ret acc
  | a :: als =>
      let! released := undo_page_allocate (RA.al_page a) in
      undo_allocations (if released then acc + 1 else acc) als
  end.

(** [std::set] of page identifiers, in order. *)
Definition page_set (ms : list RA.MutationRecord) : list PageId :=
  merge_sort Z.le (elements (list_to_set ((fun m => mut_page (RA.mr_mutation m)) <$> ms) : gset Z)).

(** [sort(allocations)] by descending LSN. *)
Definition newest_first (als : list RA.AllocationRecord) : list RA.AllocationRecord :=
  merge_sort (RA.key_le (fun a => - RA.al_lsn a)) als.

Definition undo_run (s : RA.RecoveryState) : M World UndoMetrics :=
  let! w := get in
  throw_if (negb (active_ (w_replay w))) (LogicError "UNDO requires active replay context") ;;
  let! losers := lift (loser_records s (RA.in_order (RA.transactions s))) in
  let! c := undo_pages s (0, 0, 0) (page_set losers.1) in
  let! released := undo_allocations 0 (newest_first losers.2) in
  ret (mkUndo (zlen losers.1 + zlen losers.2) (RA.count_status RA.Committed (RA.transactions s))
         (RA.count_status RA.Aborted (RA.transactions s)) (RA.count_status RA.Incomplete (RA.transactions s))
         (zlen losers.1) c.1.1 c.1.2 c.2 released).

(** Recovery as its users run it: analysis, REDO, UNDO. *)
Definition recover (file : option bytes) : M World (RedoMetrics * UndoMetrics) :=
  let! s := lift (RA.analyze file) in
  let! redo := redo_run s in
  let! undo := undo_run s in
  ret (redo, undo).

End replay.

(** ** What the analysis guarantees about the records the passes work on *)

Record mutation_ok (a : RA.MutationRecord) : Prop := {
  mo_lsn : 0 < RA.mr_lsn a < 2 ^ 64;
  mo_page : is_u64 (mut_page (RA.mr_mutation a));
  mo_valid : is_valid (mut_page (RA.mr_mutation a)) = true;
  mo_before : zlen (mut_before (RA.mr_mutation a)) = kPagePayloadSize;
  mo_after : zlen (mut_after (RA.mr_mutation a)) = kPagePayloadSize;
  mo_before_bytes : Forall is_byte (mut_before (RA.mr_mutation a));
  mo_after_bytes : Forall is_byte (mut_after (RA.mr_mutation a));
}.

Lemma mutation_of_ok r a : record_wf r -> RA.mutation_of r = Some a -> mutation_ok a.
Proof.
  intros [Hl _ _ Hb]. unfold RA.mutation_of. destruct (rec_type r); try done.
  destruct (decode_physical_mutation (rec_payload r)) as [m|] eqn:Hd; [|done]. intros [= <-].
  unfold decode_physical_mutation in Hd. cbv zeta in Hd.
  apply require_ok in Hd as [H1 Hd]. apply require_ok in Hd as [H2 Hd]. apply require_ok in Hd as [_ Hd].
  apply require_ok in Hd as [H3 [= <-]]. bprop. rewrite H, H2 in *. split; cbn; try done.
  - apply (le_value_range 8); [done|lia|lia].
  - rewrite slice_length. lia.
  - rewrite slice_length. lia.
  - by apply Forall_take, Forall_drop.
  - by apply Forall_take, Forall_drop.
Qed.

Lemma allocation_of_ok r a :
  record_wf r -> RA.allocation_of r = Some a -> is_u64 (RA.al_page a) /\ is_valid (RA.al_page a) = true.
Proof.
  intros [_ _ _ Hb]. unfold RA.allocation_of. destruct (rec_type r); try done.
  destruct (decode_page_allocate (rec_payload r)) as [p|] eqn:Hd; [|done]. intros [= <-].
  unfold decode_page_allocate in Hd. cbv zeta in Hd. apply require_ok in Hd as [H1 Hd].
  apply require_ok in Hd as [H [= <-]]. bprop. split; [|done]. apply (le_value_range 8); [done|lia|lia].
Qed.

(** ** What single replay steps do *)

#[local] Opaque PM.stored_page PM.is_page_allocated PM.deallocate_page.

Definition wx (w : World) : BP.t * PM.t := (w_pool w, w_pages w).

(** A step that ends with every pin given back. *)
Record steady (w w' : World) : Prop := {
  st_inv : BP.pool_inv None (wx w');
  st_pins : forall j, BP.pins (w_pool w') j = BP.pins (w_pool w) j;
  st_active : active_ (w_replay w') = active_ (w_replay w);
  st_healthy : PM.pm_healthy (w_pages w) -> PM.pm_healthy (w_pages w');
}.

Lemma steady_refl w : BP.pool_inv None (wx w) -> steady w w.
Proof. intros. by split. Qed.

Lemma steady_trans w1 w2 w3 : steady w1 w2 -> steady w2 w3 -> steady w1 w3.
Proof. intros [? Hp Ha Hh] [? Hp' Ha' Hh']. split; [done|intros; by rewrite Hp'|congruence|auto]. Qed.

Section steps.
Context (wal : option Z).

(** A page with a new image and PageLSN. *)
Definition overwritten (lsn : Z) (image : bytes) (pg : Page) : Page := set_lsn lsn (set_data image pg).

Lemma fetch_steady w id :
  BP.pool_inv None (wx w) -> is_u64 id ->
  wp (on_pool (BP.fetch_page wal id)) w (fun r w' =>
    BP.pool_inv None (wx w') /\ w_replay w' = w_replay w /\ BP.transparent wal (wx w) (wx w') /\
    (BP.tidy wal (wx w) -> BP.tidy wal (wx w')) /\
    match r with
    | Ok (Some i) => BP.page_table_ (w_pool w') !! id = Some i /\ 
        BP.view (wx w) id = Some (BP.fr_page (BP.frame (w_pool w') i)) /\
        BP.pins (w_pool w') id = BP.pins (w_pool w) id + 1 /\
        (forall j, j <> id -> BP.pins (w_pool w') j = BP.pins (w_pool w) j) /\ BP.unpin_allowed (wx w') id false
    | _ => steady w w'
    end /\
    (BP.tidy wal (wx w) -> BP.unpinned (w_pool w) -> PM.pm_healthy (w_pages w) -> is_valid id = true ->
     PM.is_page_allocated (w_pages w) id = true -> is_Some (BP.view (wx w) id) -> exists i, r = Ok (Some i))).
Proof.
  intros Hinv Hid. unfold on_pool. wp_step. apply wp_intro. intros r x' E.
  destruct (wp_elim _ _ _ _ _ (BP.fetch_page_spec wal (wx w) id Hinv Hid) E) as (Hinv' & Htr & Hr & Hlive).
  assert (wx (mkW (w_replay w) x'.1 x'.2) = x') as Hx by by destruct x'. rewrite Hx. split_and!.
  - exact Hinv'.
  - done.
  - exact Htr.
  - intros Htd. exact (wp_elim _ _ _ _ _ (BP.fetch_page_tidy wal (wx w) id Hinv Hid Htd) E).
  - destruct r as [[i|]|e].
    + destruct Hr as (_ & H1 & H2 & H3 & H4 & H5). exact (conj H1 (conj H2 (conj H3 (conj H4 H5)))).
    + split; rewrite ?Hx; [exact Hinv'|exact Hr|done|apply Htr].
    + split; rewrite ?Hx; [exact Hinv'|exact Hr|done|apply Htr].
  - intros Htd Hu Hh Hv Ha Hs. apply Hlive; try assumption. by apply BP.tidy_fetchable.
Qed.

Lemma write_steady w id i g what :
  BP.pool_inv None (wx w) -> BP.page_table_ (w_pool w) !! id = Some i -> 0 < BP.pins (w_pool w) id ->
  page_wf (g (BP.fr_page (BP.frame (w_pool w) i))) -> page_id (g (BP.fr_page (BP.frame (w_pool w) i))) = id ->
  wp (on_pool (BP.write_frame i g) ;; unpin id true what) w (fun r w' =>
    r = Ok tt /\ BP.pool_inv None (wx w') /\ w_replay w' = w_replay w /\ w_pages w' = w_pages w /\
    (forall j, BP.view (wx w') j = if decide (j = id) then Some (g (BP.fr_page (BP.frame (w_pool w) i))) else BP.view (wx w) j) /\
    BP.pins (w_pool w') id = BP.pins (w_pool w) id - 1 /\
    (forall j, j <> id -> BP.pins (w_pool w') j = BP.pins (w_pool w) j) /\
    (BP.tidy wal (wx w) -> BP.wal_covers wal (page_lsn (g (BP.fr_page (BP.frame (w_pool w) i)))) = true ->
     BP.tidy wal (wx w'))).
Proof.
  intros Hinv Hi Hpin Hwf Hgid.
  apply (wp_eq _ (let! ok := on_pool (BP.write_frame i g ;; BP.unpin_page id true) in throw_if (negb ok) (RuntimeError what)));
    [reflexivity|].
  unfold on_pool. wp_step. wp_step. apply wp_intro. intros r x' E.
  destruct (wp_elim _ _ _ _ _ (MC.write_unpin_spec (wx w) id i g Hinv Hi Hpin Hwf Hgid) E)
    as (-> & Hinv' & Hs & _ & Hv & Hp & Hpo & _).
  assert (wx (mkW (w_replay w) x'.1 x'.2) = x') as Hx by by destruct x'. wp_steps; [done|]. rewrite Hx. split_and!; try done.
  intros Htd Hcov. exact (wp_elim _ _ _ _ _ (MC.write_unpin_tidy wal (wx w) id i g Hinv Hi Hpin Hwf Hgid Htd Hcov) E).
Qed.

Lemma unpin_steady w id what :
  BP.pool_inv None (wx w) -> BP.unpin_allowed (wx w) id false -> 0 < BP.pins (w_pool w) id ->
  wp (unpin id false what) w (fun r w' =>
    r = Ok tt /\ BP.pool_inv None (wx w') /\ w_replay w' = w_replay w /\ w_pages w' = w_pages w /\
    (forall j, BP.view (wx w') j = BP.view (wx w) j) /\
    BP.pins (w_pool w') id = BP.pins (w_pool w) id - 1 /\
    (forall j, j <> id -> BP.pins (w_pool w') j = BP.pins (w_pool w) j) /\
    (BP.tidy wal (wx w) -> BP.tidy wal (wx w'))).
Proof.
  intros Hinv Hal Hpin. unfold unpin, on_pool. wp_step. wp_step. apply wp_intro. intros r x' E.
  destruct (wp_elim _ _ _ _ _ (BP.unpin_page_spec (wx w) id false Hinv Hal) E)
    as (Hinv' & (Hv & _ & Hs) & _ & -> & Hp & Hpo & _).
  assert (wx (mkW (w_replay w) x'.1 x'.2) = x') as Hx by by destruct x'. cbn [fst wx] in Hp.
  change (w_pool w) with (wx w).1 in Hpin. replace (0 <? BP.pins (wx w).1 id) with true in * by lia.
  wp_steps; [done|]. rewrite Hx. split_and!; try done.
  - cbn [w_pool]. rewrite Hp. cbn [wx fst] in *. by replace (0 <? BP.pins (w_pool w) id) with true by lia.
  - intros Htd. exact (wp_elim _ _ _ _ _ (BP.unpin_page_tidy wal (wx w) id false Hinv Hal Htd) E).
Qed.

(** What a REDO step makes of a page. *)
Definition redo_one (lsn : Z) (m : PhysicalMutation) (pg : Page) : Page :=
  if lsn <=? page_lsn pg then pg else overwritten lsn (mut_after m) pg.

(** The page is there to be changed, and nothing will fail. *)
Definition accessible w id : Prop :=
  BP.tidy wal (wx w) /\ BP.unpinned (w_pool w) /\ PM.pm_healthy (w_pages w) /\ is_valid id = true /\
  PM.is_page_allocated (w_pages w) id = true /\ is_Some (BP.view (wx w) id) /\ active_ (w_replay w) = true.

Lemma redo_physical_mutation_spec w lsn m :
  BP.pool_inv None (wx w) -> mutation_ok (RA.mkMutationRecord lsn 0 m) ->
  wp (redo_physical_mutation wal lsn m) w (fun r w' =>
    steady w w' /\ w_replay w' = w_replay w /\ PM.is_page_allocated (w_pages w') = PM.is_page_allocated (w_pages w) /\
    match r with
    | Ok b => exists pg, BP.view (wx w) (mut_page m) = Some pg /\ b = (page_lsn pg <? lsn) /\
        forall j, BP.view (wx w') j = if decide (j = mut_page m) then Some (redo_one lsn m pg) else BP.view (wx w) j
    | Throw _ => forall j, BP.view (wx w') j = BP.view (wx w) j
    end /\
    (BP.tidy wal (wx w) -> BP.wal_covers wal lsn = true -> BP.tidy wal (wx w')) /\
    (accessible w (mut_page m) -> exists b, r = Ok b)).
Proof.
  intros Hinv [Hl Hid Hv Hb Ha Hbb Hab]. cbn in *. set (id := mut_page m) in *. unfold redo_physical_mutation.
  match goal with |- wp _ _ ?Q => set (Post := Q) end.
  pose proof (steady_refl w Hinv) as Hst. wp_step. wp_step. wp_step. wp_step; bprop.
  { unfold Post. split_and!; try done. intros (_ & _ & _ & _ & _ & _ & ?). congruence. }
  fold id. rewrite Hv, Ha, Hb, Z.eqb_refl. replace (lsn =? 0) with false by lia. cbn [negb orb]. wp_step. wp_step; [done|].
  wp_step. wp_use fetch_steady; [done|done|]. intros [[i|]|e] w1 (Hinv1 & Hre1 & Htr & Htd & Hr & Hlive).
  2:{ wp_steps. unfold Post. split_and!; try apply Htr; try done.
      - intros. by apply Htd.
      - intros (? & ? & ? & ? & ? & ? & ?). by destruct Hlive as [? ?]. }
  2:{ unfold Post. split_and!; try apply Htr; try done.
      - intros. by apply Htd.
      - intros (? & ? & ? & ? & ? & ? & ?). by destruct Hlive as [? ?]. }
  clear Hlive. destruct Hr as (Hi & Hvw & Hp & Hpo & Hun). pose proof (MC.pins_nonneg _ _ id Hinv) as Hnn. cbn [wx fst] in Hnn.
  set (pg := BP.fr_page (BP.frame (w_pool w1) i)) in *.
  destruct (BP.table_frame _ _ _ _ (BP.pi_wf _ _ Hinv1) Hi) as (Hfr & Ho & Hpid).
  pose proof (BP.wf_frames _ _ (BP.pi_wf _ _ Hinv1) _ _ Hfr) as [_ _ Hpwf]. cbn [wx fst] in Hpid, Hpwf.
  fold pg in Hpid, Hpwf. pose proof Hpwf as [Hw1 Hw2 Hw3 Hw4].
  do 2 wp_step. fold pg. wp_step; bprop.
  - wp_step. wp_use unpin_steady; [done|done|lia|]. intros r w2 (-> & Hinv2 & Hre2 & Hs2 & Hv2 & Hp2 & Hpo2 & Htd2).
    wp_steps. unfold Post. split_and!.
    + split; [done| |congruence|rewrite Hs2; apply Htr].
      intros j. destruct (decide (j = id)) as [->|]; [lia|]. by rewrite Hpo2, Hpo.
    + congruence.
    + rewrite Hs2. apply Htr.
    + exists pg. split_and!; [done|lia|]. intros j. rewrite Hv2, (BP.tr_view _ _ _ Htr). case_decide; [|done].
      subst j. rewrite Hvw. unfold redo_one. by replace (lsn <=? page_lsn pg) with true by lia.
    + intros Ht _. by apply Htd2, Htd.
    + intros _. by eexists.
  - apply wp_assoc. wp_step. wp_use (write_steady w1 id i); [done|done|lia|by split; cbn; unfold is_u64; try lia|done|].
    intros r w2 (-> & Hinv2 & Hre2 & Hs2 & Hv2 & Hp2 & Hpo2 & Htd2). wp_steps. unfold Post. split_and!.
    + split; [done| |congruence|rewrite Hs2; apply Htr].
      intros j. destruct (decide (j = id)) as [->|]; [lia|]. by rewrite Hpo2, Hpo.
    + congruence.
    + rewrite Hs2. apply Htr.
    + exists pg. split_and!; [done|lia|]. intros j. rewrite Hv2, (BP.tr_view _ _ _ Htr). case_decide; [|done].
      fold pg. unfold redo_one. by replace (lsn <=? page_lsn pg) with false by lia.
    + intros Ht Hc. apply Htd2; [by apply Htd|done].
    + intros _. by eexists.
Qed.

Lemma redo_physical_mutation_intact w lsn m :
  BP.pool_inv None (wx w) -> is_u64 (mut_page m) -> PM.pm_healthy (w_pages w) ->
  wp (redo_physical_mutation wal lsn m) w (fun _ w' =>
    forall j, is_Some (PM.stored_page (w_pages w) j) -> is_Some (PM.stored_page (w_pages w') j)).
Proof.
  intros Hinv Hu Hh. unfold redo_physical_mutation, unpin, on_pool. wp_step. wp_step. wp_step. wp_step; [auto|].
  wp_step. wp_step; [auto|]. wp_step. wp_step. apply wp_intro. intros r x1 E.
  pose proof (wp_elim _ _ _ _ _ (BP.fetch_page_intact wal (mut_page m) (wx w) Hinv Hu Hh) E) as Hk. unfold BP.intact_kept in Hk.
  destruct r as [[i|]|e]; [|wp_steps; exact Hk|exact Hk]. wp_step. wp_step.
  assert (forall d (x : BP.t * PM.t), (BP.unpin_page (mut_page m) d x).2.2 = x.2) as Hun.
  { intros d x. exact (BP.run_store (BP.OpUnpin (mut_page m) d) x eq_refl). }
  wp_step.
  - do 3 wp_step. apply wp_intro. intros r x2 E2. cbn [w_pool w_pages] in E2.
    pose proof (Hun false (x1.1, x1.2)) as Hx. rewrite E2 in Hx. cbn [snd] in Hx.
    destruct r; wp_steps; cbn [w_pages]; rewrite Hx; exact Hk.
  - wp_step. wp_step. unfold BP.write_frame, BP.on_pool. do 4 wp_step. apply wp_intro. intros r x2 E2. cbn [w_pool w_pages fst snd] in E2.
    match type of E2 with BP.unpin_page _ _ ?x0 = _ => pose proof (Hun true x0) as Hx end. rewrite E2 in Hx. cbn [snd] in Hx.
    destruct r; wp_steps; cbn [w_pages]; rewrite Hx; exact Hk.
Qed.

Lemma reconstruct_page_spec w id payload lsn :
  BP.pool_inv None (wx w) -> is_u64 id -> is_u64 lsn -> Forall is_byte payload ->
  wp (reconstruct_page wal id payload lsn) w (fun r w' =>
    steady w w' /\ PM.is_page_allocated (w_pages w') = PM.is_page_allocated (w_pages w) /\
    match r with
    | Ok b => b = negb (bool_decide (id ∈ reconstructed_pages_ (w_replay w))) /\
        reconstructed_pages_ (w_replay w') = {[id]} ∪ reconstructed_pages_ (w_replay w) /\
        if b then exists pg, BP.view (wx w) id = Some pg /\
            forall j, BP.view (wx w') j = if decide (j = id) then Some (overwritten lsn payload pg) else BP.view (wx w) j
        else forall j, BP.view (wx w') j = BP.view (wx w) j
    | Throw _ => forall j, BP.view (wx w') j = BP.view (wx w) j
    end /\
    (BP.tidy wal (wx w) -> BP.wal_covers wal lsn = true -> BP.tidy wal (wx w')) /\
    (accessible w id -> zlen payload = kPagePayloadSize -> exists b, r = Ok b)).
Proof.
  intros Hinv Hid Hlsn Hb. unfold reconstruct_page. match goal with |- wp _ _ ?Q => set (Post := Q) end.
  pose proof (steady_refl w Hinv) as Hst. wp_step. wp_step. wp_step. wp_step; bprop.
  { unfold Post. split_and!; try done. intros (_ & _ & _ & _ & _ & _ & ?). congruence. }
  wp_step. wp_step.
  { unfold Post. split_and!; try done. intros (_ & _ & _ & Hv & _) Hz. rewrite Hv, Hz, Z.eqb_refl in *. done. }
  bprop. wp_step; bprop.
  { wp_steps. unfold Post. split_and!; [done|done|done|set_solver|done|done|by eexists]. }
  wp_step. wp_use fetch_steady; [done|done|]. intros [[i|]|e] w1 (Hinv1 & Hre1 & Htr & Htd & Hr & Hlive).
  2:{ wp_steps. unfold Post. split_and!; try apply Htr; try done.
      - intros. by apply Htd.
      - intros (? & ? & ? & ? & ? & ? & ?). by destruct Hlive as [? ?]. }
  2:{ unfold Post. split_and!; try apply Htr; try done.
      - intros. by apply Htd.
      - intros (? & ? & ? & ? & ? & ? & ?). by destruct Hlive as [? ?]. }
  clear Hlive. destruct Hr as (Hi & Hvw & Hp & Hpo & Hun). pose proof (MC.pins_nonneg _ _ id Hinv) as Hnn. cbn [wx fst] in Hnn.
  set (pg := BP.fr_page (BP.frame (w_pool w1) i)) in *.
  destruct (BP.table_frame _ _ _ _ (BP.pi_wf _ _ Hinv1) Hi) as (Hfr & Ho & Hpid).
  pose proof (BP.wf_frames _ _ (BP.pi_wf _ _ Hinv1) _ _ Hfr) as [_ _ [Hw1 Hw2 Hw3 Hw4]]. cbn [wx fst] in *.
  apply wp_assoc. wp_step. wp_use (write_steady w1 id i); [done|done|lia|by split|done|].
  intros r w2 (-> & Hinv2 & Hre2 & Hs2 & Hv2 & Hp2 & Hpo2 & Htd2). unfold mark_reconstructed. wp_steps. unfold Post. split_and!.
  - split; [done| |cbn; congruence|cbn; rewrite Hs2; apply Htr].
    intros j. cbn [w_pool]. destruct (decide (j = id)) as [->|]; [lia|]. by rewrite Hpo2, Hpo.
  - cbn. rewrite Hs2. apply Htr.
  - done.
  - cbn. by rewrite Hre2, Hre1.
  - exists pg. split; [done|]. intros j. etrans; [apply Hv2|]. by rewrite (BP.tr_view _ _ _ Htr).
  - intros Ht Hc. apply Htd2; [by apply Htd|done].
  - intros _ _. by eexists.
Qed.

(** A page that is not allocated is not rebuilt. *)
Lemma reconstruct_page_refused w id payload lsn b w' :
  id ∉ reconstructed_pages_ (w_replay w) -> PM.is_page_allocated (w_pages w) id = false ->
  reconstruct_page wal id payload lsn w <> (Ok b, w').
Proof.
  intros Hnew Hna E. cut ((fun r (_ : World) => forall b, r <> Ok b) (Ok b) w'); [intros Hx; by apply (Hx b)|].
  eapply wp_elim; [|exact E]. unfold reconstruct_page. do 4 wp_step; [done|]. wp_step. wp_step; [done|].
  rewrite bool_decide_false by done. wp_step. unfold on_pool at 1. wp_step. apply wp_intro. intros r x' Ef.
  pose proof (BP.fetch_unallocated wal id (wx w) Hna) as Hf. unfold wx in Hf. rewrite Ef in Hf. cbn in Hf. subst r.
  destruct (is_valid id); [done|]. by wp_step.
Qed.

(** Changing the store below the pool without losing a page. *)
Lemma pool_inv_store s p p' :
  BP.pool_inv None (s, p) -> PM.pm_ok p' ->
  (forall j pg, PM.stored_page p j = Some pg -> PM.stored_page p' j = Some pg) -> BP.pool_inv None (s, p').
Proof.
  intros [Hwf Hc _] Hok Hs. split; [exact Hwf| |exact Hok]. intros i f Hi Ho Hp Hd. apply Hs. by apply (Hc i).
Qed.

(** New pages appear, all others stay. *)
Definition grows (v v' : PageId -> option Page) : Prop :=
  forall j, v' j = v j \/ v j = None /\ v' j = Some (new_page j).

Lemma grows_same v v' : (forall j, v' j = v j) -> grows v v'.
Proof. intros Hv j. by left. Qed.

Lemma view_extends s p p' : PM.extends p p' -> grows (BP.view (s, p)) (BP.view (s, p')).
Proof. intros [_ Hx] j. unfold BP.view. cbn [fst snd]. destruct (BP.page_table_ s !! j); [by left|apply Hx]. Qed.

Lemma tidy_extends s p p' :
  BP.tidy wal (s, p) -> grows (BP.view (s, p)) (BP.view (s, p')) ->
  (forall j, 0 <= j -> PM.is_page_allocated p j = true -> PM.is_page_allocated p' j = true) ->
  BP.pool_inv None (s, p) -> BP.tidy wal (s, p').
Proof.
  intros [Hp Hf Ha Hd] Hg Hal Hinv. split; [exact Hp|exact Hf| |].
  - intros j Hj. cbn [fst snd] in *. apply Hal; [|by apply Ha]. destruct Hj as [i Hi].
    destruct (BP.table_frame _ _ _ _ (BP.pi_wf _ _ Hinv) Hi) as (Hfr & _ & <-).
    destruct (BP.wf_frames _ _ (BP.pi_wf _ _ Hinv) _ _ Hfr) as [_ _ [[? _] _ _ _]]. done.
  - intros j pg Hj. destruct (Hg j) as [E|[_ E]]; rewrite E in Hj; [by apply (Hd j)|]. injection Hj as <-. done.
Qed.

(** What an allocation step does to the page manager, however it ends. *)
Record pages_grow (p p' : PM.t) : Prop := {
  pg_extends : PM.extends p p';
  pg_allocated : forall j, 0 <= j -> PM.is_page_allocated p j = true -> PM.is_page_allocated p' j = true;
  pg_healthy : PM.pm_healthy p -> PM.pm_healthy p';
}.

Lemma pages_grow_refl p : PM.pm_ok p -> pages_grow p p.
Proof. intros Hok. split; [|auto|auto]. apply PM.extends_same; [exact Hok|]. intros j. reflexivity. Qed.

Lemma pages_grow_trans p1 p2 p3 : pages_grow p1 p2 -> pages_grow p2 p3 -> pages_grow p1 p3.
Proof. intros [H1 Ha1 Hh1] [H2 Ha2 Hh2]. split; [exact (PM.extends_trans _ _ _ H1 H2)|auto|auto]. Qed.

Lemma materialize_grows p id :
  PM.pm_ok p -> wp (PM.materialize_page_for_recovery id) p (fun _ p' => pages_grow p p').
Proof.
  intros Hok. eapply wp_mono; [apply PM.materialize_extends, Hok|]. intros _ p' (Hx & Hh & Ha).
  split; [exact Hx| |exact Hh]. intros j Hj Hal. rewrite Ha by exact Hj. exact Hal.
Qed.

Lemma validate_grows p id :
  PM.pm_ok p -> is_u64 id ->
  wp (PM.validate_physical_page_for_recovery id) p (fun r p' =>
    pages_grow p p' /\ PM.is_page_allocated p' = PM.is_page_allocated p /\ PM.page_count_ p' = PM.page_count_ p /\
    PM.stored_page p' = PM.stored_page p /\ (r = Ok tt -> is_Some (PM.stored_page p id)) /\
    (PM.pm_healthy p -> is_Some (PM.stored_page p id) -> r = Ok tt)).
Proof.
  intros Hok Hu. eapply wp_mono; [by apply PM.validate_physical_same|].
  intros r p' (Hok' & Hs & Ha & Hc & Hr & Hh). split_and!; [split|exact Ha|exact Hc|exact Hs|exact Hr|].
  - apply PM.extends_same; [exact Hok'|]. intros j. by rewrite Hs.
  - intros j _. by rewrite Ha.
  - intros Hp. apply Hh, Hp.
  - intros Hp. apply Hh, Hp.
Qed.

Lemma activate_grows p id :
  PM.pm_ok p -> is_u64 id -> is_Some (PM.stored_page p id) -> PM.is_page_allocated p id = false ->
  wp (PM.activate_reserved_page id) p (fun r p' =>
    pages_grow p p' /\ (r = Ok tt -> PM.is_page_allocated p' id = true) /\
    (forall j, PM.stored_page p' j = PM.stored_page p j) /\ (PM.pm_healthy p -> r = Ok tt)).
Proof.
  intros Hok [Hu _] Hs Ha. apply PM.stored_page_range in Hs. apply wp_intro. intros r p' E.
  pose proof (wp_elim _ _ _ _ _ (PM.activate_spec p id Hok Hu) E) as (Hok' & _ & _ & Hst & Hr & _ & Hh).
  pose proof (wp_elim _ _ _ _ _ (PM.activate_allocated p id Hok Hs Ha) E) as Hal. cbv beta in Hal.
  split_and!; [split| |exact Hst|].
  - by apply PM.extends_same.
  - intros j Hj Hx. rewrite Hal by done. by case_decide.
  - intros Hp. apply Hh, Hp.
  - intros _. rewrite Hal by done. by rewrite decide_True.
  - intros Hp. apply Hh; [exact Hp|lia|exact Ha].
Qed.

Lemma pages_steady w p' :
  BP.pool_inv None (wx w) -> pages_grow (w_pages w) p' ->
  let w' := mkW (w_replay w) (w_pool w) p' in
  steady w w' /\ grows (BP.view (wx w)) (BP.view (wx w')) /\ (BP.tidy wal (wx w) -> BP.tidy wal (wx w')).
Proof.
  intros Hinv [Hx Ha Hh] w'. pose proof (view_extends (w_pool w) _ _ Hx) as Hg.
  split_and!; [split; try done|exact Hg|].
  - eapply pool_inv_store; [exact Hinv|apply Hx|]. intros j pg. by apply PM.extends_some.
  - intros Htd. by eapply tidy_extends.
Qed.

Lemma redo_page_allocate_spec w id :
  BP.pool_inv None (wx w) -> is_u64 id ->
  wp (redo_page_allocate id) w (fun r w' =>
    steady w w' /\ w_replay w' = w_replay w /\ grows (BP.view (wx w)) (BP.view (wx w')) /\
    (forall j, 0 <= j -> PM.is_page_allocated (w_pages w) j = true -> PM.is_page_allocated (w_pages w') j = true) /\
    (forall j, is_Some (PM.stored_page (w_pages w) j) -> is_Some (PM.stored_page (w_pages w') j)) /\
    (BP.tidy wal (wx w) -> BP.tidy wal (wx w')) /\
    (forall b, r = Ok b -> PM.is_page_allocated (w_pages w') id = true /\ is_Some (PM.stored_page (w_pages w') id)) /\
    (active_ (w_replay w) = true -> is_valid id = true -> PM.pm_healthy (w_pages w) ->
     is_Some (PM.stored_page (w_pages w) id) -> exists b, r = Ok b)).
Proof.
  intros Hinv Hid. pose proof (BP.pi_store _ _ Hinv) as Hok. cbn [wx snd] in Hok. unfold redo_page_allocate, on_pages.
  apply (wp_mono _ _ (fun r w' => w_replay w' = w_replay w /\ w_pool w' = w_pool w /\ pages_grow (w_pages w) (w_pages w') /\
    (forall b, r = Ok b -> PM.is_page_allocated (w_pages w') id = true /\ is_Some (PM.stored_page (w_pages w') id)) /\
    (active_ (w_replay w) = true -> is_valid id = true -> PM.pm_healthy (w_pages w) ->
     is_Some (PM.stored_page (w_pages w) id) -> exists b, r = Ok b))).
  2:{ intros r [re s p] (Hre & Hpo & Hg & Hr & Hl). cbn in *. subst re s.
      destruct (pages_steady w p Hinv Hg) as (H1 & H2 & H3). split_and!; [exact H1|done|exact H2|apply Hg| |exact H3|exact Hr|exact Hl].
      intros j [pg' Hpg']. exists pg'. exact (PM.extends_some _ _ _ _ (pg_extends _ _ Hg) Hpg'). }
  pose proof (pages_grow_refl _ Hok) as Hrefl.
  wp_step. wp_step. wp_step. wp_step; bprop; [split_and!; try done; congruence|].
  wp_step. wp_step; bprop; [split_and!; try done; congruence|].
  set (fits := is_Some (PM.stored_page (w_pages w) id)).
  apply wp_bind. apply (wp_mono _ _ (fun r w' => w_replay w' = w_replay w /\ w_pool w' = w_pool w /\
    pages_grow (w_pages w) (w_pages w') /\ (fits -> w' = w /\ exists b, r = Ok b))).
  { wp_step; bprop.
    - assert (~ fits) by (intros Hs%PM.stored_page_range; lia). wp_step. wp_step; [by split_and!|].
      wp_step. wp_step. wp_use materialize_grows; [done|]. intros [] p' Hg; wp_steps; by split_and!.
    - wp_step. wp_step; bprop; [split_and!; try done; intros Hs%PM.stored_page_range; lia|].
      wp_steps. split_and!; try done. eauto. }
  intros [b|e] w1 (Hre1 & Hpo1 & Hg1 & Hl1).
  2:{ split_and!; [exact Hre1|exact Hpo1|exact Hg1|discriminate|]. intros _ _ _ Hf. by destruct (Hl1 Hf) as [_ [? ?]]. }
  wp_step. wp_step. apply wp_intro. intros r p2 E2.
  destruct (wp_elim _ _ _ _ _ (validate_grows _ id (proj1 (pg_extends _ _ Hg1)) Hid) E2)
    as (Hg2 & Ha2 & Hc2 & Hs2 & Hr2 & Hl2). pose proof (pages_grow_trans _ _ _ Hg1 Hg2) as Hg12.
  destruct r as [[]|e].
  2:{ split_and!; [exact Hre1|exact Hpo1|exact Hg12|discriminate|]. intros _ _ Hh Hf. destruct (Hl1 Hf) as [-> _].
      discriminate (Hl2 Hh Hf). }
  specialize (Hr2 eq_refl). rewrite <- Hs2 in Hr2. do 3 wp_step. cbn [w_pages]. wp_step.
  { wp_steps. cbn [w_pages]. split_and!; [exact Hre1|exact Hpo1|exact Hg12|intros; by split|by eexists]. }
  wp_step. apply wp_intro. intros r p3 E3.
  destruct (wp_elim _ _ _ _ _ (activate_grows p2 id (proj1 (pg_extends _ _ Hg2)) Hid Hr2 Heqb0) E3) as (Hg3 & Ha3 & Hs3 & Hl3).
  pose proof (pages_grow_trans _ _ _ Hg12 Hg3) as Hg. destruct r as [[]|e].
  - wp_steps. cbn [w_pages w_pool w_replay]. split_and!; [exact Hre1|exact Hpo1|exact Hg| |by eexists].
    intros _ _. split; [by apply Ha3|]. rewrite Hs3. exact Hr2.
  - cbn [w_pages w_pool w_replay]. split_and!; [exact Hre1|exact Hpo1|exact Hg|discriminate|].
    intros _ _ Hh _. discriminate (Hl3 (pg_healthy _ _ Hg12 Hh)).
Qed.

(** An allocation step allocates no other page. *)
Lemma redo_page_allocate_only w id :
  BP.pool_inv None (wx w) -> is_u64 id ->
  wp (redo_page_allocate id) w (fun _ w' => forall j, 0 <= j -> j <> id ->
    PM.is_page_allocated (w_pages w') j = PM.is_page_allocated (w_pages w) j).
Proof.
  intros Hinv Hid. pose proof (BP.pi_store _ _ Hinv) as Hok. cbn [wx snd] in Hok. unfold redo_page_allocate, on_pages.
  wp_step. wp_step. wp_step. wp_step; [done|]. wp_step. wp_step; [done|].
  apply wp_bind. apply (wp_mono _ _ (fun _ w' => PM.pm_ok (w_pages w') /\ forall j, 0 <= j ->
    PM.is_page_allocated (w_pages w') j = PM.is_page_allocated (w_pages w) j)).
  { wp_step; [|wp_step; wp_step; [done|by wp_steps]]. wp_step. wp_step; [done|]. wp_step. wp_step.
    apply wp_intro. intros r p' E. destruct (wp_elim _ _ _ _ _ (PM.materialize_extends _ id Hok) E) as ([Hok' _] & _ & Ha).
    destruct r; wp_steps; done. }
  intros [b|e] w1 [Hok1 Ha1]; [|by intros j Hj _; rewrite Ha1]. wp_step. wp_step. apply wp_intro. intros r p2 E2.
  destruct (wp_elim _ _ _ _ _ (PM.validate_physical_same _ id Hok1 Hid) E2) as (Hok2 & Hs2 & Ha2 & _ & Hr2 & _).
  destruct r as [[]|e]; [|by intros j Hj _; cbn [w_pages]; rewrite Ha2, Ha1].
  specialize (Hr2 eq_refl). rewrite <- Hs2 in Hr2. do 3 wp_step. cbn [w_pages].
  destruct (PM.is_page_allocated p2 id) eqn:Hna; [wp_steps; intros j Hj _; cbn [w_pages]; by rewrite Ha2, Ha1|].
  wp_step. apply wp_intro. intros r p3 E3.
  pose proof (wp_elim _ _ _ _ _ (PM.activate_allocated p2 id Hok2 (PM.stored_page_range _ _ Hr2) Hna) E3) as Hal. cbv beta in Hal.
  assert (forall j, 0 <= j -> j <> id -> PM.is_page_allocated p3 j = PM.is_page_allocated (w_pages w) j) as Hx.
  { intros j Hj Hne. rewrite Hal, decide_False, Ha2, Ha1; done. }
  destruct r; wp_steps; done.
Qed.

Lemma undo_page_allocate_spec w id :
  BP.pool_inv None (wx w) -> is_u64 id ->
  wp (undo_page_allocate wal id) w (fun r w' =>
    steady w w' /\ w_replay w' = w_replay w /\ (forall j, BP.view (wx w') j = BP.view (wx w) j) /\
    (forall b, r = Ok b -> b = PM.is_page_allocated (w_pages w) id /\
       (BP.tidy wal (wx w) -> BP.tidy wal (wx w')) /\
       forall j, 0 <= j -> PM.is_page_allocated (w_pages w') j =
                  if decide (j = id) then false else PM.is_page_allocated (w_pages w) j) /\
    (active_ (w_replay w) = true -> is_valid id = true -> PM.pm_healthy (w_pages w) ->
     BP.tidy wal (wx w) -> BP.unpinned (w_pool w) -> exists b, r = Ok b)).
Proof.
  intros Hinv Hid. pose proof (steady_refl w Hinv) as Hst. unfold undo_page_allocate, on_pool, on_pages.
  match goal with |- wp _ _ ?Q => set (Post := Q) end.
  wp_step. wp_step. wp_step. wp_step; bprop; [unfold Post; split_and!; try done; congruence|].
  wp_step. wp_step; bprop; [unfold Post; split_and!; try done; congruence|]. wp_step.
  { wp_steps. unfold Post. assert (PM.is_page_allocated (w_pages w) id = false) as Hna.
    { destruct (PM.is_page_allocated (w_pages w) id) eqn:Ha; [|done].
      destruct (PM.allocated_range (w_pages w) id) as [? _]; [apply Hinv|done|done|].
      apply orb_true_iff in Heqb as [?|?]; bprop; [lia|done]. }
    split_and!; try done; [|by eexists]. intros b [= <-]. split_and!; [done|auto|].
    intros j _. case_decide; [by subst|done]. }
  bprop. wp_step. wp_step. apply wp_intro. intros r x1 E1.
  destruct (wp_elim _ _ _ _ _ (BP.delete_page_spec wal (wx w) id Hinv) E1) as (Hinv1 & Htr & Hpins & Hr).
  assert (wx (mkW (w_replay w) x1.1 x1.2) = x1) as Hx by by destruct x1.
  assert (steady w (mkW (w_replay w) x1.1 x1.2)) as Hst1 by (split; rewrite ?Hx; [exact Hinv1|exact Hpins|done|apply Htr]).
  assert (BP.tidy wal (wx w) -> BP.unpinned (w_pool w) -> PM.pm_healthy (w_pages w) -> r = Ok true) as Hlive.
  { intros Ht Hu Hh. exact (eq_trans (eq_sym (f_equal fst E1)) (BP.delete_page_live wal (wx w) id Hinv Ht Hu Hh)). }
  destruct r as [b|e].
  2:{ unfold Post. rewrite Hx. split_and!; try done; [apply Htr|]. intros _ _ Hh Ht Hu. by specialize (Hlive Ht Hu Hh). }
  wp_step. wp_step; bprop.
  { subst b. unfold Post. rewrite Hx. split_and!; try done; [apply Htr|]. intros _ _ Hh Ht Hu. by specialize (Hlive Ht Hu Hh). }
  subst b. destruct Hr as [Hgone _]. wp_step. wp_step. cbn [w_pages]. apply wp_intro. intros r p2 E2.
  destruct (wp_elim _ _ _ _ _ (PM.deallocate_spec x1.2 id (BP.pi_store _ _ Hinv1) Hid) E2) as (Hok2 & _ & _ & Hs2 & Hr2 & _ & Hh2).
  assert (forall j, BP.view (x1.1, p2) j = BP.view (wx w) j) as Hv.
  { intros j. rewrite <- (BP.tr_view _ _ _ Htr j). unfold BP.view. cbn [fst snd]. by destruct (BP.page_table_ x1.1 !! j); [|apply Hs2]. }
  assert (steady w (mkW (w_replay w) x1.1 p2)) as Hst2.
  { split; [|exact Hpins|done|intros Hp; apply Hh2, Htr, Hp]. eapply (pool_inv_store _ x1.2); [by destruct x1|done|].
    intros j pg. by rewrite Hs2. }
  destruct r as [[]|e].
  - wp_steps. unfold Post, wx. cbn [w_pages w_pool w_replay]. destruct (Hr2 eq_refl) as (Ha2 & _ & Hal2).
    split_and!; try done; [|by eexists]. intros b [= <-]. split_and!; [done| |].
    + intros Ht. pose proof (wp_elim _ _ _ _ _ (BP.delete_page_tidy wal (wx w) id Hinv Ht) E1) as [Hp1 Hp2 Hp3 Hp4].
      split; [exact Hp1|exact Hp2| |].
      * intros j Hj. cbn [fst snd] in *. destruct (decide (j = id)) as [->|Hne]; [rewrite Hgone in Hj; by destruct Hj|].
        specialize (Hp3 j Hj). cbn. destruct (decide (0 <= j)); [rewrite Hal2 by done; by rewrite decide_False|].
        destruct Hj as [k Hk]. destruct (BP.table_frame _ _ _ _ (BP.pi_wf _ _ Hinv1) Hk) as (Hfr & _ & Hx').
        destruct (BP.wf_frames _ _ (BP.pi_wf _ _ Hinv1) _ _ Hfr) as [_ _ [[? _] _ _ _]]. lia.
      * intros j pg. rewrite Hv, <- (BP.tr_view _ _ _ Htr j). apply Hp4.
    + intros j Hj. rewrite Hal2 by done. case_decide; [done|]. exact (f_equal (fun f => f j) (BP.tr_allocated _ _ _ Htr)).
  - unfold Post, wx. cbn [w_pages w_pool w_replay]. split_and!; try done. intros _ _ Hh _ _.
    destruct Hh2 as [_ Hx2]; [by apply Htr|]. discriminate Hx2.
    etrans; [exact (f_equal (fun f => f id) (BP.tr_allocated _ _ _ Htr))|done].
Qed.

End steps.

End RE.
