(* ===== verification/Redo.v ===== *)
(** * The REDO pass repeats the committed history

    What [RedoEngine::run] ([src/src/recovery/redo_engine.cpp]) does to the pages: for a page
    the newest committed change of the log decides, and only if the page is older than it.
    The definitions are those of [Recovery]. *)

From S2P Require Import Prelude Bytes Page Stream PageStore PageManager Wal LogManager BufferPool Mutation Analysis Recovery.

Module RD.
Import RE.

#[local] Opaque PM.stored_page PM.is_page_allocated PM.deallocate_page.

(** ** Records of a scanned log *)

Record log_state (s : RA.RecoveryState) : Prop := {
  ls_analyzed : RA.analyzed s;
  ls_scanned : scanned (RA.records s);
}.

Lemma analyze_log_state content s :
  Forall is_byte content -> RA.analyze (Some content) = Ok s -> log_state s.
Proof.
  intros Hb H. destruct (RA.analyze_ok _ _ H) as [Hr Ha]. split; [done|].
  unfold read_records in Hr. eapply scan_sound; [exact Hb| |exact Hr]. split; [done|constructor].
Qed.

Lemma ascending_inj p rs r r' : ascending p rs -> r ∈ rs -> r' ∈ rs -> rec_lsn r = rec_lsn r' -> r = r'.
Proof.
  revert p. induction rs as [|r0 rs IH]; intros p Ha Hr Hr' He; [by apply not_elem_of_nil in Hr|].
  destruct Ha as [Hlt Ha]. apply elem_of_cons in Hr as [->|Hr], Hr' as [->|Hr'].
  - done.
  - pose proof (LM.ascending_above _ _ _ Ha Hr'). lia.
  - pose proof (LM.ascending_above _ _ _ Ha Hr). lia.
  - by eapply IH.
Qed.

Lemma mutation_of_fields r a : RA.mutation_of r = Some a -> RA.mr_lsn a = rec_lsn r /\ RA.mr_tx a = rec_tx r.
Proof. unfold RA.mutation_of. repeat case_match; try done. by intros [= <-]. Qed.

Lemma allocation_of_fields r a : RA.allocation_of r = Some a -> RA.al_lsn a = rec_lsn r /\ RA.al_tx a = rec_tx r.
Proof. unfold RA.allocation_of. repeat case_match; try done. by intros [= <-]. Qed.

(** Strictly increasing LSNs. *)
Fixpoint increasing (p : Z) (ms : list RA.MutationRecord) : Prop :=
  match ms with [] => True | a :: ms => p < RA.mr_lsn a /\ increasing (RA.mr_lsn a) ms end.

Lemma increasing_weaken p q ms : p <= q -> increasing q ms -> increasing p ms.
Proof. destruct ms; [done|]. intros ? [? ?]. split; [lia|done]. Qed.

Lemma increasing_filter (P : RA.MutationRecord -> Prop) `{!forall a, Decision (P a)} p ms :
  increasing p ms -> increasing p (filter P ms).
Proof.
  revert p. induction ms as [|a ms IH]; intros p Hi; [done|]. destruct Hi as [Hlt Hi]. rewrite filter_cons. case_decide.
  - split; [done|by apply IH].
  - apply IH. apply (increasing_weaken _ (RA.mr_lsn a)); [lia|done].
Qed.

Lemma increasing_mutations p rs : ascending p rs -> increasing p (omap RA.mutation_of rs).
Proof.
  revert p. induction rs as [|r rs IH]; intros p H; [done|]. destruct H as [Hlt H]. csimpl.
  destruct (RA.mutation_of r) as [a|] eqn:E.
  - destruct (mutation_of_fields _ _ E) as [Hl _]. split; rewrite Hl; [done|]. by apply IH.
  - apply (increasing_weaken _ (rec_lsn r)); [lia|]. by apply IH.
Qed.

Lemma increasing_snoc p ms a : increasing p (ms ++ [a]) -> increasing p ms /\ forall b, b ∈ ms -> RA.mr_lsn b < RA.mr_lsn a.
Proof.
  revert p. induction ms as [|c ms IH]; intros p H; [split; [done|]; by intros b Hb%not_elem_of_nil|].
  destruct H as [Hlt H]. destruct (IH _ H) as [Hi Hb]. split; [done|]. intros b Hin.
  apply elem_of_cons in Hin as [->|?]; [|auto]. clear -H. revert H. generalize (RA.mr_lsn c).
  induction ms as [|d ms IH]; intros p; simpl; [lia|]. intros [? Hx]. specialize (IH _ Hx). lia.
Qed.

(** ** The effect of REDO on a page *)

Definition redo_all (ms : list RA.MutationRecord) (pg : Page) : Page :=
  fold_left (fun pg a => redo_one (RA.mr_lsn a) (RA.mr_mutation a) pg) ms pg.

(** Only the newest record matters. *)
Lemma redo_all_last p ms pg :
  increasing p ms ->
  redo_all ms pg =
    match list.last ms with
    | Some a => redo_one (RA.mr_lsn a) (RA.mr_mutation a) pg
    | None => pg
    end.
Proof.
  revert p. induction ms as [|a ms IH] using rev_ind; intros p H; [done|].
  apply increasing_snoc in H as [Hi Hlt]. unfold redo_all. rewrite fold_left_app, last_snoc. cbn [fold_left].
  fold (redo_all ms pg). rewrite (IH p Hi). destruct (list.last ms) as [b|] eqn:El; [|done].
  assert (RA.mr_lsn b < RA.mr_lsn a) as Hb by by apply Hlt, last_Some_elem_of.
  unfold redo_one at 2. destruct (Z.leb_spec (RA.mr_lsn b) (page_lsn pg)); [done|].
  unfold redo_one. cbn. replace (RA.mr_lsn a <=? RA.mr_lsn b) with false by lia.
  by replace (RA.mr_lsn a <=? page_lsn pg) with false by lia.
Qed.

(** The committed changes of a page, in log order. *)
Definition winners_in (s : RA.RecoveryState) (j : PageId) (ms : list RA.MutationRecord) : list RA.MutationRecord :=
  filter (fun a => mut_page (RA.mr_mutation a) = j /\ is_committed s (RA.mr_tx a) = true) ms.
Definition winners (s : RA.RecoveryState) (j : PageId) : list RA.MutationRecord := winners_in s j (RA.mutations s).

(** A page before the pass: there, or to be created empty. *)
Definition starts (v : PageId -> option Page) (j : PageId) (pg : Page) : Prop :=
  v j = Some pg \/ v j = None /\ pg = new_page j.

(** What became of a page when the records of [ms] were repeated. *)
Definition redone (ms : list RA.MutationRecord) (v v' : PageId -> option Page) (j : PageId) : Prop :=
  (exists pg, starts v j pg /\ v' j = Some (redo_all ms pg)) \/ v j = None /\ v' j = None /\ ms = [].

Lemma redone_refl v j : redone [] v v j.
Proof. unfold redone, starts. destruct (v j) as [pg|] eqn:E; [left; exists pg; auto|by right]. Qed.

Lemma redone_grows ms v v1 v' j : grows v v1 -> redone ms v1 v' j -> redone ms v v' j.
Proof.
  intros Hg Hr. destruct (Hg j) as [E|[E1 E2]].
  - unfold redone, starts in *. by rewrite E in Hr.
  - destruct Hr as [(pg & [Hs|[Hs _]] & Hv)|[Hs _]]; [|congruence|congruence].
    left. exists pg. split; [|done]. right. split; [done|]. congruence.
Qed.

Lemma redone_cons a ms v v1 v' j pg :
  v j = Some pg -> v1 j = Some (redo_one (RA.mr_lsn a) (RA.mr_mutation a) pg) ->
  redone ms v1 v' j -> redone (a :: ms) v v' j.
Proof.
  intros E E1 [(pg1 & [Hs|[Hs _]] & Hv)|[Hs _]]; [|congruence|congruence].
  left. exists pg. split; [by left|]. rewrite E1 in Hs. injection Hs as <-. exact Hv.
Qed.

Lemma redone_ext ms v v1 v' j : v1 j = v j -> redone ms v1 v' j -> redone ms v v' j.
Proof. unfold redone, starts. by intros ->. Qed.

(** ** The REDO pass *)

Section redo.
Context (wal : option Z) (s : RA.RecoveryState) (Hlog : log_state s).

Lemma transaction_seen r : r ∈ RA.records s -> exists t, RA.transaction s (rec_tx r) = Some t.
Proof. intros Hr. destruct Hlog as [[_ _ Hseen _ _ _] _]. apply Hseen. by exists r. Qed.

Lemma record_mutation r :
  r ∈ RA.records s -> rec_type r = PhysicalMutationRecord ->
  exists a, RA.mutation_of r = Some a /\ mutation_ok a /\
    exists i, list_find (fun a => RA.mr_lsn a = rec_lsn r /\ RA.mr_tx a = rec_tx r) (RA.mutations s) = Some (i, a).
Proof.
  intros Hr Hty. destruct Hlog as [[Hm _ _ _ _ Hpl] [Hasc Hwf]].
  assert (exists a, RA.mutation_of r = Some a) as [a Ha].
  { rewrite list.Forall_forall in Hpl. specialize (Hpl r Hr). unfold RA.payload_ok in Hpl. unfold RA.mutation_of.
    rewrite Hty in *. destruct Hpl as [m ->]. by eexists. }
  exists a. rewrite list.Forall_forall in Hwf. split_and!; [done|by apply (mutation_of_ok r); [apply Hwf|]|].
  destruct (mutation_of_fields _ _ Ha) as [H1 H2].
  destruct (list_find_elem_of (fun a => RA.mr_lsn a = rec_lsn r /\ RA.mr_tx a = rec_tx r) (RA.mutations s) a)
    as [[i b] Hf]; [rewrite Hm; apply list_elem_of_omap; by exists r|done|].
  exists i. rewrite Hf. apply list_find_Some in Hf as (Hb & [H3 _] & _). apply list_elem_of_lookup_2 in Hb.
  rewrite Hm in Hb. apply list_elem_of_omap in Hb as (r' & Hr' & Hb). destruct (mutation_of_fields _ _ Hb) as [H4 _].
  assert (r' = r) as -> by (eapply ascending_inj; [exact Hasc|done|done|congruence]). congruence.
Qed.

Lemma record_allocation r :
  r ∈ RA.records s -> rec_type r = PageAllocate ->
  exists a, RA.allocation_of r = Some a /\ is_u64 (RA.al_page a) /\ is_valid (RA.al_page a) = true /\
    exists i, list_find (fun a => RA.al_lsn a = rec_lsn r /\ RA.al_tx a = rec_tx r) (RA.allocations s) = Some (i, a).
Proof.
  intros Hr Hty. destruct Hlog as [[_ Hm _ _ _ Hpl] [Hasc Hwf]].
  assert (exists a, RA.allocation_of r = Some a) as [a Ha].
  { rewrite list.Forall_forall in Hpl. specialize (Hpl r Hr). unfold RA.payload_ok in Hpl. unfold RA.allocation_of.
    rewrite Hty in *. destruct Hpl as [m ->]. by eexists. }
  exists a. rewrite list.Forall_forall in Hwf. destruct (allocation_of_ok r a) as [Hu Hv]; [by apply Hwf|done|].
  split_and!; [done|done|done|]. destruct (allocation_of_fields _ _ Ha) as [H1 H2].
  destruct (list_find_elem_of (fun a => RA.al_lsn a = rec_lsn r /\ RA.al_tx a = rec_tx r) (RA.allocations s) a)
    as [[i b] Hf]; [rewrite Hm; apply list_elem_of_omap; by exists r|done|].
  exists i. rewrite Hf. apply list_find_Some in Hf as (Hb & [H3 _] & _). apply list_elem_of_lookup_2 in Hb.
  rewrite Hm in Hb. apply list_elem_of_omap in Hb as (r' & Hr' & Hb). destruct (allocation_of_fields _ _ Hb) as [H4 _].
  assert (r' = r) as -> by (eapply ascending_inj; [exact Hasc|done|done|congruence]). congruence.
Qed.

(** The kind of work a record asks for. *)
Inductive redo_case (r : WalRecord) : Prop :=
  | redo_skip (Hskip : forall m, redo_record wal s m r = ret (redo_add 1 0 0 0 0 0 0 m))
      (Hnone : forall a, RA.mutation_of r = Some a -> is_committed s (RA.mr_tx a) = false)
      (Hnone' : forall a, RA.allocation_of r = Some a -> is_committed s (RA.al_tx a) = false)
  | redo_mutate a (Ha : RA.mutation_of r = Some a) (Hok : mutation_ok a) (Hc : is_committed s (RA.mr_tx a) = true)
      (Hrec : forall m, redo_record wal s m r =
        (let! applied := redo_physical_mutation wal (RA.mr_lsn a) (RA.mr_mutation a) in
         ret (redo_add 1 0 0 0 1 (if applied then 1 else 0) (if applied then 0 else 1) m)))
      (Hno : RA.allocation_of r = None)
  | redo_alloc a (Ha : RA.allocation_of r = Some a) (Hu : is_u64 (RA.al_page a)) (Hv : is_valid (RA.al_page a) = true)
      (Hc : is_committed s (RA.al_tx a) = true)
      (Hrec : forall m, redo_record wal s m r =
        (let! materialized := redo_page_allocate (RA.al_page a) in
         ret (redo_add 1 0 1 (if materialized then 1 else 0) 0 0 0 m)))
      (Hno : RA.mutation_of r = None).

Lemma redo_cases r : r ∈ RA.records s -> redo_case r.
Proof.
  intros Hr. destruct (transaction_seen r Hr) as [t Ht]. unfold redo_record.
  destruct (decide (RA.status t = RA.Committed)) as [Hc|Hc].
  - assert (is_committed s (rec_tx r) = true) as Hic by (unfold is_committed; rewrite Ht; by apply bool_decide_eq_true).
    destruct (rec_type r) eqn:Hty.
    2:{ destruct (record_mutation r Hr Hty) as (a & Ha & Hok & i & Hf). destruct (mutation_of_fields _ _ Ha) as [H1 H2].
        apply (redo_mutate r a); [done|done|congruence| |by unfold RA.allocation_of; rewrite Hty].
        intros m. unfold redo_record. rewrite Ht, Hc, Hty, Hf. by rewrite H1. }
    4:{ destruct (record_allocation r Hr Hty) as (a & Ha & Hu & Hv & i & Hf). destruct (allocation_of_fields _ _ Ha) as [H1 H2].
        apply (redo_alloc r a); [done|done|done|congruence| |by unfold RA.mutation_of; rewrite Hty].
        intros m. unfold redo_record. by rewrite Ht, Hc, Hty, Hf. }
    all: apply redo_skip; [intros m; unfold redo_record; by rewrite Ht, Hc, Hty
      |unfold RA.mutation_of; by rewrite Hty|unfold RA.allocation_of; by rewrite Hty].
  - assert (is_committed s (rec_tx r) = false) as Hic by (unfold is_committed; rewrite Ht; by apply bool_decide_eq_false).
    apply redo_skip.
    + intros m. unfold redo_record. rewrite Ht. by destruct (RA.status t).
    + intros a Ha. destruct (mutation_of_fields _ _ Ha) as [_ ->]. done.
    + intros a Ha. destruct (allocation_of_fields _ _ Ha) as [_ ->]. done.
Qed.

Lemma winners_cons j r rs :
  winners_in s j (omap RA.mutation_of (r :: rs)) =
    match RA.mutation_of r with
    | Some a => if decide (mut_page (RA.mr_mutation a) = j /\ is_committed s (RA.mr_tx a) = true)
                then a :: winners_in s j (omap RA.mutation_of rs) else winners_in s j (omap RA.mutation_of rs)
    | None => winners_in s j (omap RA.mutation_of rs)
    end.
Proof. csimpl. destruct (RA.mutation_of r); [|done]. unfold winners_in. by rewrite filter_cons. Qed.

Lemma redo_records_spec rs m w :
  (forall r, r ∈ rs -> r ∈ RA.records s) -> BP.pool_inv None (wx w) ->
  wp (redo_records wal s m rs) w (fun r w' =>
    steady w w' /\ w_replay w' = w_replay w /\
    (forall m', r = Ok m' -> forall j, redone (winners_in s j (omap RA.mutation_of rs)) (BP.view (wx w)) (BP.view (wx w')) j)).
Proof.
  revert m w. induction rs as [|r rs IH]; intros m w Hin Hinv; cbn [redo_records].
  { wp_step. split_and!; [by apply steady_refl|done|]. intros m' _ j. apply redone_refl. }
  assert (forall r0, r0 ∈ rs -> r0 ∈ RA.records s) as Hin' by (intros; apply Hin; by right).
  wp_step. destruct (redo_cases r (Hin r ltac:(left))).
  - rewrite Hskip. wp_step. wp_use IH; [done|done|]. intros r0 w' (Hst & Hre & Hr). split_and!; [done|done|].
    intros m' Hm j. rewrite winners_cons. destruct (RA.mutation_of r) as [a|]; [|by apply (Hr m')].
    rewrite decide_False; [by apply (Hr m')|]. intros [_ Hx]. by rewrite (Hnone a) in Hx.
  - rewrite Hrec. wp_step. wp_use redo_physical_mutation_spec; [done|destruct Hok; by split|].
    intros [b|e] w1 (Hst1 & Hre1 & Ha1 & Hr1 & _ & _); [|done]. wp_step. wp_use IH; [done|by apply Hst1|].
    intros r0 w' (Hst & Hre & Hr). split_and!; [by eapply steady_trans|congruence|]. intros m' Hm j.
    destruct Hr1 as (pg & Hpg & -> & Hv). specialize (Hr m' Hm j). specialize (Hv j). rewrite winners_cons, Ha.
    destruct (decide (mut_page (RA.mr_mutation a) = j)) as [<-|Hne].
    + rewrite decide_True in Hv by done. rewrite decide_True by done. by eapply redone_cons.
    + rewrite decide_False in Hv by congruence. rewrite decide_False by (by intros [? _]). by eapply redone_ext.
  - rewrite Hrec. wp_step. wp_use (redo_page_allocate_spec wal); [done|done|].
    intros [b|e] w1 (Hst1 & Hre1 & Hg & _); [|done]. wp_step. wp_use IH; [done|by apply Hst1|].
    intros r0 w' (Hst & Hre & Hr). split_and!; [by eapply steady_trans|congruence|]. intros m' Hm j.
    rewrite winners_cons, Hno. eapply redone_grows; [done|by apply (Hr m')].
Qed.

Lemma redo_run_spec w :
  BP.pool_inv None (wx w) ->
  wp (redo_run wal s) w (fun r w' =>
    steady w w' /\ w_replay w' = w_replay w /\
    (forall m', r = Ok m' -> forall j, redone (winners s j) (BP.view (wx w)) (BP.view (wx w')) j)).
Proof.
  intros Hinv. unfold redo_run. wp_step. wp_step. wp_step. wp_step.
  { split_and!; [by apply steady_refl|done|done]. }
  wp_use redo_records_spec; [done|done|]. intros r w' (Hst & Hre & Hr). split_and!; [done|done|].
  unfold winners. by rewrite (RA.az_mutations _ (ls_analyzed _ Hlog)).
Qed.

Lemma winners_increasing j : increasing 0 (winners s j).
Proof.
  apply increasing_filter. rewrite (RA.az_mutations _ (ls_analyzed _ Hlog)). apply increasing_mutations, Hlog.
Qed.

End redo.

Lemma increasing_last p ms a b : increasing p ms -> a ∈ ms -> list.last ms = Some b -> RA.mr_lsn a <= RA.mr_lsn b.
Proof.
  destruct ms as [|c ms] using rev_ind; [by intros _ Hx%not_elem_of_nil|]. rewrite last_snoc.
  intros [_ Hlt]%increasing_snoc Hin [= <-]. apply elem_of_app in Hin as [Hin|Hin].
  - specialize (Hlt a Hin). lia.
  - apply list_elem_of_singleton in Hin as ->. done.
Qed.

Section repeat.
Context (wal : option Z) (s : RA.RecoveryState) (Hlog : log_state s).

(** Every committed change is in its page already. *)
Definition current (w : World) : Prop :=
  forall a, a ∈ RA.mutations s -> is_committed s (RA.mr_tx a) = true ->
    exists pg, BP.view (wx w) (mut_page (RA.mr_mutation a)) = Some pg /\ RA.mr_lsn a <= page_lsn pg.

Definition keeps_pages (w w' : World) : Prop :=
  forall j pg, BP.view (wx w) j = Some pg -> BP.view (wx w') j = Some pg.

Lemma current_kept w w' : current w -> keeps_pages w w' -> current w'.
Proof. intros Hc Hk a Ha Hx. destruct (Hc a Ha Hx) as (pg & Hv & Hl). exists pg. split; [by apply Hk|done]. Qed.

Lemma redone_current w w' :
  (forall j, redone (winners s j) (BP.view (wx w)) (BP.view (wx w')) j) -> current w'.
Proof.
  intros Hr a Ha Hc. set (j := mut_page (RA.mr_mutation a)).
  assert (a ∈ winners s j) as Hin by (apply list_elem_of_filter; by split).
  pose proof (winners_increasing s Hlog j) as Hinc. destruct (list.last (winners s j)) as [b|] eqn:El.
  2:{ apply last_None in El. rewrite El in Hin. by apply not_elem_of_nil in Hin. }
  destruct (Hr j) as [(pg & _ & Hv)|(_ & _ & Hx)]; [|rewrite Hx in Hin; by apply not_elem_of_nil in Hin].
  eexists. split; [exact Hv|]. rewrite (redo_all_last 0 _ _ Hinc), El.
  pose proof (increasing_last _ _ _ _ Hinc Hin El). unfold redo_one. destruct (Z.leb_spec (RA.mr_lsn b) (page_lsn pg)); cbn; lia.
Qed.

Lemma redo_records_current rs m w :
  (forall r, r ∈ rs -> r ∈ RA.records s) -> BP.pool_inv None (wx w) -> current w ->
  wp (redo_records wal s m rs) w (fun r w' =>
    keeps_pages w w' /\ forall m', r = Ok m' -> rm_mutations_applied m' = rm_mutations_applied m).
Proof.
  revert m w. induction rs as [|r rs IH]; intros m w Hin Hinv Hcur; cbn [redo_records].
  { wp_step. split; [by intros j pg|]. by intros m' [= <-]. }
  assert (forall r0, r0 ∈ rs -> r0 ∈ RA.records s) as Hin' by (intros; apply Hin; by right).
  wp_step. destruct (redo_cases wal s Hlog r (Hin r ltac:(left))).
  - rewrite Hskip. wp_step. wp_use IH; [done|done|done|]. intros r0 w' (Hk & Hm). split; [done|].
    intros m' Hx. rewrite (Hm m' Hx). cbn. lia.
  - rewrite Hrec. wp_step. wp_use redo_physical_mutation_spec; [done|destruct Hok; by split|].
    intros r1 w1 (Hst1 & _ & _ & Hr1 & _ & _).
    assert (keeps_pages w w1 /\ forall b, r1 = Ok b -> b = false) as [Hk1 Hb].
    { destruct (Hcur a) as (pg & Hpg & Hle); [|done|].
      { rewrite (RA.az_mutations _ (ls_analyzed _ Hlog)). apply list_elem_of_omap. exists r. split; [|done]. apply Hin. left. }
      destruct r1 as [b|e]; [|split; [intros j pg1; by rewrite Hr1|done]].
      destruct Hr1 as (pg' & Hpg' & -> & Hv). rewrite Hpg in Hpg'. injection Hpg' as <-.
      split; [|intros b [= <-]; lia]. intros j pg1 Hj. rewrite Hv. case_decide as Hd; [|done]. subst j.
      unfold redo_one. replace (RA.mr_lsn a <=? page_lsn pg) with true by lia. congruence. }
    destruct r1 as [b|e]; [|split; [done|discriminate]]. rewrite (Hb b eq_refl). wp_step.
    wp_use IH; [done|apply Hst1|by eapply current_kept|]. intros r0 w' (Hk & Hm). split.
    + intros j pg Hj. by apply Hk, Hk1.
    + intros m' Hx. rewrite (Hm m' Hx). cbn. lia.
  - rewrite Hrec. wp_step. wp_use (redo_page_allocate_spec wal); [done|done|]. intros r1 w1 (Hst1 & _ & Hg & _).
    assert (keeps_pages w w1) as Hk1.
    { intros j pg Hj. destruct (Hg j) as [->|[Hx _]]; [done|congruence]. }
    destruct r1 as [b|e]; [|split; [done|discriminate]]. wp_step.
    wp_use IH; [done|apply Hst1|by eapply current_kept|]. intros r0 w' (Hk & Hm). split.
    + intros j pg Hj. by apply Hk, Hk1.
    + intros m' Hx. rewrite (Hm m' Hx). cbn. lia.
Qed.

End repeat.

(** ** When nothing fails, REDO completes *)

Section complete.
Context (wal : option Z) (s : RA.RecoveryState) (Hlog : log_state s).
Context (Hcover : forall a, a ∈ RA.mutations s -> BP.wal_covers wal (RA.mr_lsn a) = true).

(** The database is as a crash leaves it: no page is pinned, the file system works, the pages the
    log changed are allocated and intact, and so are the images of pages it allocated. *)
Record replayable (w : World) : Prop := {
  rp_tidy : BP.tidy wal (wx w);
  rp_unpinned : BP.unpinned (w_pool w);
  rp_healthy : PM.pm_healthy (w_pages w);
  rp_active : active_ (w_replay w) = true;
  rp_allocations : forall a, a ∈ RA.allocations s -> is_Some (PM.stored_page (w_pages w) (RA.al_page a));
  rp_pages : forall a, a ∈ RA.mutations s -> PM.is_page_allocated (w_pages w) (mut_page (RA.mr_mutation a)) = true /\
    is_Some (BP.view (wx w) (mut_page (RA.mr_mutation a)));
}.

Lemma replayable_step w w' :
  replayable w -> steady w w' -> BP.tidy wal (wx w') ->
  (forall j, 0 <= j -> PM.is_page_allocated (w_pages w) j = true -> PM.is_page_allocated (w_pages w') j = true) ->
  (forall j, is_Some (PM.stored_page (w_pages w) j) -> is_Some (PM.stored_page (w_pages w') j)) ->
  (forall j, is_Some (BP.view (wx w) j) -> is_Some (BP.view (wx w') j)) -> replayable w'.
Proof.
  intros [Ht Hu Hh Ha Hal Hp] [Hinv Hpins Hact Hhe] Ht' Hmono Hst Hv. split.
  - exact Ht'.
  - intros j. rewrite Hpins. apply Hu.
  - by apply Hhe.
  - congruence.
  - intros a Hin. by apply Hst, Hal.
  - intros a Hin. destruct (Hp a Hin) as [H1 H2]. split; [|by apply Hv]. apply Hmono; [|done].
    rewrite (RA.az_mutations _ (ls_analyzed _ Hlog)) in Hin. apply list_elem_of_omap in Hin as (r & Hr & Hm).
    destruct Hlog as [_ [_ Hwf]]. rewrite list.Forall_forall in Hwf. by destruct (mutation_of_ok r a (Hwf r Hr) Hm) as [_ [? _] _ _ _ _ _].
Qed.

Lemma redo_records_complete rs m w :
  (forall r, r ∈ rs -> r ∈ RA.records s) -> BP.pool_inv None (wx w) -> replayable w ->
  wp (redo_records wal s m rs) w (fun r w' => replayable w' /\ exists m', r = Ok m').
Proof.
  revert m w. induction rs as [|r rs IH]; intros m w Hin Hinv Hrp; cbn [redo_records].
  { wp_step. split; [done|by eexists]. }
  assert (forall r0, r0 ∈ rs -> r0 ∈ RA.records s) as Hin' by (intros; apply Hin; by right).
  pose proof Hrp as [Ht Hu Hh Hact Hal Hp].
  wp_step. destruct (redo_cases wal s Hlog r (Hin r ltac:(left))).
  - rewrite Hskip. wp_step. by apply IH.
  - assert (a ∈ RA.mutations s) as Ham.
    { rewrite (RA.az_mutations _ (ls_analyzed _ Hlog)). apply list_elem_of_omap. exists r. split; [|done]. apply Hin. left. }
    destruct (Hp a Ham) as [Hpa Hpv]. rewrite Hrec. wp_step. apply wp_intro. intros r1 w1 E.
    assert (mutation_ok (RA.mkMutationRecord (RA.mr_lsn a) 0 (RA.mr_mutation a))) as Hok' by (destruct Hok; by split).
    pose proof (wp_elim _ _ _ _ _ (redo_physical_mutation_spec wal w _ _ Hinv Hok') E) as (Hst1 & _ & Ha1 & Hr1 & Htd1 & Hl1).
    pose proof (wp_elim _ _ _ _ _ (redo_physical_mutation_intact wal w (RA.mr_lsn a) _ Hinv (mo_page _ Hok) Hh) E) as Hi1. cbv beta in Hi1.
    destruct Hl1 as [b ->]; [by destruct Hok|]. wp_step. apply IH; [done|apply Hst1|].
    apply (replayable_step w); [done|done|by apply Htd1; [|apply Hcover]|by rewrite Ha1|exact Hi1|].
    destruct Hr1 as (pg & _ & _ & Hv). intros j Hj. rewrite Hv. by case_decide.
  - assert (a ∈ RA.allocations s) as Ham.
    { rewrite (RA.az_allocations _ (ls_analyzed _ Hlog)). apply list_elem_of_omap. exists r. split; [|done]. apply Hin. left. }
    rewrite Hrec. wp_step. wp_use (redo_page_allocate_spec wal); [done|done|].
    intros r1 w1 (Hst1 & _ & Hg & Hmono & Hkeep & Htd1 & _ & Hl1). destruct (Hl1 Hact Hv Hh (Hal a Ham)) as [b ->].
    wp_step. apply IH; [done|apply Hst1|]. apply (replayable_step w); try assumption; [by apply Htd1|].
    intros j Hj. destruct (Hg j) as [->|[_ ->]]; [done|by eexists].
Qed.

Lemma redo_run_complete w :
  BP.pool_inv None (wx w) -> replayable w -> wp (redo_run wal s) w (fun r w' => replayable w' /\ exists m', r = Ok m').
Proof.
  intros Hinv Hrp. unfold redo_run. wp_step. wp_step. wp_step. rewrite (rp_active _ Hrp). wp_step; [done|].
  by apply redo_records_complete.
Qed.

End complete.

(** C19: REDO repeats the committed history.  When [RedoEngine::run] returns, every page holds the
    after-image and the LSN of the newest committed change of the log, unless the page was already
    that new: then it is as it was.  Pages without committed changes are as they were or, if an
    allocation was repeated, new and empty.  No page stays pinned. *)
Theorem redo_repeats_history wal content s w m w' j :
  Forall is_byte content -> RA.analyze (Some content) = Ok s -> BP.pool_inv None (wx w) ->
  redo_run wal s w = (Ok m, w') ->
  BP.pool_inv None (wx w') /\ (forall k, BP.pins (w_pool w') k = BP.pins (w_pool w) k) /\
  match list.last (winners s j) with
  | Some a => exists pg, starts (BP.view (wx w)) j pg /\
      BP.view (wx w') j = Some (if RA.mr_lsn a <=? page_lsn pg then pg
                                else overwritten (RA.mr_lsn a) (mut_after (RA.mr_mutation a)) pg)
  | None => BP.view (wx w') j = BP.view (wx w) j \/
      BP.view (wx w) j = None /\ BP.view (wx w') j = Some (new_page j)
  end.
Proof.
  intros Hb Ha Hinv E. pose proof (analyze_log_state _ _ Hb Ha) as Hlog.
  destruct (wp_elim _ _ _ _ _ (redo_run_spec wal s Hlog w Hinv) E) as ([Hinv' Hp _ _] & _ & Hr).
  split_and!; [done|done|]. specialize (Hr m eq_refl j). destruct (list.last (winners s j)) as [a|] eqn:El.
  - destruct Hr as [(pg & Hs & Hv)|(_ & _ & Hx)]; [|by rewrite Hx in El]. exists pg. split; [done|].
    rewrite Hv, (redo_all_last 0), El by by apply winners_increasing. done.
  - apply last_None in El. destruct Hr as [(pg & Hs & Hv)|(H1 & H2 & _)]; [|left; congruence].
    rewrite El in Hv. change (redo_all [] pg) with pg in Hv. destruct Hs as [Hs|[Hs ->]]; [left; congruence|by right].
Qed.

(** C20: REDO is idempotent.  After a completed pass a second one, even one that is interrupted by
    an error, changes no page any more, and a second pass that completes reports that it applied
    no mutation. *)
Theorem redo_idempotent wal content s w m w1 r w2 :
  Forall is_byte content -> RA.analyze (Some content) = Ok s -> BP.pool_inv None (wx w) ->
  redo_run wal s w = (Ok m, w1) -> redo_run wal s w1 = (r, w2) ->
  keeps_pages w1 w2 /\ forall m', r = Ok m' -> rm_mutations_applied m' = 0.
Proof.
  intros Hb Ha Hinv E1 E2. pose proof (analyze_log_state _ _ Hb Ha) as Hlog.
  destruct (wp_elim _ _ _ _ _ (redo_run_spec wal s Hlog w Hinv) E1) as ([Hinv' _ _ _] & _ & Hr).
  pattern r, w2. eapply wp_elim; [|exact E2]. unfold redo_run. do 4 wp_step; [split; [by intros j pg|done]|].
  apply redo_records_current; [done|done|done|]. eapply redone_current; [done|exact (Hr m eq_refl)].
Qed.

(** ** An example: transaction 7 committed a change of page 0, transaction 8 did not *)

Definition filled (b : Z) : bytes := b :: zeros (kPagePayloadSize - 1).
Definition change_record (lsn tx : Z) (before after : bytes) : WalRecord :=
  mkRecord lsn tx PhysicalMutationRecord
    (match encode_physical_mutation (mkMutation 0 PayloadWrite 0 before after 0) with Ok bs => bs | Throw _ => [] end).

Definition log_mixed : list WalRecord :=
  [mkRecord 1 7 Begin []; change_record 2 7 (filled 0) (filled 42); mkRecord 3 8 Begin [];
   mkRecord 4 7 Commit []; change_record 5 8 (filled 42) (filled 13)].
Definition file_mixed : bytes := log_bytes log_mixed.

Definition state_of (o : outcome RA.RecoveryState) : RA.RecoveryState :=
  match o with Ok s => s | Throw _ => RA.mkState [] [] [] ∅ (RA.mkMetrics 0 0 0 0 0 0 0 0 0 0) end.
Definition state_mixed : RA.RecoveryState := state_of (RA.analyze_records (zlen file_mixed) log_mixed).

Definition world_crashed : World := mkW new_replay (BP.create 1) BP.pm_two.
Definition world_redone : World := (redo_run (Some 5) state_mixed world_crashed).2.
Definition world_again : World := (redo_run (Some 5) state_mixed world_redone).2.

Lemma bytes_ok l : forallb (fun b => (0 <=? b) && (b <? 256)) l = true -> Forall is_byte l.
Proof.
  intros H. rewrite forallb_forall in H. apply list.Forall_forall. intros b Hb%list_elem_of_In. specialize (H b Hb).
  unfold is_byte. lia.
Qed.

(** A test of well-formedness. *)
Definition wf_check (r : WalRecord) : bool :=
  (0 <? rec_lsn r) && (rec_lsn r <? 2 ^ 64) && (0 <=? rec_tx r) && (rec_tx r <? 2 ^ 64) &&
  (zlen (rec_payload r) <=? kMaxRecordSize - kMinimumRecordSize) &&
  forallb (fun b => (0 <=? b) && (b <? 256)) (rec_payload r).

Lemma wf_checked rs : forallb wf_check rs = true -> Forall record_wf rs.
Proof.
  intros H. rewrite forallb_forall in H. apply list.Forall_forall. intros r Hr%list_elem_of_In. specialize (H r Hr).
  unfold wf_check in H. rewrite !andb_true_iff in H. destruct H as [[[[[H1 H2] H3] H4] H5] H6].
  split; [lia|split; lia|lia|by apply bytes_ok].
Qed.

Lemma log_mixed_wf : Forall record_wf log_mixed.
Proof. apply wf_checked. vm_compute. reflexivity. Qed.

Lemma file_mixed_bytes : Forall is_byte file_mixed.
Proof. exact (log_bytes_is_byte _ log_mixed_wf). Qed.

Lemma state_mixed_ok : RA.analyze (Some file_mixed) = Ok state_mixed.
Proof.
  unfold file_mixed. rewrite (RA.analyze_log _ log_mixed_wf) by (vm_compute; split_and!; done).
  unfold state_mixed. fold file_mixed. assert (exists s, RA.analyze_records (zlen file_mixed) log_mixed = Ok s) as [s ->]; [|done].
  assert ((match RA.analyze_records 0 log_mixed with Ok _ => true | Throw _ => false end) = true) as H by (vm_compute; reflexivity).
  revert H. unfold RA.analyze_records. destruct (RA.collect_all _ _); [|done]. destruct (existsb _ _); [done|]. by eexists.
Qed.

Lemma world_crashed_inv : BP.pool_inv None (wx world_crashed).
Proof. exact (BP.create_inv 1 BP.pm_two BP.pm_two_ok). Qed.

Definition redo_metrics : RedoMetrics := mkRedo 5 1 0 0 1 1 0.

Lemma world_redone_run : redo_run (Some 5) state_mixed world_crashed = (Ok redo_metrics, world_redone).
Proof. unfold world_redone. apply run_split. vm_compute. reflexivity. Qed.

Lemma world_again_run :
  redo_run (Some 5) state_mixed world_redone = ((redo_run (Some 5) state_mixed world_redone).1, world_again).
Proof. unfold world_again. by apply run_split. Qed.

#[local] Opaque state_mixed world_crashed world_redone world_again file_mixed.

Lemma redo_repeats_history_witness :
  BP.pool_inv None (wx world_redone) /\
  (forall k, BP.pins (w_pool world_redone) k = BP.pins (w_pool world_crashed) k).
Proof.
  pose proof (redo_repeats_history (Some 5) file_mixed state_mixed world_crashed redo_metrics world_redone 0
    file_mixed_bytes state_mixed_ok world_crashed_inv world_redone_run) as (H1 & H2 & _).
  exact (conj H1 H2).
Defined.

Lemma redo_idempotent_witness : keeps_pages world_redone world_again.
Proof.
  pose proof (redo_idempotent (Some 5) file_mixed state_mixed world_crashed redo_metrics world_redone _ world_again
    file_mixed_bytes state_mixed_ok world_crashed_inv world_redone_run world_again_run) as (H1 & _).
  exact H1.
Defined.

End RD.
