(* ===== verification/Undo.v ===== *)
(** * The UNDO pass rebuilds pages without the losers

    What [UndoEngine::run] ([src/src/recovery/undo_engine.cpp]) does to the pages, and what
    recovery as a whole restores.  The definitions are those of [Recovery]. *)

From stdpp Require Import sorting.
From S2P Require Import Prelude Bytes Page Stream PageStore PageManager Wal LogManager BufferPool Mutation Analysis Recovery Redo.

Module UN.
Import RE RD.

#[local] Opaque PM.stored_page PM.is_page_allocated PM.deallocate_page.

(** ** Histories *)

Lemma increasing_inj p ms a b :
  increasing p ms -> a ∈ ms -> b ∈ ms -> RA.mr_lsn a = RA.mr_lsn b -> a = b.
Proof.
  induction ms as [|c ms IH] using rev_ind; intros Hi Ha Hb He; [by apply not_elem_of_nil in Ha|].
  apply increasing_snoc in Hi as [Hi Hlt]. apply elem_of_app in Ha as [Ha|Ha], Hb as [Hb|Hb].
  - by apply IH.
  - apply list_elem_of_singleton in Hb as ->. specialize (Hlt _ Ha). lia.
  - apply list_elem_of_singleton in Ha as ->. specialize (Hlt _ Hb). lia.
  - apply list_elem_of_singleton in Ha as ->. by apply list_elem_of_singleton in Hb as ->.
Qed.

Lemma increasing_sorted p ms : increasing p ms -> Sorted Z.le (RA.mr_lsn <$> ms).
Proof.
  revert p. induction ms as [|a ms IH]; intros p H; [constructor|]. destruct H as [_ H]. csimpl.
  constructor; [by eapply IH|]. destruct ms as [|b ms]; constructor. destruct H. lia.
Qed.

(** Sorting by LSN leaves a list alone that is sorted already. *)
Lemma sort_increasing p ms : increasing p ms -> merge_sort (RA.key_le RA.mr_lsn) ms = ms.
Proof.
  intros Hi. set (l := merge_sort (RA.key_le RA.mr_lsn) ms).
  assert (l ≡ₚ ms) as Hp by apply merge_sort_Permutation.
  assert (RA.mr_lsn <$> l = RA.mr_lsn <$> ms) as Hk.
  { apply (Sorted_unique Z.le); [|by eapply increasing_sorted|by rewrite Hp].
    assert (Sorted (RA.key_le RA.mr_lsn) l) as Hs.
    { apply Sorted_merge_sort. intros a b. unfold RA.key_le. lia. }
    clear -Hs. induction Hs as [|a l _ IH Ha]; [constructor|]. csimpl. constructor; [done|].
    destruct Ha; constructor. done. }
  apply list_eq. intros i. pose proof (f_equal (fun k => k !! i) Hk) as Hki. cbv beta in Hki. rewrite !list_lookup_fmap in Hki.
  destruct (l !! i) as [a|] eqn:Ea, (ms !! i) as [b|] eqn:Eb; try done. f_equal. injection Hki as Hki.
  apply (increasing_inj p ms); [done| |by eapply list_elem_of_lookup_2|done].
  rewrite <- Hp. by eapply list_elem_of_lookup_2.
Qed.

Section undo.
Context (wal : option Z) (s : RA.RecoveryState) (Hlog : log_state s).

Lemma page_increasing j : increasing 0 (RA.mutations_for_page s j).
Proof.
  apply increasing_filter. rewrite (RA.az_mutations _ (ls_analyzed _ Hlog)). apply increasing_mutations, Hlog.
Qed.

Lemma history_eq j : history_of s j = RA.mutations_for_page s j.
Proof. eapply sort_increasing, page_increasing. Qed.

Lemma mutation_seen a : a ∈ RA.mutations s -> mutation_ok a /\ exists t, RA.transaction s (RA.mr_tx a) = Some t.
Proof.
  rewrite (RA.az_mutations _ (ls_analyzed _ Hlog)). intros (r & Hr & Ha)%list_elem_of_omap.
  destruct Hlog as [_ [_ Hwf]]. rewrite list.Forall_forall in Hwf. split; [by apply (mutation_of_ok r); [apply Hwf|]|].
  destruct (mutation_of_fields _ _ Ha) as [_ ->]. by eapply transaction_seen.
Qed.

Lemma allocation_seen a :
  a ∈ RA.allocations s -> is_u64 (RA.al_page a) /\ is_valid (RA.al_page a) = true /\ exists t, RA.transaction s (RA.al_tx a) = Some t.
Proof.
  rewrite (RA.az_allocations _ (ls_analyzed _ Hlog)). intros (r & Hr & Ha)%list_elem_of_omap.
  destruct Hlog as [_ [_ Hwf]]. rewrite list.Forall_forall in Hwf.
  destruct (allocation_of_ok r a) as [Hu Hv]; [by apply Hwf|done|]. split_and!; [done|done|].
  destruct (allocation_of_fields _ _ Ha) as [_ ->]. by eapply transaction_seen.
Qed.

(** The committed entries of a history applied one after the other. *)
Definition deltas (image : bytes) (ms : list RA.MutationRecord) : bytes :=
  fold_left (fun im a => apply_delta im (mut_before (RA.mr_mutation a)) (mut_after (RA.mr_mutation a))) ms image.

Definition committed_of (h : list RA.MutationRecord) : list RA.MutationRecord :=
  filter (fun a => is_committed s (RA.mr_tx a) = true) h.

Lemma replay_history_eq h image lsn :
  (forall a, a ∈ h -> exists t, RA.transaction s (RA.mr_tx a) = Some t) ->
  replay_history s image lsn h =
    Ok (deltas image (committed_of h), from_option RA.mr_lsn lsn (list.last (committed_of h))).
Proof.
  revert image lsn. induction h as [|a h IH]; intros image lsn Hh; [done|]. cbn [replay_history].
  destruct (Hh a) as [t Ht]; [left|]. rewrite Ht.
  assert (is_committed s (RA.mr_tx a) = bool_decide (RA.status t = RA.Committed)) as Hc by (unfold is_committed; by rewrite Ht).
  unfold committed_of. rewrite filter_cons. rewrite Hc. destruct (bool_decide _).
  - rewrite IH by (intros; apply Hh; by right). cbn [decide]. rewrite decide_True by done. fold (committed_of h). f_equal. f_equal.
    rewrite last_cons. by destruct (list.last (committed_of h)).
  - rewrite IH by (intros; apply Hh; by right). by rewrite decide_False.
Qed.

(** ** What the pass collects *)

Lemma at_all_select {A} (l : list A) ix : Forall (fun i => i < length l)%nat ix -> at_all l ix = Ok (RA.select l ix).
Proof.
  induction 1 as [|i ix Hi _ IH]; [done|]. cbn [at_all]. apply lookup_lt_is_Some in Hi as [a Ha].
  rewrite Ha, IH. unfold RA.select. csimpl. by rewrite Ha.
Qed.

Definition loser_in (ts : list (Z * RA.TransactionAnalysis)) (tx : Z) : Prop :=
  exists t, (tx, t) ∈ ts /\ RA.status t <> RA.Committed.

Lemma loser_in_cons tx' t ts tx :
  loser_in ((tx', t) :: ts) tx <-> tx = tx' /\ RA.status t <> RA.Committed \/ loser_in ts tx.
Proof.
  unfold loser_in. setoid_rewrite elem_of_cons. split.
  - intros (t0 & [[= -> ->]|Hin] & Hc); eauto.
  - intros [[-> Hc]|(t0 & Hin & Hc)]; eauto.
Qed.

Lemma loser_records_eq ts :
  (forall tx t, (tx, t) ∈ ts -> RA.transaction s tx = Some t) ->
  exists ms als, loser_records s ts = Ok (ms, als) /\
    (forall a, a ∈ ms <-> a ∈ RA.mutations s /\ loser_in ts (RA.mr_tx a)) /\
    (forall a, a ∈ als <-> a ∈ RA.allocations s /\ loser_in ts (RA.al_tx a)).
Proof.
  induction ts as [|[tx t] ts IH]; intros Ht.
  { exists [], []. unfold loser_in. setoid_rewrite elem_of_nil. naive_solver. }
  destruct IH as (ms & als & IH & Hms & Hals); [intros; apply Ht; by right|].
  destruct (RA.az_indexes _ (ls_analyzed _ Hlog) tx t) as (H1 & H2 & H3 & H4); [apply Ht; left|].
  cbn [loser_records]. setoid_rewrite loser_in_cons. destruct (decide (RA.status t = RA.Committed)) as [Hc|Hc].
  { exists ms, als. rewrite Hc. split; [done|]. setoid_rewrite Hms. setoid_rewrite Hals. naive_solver. }
  exists (RA.select (RA.mutations s) (RA.mutation_indexes t) ++ ms), (RA.select (RA.allocations s) (RA.allocation_indexes t) ++ als).
  split.
  - rewrite !at_all_select, IH by done. by destruct (RA.status t).
  - setoid_rewrite elem_of_app. rewrite H1, H2. setoid_rewrite list_elem_of_filter. setoid_rewrite Hms. setoid_rewrite Hals. naive_solver.
Qed.

Lemma losers_ok :
  exists ms als, loser_records s (RA.in_order (RA.transactions s)) = Ok (ms, als) /\
    (forall a, a ∈ ms <-> a ∈ RA.mutations s /\ is_committed s (RA.mr_tx a) = false) /\
    (forall a, a ∈ als <-> a ∈ RA.allocations s /\ is_committed s (RA.al_tx a) = false).
Proof.
  destruct (loser_records_eq (RA.in_order (RA.transactions s))) as (ms & als & H & Hms & Hals).
  { intros tx t Hx%RA.in_order_elem. done. }
  assert (forall tx t, RA.transaction s tx = Some t -> loser_in (RA.in_order (RA.transactions s)) tx <-> is_committed s tx = false) as Hl.
  { intros tx t Ht. unfold loser_in, is_committed. rewrite Ht, bool_decide_eq_false. split.
    - intros (t' & Hx%RA.in_order_elem & Hc). unfold RA.transaction in Ht. cbn in Hx. congruence.
    - intros Hc. exists t. split; [|done]. by apply RA.in_order_elem. }
  exists ms, als. split_and!; [done| |].
  - intros a. rewrite Hms. split; intros [Ha Hx]; (split; [done|]); destruct (mutation_seen a Ha) as [_ [t Ht]]; by apply (Hl _ t).
  - intros a. rewrite Hals. split; intros [Ha Hx]; (split; [done|]); destruct (allocation_seen a Ha) as (_ & _ & t & Ht); by apply (Hl _ t).
Qed.

(** ** Rebuilding one page *)

Lemma apply_delta_length im b a : length (apply_delta im b a) = length im.
Proof. revert b a. induction im as [|i im IH]; intros [|y b] [|z a]; cbn; [done..|]. by rewrite IH. Qed.

Lemma apply_delta_bytes im b a : Forall is_byte im -> Forall is_byte a -> Forall is_byte (apply_delta im b a).
Proof.
  revert b a. induction im as [|i im IH]; intros [|y b] [|z a] Hi Ha; cbn; try done.
  apply list.Forall_cons in Hi as [? ?], Ha as [? ?]. constructor; [by destruct (y =? z)|auto].
Qed.

Lemma deltas_ok ms im :
  (forall a, a ∈ ms -> mutation_ok a) -> Forall is_byte im ->
  Forall is_byte (deltas im ms) /\ length (deltas im ms) = length im.
Proof.
  revert im. induction ms as [|a ms IH]; intros im Hm Hi; [done|]. cbn.
  destruct (IH (apply_delta im (mut_before (RA.mr_mutation a)) (mut_after (RA.mr_mutation a)))) as [H1 H2].
  - intros b Hb. apply Hm. by right.
  - apply apply_delta_bytes; [done|]. apply (Hm a). left.
  - split; [exact H1|]. etrans; [exact H2|]. apply apply_delta_length.
Qed.

(** The image the first entry of a page's history found. *)
Definition base_image (j : PageId) : bytes :=
  from_option (fun a => mut_before (RA.mr_mutation a)) [] (head (RA.mutations_for_page s j)).

(** The image and the PageLSN the pass gives to a page. *)
Definition rebuilt_image (j : PageId) : bytes := deltas (base_image j) (winners s j).
Definition rebuilt_lsn (j : PageId) : Z := from_option RA.mr_lsn 0 (list.last (winners s j)).

Lemma committed_winners j : committed_of (RA.mutations_for_page s j) = winners s j.
Proof.
  unfold committed_of, RA.mutations_for_page, winners, winners_in. rewrite list_filter_filter.
  apply list_filter_iff. naive_solver.
Qed.

Lemma page_mutations a j : a ∈ RA.mutations_for_page s j <-> mut_page (RA.mr_mutation a) = j /\ a ∈ RA.mutations s.
Proof. unfold RA.mutations_for_page. by rewrite list_elem_of_filter. Qed.

Lemma rebuilt_ok j :
  RA.mutations_for_page s j <> [] ->
  is_u64 j /\ is_valid j = true /\ Forall is_byte (rebuilt_image j) /\ zlen (rebuilt_image j) = kPagePayloadSize /\ is_u64 (rebuilt_lsn j).
Proof.
  intros Hne. unfold rebuilt_image, base_image.
  assert (forall a, a ∈ RA.mutations_for_page s j -> mutation_ok a /\ mut_page (RA.mr_mutation a) = j) as Hok.
  { intros a [Hp Ha]%page_mutations. by destruct (mutation_seen a Ha). }
  assert (forall a, a ∈ winners s j -> mutation_ok a) as Hw.
  { intros a [_ Ha]%list_elem_of_filter. by destruct (mutation_seen a Ha). }
  destruct (RA.mutations_for_page s j) as [|a h]; [done|]. destruct (Hok a) as [Ha Hp]; [left|]. destruct Ha. cbn.
  destruct (deltas_ok (winners s j) (mut_before (RA.mr_mutation a)) Hw mo_before_bytes0) as [H1 H2].
  split_and!; [congruence|congruence|done|congruence|]. unfold rebuilt_lsn.
  destruct (list.last (winners s j)) as [b|] eqn:El; cbn; [|unfold is_u64; lia].
  destruct (Hw b) as [[? ?] _ _ _ _ _ _]; [by apply last_Some_elem_of|]. unfold is_u64. lia.
Qed.

Lemma base_image_size j : RA.mutations_for_page s j <> [] -> zlen (base_image j) = kPagePayloadSize.
Proof.
  intros Hne. unfold base_image. destruct (RA.mutations_for_page s j) as [|a h] eqn:Hm; [done|].
  assert (a ∈ RA.mutations_for_page s j) as [_ Ha]%page_mutations by (rewrite Hm; left).
  by destruct (mutation_seen a Ha) as [[] _].
Qed.

(** ** The pass *)

(** The pages of [js] rebuilt, all others as before. *)
Definition pages_rebuilt (js : list PageId) (v v' : PageId -> option Page) : Prop :=
  forall j, if decide (j ∈ js)
            then exists pg, v j = Some pg /\ v' j = Some (overwritten (rebuilt_lsn j) (rebuilt_image j) pg)
            else v' j = v j.

Lemma undo_page_spec w j :
  BP.pool_inv None (wx w) -> RA.mutations_for_page s j <> [] ->
  j ∉ reconstructed_pages_ (w_replay w) ->
  wp (undo_page wal s j) w (fun r w' =>
    steady w w' /\ PM.is_page_allocated (w_pages w') = PM.is_page_allocated (w_pages w) /\
    (forall c, r = Ok c -> reconstructed_pages_ (w_replay w') = {[j]} ∪ reconstructed_pages_ (w_replay w) /\
       pages_rebuilt [j] (BP.view (wx w)) (BP.view (wx w'))) /\
    (BP.tidy wal (wx w) -> BP.wal_covers wal (rebuilt_lsn j) = true -> BP.tidy wal (wx w')) /\
    (accessible wal w j -> exists c, r = Ok c)).
Proof.
  intros Hinv Hne Hnew. destruct (rebuilt_ok j Hne) as (Hu & Hv & Hb & Hz & Hl).
  unfold undo_page. rewrite history_eq. destruct (RA.mutations_for_page s j) as [|a h] eqn:Hh; [done|].
  rewrite <- Hh. rewrite replay_history_eq.
  2:{ intros b [_ Hx]%page_mutations. by destruct (mutation_seen b Hx). }
  wp_step. wp_step. rewrite committed_winners. cbn [fst snd].
  assert (deltas (mut_before (RA.mr_mutation a)) (winners s j) = rebuilt_image j) as ->.
  { unfold rebuilt_image, base_image. by rewrite Hh. }
  fold (rebuilt_lsn j). wp_step. wp_use reconstruct_page_spec; [done|done|done|done|].
  rewrite bool_decide_false by done. intros [b|e] w' (Hst & Ha & Hr & Htd & Hlive).
  - wp_step. destruct Hr as (-> & Hrec & pg & Hpg & Hvw). split_and!; [done|done| |done|by eexists].
    intros c _. split; [done|]. intros k. specialize (Hvw k). destruct (decide (k = j)) as [->|Hd].
    + rewrite decide_True by set_solver. eauto.
    + rewrite decide_False by set_solver. done.
  - split_and!; [done|done|done|done|]. intros Hacc. by destruct (Hlive Hacc Hz).
Qed.

Lemma pages_rebuilt_cons j js v v1 v2 :
  j ∉ js -> pages_rebuilt [j] v v1 -> pages_rebuilt js v1 v2 -> pages_rebuilt (j :: js) v v2.
Proof.
  intros Hj H1 H2 k. specialize (H1 k). specialize (H2 k). destruct (decide (k = j)) as [->|Hne].
  - rewrite decide_True in H1 by set_solver. rewrite decide_False in H2 by done. rewrite decide_True by set_solver. by rewrite H2.
  - rewrite decide_False in H1 by set_solver. destruct (decide (k ∈ js)).
    + rewrite decide_True by set_solver. by rewrite <- H1.
    + rewrite decide_False by set_solver. congruence.
Qed.

(** Every page of [js] can be rebuilt without an error. *)
Definition all_accessible (w : World) (js : list PageId) : Prop :=
  BP.tidy wal (wx w) /\ BP.unpinned (w_pool w) /\ PM.pm_healthy (w_pages w) /\ active_ (w_replay w) = true /\
  Forall (fun j => PM.is_page_allocated (w_pages w) j = true /\ is_Some (BP.view (wx w) j) /\
                   BP.wal_covers wal (rebuilt_lsn j) = true) js.

Lemma undo_pages_spec js acc w :
  BP.pool_inv None (wx w) -> NoDup js -> (forall j, j ∈ js -> RA.mutations_for_page s j <> []) ->
  (forall j, j ∈ js -> j ∉ reconstructed_pages_ (w_replay w)) ->
  wp (undo_pages wal s acc js) w (fun r w' =>
    steady w w' /\ PM.is_page_allocated (w_pages w') = PM.is_page_allocated (w_pages w) /\
    (forall c, r = Ok c -> pages_rebuilt js (BP.view (wx w)) (BP.view (wx w'))) /\
    (all_accessible w js -> BP.tidy wal (wx w') /\ exists c, r = Ok c)).
Proof.
  revert acc w. induction js as [|j js IH]; intros acc w Hinv Hnd Hne Hnew; cbn [undo_pages].
  { wp_step. split_and!; [by apply steady_refl|done| |].
    - intros c _ k. by rewrite decide_False by apply not_elem_of_nil.
    - intros (? & _). split; [done|by eexists]. }
  apply list.NoDup_cons in Hnd as [Hj Hnd].
  wp_step. wp_use undo_page_spec; [done|apply Hne; left|apply Hnew; left|].
  intros r1 w1 (Hst1 & Ha1 & Hr1 & Htd1 & Hl1).
  assert (all_accessible w (j :: js) -> exists c, r1 = Ok c) as Hl1'.
  { intros (Ht & Hu & Hh & Hact & Hf). apply list.Forall_cons in Hf as [(Hal & Hs & _) _]. apply Hl1.
    destruct (rebuilt_ok j) as (_ & Hv & _); [apply Hne; left|]. done. }
  destruct r1 as [c|e]; [|split_and!; [done|done|done|]; intros Hx; by destruct (Hl1' Hx)].
  destruct (Hr1 c eq_refl) as [Hrec Hreb].
  wp_use IH; [apply Hst1|done|intros; apply Hne; by right| |].
  { intros k Hk. rewrite Hrec. assert (k ∉ reconstructed_pages_ (w_replay w)) by (apply Hnew; by right). set_solver. }
  intros r w' (Hst & Ha & Hr & Hl). split_and!; [by eapply steady_trans|congruence| |].
  - intros c' Hc. eapply pages_rebuilt_cons; [done|done|by eapply Hr].
  - intros (Ht & Hu & Hh & Hact & Hf). apply list.Forall_cons in Hf as [(Hal & Hs & Hcov) Hf]. apply Hl. split_and!.
    + by apply Htd1.
    + intros k. rewrite (st_pins _ _ Hst1). apply Hu.
    + by apply Hst1.
    + rewrite (st_active _ _ Hst1). done.
    + rewrite list.Forall_forall in Hf |- *. intros k Hk. destruct (Hf k Hk) as (Hal' & Hs' & Hcov').
      rewrite Ha1. split_and!; [done| |done]. specialize (Hreb k).
      rewrite decide_False in Hreb by (intros ->%list_elem_of_singleton; done). by rewrite Hreb.
Qed.

Lemma undo_allocations_spec als acc w :
  BP.pool_inv None (wx w) -> (forall a, a ∈ als -> is_u64 (RA.al_page a) /\ is_valid (RA.al_page a) = true) ->
  wp (undo_allocations wal acc als) w (fun r w' =>
    steady w w' /\ (forall j, BP.view (wx w') j = BP.view (wx w) j) /\
    (forall c, r = Ok c -> forall j, 0 <= j -> PM.is_page_allocated (w_pages w') j =
       PM.is_page_allocated (w_pages w) j && negb (bool_decide (j ∈ RA.al_page <$> als))) /\
    (all_accessible w [] -> exists c, r = Ok c)).
Proof.
  revert acc w. induction als as [|a als IH]; intros acc w Hinv Hok; cbn [undo_allocations].
  { wp_step. split_and!; [by apply steady_refl|done| |by eexists]. intros c _ j _.
    rewrite bool_decide_false by apply not_elem_of_nil. by rewrite andb_true_r. }
  destruct (Hok a) as [Hu Hv]; [left|]. wp_step. wp_use undo_page_allocate_spec; [done|done|].
  intros r1 w1 (Hst1 & Hre1 & Hv1 & Hr1 & Hl1).
  assert (all_accessible w [] -> exists b, r1 = Ok b) as Hl1'.
  { intros (? & ? & ? & ? & _). by apply Hl1. }
  destruct r1 as [b|e]; [|split_and!; [done|done|done|]; intros Hx; by destruct (Hl1' Hx)].
  destruct (Hr1 b eq_refl) as (_ & Htd1 & Hal1). wp_use IH; [apply Hst1|intros; apply Hok; by right|].
  intros r w' (Hst & Hvw & Hr & Hl). split_and!; [by eapply steady_trans|intros; by rewrite Hvw| |].
  - intros c Hc j Hj. rewrite (Hr c Hc j Hj), Hal1 by done. csimpl. case_decide as Hd.
    + subst j. rewrite (bool_decide_true (RA.al_page a ∈ RA.al_page a :: _)) by left. by rewrite andb_false_r.
    + f_equal. f_equal. apply bool_decide_ext. rewrite elem_of_cons. naive_solver.
  - intros (Ht & Hup & Hh & Hact & _). apply Hl. split_and!; [by apply Htd1| |by apply Hst1| |constructor].
    + intros k. rewrite (st_pins _ _ Hst1). apply Hup.
    + by rewrite (st_active _ _ Hst1).
Qed.

(** The pages losers changed, and the pages they allocated. *)
Definition loser_page (j : PageId) : bool :=
  existsb (fun a => (mut_page (RA.mr_mutation a) =? j) && negb (is_committed s (RA.mr_tx a))) (RA.mutations s).
Definition loser_allocation (j : PageId) : bool :=
  existsb (fun a => (RA.al_page a =? j) && negb (is_committed s (RA.al_tx a))) (RA.allocations s).

Lemma page_set_elem ms j : j ∈ page_set ms <-> exists a, a ∈ ms /\ mut_page (RA.mr_mutation a) = j.
Proof.
  unfold page_set. rewrite merge_sort_Permutation, elem_of_elements, elem_of_list_to_set, list_elem_of_fmap. naive_solver.
Qed.

Lemma page_set_nodup ms : NoDup (page_set ms).
Proof. unfold page_set. rewrite merge_sort_Permutation. apply NoDup_elements. Qed.

Lemma undo_run_spec w :
  BP.pool_inv None (wx w) -> reconstructed_pages_ (w_replay w) = ∅ ->
  wp (undo_run wal s) w (fun r w' =>
    steady w w' /\
    (forall m, r = Ok m ->
      (forall j, if loser_page j
        then exists pg, BP.view (wx w) j = Some pg /\ BP.view (wx w') j = Some (overwritten (rebuilt_lsn j) (rebuilt_image j) pg)
        else BP.view (wx w') j = BP.view (wx w) j) /\
      (forall j, 0 <= j -> PM.is_page_allocated (w_pages w') j = PM.is_page_allocated (w_pages w) j && negb (loser_allocation j))) /\
    (BP.tidy wal (wx w) -> BP.unpinned (w_pool w) -> PM.pm_healthy (w_pages w) -> active_ (w_replay w) = true ->
     (forall j, loser_page j = true -> PM.is_page_allocated (w_pages w) j = true /\ is_Some (BP.view (wx w) j) /\
                                 BP.wal_covers wal (rebuilt_lsn j) = true) -> exists m, r = Ok m)).
Proof.
  intros Hinv Hempty. unfold undo_run. wp_step. wp_step. wp_step. wp_step; bprop.
  { split_and!; [by apply steady_refl|done|]. congruence. }
  destruct losers_ok as (ms & als & -> & Hms & Hals).
  assert (forall j, j ∈ page_set ms <-> loser_page j = true) as Hset.
  { intros j. rewrite page_set_elem. unfold loser_page. rewrite existsb_exists. setoid_rewrite Hms.
    setoid_rewrite andb_true_iff. setoid_rewrite negb_true_iff. setoid_rewrite Z.eqb_eq. setoid_rewrite <- list_elem_of_In.
    naive_solver. }
  assert (forall j, j ∈ RA.al_page <$> newest_first als <-> loser_allocation j = true) as Hset'.
  { intros j. rewrite list_elem_of_fmap. unfold newest_first. setoid_rewrite merge_sort_Permutation. unfold loser_allocation.
    rewrite existsb_exists. setoid_rewrite Hals. setoid_rewrite andb_true_iff. setoid_rewrite negb_true_iff.
    setoid_rewrite Z.eqb_eq. setoid_rewrite <- list_elem_of_In. naive_solver. }
  wp_step. wp_step. cbn [fst snd]. wp_step. wp_use undo_pages_spec; [done|apply page_set_nodup| |rewrite Hempty; set_solver|].
  { intros j (a & [Ha _]%Hms & Hp)%page_set_elem Hnil. apply (not_elem_of_nil (A := RA.MutationRecord) a).
    rewrite <- Hnil. by apply page_mutations. }
  intros r1 w1 (Hst1 & Ha1 & Hr1 & Hl1).
  match goal with |- context [_ -> _ -> _ -> _ -> ?L -> exists m, _ = Ok m] => set (live := L) end.
  assert (live -> BP.tidy wal (wx w) -> BP.unpinned (w_pool w) -> PM.pm_healthy (w_pages w) -> active_ (w_replay w) = true ->
    BP.tidy wal (wx w1) /\ exists c, r1 = Ok c) as Hlive.
  { intros Hx Ht Hu Hh Hact. apply Hl1. split_and!; [done|done|done|done|]. apply list.Forall_forall. intros j Hj. by apply Hx, Hset. }
  destruct r1 as [c|e]; [|split_and!; [done|done|]; intros Ht Hu Hh Hact Hx; by destruct (Hlive Hx Ht Hu Hh Hact) as [_ [? ?]]].
  wp_step. wp_use undo_allocations_spec; [apply Hst1| |].
  { intros a. unfold newest_first. rewrite merge_sort_Permutation. intros [Ha _]%Hals. by destruct (allocation_seen a Ha) as (? & ? & _). }
  intros r2 w2 (Hst2 & Hv2 & Hr2 & Hl2).
  assert (live -> BP.tidy wal (wx w) -> BP.unpinned (w_pool w) -> PM.pm_healthy (w_pages w) -> active_ (w_replay w) = true ->
    exists c, r2 = Ok c) as Hlive2.
  { intros Hx Ht Hu Hh Hact. apply Hl2. destruct (Hlive Hx Ht Hu Hh Hact) as [Ht1 _].
    split_and!; [done| |by apply Hst1|by rewrite (st_active _ _ Hst1)|constructor].
    intros k. rewrite (st_pins _ _ Hst1). apply Hu. }
  destruct r2 as [n|e].
  2:{ split_and!; [by eapply steady_trans|done|]. intros Ht Hu Hh Hact Hx. by destruct (Hlive2 Hx Ht Hu Hh Hact). }
  wp_step. split_and!; [by eapply steady_trans| |by eexists]. intros m _. split.
  - intros j. specialize (Hr1 c eq_refl j). rewrite Hv2. destruct (loser_page j) eqn:Hj.
    + by rewrite decide_True in Hr1 by by apply Hset.
    + rewrite decide_False in Hr1; [done|]. rewrite Hset. congruence.
  - intros j Hj. rewrite (Hr2 n eq_refl j Hj), Ha1. do 2 f_equal.
    destruct (loser_allocation j) eqn:Hx; [apply bool_decide_true; by apply Hset'|apply bool_decide_false; rewrite Hset'; congruence].
Qed.

(** ** Pages that are not allocated *)

(** REDO allocates the pages committed transactions allocated, and no other. *)
Lemma redo_records_allocated rs m w j :
  (forall r, r ∈ rs -> r ∈ RA.records s) -> BP.pool_inv None (wx w) -> 0 <= j ->
  (forall a, a ∈ omap RA.allocation_of rs -> RA.al_page a = j -> is_committed s (RA.al_tx a) = false) ->
  wp (redo_records wal s m rs) w (fun _ w' => PM.is_page_allocated (w_pages w') j = PM.is_page_allocated (w_pages w) j).
Proof.
  intros Hin Hinv Hj. revert m w Hinv. induction rs as [|r rs IH]; intros m w Hinv Hno; cbn [redo_records]; [by wp_step|].
  specialize (IH ltac:(intros; apply Hin; by right)).
  assert (forall a, a ∈ omap RA.allocation_of rs -> RA.al_page a = j -> is_committed s (RA.al_tx a) = false) as Hno'.
  { intros a (r' & Hr' & Ha)%list_elem_of_omap. apply Hno, list_elem_of_omap. exists r'. split; [by right|done]. }
  wp_step. destruct (redo_cases wal s Hlog r (Hin r ltac:(left))).
  - rewrite Hskip. wp_step. by apply IH.
  - rewrite Hrec. wp_step. apply wp_intro. intros r1 w1 E1.
    destruct (wp_elim _ _ _ _ _ (redo_physical_mutation_spec wal w (RA.mr_lsn a) _ Hinv ltac:(destruct Hok; by split)) E1)
      as (Hst & _ & Ha1 & _). destruct r1 as [b|e]; [|by rewrite Ha1]. wp_step. rewrite <- Ha1. apply IH; [apply Hst|done].
  - rewrite Hrec. wp_step. apply wp_intro. intros r1 w1 E1.
    destruct (wp_elim _ _ _ _ _ (redo_page_allocate_spec wal w _ Hinv Hu) E1) as (Hst & _).
    assert (j <> RA.al_page a) as Hne.
    { intros ->. rewrite (Hno a) in Hc; [done| |done]. apply list_elem_of_omap. exists r. split; [left|done]. }
    pose proof (wp_elim _ _ _ _ _ (redo_page_allocate_only w _ Hinv Hu) E1 j Hj Hne) as Ha1. cbv beta in Ha1.
    destruct r1 as [b|e]; [|done]. wp_step. rewrite <- Ha1. apply IH; [apply Hst|done].
Qed.

Lemma redo_run_allocated w j :
  BP.pool_inv None (wx w) -> 0 <= j ->
  (forall a, a ∈ RA.allocations s -> RA.al_page a = j -> is_committed s (RA.al_tx a) = false) ->
  wp (redo_run wal s) w (fun _ w' => PM.is_page_allocated (w_pages w') j = PM.is_page_allocated (w_pages w) j).
Proof.
  intros Hinv Hj Hno. unfold redo_run. wp_step. wp_step. wp_step. wp_step; [done|].
  apply redo_records_allocated; [done|done|done|]. by rewrite <- (RA.az_allocations _ (ls_analyzed _ Hlog)).
Qed.

(** UNDO does not return while a page a loser changed is not allocated. *)
Lemma undo_pages_refused js acc w j :
  BP.pool_inv None (wx w) -> NoDup js -> (forall k, k ∈ js -> RA.mutations_for_page s k <> []) ->
  (forall k, k ∈ js -> k ∉ reconstructed_pages_ (w_replay w)) -> j ∈ js -> PM.is_page_allocated (w_pages w) j = false ->
  wp (undo_pages wal s acc js) w (fun r _ => forall c, r <> Ok c).
Proof.
  revert acc w. induction js as [|k js IH]; intros acc w Hinv Hnd Hne Hnew Hj Hna; [by apply not_elem_of_nil in Hj|].
  cbn [undo_pages]. apply list.NoDup_cons in Hnd as [Hk Hnd]. wp_step. apply wp_intro. intros r1 w1 E1.
  destruct (wp_elim _ _ _ _ _ (undo_page_spec w k Hinv (Hne k ltac:(left)) (Hnew k ltac:(left))) E1) as (Hst & Ha1 & Hr & _).
  destruct r1 as [c|e]; [|done]. destruct (Hr c eq_refl) as [Hrec _].
  apply elem_of_cons in Hj as [->|Hj].
  - exfalso. revert E1. clear IH Hr Hst Ha1 Hrec. intros E1.
    cut ((fun r (_ : World) => forall c, r <> Ok c) (Ok c) w1); [intros Hx; by apply (Hx c)|].
    eapply wp_elim; [|exact E1]. unfold undo_page. destruct (history_of s k); [by wp_step|]. wp_step. wp_step.
    destruct (replay_history _ _ _ _); [|done]. wp_step. apply wp_intro. intros [b|e] w2 E2; [|done].
    exfalso. by eapply reconstruct_page_refused; [| |exact E2]; [apply Hnew; left|].
  - apply IH; [apply Hst|done|intros; apply Hne; by right| |done|by rewrite Ha1].
    intros i Hi. rewrite Hrec. assert (i ∉ reconstructed_pages_ (w_replay w)) by (apply Hnew; by right). set_solver.
Qed.

Lemma undo_run_refused w j m w' :
  BP.pool_inv None (wx w) -> reconstructed_pages_ (w_replay w) = ∅ -> loser_page j = true ->
  PM.is_page_allocated (w_pages w) j = false -> undo_run wal s w <> (Ok m, w').
Proof.
  intros Hinv Hempty Hl Hna E. cut ((fun r (_ : World) => forall m, r <> Ok m) (Ok m) w'); [intros Hx; by apply (Hx m)|].
  eapply wp_elim; [|exact E]. unfold undo_run. wp_step. wp_step. wp_step. wp_step; [done|].
  destruct losers_ok as (ms & als & -> & Hms & _). wp_step. wp_step. cbn [fst snd]. wp_step. apply wp_intro. intros r1 w1 E1.
  destruct r1 as [c|e]; [|done]. exfalso.
  refine (wp_elim _ _ _ _ _ (undo_pages_refused (page_set ms) _ w j Hinv (page_set_nodup _) _ _ _ Hna) E1 c eq_refl).
  - intros k (a & [Ha _]%Hms & Hp)%page_set_elem Hnil. apply (not_elem_of_nil (A := RA.MutationRecord) a).
    rewrite <- Hnil. by apply page_mutations.
  - rewrite Hempty. set_solver.
  - apply existsb_exists in Hl as (a & Ha%list_elem_of_In & [Hp%Z.eqb_eq Hc%negb_true_iff]%andb_true_iff).
    apply page_set_elem. exists a. rewrite Hms. done.
Qed.

End undo.

(** ** What recovery restores *)

(** A logged change gave the byte at [i] a new value. *)
Definition changes_byte (i : nat) (a : RA.MutationRecord) : Prop :=
  mut_before (RA.mr_mutation a) !! i <> mut_after (RA.mr_mutation a) !! i.

(** The value of the byte at [i] after the last of the changes that changed it; where none did,
    the value in [base]. *)
Definition byte_after (base : bytes) (ms : list RA.MutationRecord) (i : nat) : option Z :=
  match list.last (filter (changes_byte i) ms) with
  | Some a => mut_after (RA.mr_mutation a) !! i
  | None => base !! i
  end.

Lemma apply_delta_lookup im b a i :
  length b = length im -> length a = length im ->
  apply_delta im b a !! i = if decide (b !! i <> a !! i) then a !! i else im !! i.
Proof.
  revert b a i. induction im as [|x im IH]; intros [|y b] [|z a] i Hb Ha; try done.
  cbn in Hb, Ha. destruct i as [|i]; cbn [apply_delta].
  - change ((y :: b) !! 0%nat) with (Some y). change ((z :: a) !! 0%nat) with (Some z).
    destruct (Z.eqb_spec y z) as [->|Hyz]; cbn; destruct (decide _) as [Hd|Hd]; naive_solver.
  - cbn. apply IH; lia.
Qed.

Lemma deltas_snoc base ms a :
  deltas base (ms ++ [a]) = apply_delta (deltas base ms) (mut_before (RA.mr_mutation a)) (mut_after (RA.mr_mutation a)).
Proof. unfold deltas. by rewrite fold_left_app. Qed.

Lemma deltas_length ms base : length (deltas base ms) = length base.
Proof. induction ms as [|a ms IH] using rev_ind; [done|]. by rewrite deltas_snoc, apply_delta_length. Qed.

(** Applying the deltas leaves in every byte what the last change of that byte wrote. *)
Lemma deltas_byte ms base i :
  (forall a, a ∈ ms -> mutation_ok a) -> zlen base = kPagePayloadSize -> deltas base ms !! i = byte_after base ms i.
Proof.
  intros Hok Hz. induction ms as [|a ms IH] using rev_ind; [done|].
  destruct (Hok a) as [_ _ _ H1 H2 _ _]; [apply elem_of_app; right; left|].
  assert (forall b, b ∈ ms -> mutation_ok b) as Hms by (intros; apply Hok, elem_of_app; by left).
  pose proof (deltas_length ms base) as Hl. rewrite deltas_snoc.
  rewrite apply_delta_lookup by lia. rewrite IH by done. unfold byte_after.
  rewrite list.filter_app, filter_cons, filter_nil. destruct (decide (changes_byte i a)) as [Hc|Hc].
  - rewrite last_snoc. by rewrite decide_True.
  - rewrite app_nil_r. by rewrite decide_False.
Qed.

Lemma recover_inv wal content w m w' :
  recover wal (Some content) w = (Ok m, w') ->
  exists s m1 w1 m2, RA.analyze (Some content) = Ok s /\ redo_run wal s w = (Ok m1, w1) /\ undo_run wal s w1 = (Ok m2, w').
Proof.
  unfold recover. intros (s & w0 & H1 & H)%bind_ok. apply bind_ok in H as (m1 & w1 & H2 & H).
  apply bind_ok in H as (m2 & w2 & H3 & H4). injection H4 as <- <-. unfold lift in H1. injection H1 as H1 <-. eauto 8.
Qed.

(** Recovery does not return if a loser changed a page that is not allocated and no winner
    allocated. *)
Lemma recover_refused wal content s w j :
  Forall is_byte content -> RA.analyze (Some content) = Ok s -> BP.pool_inv None (wx w) ->
  reconstructed_pages_ (w_replay w) = ∅ -> loser_page s j = true -> PM.is_page_allocated (w_pages w) j = false ->
  (forall a, a ∈ RA.allocations s -> RA.al_page a = j -> is_committed s (RA.al_tx a) = false) ->
  exists e w', recover wal (Some content) w = (Throw e, w').
Proof.
  intros Hb Ha Hinv He Hl Hna Hno. pose proof (analyze_log_state _ _ Hb Ha) as Hlog.
  destruct (recover wal (Some content) w) as [[m|e] w'] eqn:E; [exfalso|by exists e, w'].
  destruct (recover_inv _ _ _ _ _ E) as (s' & m1 & w1 & m2 & Ha' & E1 & E2). rewrite Ha in Ha'. injection Ha' as <-.
  destruct (wp_elim _ _ _ _ _ (redo_run_spec wal s Hlog w Hinv) E1) as ([Hinv1 _ _ _] & Hre & _). rewrite <- Hre in He.
  assert (0 <= j) as Hj.
  { apply existsb_exists in Hl as (a & Hin%list_elem_of_In & [Hp%Z.eqb_eq _]%andb_true_iff).
    destruct (mutation_seen s Hlog a Hin) as [[_ [Hu _] _ _ _ _ _] _]. lia. }
  pose proof (wp_elim _ _ _ _ _ (redo_run_allocated wal s Hlog w j Hinv Hj Hno) E1) as Hal. cbv beta in Hal.
  eapply (undo_run_refused wal s Hlog w1); [done|done|done|congruence|exact E2].
Qed.

Lemma loser_page_history s j : RA.mutations_for_page s j <> [] -> loser_page s j = false -> winners s j <> [].
Proof.
  intros Hne Hl Hw. destruct (RA.mutations_for_page s j) as [|a h] eqn:Hm; [done|].
  assert (a ∈ RA.mutations_for_page s j) as [Hp Ha]%page_mutations by (rewrite Hm; left).
  destruct (is_committed s (RA.mr_tx a)) eqn:Hc.
  - apply (not_elem_of_nil (A := RA.MutationRecord) a). rewrite <- Hw. apply list_elem_of_filter. by split.
  - apply not_true_iff_false in Hl. apply Hl. unfold loser_page. apply existsb_exists. exists a.
    split; [by apply list_elem_of_In|]. by rewrite Hp, Z.eqb_refl, Hc.
Qed.

(** UNDO removes the losers.  When [UndoEngine::run] returns, every page a loser changed is
    rebuilt from the image its first logged change found and the deltas of the committed changes,
    with the LSN of the last of them; every other page has the content it had; and of the allocated
    pages exactly those losers allocated are released. *)
Theorem undo_removes_losers wal content s w m w' :
  Forall is_byte content -> RA.analyze (Some content) = Ok s -> BP.pool_inv None (wx w) ->
  reconstructed_pages_ (w_replay w) = ∅ -> undo_run wal s w = (Ok m, w') ->
  (forall j, if loser_page s j
    then exists pg, BP.view (wx w) j = Some pg /\
      BP.view (wx w') j = Some (overwritten (rebuilt_lsn s j) (rebuilt_image s j) pg)
    else BP.view (wx w') j = BP.view (wx w) j) /\
  (forall j, 0 <= j -> PM.is_page_allocated (w_pages w') j =
     PM.is_page_allocated (w_pages w) j && negb (loser_allocation s j)) /\
  (forall j, BP.pins (w_pool w') j = BP.pins (w_pool w) j).
Proof.
  intros Hb Ha Hinv He E. pose proof (analyze_log_state _ _ Hb Ha) as Hlog.
  destruct (wp_elim _ _ _ _ _ (undo_run_spec wal s Hlog w Hinv He) E) as (Hst & Hr & _).
  destruct (Hr m eq_refl) as [H1 H2]. split_and!; [exact H1|exact H2|apply Hst].
Qed.

(** C1: Recovery restores the committed state, byte by byte.  After [recover] returned, a page a
    loser changed holds in every byte the value the last committed change OF THAT BYTE wrote, and
    in the bytes no committed change touched the value its first logged change found - although
    the logged after-images of the committed changes may carry bytes of losers.  Nothing is
    assumed about what is stored of such a page, so recovery may itself be interrupted and run
    again.  A page only winners changed holds the image of the last of them, if it was stored in
    that version or an older one.  Both carry the LSN of the last committed change (0 if none). *)
Theorem recovery_restores_committed wal content s w m w' j :
  Forall is_byte content -> RA.analyze (Some content) = Ok s -> BP.pool_inv None (wx w) ->
  reconstructed_pages_ (w_replay w) = ∅ -> recover wal (Some content) w = (Ok m, w') ->
  RA.mutations_for_page s j <> [] ->
  (forall pg a, loser_page s j = false -> starts (BP.view (wx w)) j pg -> list.last (winners s j) = Some a ->
     page_lsn pg <= RA.mr_lsn a /\ (page_lsn pg = RA.mr_lsn a -> page_data pg = mut_after (RA.mr_mutation a))) ->
  exists pg, BP.view (wx w') j = Some pg /\ page_lsn pg = rebuilt_lsn s j /\
    if loser_page s j
    then forall i, page_data pg !! i = byte_after (base_image s j) (winners s j) i
    else exists a, list.last (winners s j) = Some a /\ page_data pg = mut_after (RA.mr_mutation a).
Proof.
  intros Hb Ha Hinv He E Hne Hold. pose proof (analyze_log_state _ _ Hb Ha) as Hlog.
  destruct (recover_inv _ _ _ _ _ E) as (s' & m1 & w1 & m2 & Ha' & E1 & E2). rewrite Ha in Ha'. injection Ha' as <-.
  destruct (wp_elim _ _ _ _ _ (redo_run_spec wal s Hlog w Hinv) E1) as ([Hinv1 _ _ _] & Hre & Hr1).
  rewrite <- Hre in He. destruct (wp_elim _ _ _ _ _ (undo_run_spec wal s Hlog w1 Hinv1 He) E2) as (_ & Hr2 & _).
  destruct (Hr2 m2 eq_refl) as [H2 _]. specialize (H2 j). specialize (Hr1 m1 eq_refl j).
  destruct (loser_page s j) eqn:Hl.
  - destruct H2 as (pg & _ & Hv). eexists. split; [exact Hv|]. split; [done|]. intros i. cbn.
    apply deltas_byte; [|by apply base_image_size]. intros a [_ Hin]%list_elem_of_filter. by destruct (mutation_seen s Hlog a Hin).
  - pose proof (loser_page_history s j Hne Hl) as Hw. rewrite H2. unfold rebuilt_lsn.
    destruct (list.last (winners s j)) as [a|] eqn:El; [|by apply last_None in El].
    destruct Hr1 as [(pg & Hs & Hv)|(_ & _ & Hx)]; [|done]. destruct (Hold pg a eq_refl Hs eq_refl) as [H3 H4].
    eexists. split; [exact Hv|]. rewrite (redo_all_last 0), El by by apply winners_increasing. cbn.
    unfold redo_one. destruct (Z.leb_spec (RA.mr_lsn a) (page_lsn pg)); cbn; [|by eauto].
    split; [lia|]. exists a. split; [done|]. apply H4. lia.
Qed.

(** What a crash leaves behind a log whose complete records are [rs]: no page is pinned, every
    clean frame and stored page is as the write-ahead rule leaves it, the file system works, the
    log is durable through its changes, the pages they changed are allocated and intact, and so
    are the images of the pages the log allocated. *)
Record crash_state (wal : option Z) (rs : list WalRecord) (w : World) : Prop := {
  cs_tidy : BP.tidy wal (wx w);
  cs_unpinned : BP.unpinned (w_pool w);
  cs_healthy : PM.pm_healthy (w_pages w);
  cs_replay : active_ (w_replay w) = true /\ reconstructed_pages_ (w_replay w) = ∅;
  cs_durable : forall a, a ∈ omap RA.mutation_of rs -> BP.wal_covers wal (RA.mr_lsn a) = true;
  cs_pages : forall a, a ∈ omap RA.mutation_of rs ->
    PM.is_page_allocated (w_pages w) (mut_page (RA.mr_mutation a)) = true /\
    is_Some (BP.view (wx w) (mut_page (RA.mr_mutation a)));
  cs_allocations : forall a, a ∈ omap RA.allocation_of rs -> is_Some (PM.stored_page (w_pages w) (RA.al_page a));
}.

(** REDO and UNDO go through behind an analysis that did. *)
Lemma passes_complete wal content s w :
  Forall is_byte content -> RA.analyze (Some content) = Ok s -> BP.pool_inv None (wx w) ->
  crash_state wal (RA.records s) w -> exists m w', recover wal (Some content) w = (Ok m, w').
Proof.
  intros Hb Ha Hinv [Ht Hu Hh [Hact He] Hcov Hp Hal]. pose proof (analyze_log_state _ _ Hb Ha) as Hlog.
  rewrite <- (RA.az_mutations _ (ls_analyzed _ Hlog)) in Hcov, Hp. rewrite <- (RA.az_allocations _ (ls_analyzed _ Hlog)) in Hal.
  destruct (redo_run wal s w) as [r1 w1] eqn:E1.
  destruct (wp_elim _ _ _ _ _ (redo_run_complete wal s Hlog Hcov w Hinv (Build_replayable _ _ _ Ht Hu Hh Hact Hal Hp)) E1)
    as ([Ht1 Hu1 Hh1 Hact1 _ Hp1] & m1 & ->).
  destruct (wp_elim _ _ _ _ _ (redo_run_spec wal s Hlog w Hinv) E1) as ([Hinv1 _ _ _] & Hre & _). rewrite <- Hre in He.
  destruct (undo_run wal s w1) as [r2 w2] eqn:E2.
  destruct (wp_elim _ _ _ _ _ (undo_run_spec wal s Hlog w1 Hinv1 He) E2) as (_ & _ & Hl).
  destruct Hl as [m2 ->]; [exact Ht1|exact Hu1|exact Hh1|exact Hact1| |].
  - intros j (a & Hin%list_elem_of_In & [Hj%Z.eqb_eq _]%andb_true_iff)%existsb_exists. subst j.
    destruct (Hp1 a Hin) as [H1 H2]. split_and!; [exact H1|exact H2|].
    unfold rebuilt_lsn. destruct (list.last _) as [b|] eqn:El; [|done]. cbn. apply Hcov.
    apply last_Some_elem_of in El. by apply list_elem_of_filter in El as [_ ?].
  - exists (m1, m2), w2. unfold recover. unfold bind, lift. rewrite Ha, E1, E2. done.
Qed.

(** C18: Recovery completes.  Let the log file be any cut of a log of finished appends, in which
    records carry the payloads of their types and no transaction both committed and aborted.  On a
    file system without faults, with no page pinned, the log durable through the changes it still
    holds, and the pages it mentions intact and the changed ones allocated, analysis, REDO and
    UNDO all return without an error. *)
Theorem recovery_completes wal rs k w :
  Forall record_wf rs -> ascending 0 rs -> 0 <= k -> Forall RA.payload_ok rs ->
  (forall tx, RA.logged Commit tx rs && RA.logged Abort tx rs = false) ->
  BP.pool_inv None (wx w) -> crash_state wal (complete k rs) w ->
  exists m w', recover wal (Some (take (Z.to_nat k) (log_bytes rs))) w = (Ok m, w').
Proof.
  intros Hwf Hasc Hk Hpl Hcf Hinv Hcs.
  destruct (RA.analysis_accepts rs k Hwf Hasc Hk Hpl Hcf) as (s & Ha & Hrs). rewrite <- Hrs in Hcs.
  apply (passes_complete wal _ s); [|exact Ha|exact Hinv|exact Hcs].
  by apply list.Forall_take, log_bytes_is_byte.
Qed.

(** ** Examples *)

Definition world_unwound : World := (undo_run (Some 5) state_mixed world_redone).2.
Definition undo_metrics : UndoMetrics := mkUndo 1 1 0 1 1 1 0 1 0.

Lemma world_unwound_run : undo_run (Some 5) state_mixed world_redone = (Ok undo_metrics, world_unwound).
Proof. unfold world_unwound. apply run_split. vm_compute. reflexivity. Qed.

Lemma mixed_pages : (fun a => (mut_page (RA.mr_mutation a), RA.mr_lsn a)) <$> RA.mutations state_mixed = [(0, 2); (0, 5)].
Proof. vm_compute. reflexivity. Qed.

Lemma mixed_cases a :
  a ∈ RA.mutations state_mixed -> mut_page (RA.mr_mutation a) = 0 /\ (RA.mr_lsn a = 2 \/ RA.mr_lsn a = 5).
Proof.
  intros Hin. apply (list_elem_of_fmap_2 (fun a => (mut_page (RA.mr_mutation a), RA.mr_lsn a))) in Hin.
  rewrite mixed_pages in Hin. apply elem_of_cons in Hin as [[= H1 H2]|Hin]; [auto|].
  apply list_elem_of_singleton in Hin as [= H1 H2]. auto.
Qed.

Lemma mixed_page : loser_page state_mixed 0 = true /\ RA.mutations_for_page state_mixed 0 <> [].
Proof. vm_compute. split; done. Qed.

(** A committed change between two changes of a transaction that did not commit: transaction 8
    changes byte 1, transaction 7 changes byte 0 and commits, transaction 8 changes byte 0.  The
    committed after-image carries byte 1 of transaction 8. *)
Definition two_bytes (a b : Z) : bytes := a :: b :: zeros (kPagePayloadSize - 2).
Definition log_interleaved : list WalRecord :=
  [mkRecord 1 8 Begin []; change_record 2 8 (two_bytes 0 0) (two_bytes 0 13); mkRecord 3 7 Begin [];
   change_record 4 7 (two_bytes 0 13) (two_bytes 42 13); mkRecord 5 7 Commit [];
   change_record 6 8 (two_bytes 42 13) (two_bytes 66 13)].
Definition file_interleaved : bytes := log_bytes log_interleaved.
Definition state_interleaved : RA.RecoveryState := state_of (RA.analyze_records (zlen file_interleaved) log_interleaved).
Definition world_rejoined : World := (recover (Some 6) (Some file_interleaved) world_crashed).2.
Definition interleaved_metrics : RedoMetrics * UndoMetrics := (mkRedo 6 1 0 0 1 1 0, mkUndo 2 1 0 1 2 2 0 1 0).

Lemma log_interleaved_wf : Forall record_wf log_interleaved.
Proof. apply wf_checked. vm_compute. reflexivity. Qed.

Lemma file_interleaved_bytes : Forall is_byte file_interleaved.
Proof. exact (log_bytes_is_byte _ log_interleaved_wf). Qed.

Lemma state_interleaved_ok : RA.analyze (Some file_interleaved) = Ok state_interleaved.
Proof.
  unfold file_interleaved. rewrite (RA.analyze_log _ log_interleaved_wf) by (vm_compute; split_and!; done).
  unfold state_interleaved. fold file_interleaved. assert (exists s, RA.analyze_records (zlen file_interleaved) log_interleaved = Ok s) as [s ->]; [|done].
  assert ((match RA.analyze_records 0 log_interleaved with Ok _ => true | Throw _ => false end) = true) as H by (vm_compute; reflexivity).
  revert H. unfold RA.analyze_records. destruct (RA.collect_all _ _); [|done]. destruct (existsb _ _); [done|]. by eexists.
Qed.

Lemma interleaved_run : recover (Some 6) (Some file_interleaved) world_crashed = (Ok interleaved_metrics, world_rejoined).
Proof.
  unfold world_rejoined. apply run_split. unfold recover, bind, lift. rewrite state_interleaved_ok.
  vm_compute. reflexivity.
Qed.

Lemma interleaved_page :
  loser_page state_interleaved 0 = true /\ RA.mutations_for_page state_interleaved 0 <> [] /\
  byte_after (base_image state_interleaved 0) (winners state_interleaved 0) 0 = Some 42 /\
  byte_after (base_image state_interleaved 0) (winners state_interleaved 0) 1 = Some 0 /\
  rebuilt_lsn state_interleaved 0 = 4.
Proof. vm_compute. split_and!; done. Qed.

Lemma crashed_facts :
  reconstructed_pages_ (w_replay world_crashed) = ∅ /\ reconstructed_pages_ (w_replay world_redone) = ∅ /\
  RA.allocations state_mixed = [] /\ PM.is_page_allocated (w_pages world_crashed) 0 = true /\
  active_ (w_replay world_crashed) = true.
Proof. vm_compute. split_and!; done. Qed.

Lemma pm_two_page_zero : is_Some (PM.stored_page BP.pm_two 0).
Proof.
  destruct (PM.stored_page BP.pm_two 0) as [pg|] eqn:E; [by eexists|]. exfalso.
  assert (page_lsn <$> PM.stored_page BP.pm_two 0 = Some 0) as Hx by (vm_compute; reflexivity). rewrite E in Hx. discriminate Hx.
Qed.

(** A test of the payloads. *)
Definition payload_check (r : WalRecord) : bool :=
  match rec_type r with
  | Begin | Commit | Abort => bool_decide (rec_payload r = [])
  | PhysicalMutationRecord => match decode_physical_mutation (rec_payload r) with Ok _ => true | Throw _ => false end
  | PageAllocate => match decode_page_allocate (rec_payload r) with Ok _ => true | Throw _ => false end
  end.

Lemma payloads_checked rs : forallb payload_check rs = true -> Forall RA.payload_ok rs.
Proof.
  intros H. rewrite forallb_forall in H. apply list.Forall_forall. intros r Hr%list_elem_of_In. specialize (H r Hr).
  unfold payload_check, RA.payload_ok in *. destruct (rec_type r); try (by apply bool_decide_eq_true in H);
    destruct (_ (rec_payload r)); eauto; discriminate H.
Qed.

Lemma mixed_accepted :
  ascending 0 log_mixed /\ Forall RA.payload_ok log_mixed /\ complete 100000 log_mixed = log_mixed.
Proof.
  split_and!; [vm_compute; split_and!; done|apply payloads_checked; vm_compute; reflexivity|vm_compute; reflexivity].
Qed.

Lemma mixed_terminals tx : RA.logged Commit tx log_mixed && RA.logged Abort tx log_mixed = false.
Proof. apply andb_false_iff. right. unfold RA.logged, log_mixed. cbn. done. Qed.

Lemma mixed_omap : omap RA.mutation_of log_mixed = RA.mutations state_mixed /\ omap RA.allocation_of log_mixed = [].
Proof. vm_compute. done. Qed.

Lemma world_crashed_state : crash_state (Some 5) log_mixed world_crashed.
Proof.
  destruct crashed_facts as (Hre & _ & _ & Hal & Hact). destruct mixed_omap as [Hm Ha]. split.
  - exact (BP.create_tidy 0 BP.pm_two (Some 5) BP.pm_two_pages).
  - intros j. unfold BP.pins. cbn. by rewrite lookup_empty.
  - exact BP.pm_two_healthy.
  - exact (conj Hact Hre).
  - intros a. rewrite Hm. intros Hin. destruct (mixed_cases a Hin) as [_ [-> | ->]]; reflexivity.
  - intros a. rewrite Hm. intros Hin. destruct (mixed_cases a Hin) as [-> _]. split; [exact Hal|].
    unfold wx, world_crashed. cbn [w_pool w_pages]. rewrite BP.view_create. exact pm_two_page_zero.
  - intros a. rewrite Ha. intros Hin. exfalso. by apply not_elem_of_nil in Hin.
Qed.

#[local] Opaque state_mixed world_crashed world_redone world_unwound file_mixed
  state_interleaved world_rejoined interleaved_metrics file_interleaved log_mixed.

Lemma undo_removes_losers_witness :
  exists pg, BP.view (wx world_redone) 0 = Some pg /\
    BP.view (wx world_unwound) 0 = Some (overwritten (rebuilt_lsn state_mixed 0) (rebuilt_image state_mixed 0) pg).
Proof.
  pose proof (redo_run_spec (Some 5) state_mixed (analyze_log_state _ _ file_mixed_bytes state_mixed_ok) _ world_crashed_inv) as Hinv.
  apply (fun H => wp_elim _ _ _ _ _ H world_redone_run) in Hinv as (Hst & _). destruct crashed_facts as (_ & Hre & _).
  pose proof (undo_removes_losers (Some 5) file_mixed state_mixed world_redone undo_metrics world_unwound
    file_mixed_bytes state_mixed_ok (st_inv _ _ Hst) Hre world_unwound_run) as (H & _).
  destruct mixed_page as [Hl _]. specialize (H 0). rewrite Hl in H. exact H.
Defined.

Lemma recovery_restores_committed_witness :
  exists pg, BP.view (wx world_rejoined) 0 = Some pg /\ page_lsn pg = 4 /\
    page_data pg !! 0%nat = Some 42 /\ page_data pg !! 1%nat = Some 0.
Proof.
  destruct crashed_facts as (Hre & _). destruct interleaved_page as (Hl & Hne & H0 & H1 & Hlsn).
  pose proof (recovery_restores_committed (Some 6) file_interleaved state_interleaved world_crashed _ world_rejoined 0
    file_interleaved_bytes state_interleaved_ok world_crashed_inv Hre interleaved_run Hne) as H.
  rewrite Hl in H. destruct H as (pg & Hv & Hp & Hb); [intros ? ? Hx; discriminate Hx|].
  exists pg. rewrite !Hb. rewrite Hp. exact (conj Hv (conj Hlsn (conj H0 H1))).
Defined.

Lemma recovery_completes_witness :
  exists m w', recover (Some 5) (Some (take (Z.to_nat 100000) (log_bytes log_mixed))) world_crashed = (Ok m, w').
Proof.
  destruct mixed_accepted as (H1 & H2 & H3).
  apply (recovery_completes (Some 5) log_mixed 100000 world_crashed log_mixed_wf H1 ltac:(lia) H2 mixed_terminals world_crashed_inv).
  rewrite H3. exact world_crashed_state.
Defined.

End UN.
