(* ===== verification/Restart.v ===== *)
(** * Restarts

    The parts together across a crash: a database whose transactions ran through
    [Transaction], whose log and page files are opened again by [LogManager] and [PageManager],
    and which is recovered by [Recovery]. *)

From S2P Require Import Prelude Bytes Page Stream PageStore PageManager Wal LogManager BufferPool LockManager Mutation Transaction Analysis Recovery Redo Undo.

Module RS.

Definition log_file (l : LM.t) : bytes := st_bytes (LM.file_ l).

(** The page file opened again, below an empty pool of [n] frames. *)
Definition reopened (n : nat) (p : PM.t) : option RE.World :=
  match PM.open PM.env_ok (Some (PM.bytes_of p)) [] with
  | Ok p' => Some (RE.mkW RE.new_replay (BP.create n) p')
  | Throw _ => None
  end.

(** Recovery after a restart. *)
Definition restart (n : nat) (p : PM.t) (l : LM.t) : option (outcome (RE.RedoMetrics * RE.UndoMetrics) * RE.World) :=
  RE.recover (Some (LM.durable_lsn l)) (Some (log_file l)) <$> reopened n p.

(** ** A page that was released *)

Lemma reopened_synced n p :
  PM.pm_synced p -> exists p', reopened n p = Some (RE.mkW RE.new_replay (BP.create n) p') /\ PM.pm_ok p' /\
    forall j, PM.is_page_allocated p' j = PM.is_page_allocated p j.
Proof.
  intros Hs. destruct (PM.open_synced p Hs) as (p' & Ho & Hof & Hb & _). exists p'. unfold reopened. rewrite Ho.
  split_and!; [done|apply (PM.pm_ok_same_bytes p); [apply Hs|done|done]|]. intros j. by rewrite (PM.only_file_allocated p p').
Qed.

Lemma commits_logged s content rs tx :
  RA.analyze (Some content) = Ok s -> read_records (Some content) = Ok rs ->
  (exists r, r ∈ rs /\ rec_tx r = tx) -> RE.is_committed s tx = RA.logged Commit tx rs.
Proof.
  intros Ha Hr Hx. destruct (RA.analyze_ok _ _ Ha) as [Hr' Hs]. assert (RA.records s = rs) as Hrs by congruence.
  rewrite <- Hrs in Hx |- *. apply (RA.az_seen _ Hs) in Hx as [t Ht]. unfold RE.is_committed. rewrite Ht.
  destruct (RA.az_status _ Hs tx t Ht) as (H1 & _). apply eq_bool_prop_intro. rewrite bool_decide_spec, H1. by rewrite Is_true_true.
Qed.

Lemma logged_other ty ty' tx tx' rs n :
  ty <> ty' -> RA.logged ty tx (rs ++ [mkRecord n tx' ty' []]) = RA.logged ty tx rs.
Proof. intros Hne. rewrite RA.logged_app. cbn. rewrite bool_decide_false by congruence. by rewrite orb_false_r. Qed.

(** C33: An orderly abort can make the database unrecoverable.  Let a transaction have allocated a
    page (which no other transaction allocated) and changed it, and let the coordinator's abort
    return, leaving the page file in order.  The abort has released the page, and the change stays
    in the log.  At the next start UNDO wants to rebuild the page, which is not allocated: recovery
    throws, and so it does at every later start. *)
Theorem aborted_allocation_blocks_recovery n before rs s s' j :
  let w := TX.sys_world s in let tx := TX.id_ (TX.w_tx w) in
  TX.session true before w -> LM.lm_ok (TX.w_log w) rs -> is_u64 tx -> LM.next_lsn_ (TX.w_log w) + 1 < 2 ^ 64 ->
  LK.terminal (TX.tx_state s) = false -> TX.abort true true s = (Ok tt, s') ->
  TX.allocation_manager_ (TX.w_tx w) = true -> j ∈ TX.allocated_pages_ (TX.w_tx w) ->
  (exists a, a ∈ omap RA.mutation_of rs /\ mut_page (RA.mr_mutation a) = j /\ RA.mr_tx a = tx) ->
  RA.logged Commit tx rs = false ->
  (forall a, a ∈ omap RA.allocation_of rs -> RA.al_page a = j -> RA.al_tx a = tx) ->
  PM.pm_synced (TX.w_pages (TX.sys_world s')) ->
  exists e w', restart n (TX.w_pages (TX.sys_world s')) (TX.w_log (TX.sys_world s')) = Some (Throw e, w').
Proof.
  intros w tx Hs Hok Htx Hn Hterm E Hmgr Hj (m & Hm & Hmj & Hmtx) Hnc Hno Hsync.
  pose proof (TX.abort_spec true before rs s _ s' Hs Hok Htx Hn Hterm E) as (_ & Hlog & _ & _ & Hal).
  destruct (reopened_synced n _ Hsync) as (p' & Hre & Hp' & Hpa).
  set (content := log_file (TX.w_log (TX.sys_world s'))).
  set (wal := Some (LM.durable_lsn (TX.w_log (TX.sys_world s')))).
  cut (exists e w', RE.recover wal (Some content) (RE.mkW RE.new_replay (BP.create n) p') = (Throw e, w')).
  { intros (e & w' & Hx). exists e, w'. unfold restart. rewrite Hre. unfold fmap, option_fmap, option_map. by f_equal. }
  pose proof (LM.lm_ok_records _ _ Hlog) as Hrec. change (read_records (Some content) = Ok (rs ++ [mkRecord (LM.next_lsn_ (TX.w_log w)) tx Abort []])) in Hrec.
  destruct (RA.analyze (Some content)) as [st|e] eqn:Ha.
  2:{ exists e. eexists. unfold RE.recover, bind, lift. rewrite Ha. done. }
  destruct (RA.analyze_ok _ _ Ha) as [Hr' Hst]. assert (RA.records st = rs ++ [mkRecord (LM.next_lsn_ (TX.w_log w)) tx Abort []]) as Hrs by congruence.
  assert (RE.is_committed st tx = false) as Hnot.
  { rewrite (commits_logged _ _ _ tx Ha Hrec), logged_other by (done || (exists (mkRecord (LM.next_lsn_ (TX.w_log w)) tx Abort []); split; [apply elem_of_app; right; left|done])). exact Hnc. }
  assert (m ∈ RA.mutations st) as Hin by (rewrite (RA.az_mutations _ Hst), Hrs, omap_app; apply elem_of_app; by left).
  apply (UN.recover_refused wal content st (RE.mkW RE.new_replay (BP.create n) p') j).
  - unfold content, log_file. rewrite (LM.lo_bytes _ _ Hlog). apply log_bytes_is_byte, Hlog.
  - exact Ha.
  - by apply BP.create_inv.
  - done.
  - apply existsb_exists. exists m. split; [by apply list_elem_of_In|]. by rewrite Hmj, Z.eqb_refl, Hmtx, Hnot.
  - cbn. rewrite Hpa. assert (0 <= j) as H0.
    { destruct (RD.analyze_log_state content st) as [_ [_ Hwf]]; [unfold content, log_file; rewrite (LM.lo_bytes _ _ Hlog); apply log_bytes_is_byte, Hlog|exact Ha|].
      rewrite (RA.az_mutations _ Hst) in Hin. apply list_elem_of_omap in Hin as (r & Hr & Hrm). rewrite list.Forall_forall in Hwf.
      destruct (RE.mutation_of_ok r m (Hwf r Hr) Hrm) as [_ [Hu _] _ _ _ _ _]. lia. }
    rewrite Hal by done. by rewrite decide_True.
  - intros a. rewrite (RA.az_allocations _ Hst), Hrs, omap_app. intros [Hia|Hia]%elem_of_app Hp; [|by apply not_elem_of_nil in Hia].
    by rewrite (Hno a Hia Hp).
Qed.

(** ** Transaction identifiers after a restart *)

Definition reopen_log (l : LM.t) : LM.t :=
  match LM.open LM.env_ok (Some (log_file l)) [] with (Ok l, _) => l | (Throw _, _) => l end.

(** The first transaction of a new [TransactionManager]. *)
Definition first_begin (l : LM.t) : TX.Tx * LM.t :=
  match TX.begin true (1, l) with (Ok t, s) => (t, s.2) | (Throw _, s) => (TX.new_tx 0 true, s.2) end.

Definition world_with (t : TX.Tx * LM.t) : TX.World :=
  TX.mkW (TX.set_context 0 MC.empty_context t.1) (BP.create 2) BP.pm_two t.2.

(** Before the crash: the first transaction changes page 0 and does not commit; the log is flushed. *)
Definition world_lost : TX.World := (TX.update_page true 0 TX.poke (world_with (first_begin lm_new))).2.
Definition log_lost : LM.t := (LM.flush (TX.w_log world_lost)).2.

(** After the restart: the first transaction of the new manager commits, or aborts, without a change. *)
Definition world_next : TX.World := world_with (first_begin (reopen_log log_lost)).
Definition log_next : LM.t := TX.w_log (TX.sys_world (TX.commit true (TX.mkSystem LK.init world_next)).2).

(** Page 0 after a restart. *)
Definition first_byte (r : option (outcome (RE.RedoMetrics * RE.UndoMetrics) * RE.World)) : option Z :=
  match r with
  | Some (Ok _, w) => (fun p => byte_at (page_data p) 0) <$> BP.view (RE.wx w) 0
  | _ => None
  end.

Definition log_twice : LM.t :=
  let l := TX.w_log (TX.sys_world (TX.abort true true (TX.mkSystem LK.init (world_with (first_begin lm_new)))).2) in
  TX.w_log (TX.sys_world (TX.commit true (TX.mkSystem LK.init (world_with (first_begin (reopen_log l))))).2).

(** What an unrelated transaction with an old number does: before the crash the first transaction
    changed page 0 and did not commit, so recovery takes the change back; once the first
    transaction of the next start has committed, recovery brings it back. *)
Lemma lost_change_returns :
  (TX.update_page true 0 TX.poke (world_with (first_begin lm_new))).1 = Ok tt /\
  TX.id_ (TX.w_tx world_lost) = TX.id_ (TX.w_tx world_next) /\
  first_byte (restart 2 BP.pm_two log_lost) = Some 0 /\
  (TX.commit true (TX.mkSystem LK.init world_next)).1 = Ok tt /\
  first_byte (restart 2 BP.pm_two log_next) = Some 42 /\
  RA.analyze (Some (log_file log_twice)) = Throw (WalError "transaction has conflicting terminal WAL records").
Proof.
  refine (pair_split_more _ _ _ _ _ (pair_split_more _ _ _ _ _ (pair_split_more _ _ _ _ _
    (pair_split_more _ _ _ _ _ (pair_split _ _ _ _)))) _). vm_compute. reflexivity.
Qed.

Lemma begin_first l rs t n l1 :
  LM.lm_ok l rs -> LM.next_lsn_ l + 1 < 2 ^ 64 -> TX.begin true (1, l) = (Ok t, (n, l1)) ->
  t = TX.new_tx 1 true /\ LM.lm_ok l1 (rs ++ [mkRecord (LM.next_lsn_ l) 1 Begin []]).
Proof.
  intros Hok Hn E. unfold TX.begin, LM.log_begin, LM.append_begin, zoom, bind, get, modify, ret in E. cbn -[LM.append] in E.
  destruct (LM.append Begin 1 [] l) as [[lsn|e] l'] eqn:Ea; [|done]. injection E as <- <- <-. split; [done|].
  by destruct (wp_elim _ _ _ _ _ (LM.append_spec l rs Begin 1 [] Hok ltac:(unfold is_u64; lia) (List.Forall_nil _) Hn) Ea)
    as (_ & _ & _ & [_ Hok'] & _).
Qed.

Lemma logged_concat ty tx rs rs' : RA.logged ty tx (rs ++ rs') = RA.logged ty tx rs || RA.logged ty tx rs'.
Proof. apply existsb_app. Qed.

(** C34: A restarted database reuses transaction identifiers.  [TransactionManager] counts from 1
    after every start while the log keeps the records of earlier starts, so the first transaction
    has the number of an old one.  Let it commit, with [mid] logged in between.  If the old
    transaction had aborted, the analysis of the log throws at the next start.  Otherwise, where no
    other transaction is in conflict, the analysis succeeds and counts every change the old
    transaction logged as committed: recovery brings back changes that were never committed. *)
Theorem reused_transaction_id l rs t n l1 mid s s' :
  LM.lm_ok l rs -> LM.next_lsn_ l + 1 < 2 ^ 64 -> TX.begin true (1, l) = (Ok t, (n, l1)) ->
  LM.lm_ok (TX.w_log (TX.sys_world s)) (rs ++ mkRecord (LM.next_lsn_ l) (TX.id_ t) Begin [] :: mid) ->
  TX.id_ (TX.w_tx (TX.sys_world s)) = TX.id_ t -> LM.next_lsn_ (TX.w_log (TX.sys_world s)) + 1 < 2 ^ 64 ->
  LK.terminal (TX.tx_state s) = false -> TX.commit true s = (Ok tt, s') ->
  let analysis := RA.analyze (Some (log_file (TX.w_log (TX.sys_world s')))) in
  TX.id_ t = 1 /\ LM.lm_ok l1 (rs ++ [mkRecord (LM.next_lsn_ l) 1 Begin []]) /\
  (RA.logged Abort 1 rs = true -> exists e, analysis = Throw e) /\
  (RA.logged Abort 1 (rs ++ mid) = false -> Forall RA.payload_ok (rs ++ mid) ->
   (forall tx, tx <> 1 -> RA.logged Commit tx (rs ++ mid) && RA.logged Abort tx (rs ++ mid) = false) ->
   exists st, analysis = Ok st /\
     forall a, a ∈ omap RA.mutation_of rs -> RA.mr_tx a = 1 -> a ∈ RD.winners st (mut_page (RA.mr_mutation a))).
Proof.
  intros Hok Hn Eb Hlog Hid Hn' Hterm Ec. destruct (begin_first l rs t n l1 Hok Hn Eb) as [-> Hok1]. cbn [TX.id_ TX.new_tx] in *.
  pose proof (TX.commit_spec _ s _ s' Hlog ltac:(rewrite Hid; unfold is_u64; lia) Hn' Hterm Ec) as (_ & _ & _ & _ & Hlog' & _).
  rewrite Hid in Hlog'. set (c := mkRecord _ 1 Commit []) in Hlog'. set (b := mkRecord (LM.next_lsn_ l) 1 Begin []) in *.
  set (rs' := (rs ++ b :: mid) ++ [c]) in *. set (content := log_file (TX.w_log (TX.sys_world s'))).
  pose proof (LM.lm_ok_records _ _ Hlog') as Hrec. change (read_records (Some content) = Ok rs') in Hrec.
  assert (forall ty tx, RA.logged ty tx rs' = RA.logged ty tx (rs ++ mid) || RA.logged ty tx [b; c]) as Hlg.
  { intros ty tx. unfold rs'. change (b :: mid) with ([b] ++ mid). change [b; c] with ([b] ++ [c]). rewrite !logged_concat.
    destruct (RA.logged ty tx rs), (RA.logged ty tx [b]), (RA.logged ty tx mid), (RA.logged ty tx [c]); done. }
  assert (RA.logged Commit 1 rs' = true) as Hcm by (rewrite Hlg; apply orb_true_r).
  split_and!; [done|done| |].
  - intros Hab. apply (RA.conflict_refused content rs' 1 Hrec Hcm). by rewrite Hlg, logged_concat, Hab.
  - intros Hab Hpl Hcf. pose proof (LM.lo_bytes _ _ Hlog') as Hby. pose proof (log_bytes_is_byte _ (LM.lo_wf _ _ Hlog')) as Hb.
    destruct (RA.analysis_accepts rs' (zlen (log_bytes rs')) (LM.lo_wf _ _ Hlog') (LM.lo_ascending _ _ Hlog')) as (st & Ha & Hrs); [lia| | |].
    + unfold rs'. apply Forall_app in Hpl as [H1 H2]. apply Forall_app. split; [apply Forall_app; split; [done|by constructor]|by repeat constructor].
    + intros tx. rewrite !Hlg. destruct (decide (tx = 1)) as [->|Hne]; [by rewrite Hab, andb_false_r|].
      assert (RA.logged Commit tx [b; c] = false /\ RA.logged Abort tx [b; c] = false) as [-> ->].
      { unfold RA.logged, b, c. cbn [existsb rec_tx rec_type]. rewrite (proj2 (Z.eqb_neq 1 tx)) by congruence. by rewrite !andb_false_r. }
      rewrite !orb_false_r. by apply Hcf.
    + rewrite complete_all in Hrs by lia.
      assert (take (Z.to_nat (zlen (log_bytes rs'))) (log_bytes rs') = content) as Hc by (rewrite take_ge by lia; symmetry; exact Hby).
      rewrite Hc in Ha. exists st. split; [exact Ha|]. intros a Hin Htx. destruct (RA.analyze_ok _ _ Ha) as [_ Hst].
      apply list_elem_of_filter. split; [split; [done|]|].
      * rewrite Htx, (commits_logged _ _ _ 1 Ha Hrec); [done|]. exists c. split; [apply elem_of_app; right; left|done].
      * rewrite (RA.az_mutations _ Hst), Hrs. unfold rs'. rewrite !omap_app. apply elem_of_app. left. apply elem_of_app. by left.
Qed.

(** ** Witnesses *)

Definition records_of (l : LM.t) : list WalRecord := match LM.records l with Ok rs => rs | Throw _ => [] end.

(** A test of [lm_ok]. *)
Fixpoint ascends (p : Z) (rs : list WalRecord) : bool :=
  match rs with [] => true | r :: rs => (p <? rec_lsn r) && ascends (rec_lsn r) rs end.
Definition log_check (l : LM.t) (rs : list WalRecord) : bool :=
  bool_decide (st_bytes (LM.file_ l) = log_bytes rs) && forallb RD.wf_check rs && ascends 0 rs &&
  (last_lsn rs <? LM.next_lsn_ l) && (LM.next_lsn_ l <? 2 ^ 64) && (0 <=? LM.durable_lsn_ l) && (LM.durable_lsn_ l <? LM.next_lsn_ l).

Lemma log_checked l rs : log_check l rs = true -> LM.lm_ok l rs.
Proof.
  unfold log_check. rewrite !andb_true_iff. intros [[[[[[H1 H2] H3] H4] H5] H6] H7].
  split; [by apply bool_decide_eq_true in H1|by apply RD.wf_checked| |lia|lia].
  clear -H3. revert H3. generalize 0. induction rs as [|r rs IH]; intros p H; [done|]. cbn in H.
  apply andb_true_iff in H as [Hp H]. split; [lia|by apply IH].
Qed.

(** Transaction 7 allocated page 2, changed it and was aborted by the coordinator. *)
Definition system_filled : TX.System := TX.mkSystem LK.init TX.world_filled.
Definition system_aborted : TX.System := (TX.abort true true system_filled).2.
Definition log_filled : list WalRecord := records_of (TX.w_log TX.world_filled).
Definition before_filled : PageId -> option Page :=
  TX.before_now (BP.view (TX.w_pool (TX.world_new 1 lm_new), TX.w_pages (TX.world_new 1 lm_new))) TX.world_allocated.

Lemma world_filled_session : TX.session true before_filled TX.world_filled.
Proof.
  eapply (TX.session_update true _ TX.world_allocated 2 TX.poke (Ok tt)).
  - eapply (TX.session_allocate true _ (TX.world_new 1 lm_new) (Ok 2)).
    + apply TX.world_new_session. by vm_compute.
    + unfold TX.world_allocated. apply run_split. vm_compute. reflexivity.
  - by vm_compute.
  - by vm_compute.
  - exact TX.poke_change.
  - unfold TX.world_filled. apply run_split. vm_compute. reflexivity.
Qed.

Lemma orderly_abort_run : TX.abort true true system_filled = (Ok tt, system_aborted).
Proof. unfold system_aborted. apply run_split. vm_compute. reflexivity. Qed.

Lemma system_aborted_synced : PM.pm_synced (TX.w_pages (TX.sys_world system_aborted)).
Proof.
  assert (TX.w_pages (TX.sys_world system_aborted) =
    PM.run_ops [PM.OpAllocate; PM.OpAllocate; PM.OpReserve; PM.OpActivate 2; PM.OpRead 2; PM.OpDeallocate 2] PM.pm_new) as ->
    by (vm_compute; reflexivity).
  destruct PM.pm_new_synced as [Hs Hh].
  apply PM.run_ops_keeps; [apply Hs| |exact Hh|exact Hs].
  repeat constructor; by vm_compute.
Qed.

Lemma filled_log_facts :
  log_check (TX.w_log TX.world_filled) log_filled = true /\ TX.id_ (TX.w_tx TX.world_filled) = 7 /\
  LM.next_lsn_ (TX.w_log TX.world_filled) = 3 /\ LK.terminal (TX.tx_state system_filled) = false /\
  TX.allocation_manager_ (TX.w_tx TX.world_filled) = true /\ TX.allocated_pages_ (TX.w_tx TX.world_filled) = [2] /\
  (fun a => (mut_page (RA.mr_mutation a), RA.mr_tx a)) <$> omap RA.mutation_of log_filled = [(2, 7)] /\
  RA.logged Commit 7 log_filled = false /\ RA.al_tx <$> omap RA.allocation_of log_filled = [7].
Proof.
  split; [vm_compute; reflexivity|]. refine (pair_split_more _ _ _ _ _ (pair_split_more _ _ _ _ _ (pair_split_more _ _ _ _ _
    (pair_split_more _ _ _ _ _ (pair_split_more _ _ _ _ _ (pair_split_more _ _ _ _ _ (pair_split _ _ _ _)))))) _).
  vm_compute. reflexivity.
Qed.

Lemma in_singleton_fmap {A B} (f : A -> B) l b : f <$> l = [b] -> exists a, a ∈ l /\ f a = b.
Proof. destruct l as [|a [|]]; intros [= <-]. exists a. split; [left|done]. Qed.

#[local] Opaque TX.world_filled system_aborted log_filled before_filled restart.

Lemma aborted_allocation_blocks_recovery_witness :
  exists e w', restart 4 (TX.w_pages (TX.sys_world system_aborted)) (TX.w_log (TX.sys_world system_aborted)) = Some (Throw e, w').
Proof.
  destruct filled_log_facts as (H1 & H2 & H3 & H4 & H5 & H6 & H7 & H8 & H9).
  apply (aborted_allocation_blocks_recovery 4 before_filled log_filled system_filled system_aborted 2 world_filled_session (log_checked _ _ H1));
    cbn [TX.sys_world system_filled]; rewrite ?H2, ?H3, ?H5, ?H6.
  - unfold is_u64. lia.
  - lia.
  - exact H4.
  - exact orderly_abort_run.
  - done.
  - left.
  - apply in_singleton_fmap in H7 as (a & Ha & [= E1 E2]). exact (ex_intro _ a (conj Ha (conj E1 E2))).
  - exact H8.
  - intros a Ha _. apply (list_elem_of_fmap_2 RA.al_tx) in Ha. rewrite H9 in Ha. by apply list_elem_of_singleton in Ha.
  - exact system_aborted_synced.
Defined.

Definition records_lost : list WalRecord := records_of log_lost.
Definition tx_next : TX.Tx := TX.new_tx 1 true.
Definition log_begun : LM.t := (TX.begin true (1, reopen_log log_lost)).2.2.
Definition system_next : TX.System := TX.mkSystem LK.init world_next.
Definition system_done : TX.System := (TX.commit true system_next).2.
Lemma begun_run : TX.begin true (1, reopen_log log_lost) = (Ok tx_next, (2, log_begun)).
Proof.
  assert ((TX.begin true (1, reopen_log log_lost)).1 = Ok tx_next /\ (TX.begin true (1, reopen_log log_lost)).2.1 = 2) as [H1 H2]
    by (vm_compute; split; reflexivity).
  unfold log_begun. revert H1 H2. destruct (TX.begin true (1, reopen_log log_lost)) as [o [n l]]. cbn. by intros -> ->.
Qed.

Lemma system_done_run : TX.commit true system_next = (Ok tt, system_done).
Proof. unfold system_done. apply run_split. vm_compute. reflexivity. Qed.

Lemma lost_facts :
  log_check (reopen_log log_lost) records_lost = true /\
  log_check (TX.w_log world_next) (records_lost ++ [mkRecord (LM.next_lsn_ (reopen_log log_lost)) (TX.id_ tx_next) Begin []]) = true /\
  LM.next_lsn_ (reopen_log log_lost) = 3 /\ LM.next_lsn_ (TX.w_log world_next) = 4 /\ TX.id_ tx_next = 1 /\
  TX.id_ (TX.w_tx world_next) = 1 /\ LK.terminal (TX.tx_state system_next) = false /\
  (fun a => (mut_page (RA.mr_mutation a), RA.mr_tx a)) <$> omap RA.mutation_of records_lost = [(0, 1)] /\
  forallb UN.payload_check records_lost = true /\ (rec_tx <$> records_lost) = [1; 1] /\ RA.logged Abort 1 records_lost = false.
Proof.
  split; [vm_compute; reflexivity|]. split; [vm_compute; reflexivity|].
  refine (pair_split_more _ _ _ _ _ (pair_split_more _ _ _ _ _ (pair_split_more _ _ _ _ _
    (pair_split_more _ _ _ _ _ (pair_split_more _ _ _ _ _ (pair_split_more _ _ _ _ _ (pair_split_more _ _ _ _ _ (pair_split _ _ _ _))))))) _).
  vm_compute. reflexivity.
Qed.

Lemma logged_only rs n m ty tx : rec_tx <$> rs = [n; m] -> tx <> n -> tx <> m -> RA.logged ty tx rs = false.
Proof.
  intros Hrs Hn Hm. apply not_true_iff_false. unfold RA.logged. intros (r & Hr%list_elem_of_In & [_ Hx%Z.eqb_eq]%andb_true_iff)%existsb_exists.
  apply (list_elem_of_fmap_2 rec_tx) in Hr. rewrite Hrs in Hr. apply elem_of_cons in Hr as [Hr|Hr%list_elem_of_singleton]; congruence.
Qed.

#[local] Opaque records_lost log_begun world_next system_done log_lost reopen_log.

Lemma reused_transaction_id_witness :
  TX.id_ tx_next = 1 /\ exists st a, RA.analyze (Some (log_file (TX.w_log (TX.sys_world system_done)))) = Ok st /\
    a ∈ omap RA.mutation_of records_lost /\ a ∈ RD.winners st 0.
Proof.
  destruct lost_facts as (H1 & H2 & H3 & H4 & H5 & H6 & H7 & H8 & H9 & H10 & H11).
  assert (TX.id_ (TX.w_tx (TX.sys_world system_next)) = TX.id_ tx_next) as Hid by exact (eq_trans H6 (eq_sym H5)).
  assert (LM.next_lsn_ (TX.w_log (TX.sys_world system_next)) + 1 < 2 ^ 64) as Hn' by (change (LM.next_lsn_ (TX.w_log world_next) + 1 < 2 ^ 64); rewrite H4; reflexivity).
  pose proof (reused_transaction_id (reopen_log log_lost) records_lost tx_next 2 log_begun [] system_next system_done
    (log_checked _ _ H1) ltac:(rewrite H3; lia) begun_run (log_checked _ _ H2) Hid Hn' H7 system_done_run) as (Ht & _ & _ & H).
  split; [exact Ht|]. apply in_singleton_fmap in H8 as (a & Ha & [= E1 E2]). rewrite app_nil_r in H.
  destruct (H H11 (UN.payloads_checked _ H9)) as (st & Hst & Hw).
  - intros tx Hne. rewrite (logged_only _ _ _ Commit tx H10 Hne Hne). reflexivity.
  - exists st, a. split; [exact Hst|]. split; [exact Ha|]. specialize (Hw a Ha E2). rewrite E1 in Hw. exact Hw.
Defined.

End RS.
