(* ===== verification/Tuple.v ===== *)
(** * Values, schemas, tuples and their stored form

    Models [src/include/ddb/execution/tuple.h] and the private [serialize] and [deserialize] of
    [src/src/execution/table_heap.cpp].  A [double] is its 64-bit pattern, which is what the heap
    stores; comparison goes through the IEEE 754 value of the pattern.  A string is the list of
    its bytes. *)

From Stdlib Require Import SpecFloat.
From S2P Require Import Prelude Bytes Page.

Module TU.

Inductive ValueType : Type := Int64 | Double | Boolean | String_.
#[global] Instance ValueType_eq_dec : EqDecision ValueType.
Proof. solve_decision. Defined.

Inductive Value : Type :=
  | VInt (v : Z)
  | VDouble (bits : Z)
  | VBool (b : bool)
  | VString (s : bytes).
#[global] Instance Value_eq_dec : EqDecision Value.
Proof. solve_decision. Defined.

Record Column : Type := mkColumn { col_name : string; col_type : ValueType }.
Definition Schema : Type := list Column.
Definition Tuple : Type := list Value.

(** [index::RecordId], which the index stores and the heap hands out. *)
Record RecordId : Type := mkRid { rid_page : PageId; rid_slot : Z }.
#[global] Instance RecordId_eq_dec : EqDecision RecordId.
Proof. solve_decision. Defined.

(** [std::variant::index] as a [ValueType]. *)
Definition index (v : Value) : ValueType :=
  match v with VInt _ => Int64 | VDouble _ => Double | VBool _ => Boolean | VString _ => String_ end.

(** [Schema::validates] *)
Fixpoint validates (s : Schema) (v : Tuple) : bool :=
  match s, v with
  | [], [] => true
  | c :: s, x :: v => bool_decide (index x = col_type c) && validates s v
  | _, _ => false
  end.

(** ** Comparison *)

(** The number a 64-bit pattern stands for. *)
Definition double_of_bits (bits : Z) : spec_float :=
  let sign := Z.testbit bits 63 in
  let e := Z.land (Z.shiftr bits 52) 2047 in
  let m := Z.land bits (2 ^ 52 - 1) in
  if e =? 2047 then if m =? 0 then S754_infinity sign else S754_nan
  else if e =? 0 then match m with Zpos p => S754_finite sign p (-1074) | _ => S754_zero sign end
  else match m + 2 ^ 52 with Zpos p => S754_finite sign p (e - 1075) | _ => S754_zero sign end.

(** [x < y ? -1 : (x > y ? 1 : 0)] *)
Definition three_way (lt gt : bool) : Z := if lt then -1 else if gt then 1 else 0.

(** [std::string::operator<]: bytes compared as unsigned characters. *)
Fixpoint string_lt (a b : bytes) : bool :=
  match a, b with
  | _, [] => false
  | [], _ :: _ => true
  | x :: a, y :: b => (x <? y) || ((x =? y) && string_lt a b)
  end.

Definition compare_values (a b : Value) : outcome Z :=
  match a, b with
  | VInt x, VInt y => Ok (three_way (x <? y) (y <? x))
  | VDouble x, VDouble y =>
      let c := SFcompare (double_of_bits x) (double_of_bits y) in
      Ok (three_way (bool_decide (c = Some Lt)) (bool_decide (c = Some Gt)))
  | VBool x, VBool y => Ok (three_way (negb x && y) (x && negb y))
  | VString x, VString y => Ok (three_way (string_lt x y) (string_lt y x))
  | _, _ => Throw (InvalidArgument "cannot compare unlike values")
  end.

(** ** Stored form *)

Definition to_s64 (v : Z) : Z := if v <? 2 ^ 63 then v else v - 2 ^ 64.

(** The bytes the loop of [serialize] appends for one value. *)
Definition serialize_value (v : Value) : bytes :=
  match v with
  | VInt x => le_bytes 8 (to_u64 x)
  | VDouble x => le_bytes 8 x
  | VBool b => [if b then 1 else 0]
  | VString s => le_bytes 4 (to_u32 (zlen s)) ++ s
  end.

Definition serialize (s : Schema) (t : Tuple) : outcome bytes :=
  if negb (validates s t) then Throw (InvalidArgument "tuple does not match schema")
  else Ok (fold_left (fun b v => b ++ serialize_value v) t []).

(** One round of the loop of [deserialize]: the value at [p] and the position behind it. *)
Definition deserialize_value (ty : ValueType) (d : bytes) (n p : Z) : option (Value * Z) :=
  match ty with
  | Int64 => if n <? p + 8 then None else Some (VInt (to_s64 (get64 d p)), p + 8)
  | Double => if n <? p + 8 then None else Some (VDouble (get64 d p), p + 8)
  | Boolean => if n <? p + 1 then None else Some (VBool (negb (byte_at d p =? 0)), p + 1)
  | String_ =>
      if n <? p + 4 then None
      else let z := get32 d p in
           let p := p + 4 in
           if n <? p + z then None else Some (VString (slice d p z), p + z)
  end.

(** [deserialize(d, n)]; the position and the values read so far are arguments. *)
Fixpoint deserialize_from (s : Schema) (d : bytes) (n p : Z) (t : Tuple) : option Tuple :=
  match s with
  | [] => if p =? n then Some t else None
  | c :: s =>
      match deserialize_value (col_type c) d n p with
      | None => None
      | Some (v, p) => deserialize_from s d n p (t ++ [v])
      end
  end.
Definition deserialize (s : Schema) (d : bytes) (n : Z) : option Tuple := deserialize_from s d n 0 [].

(** ** Round trip *)

Definition value_wf (v : Value) : Prop :=
  match v with
  | VInt x => - 2 ^ 63 <= x < 2 ^ 63
  | VDouble x => is_u64 x
  | VBool _ => True
  | VString s => Forall is_byte s /\ zlen s < 2 ^ 32
  end.

Definition serialized (t : Tuple) : bytes := concat (serialize_value <$> t).

Lemma serialize_fold t acc : fold_left (fun b v => b ++ serialize_value v) t acc = acc ++ serialized t.
Proof.
  revert acc. induction t as [|v t IH]; intros acc; cbn [fold_left]; [by rewrite app_nil_r|].
  rewrite IH, <- app_assoc. done.
Qed.

Lemma serialize_eq s t : validates s t = true -> serialize s t = Ok (serialized t).
Proof. unfold serialize. intros ->. cbn [negb]. by rewrite serialize_fold. Qed.

Lemma serialized_bytes t : Forall value_wf t -> Forall is_byte (serialized t).
Proof.
  induction 1 as [|v t Hv _ IH]; [constructor|]. unfold serialized. csimpl. apply Forall_app_2; [|exact IH].
  destruct v as [x|x|b|s]; cbn.
  - apply le_bytes_is_byte.
  - apply le_bytes_is_byte.
  - repeat constructor; destruct b; cbn; unfold is_byte; lia.
  - apply Forall_app_2; [apply le_bytes_is_byte|apply Hv].
Qed.

Lemma to_s64_u64 x : - 2 ^ 63 <= x < 2 ^ 63 -> to_s64 (to_u64 x) = x.
Proof.
  intros Hx. unfold to_s64, to_u64. destruct (decide (0 <= x)).
  - rewrite Z.mod_small by lia. by replace (x <? 2 ^ 63) with true by lia.
  - rewrite <- (Z.mod_add x 1) by lia. rewrite Z.mod_small by lia.
    replace (x + 1 * 2 ^ 64 <? 2 ^ 63) with false by lia. lia.
Qed.

(** A field in the middle of an array. *)
Lemma slice_mid (pre f post : bytes) p n : p = zlen pre -> n = zlen f -> slice (pre ++ f ++ post) p n = f.
Proof.
  intros -> ->. unfold slice. rewrite !Nat2Z.id, drop_app_length. by rewrite take_app_length.
Qed.

(** Reading a value back from where it was written. *)
Lemma deserialize_value_at v pre post n :
  value_wf v -> zlen pre + zlen (serialize_value v) <= n ->
  deserialize_value (index v) (pre ++ serialize_value v ++ post) n (zlen pre) =
    Some (v, zlen pre + zlen (serialize_value v)).
Proof.
  intros Hv Hn. destruct v as [x|x|b|s]; cbn [serialize_value index deserialize_value] in *.
  - rewrite le_bytes_length in *. change (Z.of_nat 8) with 8 in *. replace (n <? zlen pre + 8) with false by lia.
    unfold get64. rewrite (le_value_at 8 _ _ (to_u64 x)); [by rewrite to_s64_u64|lia|by apply slice_mid; len|].
    unfold to_u64. apply Z.mod_pos_bound. lia.
  - rewrite le_bytes_length in *. change (Z.of_nat 8) with 8 in *. replace (n <? zlen pre + 8) with false by lia.
    unfold get64. rewrite (le_value_at 8 _ _ x); [done|lia|by apply slice_mid; len|exact Hv].
  - cbn [length] in *. change (Z.of_nat 1) with 1 in *. replace (n <? zlen pre + 1) with false by lia.
    unfold byte_at. rewrite Nat2Z.id. cbn [app]. rewrite list_lookup_middle by done. by destruct b.
  - destruct Hv as [_ Hl]. rewrite length_app, le_bytes_length in *. replace (n <? zlen pre + 4) with false by lia.
    assert (to_u32 (zlen s) = zlen s) as Hz by (unfold to_u32; rewrite Z.mod_small; lia). rewrite Hz in *.
    unfold get32. rewrite (le_value_at 4 _ _ (zlen s)); [|lia|rewrite <- (app_assoc (le_bytes 4 _)); by apply slice_mid; len|lia].
    replace (n <? zlen pre + 4 + zlen s) with false by lia. rewrite <- app_assoc, app_assoc.
    rewrite slice_mid by (len). do 2 f_equal. lia.
Qed.

Lemma deserialize_from_at s t pre acc :
  Forall value_wf t -> validates s t = true ->
  deserialize_from s (pre ++ serialized t) (zlen pre + zlen (serialized t)) (zlen pre) acc = Some (acc ++ t).
Proof.
  revert t pre acc. induction s as [|c s IH]; intros [|v t] pre acc Hw Hv; try done; cbn in Hv |- *.
  - rewrite Z.add_0_r, Z.eqb_refl, app_nil_r. done.
  - apply andb_true_iff in Hv as [Hi%bool_decide_eq_true Hv]. apply list.Forall_cons in Hw as [Hw Hws].
    rewrite <- Hi. change (serialized (v :: t)) with (serialize_value v ++ serialized t).
    rewrite deserialize_value_at by (done || len).
    specialize (IH t (pre ++ serialize_value v) (acc ++ [v]) Hws Hv). rewrite <- app_assoc in IH.
    rewrite !length_app, !Nat2Z.inj_add in *. rewrite <- Z.add_assoc in IH. etrans; [exact IH|]. by rewrite <- app_assoc.
Qed.

Lemma deserialize_serialized s t :
  Forall value_wf t -> validates s t = true -> deserialize s (serialized t) (zlen (serialized t)) = Some t.
Proof. intros Hw Hv. exact (deserialize_from_at s t [] [] Hw Hv). Qed.

(** C31: A tuple survives storage: whatever matches the schema serializes, and reading the bytes
    back under the same schema gives the tuple. *)
Theorem tuple_roundtrip s t :
  Forall value_wf t -> validates s t = true ->
  exists bs, serialize s t = Ok bs /\ Forall is_byte bs /\ deserialize s bs (zlen bs) = Some t.
Proof.
  intros Hw Hv. exists (serialized t). split_and!; [by apply serialize_eq|by apply serialized_bytes|by apply deserialize_serialized].
Qed.

Lemma tuple_roundtrip_witness :
  exists bs, serialize [mkColumn "id" Int64; mkColumn "name" String_] [VInt (-3); VString [97; 98]] = Ok bs /\ Forall is_byte bs /\
    deserialize [mkColumn "id" Int64; mkColumn "name" String_] bs (zlen bs) = Some [VInt (-3); VString [97; 98]].
Proof.
  apply tuple_roundtrip; [|reflexivity]. repeat constructor; unfold is_byte; lia.
Defined.

End TU.
