(* ===== verification/Payload.v ===== *)
(** * Page payloads and their fields

    What the table heap and the B+ tree write into a page: fixed-width fields at fixed
    positions of the payload.  [changed] says which bytes a write may have touched. *)

From S2P Require Import Prelude Bytes Page.

(** What a payload is. *)
Definition payload (d : bytes) : Prop := zlen d = kPagePayloadSize /\ Forall is_byte d.

(** ** Writing a field *)

(** [d'] is [d] with other bytes at [p .. p + n]. *)
Record changed (d : bytes) (p n : Z) (d' : bytes) : Prop := {
  ch_len : zlen d' = zlen d;
  ch_bytes : Forall is_byte d -> Forall is_byte d';
  ch_slice : forall q m, 0 <= q -> 0 <= m -> q + m <= zlen d -> q + m <= p \/ p + n <= q -> slice d' q m = slice d q m;
}.

Lemma changed_blit d p bs :
  0 <= p -> p + zlen bs <= zlen d -> Forall is_byte bs -> changed d p (zlen bs) (blit d p bs).
Proof.
  intros Hp Hl Hb. split.
  - by rewrite blit_length.
  - intros Hd. unfold blit. apply Forall_app_2; [by apply Forall_take|]. apply Forall_app_2; [done|by apply Forall_drop].
  - intros q m Hq Hm Hqm Ho. apply slice_blit_other; lia.
Qed.

Lemma changed_get d p n d' k q :
  changed d p n d' -> 0 <= q -> q + Z.of_nat k <= zlen d -> q + Z.of_nat k <= p \/ p + n <= q ->
  le_value k d' q = le_value k d q.
Proof. intros [Hl _ Hs] Hq Hk Ho. apply le_value_slice_eq; [lia..|]. apply Hs; lia. Qed.

Lemma changed_payload d p n d' : changed d p n d' -> payload d -> payload d'.
Proof. intros [Hl Hb _] [Hp1 Hp2]. split; [lia|auto]. Qed.

Lemma changed_trans d p n d1 p1 n1 d2 p2 n2 :
  changed d p n d1 -> changed d1 p1 n1 d2 -> p2 <= p -> p2 <= p1 -> p + n <= p2 + n2 -> p1 + n1 <= p2 + n2 ->
  changed d p2 n2 d2.
Proof.
  intros [L1 B1 S1] [L2 B2 S2] ????. split; [lia|auto|]. intros q m Hq Hm Hqm Ho. rewrite S2, S1 by lia. done.
Qed.

Lemma changed_put16 d p v :
  0 <= p -> p + 2 <= zlen d -> 0 <= v < 2 ^ 16 -> changed d p 2 (put16 d p v) /\ get16 (put16 d p v) p = v.
Proof.
  intros Hp Hl Hv. split; [|by apply get_blit].
  apply (changed_blit d p (le_bytes 2 v)); [done|by rewrite le_bytes_length|apply le_bytes_is_byte].
Qed.

Lemma changed_put32 d p v :
  0 <= p -> p + 4 <= zlen d -> 0 <= v < 2 ^ 32 -> changed d p 4 (put32 d p v) /\ get32 (put32 d p v) p = v.
Proof.
  intros Hp Hl Hv. split; [|by apply get_blit].
  apply (changed_blit d p (le_bytes 4 v)); [done|by rewrite le_bytes_length|apply le_bytes_is_byte].
Qed.

Lemma changed_put64 d p v :
  0 <= p -> p + 8 <= zlen d -> is_u64 v -> changed d p 8 (put64 d p v) /\ get64 (put64 d p v) p = v.
Proof.
  intros Hp Hl Hv. split; [|by apply get_blit].
  apply (changed_blit d p (le_bytes 8 v)); [done|by rewrite le_bytes_length|apply le_bytes_is_byte].
Qed.

Lemma get16_range d p : payload d -> 0 <= p -> p + 2 <= kPagePayloadSize -> 0 <= get16 d p < 2 ^ 16.
Proof. intros [Hl Hb] Hp Hp2. apply (le_value_range 2 d p); [done|lia|lia]. Qed.

Lemma zeros_payload : payload (zeros kPagePayloadSize).
Proof. split; [by rewrite zeros_length|apply zeros_is_byte]. Qed.
