(* ===== verification/Access.v ===== *)
(** * How the table heap and the B+ tree reach their pages

    [TableHeap] and [BPlusTree] work on a buffer pool and a page manager, and run in one of three
    ways: without a mutation context, with a context of the caller ([active_mutations_] only), or
    under a transaction ([active_mutations_] and [active_transaction_]).  [PageAccess] is what
    they use of their surroundings, [PageAccessLaws] what they rely on.  The three ways are three
    instances: [Plain], [Captured] and the world of a transaction. *)

From S2P Require Import Prelude Bytes Page Stream PageStore PageManager Wal LogManager BufferPool LockManager Mutation Transaction Payload.

Class PageAccess (W : Type) := {
  (** [bp_.fetch_page(id)]: the index of the frame, or null *)
  pa_fetch : PageId -> M W (option nat);
  (** [page->data()] of the page in a frame *)
  pa_data : W -> nat -> bytes;
  (** writing through [page->data()] *)
  pa_write : nat -> (bytes -> bytes) -> M W unit;
  pa_unpin : PageId -> bool -> M W bool;
  (** [if (active_mutations_) active_mutations_->watch(id)] *)
  pa_watch : PageId -> M W unit;
  (** [if (active_mutations_) active_mutations_->finish(id, page)], the page being in that frame *)
  pa_finish : PageId -> nat -> M W unit;
  (** [active_transaction_ ? active_transaction_->allocate_page(pm) : pm.allocate_page()] *)
  pa_allocate : M W PageId;
  (** [bp_.flush_all_pages()] *)
  pa_flush : M W unit;
  (** [bp_.validate_invariants()] *)
  pa_valid : W -> bool;
}.

(** Changing the page in frame [i] between [watch] and [finish]; the change may hand out what it
    has read from the page. *)
Definition pa_update {W A} `{PageAccess W} (id : PageId) (i : nat) (f : bytes -> A * bytes) : M W A :=
  pa_watch id ;;
  let! w := get in
  pa_write i (fun d => (f d).2) ;;
  pa_finish id i ;;
  ret (f (pa_data w i)).1.

(** The laws.  [pa_ok L w]: the pages are consistent and, under [L], nothing of the environment
    is going to fail. *)
Class PageAccessLaws (W : Type) `{PageAccess W} := {
  pa_ok : Prop -> W -> Prop;
  (** the payloads of the allocated pages *)
  pa_content : W -> PageId -> option bytes;
  (** how often a page is pinned *)
  pa_held : W -> PageId -> Z;
  (** the page is pinned and in that frame *)
  pa_at : W -> PageId -> nat -> Prop;
  (** the page may be unpinned as unchanged *)
  pa_clean : W -> PageId -> Prop;
  (** how many more pages can be allocated *)
  pa_free : W -> Z;

  pa_payload L w id d : pa_ok L w -> pa_content w id = Some d -> payload d;
  pa_at_data L w id i : pa_ok L w -> pa_at w id i -> pa_content w id = Some (pa_data w i);

  pa_fetch_spec L w id :
    pa_ok L w -> is_u64 id ->
    (L -> is_valid id = true -> is_Some (pa_content w id) /\ forall j, pa_held w j = 0) ->
    wpl L (pa_fetch id) w (fun o w' =>
      pa_ok L w' /\ (forall j, pa_content w' j = pa_content w j) /\ pa_free w' = pa_free w /\
      match o with
      | Some i => is_valid id = true /\ pa_at w' id i /\ pa_clean w' id /\
          forall j, pa_held w' j = if decide (j = id) then pa_held w j + 1 else pa_held w j
      | None => (forall j, pa_held w' j = pa_held w j) /\ (L -> is_valid id = false)
      end);

  pa_unpin_spec L w id i d :
    pa_ok L w -> pa_at w id i -> (d = false -> pa_clean w id) ->
    wpl L (pa_unpin id d) w (fun b w' =>
      b = true /\ pa_ok L w' /\ (forall j, pa_content w' j = pa_content w j) /\ pa_free w' = pa_free w /\
      forall j, pa_held w' j = if decide (j = id) then pa_held w j - 1 else pa_held w j);

  pa_update_spec {A} L w id i (f : bytes -> A * bytes) :
    pa_ok L w -> is_u64 id -> is_valid id = true -> pa_at w id i -> (L -> pa_held w id = 1) ->
    payload (f (pa_data w i)).2 ->
    wpl L (pa_update id i f) w (fun a w' =>
      a = (f (pa_data w i)).1 /\ pa_ok L w' /\ pa_at w' id i /\ pa_free w' = pa_free w /\
      (forall j, pa_content w' j = if decide (j = id) then Some (f (pa_data w i)).2 else pa_content w j) /\
      forall j, pa_held w' j = pa_held w j);

  pa_allocate_spec L w :
    pa_ok L w -> (L -> 0 < pa_free w) ->
    wpl L pa_allocate w (fun id w' =>
      pa_ok L w' /\ is_u64 id /\ is_valid id = true /\ pa_content w id = None /\ pa_free w' = pa_free w - 1 /\
      (forall j, pa_content w' j = if decide (j = id) then Some (zeros kPagePayloadSize) else pa_content w j) /\
      forall j, pa_held w' j = pa_held w j);

  pa_flush_spec L w :
    pa_ok L w ->
    wpl L pa_flush w (fun _ w' =>
      pa_ok L w' /\ (forall j, pa_content w' j = pa_content w j) /\ pa_free w' = pa_free w /\
      forall j, pa_held w' j = pa_held w j);

  pa_valid_ok L w : pa_ok L w -> pa_valid w = true;
}.

(** [release] of table_heap.cpp *)
Definition release {W} `{PageAccess W} (id : PageId) (dirty : bool) : M W unit :=
  let! ok := pa_unpin id dirty in
  throw_if (negb ok) (RuntimeError "buffer-pool unpin failed").

(** The steps every writer takes: pin the page or throw, announce the change, write, finish the
    capture, unpin the page as dirty. *)
Definition pa_modify {W A} `{PageAccess W} (id : PageId) (missing : exn) (f : bytes -> A * bytes) : M W A :=
  let! p := pa_fetch id in
  match p with
  | None => throw missing
  | Some i => let! a := pa_update id i f in release id true ;; ret a
  end.

Section client.
Context {W : Type} `{PageAccessLaws W}.
Implicit Types (w : W) (id : PageId).

(** Nobody holds a page. *)
Definition idle w : Prop := forall j, pa_held w j = 0.

Lemma release_page_spec L w id i d :
  pa_ok L w -> pa_at w id i -> (d = false -> pa_clean w id) ->
  wpl L (release id d) w (fun _ w' =>
    pa_ok L w' /\ (forall j, pa_content w' j = pa_content w j) /\ pa_free w' = pa_free w /\
    forall j, pa_held w' j = if decide (j = id) then pa_held w j - 1 else pa_held w j).
Proof.
  intros Hok Hat Hd. unfold release. wpl_step. wpl_use pa_unpin_spec; [done|exact Hat|exact Hd|].
  intros b w' (-> & H1 & H2 & H3 & H4). by wpl_step.
Qed.

Lemma held_back w w1 w2 id :
  (forall j, pa_held w1 j = if decide (j = id) then pa_held w j + 1 else pa_held w j) ->
  (forall j, pa_held w2 j = if decide (j = id) then pa_held w1 j - 1 else pa_held w1 j) ->
  forall j, pa_held w2 j = pa_held w j.
Proof. intros H1 H2 j. rewrite H2, H1. case_decide; lia. Qed.

Lemma pa_modify_spec {A} L w id missing (f : bytes -> A * bytes) :
  pa_ok L w -> is_u64 id -> (L -> is_valid id = true /\ is_Some (pa_content w id) /\ idle w) ->
  (forall d, pa_content w id = Some d -> payload d -> payload (f d).2) ->
  wpl L (pa_modify id missing f) w (fun a w' => exists d,
    pa_content w id = Some d /\ a = (f d).1 /\ pa_ok L w' /\ pa_free w' = pa_free w /\
    (forall j, pa_content w' j = if decide (j = id) then Some (f d).2 else pa_content w j) /\
    forall j, pa_held w' j = pa_held w j).
Proof.
  intros Hok Hu HL Hf. unfold pa_modify. wpl_step. wpl_use pa_fetch_spec; [done|done|naive_solver|].
  intros [i|] w1 (Hok1 & Hc1 & Hr1 & Ho).
  2:{ wpl_step. intros HL1. destruct (HL HL1) as [Hv _]. destruct Ho as [_ Ho]. specialize (Ho HL1). congruence. }
  destruct Ho as (Hv & Hat & Hcl & Hh1). pose proof (pa_at_data _ _ _ _ Hok1 Hat) as Hd. rewrite Hc1 in Hd.
  wpl_step. wpl_use pa_update_spec; [done|done|done|done| |exact (Hf _ Hd (pa_payload _ _ _ _ Hok Hd))|].
  { intros HL1. rewrite Hh1, decide_True by done. destruct (HL HL1) as (_ & _ & Hi). by rewrite Hi. }
  intros a w2 (-> & Hok2 & Hat2 & Hr2 & Hc2 & Hh2). wpl_step. wpl_use release_page_spec; [done|exact Hat2|done|].
  intros [] w3 (Hok3 & Hc3 & Hr3 & Hh3). wpl_step. eexists. split_and!; [exact Hd|done|done|congruence| |].
  - intros j. rewrite Hc3, Hc2. case_decide; [done|]. by rewrite Hc1.
  - apply (held_back w w1 w3 id); [done|]. intros j. by rewrite Hh3, Hh2.
Qed.

(** Looking at a page that is there. *)
Lemma pa_peek_spec {A} L w id (k : option nat -> M W A) Q :
  pa_ok L w -> is_u64 id -> (L -> is_valid id = true -> is_Some (pa_content w id) /\ idle w) ->
  (forall w1, pa_ok L w1 -> (forall j, pa_content w1 j = pa_content w j) -> pa_free w1 = pa_free w ->
     (forall j, pa_held w1 j = pa_held w j) -> (L -> is_valid id = false) -> wpl L (k None) w1 Q) ->
  (forall i w1, pa_ok L w1 -> (forall j, pa_content w1 j = pa_content w j) -> pa_free w1 = pa_free w ->
     is_valid id = true -> pa_at w1 id i -> pa_clean w1 id -> pa_content w id = Some (pa_data w1 i) ->
     (forall j, pa_held w1 j = if decide (j = id) then pa_held w j + 1 else pa_held w j) -> wpl L (k (Some i)) w1 Q) ->
  wpl L (let! p := pa_fetch id in k p) w Q.
Proof.
  intros Hok Hu HL Hn Hs. wpl_step. wpl_use pa_fetch_spec; [done|done|done|].
  intros [i|] w1 (Hok1 & Hc1 & Hr1 & Ho).
  - destruct Ho as (Hv & Hat & Hcl & Hh). apply Hs; try done. rewrite <- Hc1. by eapply pa_at_data.
  - destruct Ho as [Hh Hv]. by apply Hn.
Qed.

End client.

(** ** Objects that work on pages

    The state of a call on a heap or a tree: the members of the object and the pages. *)

Module OB.

Section object.
Context {O W : Type}.

Definition on_pages {A} (m : M W A) : M (O * W) A := zoom snd (fun w s => (s.1, w)) m.
Definition this : M (O * W) O := gets fst.
Definition upd (f : O -> O) : M (O * W) unit := modify (fun s => (f s.1, s.2)).
(** [p->data()] *)
Definition data `{PageAccess W} (i : nat) : M (O * W) bytes := gets (fun s => pa_data s.2 i).

(** A method called on a local object. *)
Definition on_local {A} (o : O) (m : M (O * W) A) : M W (A * O) :=
  fun w => let '(r, s) := m (o, w) in (match r with Ok a => Ok (a, s.1) | Throw e => Throw e end, s.2).

Lemma wpl_on_local {A} L (m : M (O * W) A) (o : O) w Q :
  wpl L m (o, w) (fun a s => Q (a, s.1) s.2) -> wpl L (on_local o m) w Q.
Proof. unfold wpl, wp, on_local. destruct (m (o, w)) as [[a|e] s]; exact id. Qed.

Lemma wpl_on_pages {A} L (m : M W A) (o : O) w Q :
  wpl L m w (fun a w' => Q a (o, w')) -> wpl L (on_pages m) (o, w) Q.
Proof. intros Hm. unfold on_pages. by wpl_step. Qed.

End object.

End OB.

Module AC.

#[local] Opaque PM.stored_page PM.is_page_allocated PM.deallocate_page.

(** ** The pool and the pages *)

Abbreviation Store := (BP.t * PM.t)%type.
Implicit Types (x : Store) (id j : PageId).

Definition content x j : option bytes :=
  if (0 <=? j) && PM.is_page_allocated x.2 j then page_data <$> BP.view x j else None.

(** A pinned page in its frame. *)
Definition at_frame x id i : Prop :=
  0 <= id /\ PM.is_page_allocated x.2 id = true /\ BP.page_table_ x.1 !! id = Some i /\ 0 < BP.pins x.1 id.

Record store_ok (wal : option Z) (L : Prop) x : Prop := {
  so_inv : BP.pool_inv None x;
  (** only pages of the file are cached *)
  so_known : forall j, is_Some (BP.page_table_ x.1 !! j) -> j < PM.page_count_ x.2;
  so_live : L -> BP.tidy wal x /\ PM.pm_healthy x.2;
}.

(** *** Pool operations do not change the number of pages *)

Ltac count_steps :=
  repeat first [wp_step | lazymatch goal with |- match PM.offset_for ?id with _ => _ end => destruct (PM.offset_for id); cbn beta iota end];
  done.

Lemma read_page_count id pm :
  wp (PM.read_page id) pm (fun _ pm' => PM.page_count_ pm' = PM.page_count_ pm).
Proof.
  unfold PM.read_page, PM.validate_logically_allocated, PM.validate_allocated, PM.read_block, PM.ensure_stream_good, PM.on_file.
  count_steps.
Qed.

Lemma write_page_count id pg pm :
  wp (PM.write_page id pg) pm (fun _ pm' => PM.page_count_ pm' = PM.page_count_ pm).
Proof.
  unfold PM.write_page, PM.validate_logically_allocated, PM.validate_allocated, PM.ensure_stream_good, PM.on_file.
  count_steps.
Qed.

Lemma write_dirty_frame_count wal i x :
  wp (BP.write_dirty_frame wal i) x (fun _ x' => PM.page_count_ x'.2 = PM.page_count_ x.2).
Proof.
  unfold BP.write_dirty_frame, BP.require_mutations_finalized, BP.require_wal_durable, BP.on_pool, BP.pool, BP.on_store.
  wp_steps; try done. wp_use write_page_count. intros [[]|e] p ?; by wp_steps.
Qed.

Lemma fetch_page_count wal id x :
  wp (BP.fetch_page wal id) x (fun _ x' => PM.page_count_ x'.2 = PM.page_count_ x.2).
Proof.
  unfold BP.fetch_page, BP.acquire_frame, BP.load_page, BP.release_frame, BP.on_pool, BP.pool, BP.on_store. wp_steps; try done;
  try (wp_use write_dirty_frame_count; cbn [fst snd]; intros [[]|e] x1 H1; [|done]; wp_steps; cbn [fst snd]);
  wp_use read_page_count; intros [pg|e] p H2; wp_steps; cbn [fst snd] in *; congruence.
Qed.

Lemma flush_all_pages_count wal x :
  wp (BP.flush_all_pages wal) x (fun _ x' => PM.page_count_ x'.2 = PM.page_count_ x.2).
Proof.
  assert (forall l (y : Store), wp (for_each l (BP.flush_frame wal)) y (fun _ x' => PM.page_count_ x'.2 = PM.page_count_ y.2)) as Hloop.
  { induction l as [|i l IH]; intros y; cbn [for_each]; [by wp_steps|].
    wp_step. unfold BP.flush_frame at 1, BP.pool, BP.on_pool, BP.on_store, BP.require_mutations_finalized, BP.require_wal_durable.
    wp_step. wp_step. wp_step; [|wp_step; by apply IH]. wp_step. wp_step; [done|]. wp_step. wp_step; [done|]. wp_step. wp_step.
    wp_use write_page_count. intros [[]|e] p Hp; [|done]. wp_step. wp_use IH. cbn [snd]. intros r x' ->. done. }
  unfold BP.flush_all_pages, BP.pool, BP.on_pool, BP.on_store. wp_step. wp_step. wp_step.
  wp_use Hloop. intros [[]|e] x1 Hx1; [|done]. wp_step. wp_step. cbn [ps_flush pm_store]. unfold PM.flush, PM.ensure_stream_good, PM.on_file.
  repeat wp_step; exact Hx1.
Qed.

(** *** The pool operations on payloads *)

Lemma content_same x x' j :
  BP.view x' j = BP.view x j -> PM.is_page_allocated x'.2 = PM.is_page_allocated x.2 -> content x' j = content x j.
Proof. intros Hv Ha. unfold content. by rewrite Ha, Hv. Qed.

Lemma content_some x id d :
  content x id = Some d -> 0 <= id /\ PM.is_page_allocated x.2 id = true /\ exists pg, BP.view x id = Some pg /\ page_data pg = d.
Proof.
  unfold content. destruct (Z.leb_spec 0 id); [|done]. destruct (PM.is_page_allocated x.2 id) eqn:Ha; [|done].
  intros (pg & -> & Hpg)%fmap_Some. eauto.
Qed.

Lemma store_payload wal L x id d : store_ok wal L x -> content x id = Some d -> payload d.
Proof.
  intros Hok (Hid & Ha & pg & Hv & <-)%content_some. pose proof (so_inv _ _ _ Hok) as [Hwf _ Hpm].
  assert (page_wf pg) as [_ _ H1 H2]; [|by split]. unfold BP.view in Hv. destruct (BP.page_table_ x.1 !! id) as [i|] eqn:Hi.
  - simplify_eq. destruct (BP.table_frame _ _ _ _ Hwf Hi) as (Hf & _). by apply (BP.wf_frames _ _ Hwf _ _ Hf).
  - eapply PM.file_page_wf; [..|exact Hv]; destruct Hpm; [done|lia|done].
Qed.

Lemma store_at_data x id i :
  at_frame x id i -> content x id = Some (page_data (BP.fr_page (BP.frame x.1 i))).
Proof.
  intros (Hid & Ha & Hi & _). unfold content. rewrite Ha, (BP.view_cached _ _ _ Hi). by replace (0 <=? id) with true by lia.
Qed.

Lemma store_known wal L x x' id :
  store_ok wal L x -> is_u64 id -> PM.page_count_ x'.2 = PM.page_count_ x.2 ->
  BP.caches (fun j => j = id /\ PM.is_page_allocated x.2 id = true) x x' ->
  forall j, is_Some (BP.page_table_ x'.1 !! j) -> j < PM.page_count_ x'.2.
Proof.
  intros [Hinv Hk _] Hu Hp [_ Hc] j Hj. rewrite Hp. destruct (Hc j Hj) as [Hx|[-> Ha]]; [by apply Hk|].
  destruct (PM.allocated_range x.2 id) as [? _]; [apply Hinv|done|done|lia].
Qed.

Lemma store_fetch wal L x id :
  store_ok wal L x -> is_u64 id ->
  (L -> is_valid id = true -> is_Some (content x id) /\ (BP.unpinned x.1 \/ BP.fetchable wal x id)) ->
  wpl L (BP.fetch_page wal id) x (fun o x' =>
    store_ok wal L x' /\ (forall j, content x' j = content x j) /\ PM.page_count_ x'.2 = PM.page_count_ x.2 /\
    (forall j k, at_frame x j k -> at_frame x' j k) /\
    match o with
    | Some i => is_valid id = true /\ at_frame x' id i /\ BP.unpin_allowed x' id false /\
        forall j, BP.pins x'.1 j = if decide (j = id) then BP.pins x.1 j + 1 else BP.pins x.1 j
    | None => (forall j, BP.pins x'.1 j = BP.pins x.1 j) /\ (L -> is_valid id = false)
    end).
Proof.
  intros Hok Hu HL. pose proof Hok as [Hinv Hk Hl]. apply wpl_intro. intros r x' E.
  destruct (wp_elim _ _ _ _ _ (BP.fetch_page_spec wal x id Hinv Hu) E) as (Hinv' & Htr & Hr & Hlive).
  pose proof (wp_elim _ _ _ _ _ (fetch_page_count wal id x) E) as Hc. cbn beta in Hc.
  pose proof (wp_elim _ _ _ _ _ (BP.fetch_page_caches wal id x) E) as Hca. cbn beta in Hca.
  assert (L -> is_valid id = true -> exists i, r = Ok (Some i)) as Hgood.
  { intros HL1 Hv. destruct (Hl HL1) as [Htd Hh]. destruct (HL HL1 Hv) as [[d Hd] Hun].
    apply content_some in Hd as (_ & Ha & pg & Hvw & _). apply Hlive; [done|done|done|by exists pg|].
    destruct Hun; [by apply BP.tidy_fetchable|done]. }
  assert (store_ok wal L x') as Hok'.
  { split; [done|by eapply store_known|]. intros HL1. destruct (Hl HL1) as [Htd Hh]. split; [|by apply Htr].
    exact (wp_elim _ _ _ _ _ (BP.fetch_page_tidy wal x id Hinv Hu Htd) E). }
  assert (is_valid id = false -> r = Ok None) as Hinval.
  { intros Hv. unfold BP.fetch_page, BP.on_pool, bind, modify in E. rewrite Hv in E. cbn [negb] in E. unfold ret in E. congruence. }
  assert ((forall j, BP.pins x.1 j <= BP.pins x'.1 j) -> forall j k, at_frame x j k -> at_frame x' j k) as Hat.
  { intros Hle j k (Hj & Haj & Hk1 & Hpk). split_and!; [done| | |specialize (Hle j); lia].
    - change (ps_allocated x'.2 j = true). rewrite (BP.tr_allocated _ _ _ Htr). exact Haj.
    - apply (BP.tr_pinned _ _ _ Htr); [done|]. by rewrite <- (BP.pins_table _ _ _ Hk1). }
  destruct r as [[i|]|e].
  - destruct Hr as (Ha & Hi & Hv & Hp & Hpo & Hun). split_and!; [done|intros j; apply content_same; apply Htr|done|..].
    + apply Hat. intros j. destruct (decide (j = id)) as [->|Hj]; [lia|by rewrite Hpo].
    + destruct (is_valid id) eqn:Hv'; [done|]. by specialize (Hinval eq_refl).
    + split_and!; [by destruct Hu|change (ps_allocated x'.2 id = true); rewrite (BP.tr_allocated _ _ _ Htr); exact Ha|done|].
      pose proof (MC.pins_nonneg _ _ id Hinv). lia.
    + done.
    + intros j. case_decide; [by subst|by apply Hpo].
  - split_and!; [done|intros j; apply content_same; apply Htr|done|apply Hat; intros j; by rewrite Hr|done|].
    intros HL1. destruct (is_valid id) eqn:Hv; [|done]. by destruct (Hgood HL1 eq_refl).
  - intros HL1. destruct (is_valid id) eqn:Hv; [by destruct (Hgood HL1 eq_refl)|]. by specialize (Hinval eq_refl).
Qed.

Lemma store_unpin wal L x id i d :
  store_ok wal L x -> at_frame x id i -> (d = false -> BP.unpin_allowed x id false) ->
  wpl L (BP.unpin_page id d) x (fun b x' =>
    b = true /\ store_ok wal L x' /\ (forall j, content x' j = content x j) /\ PM.page_count_ x'.2 = PM.page_count_ x.2 /\
    BP.page_table_ x'.1 = BP.page_table_ x.1 /\
    forall j, BP.pins x'.1 j = if decide (j = id) then BP.pins x.1 j - 1 else BP.pins x.1 j).
Proof.
  intros Hok (Hid & Ha & Hi & Hp) Hd. pose proof Hok as [Hinv Hk Hl]. apply wpl_intro. intros r x' E.
  assert (BP.unpin_allowed x id d) as Hal by (destruct d; [by left|by apply Hd]).
  destruct (wp_elim _ _ _ _ _ (BP.unpin_page_spec x id d Hinv Hal) E) as (Hinv' & (Hv & _ & Hs) & Ht & -> & Hp' & Hpo & _).
  replace (0 <? BP.pins x.1 id) with true in * by lia. split_and!; [done| | |by rewrite Hs|done|].
  - split; [done|by rewrite Ht, Hs|]. intros HL1. destruct (Hl HL1) as [Htd Hh]. split; [|by rewrite Hs].
    exact (wp_elim _ _ _ _ _ (BP.unpin_page_tidy wal x id d Hinv Hal Htd) E).
  - intros j. apply content_same; [done|by rewrite Hs].
  - intros j. case_decide; [by subst|by apply Hpo].
Qed.

(** Changing the page of a held frame, its payload or its PageLSN. *)
Lemma store_touch wal L x id i (g : Page -> Page) :
  store_ok wal L x -> at_frame x id i ->
  (page_wf (BP.fr_page (BP.frame x.1 i)) -> page_wf (g (BP.fr_page (BP.frame x.1 i))) /\
     page_id (g (BP.fr_page (BP.frame x.1 i))) = page_id (BP.fr_page (BP.frame x.1 i))) ->
  (L -> forall pg, page_lsn (g pg) = page_lsn pg) ->
  let x' := (BP.upd_frame i (fun f => BP.set_page (g (BP.fr_page f)) f) x.1, x.2) in
  store_ok wal L x' /\ at_frame x' id i /\ (forall j, BP.pins x'.1 j = BP.pins x.1 j) /\
  BP.frame x'.1 i = BP.set_page (g (BP.fr_page (BP.frame x.1 i))) (BP.frame x.1 i) /\
  forall j, content x' j = if decide (j = id) then Some (page_data (g (BP.fr_page (BP.frame x.1 i)))) else content x j.
Proof.
  intros Hok (Hid & Ha & Hi & Hp) Hg Hlsn x'. pose proof Hok as [Hinv Hk Hl].
  destruct (BP.table_frame _ _ _ _ (BP.pi_wf _ _ Hinv) Hi) as (Hf & Ho & Hpid).
  pose proof (BP.wf_frames _ _ (BP.pi_wf _ _ Hinv) _ _ Hf) as [Hf1 Hf2 Hpwf]. destruct (Hg Hpwf) as [Hg1 Hg2].
  pose proof (BP.pins_table _ _ _ Hi) as Hpt.
  destruct (BP.touch_spec x id i (fun f => BP.set_page (g (BP.fr_page f)) f)) as (Hinv' & Ht & Hpn & Hv & Hvo); try done.
  { cbn. by rewrite Hg2. }
  { right; right. lia. }
  fold x' in Hinv', Ht, Hpn, Hv, Hvo. split_and!.
  - split; [done|by rewrite Ht|]. intros HL1. destruct (Hl HL1) as [[Hp1 Hf' Ha' Hd'] Hh]. split; [|done]. split.
    + by apply BP.no_pending_upd.
    + eapply BP.frames_nonempty; [|exact Hf']. apply BP.frames_length_upd.
    + by rewrite Ht.
    + intros j pg Hj. destruct (decide (j = id)) as [->|Hne]; [|rewrite Hvo in Hj by done; by eapply Hd'].
      rewrite Hv in Hj. injection Hj as <-. cbn. rewrite (Hlsn HL1). apply (Hd' id). by apply BP.view_cached.
  - split_and!; [done|done|by rewrite Ht|by rewrite Hpn].
  - done.
  - unfold x'. cbn [fst]. by rewrite (BP.frame_upd _ _ _ _ _ Hf), decide_True.
  - intros j. unfold content. cbn [snd x']. case_decide as Hj; [|by rewrite Hvo].
    rewrite Hj, Hv. replace (0 <=? id) with true by lia. cbn [snd] in *. by rewrite Ha.
Qed.

Lemma store_write wal L x id i (f : bytes -> bytes) :
  store_ok wal L x -> at_frame x id i -> payload (f (page_data (BP.fr_page (BP.frame x.1 i)))) ->
  wpl L (BP.write_frame i (fun pg => set_data (f (page_data pg)) pg)) x (fun _ x' =>
    store_ok wal L x' /\ at_frame x' id i /\ x'.2 = x.2 /\ (forall j, BP.pins x'.1 j = BP.pins x.1 j) /\
    BP.frame x'.1 i = BP.set_page (set_data (f (page_data (BP.fr_page (BP.frame x.1 i)))) (BP.fr_page (BP.frame x.1 i))) (BP.frame x.1 i) /\
    forall j, content x' j = if decide (j = id) then Some (f (page_data (BP.fr_page (BP.frame x.1 i)))) else content x j).
Proof.
  intros Hok Hat Hf. unfold BP.write_frame, BP.on_pool. wpl_step.
  destruct (store_touch wal L x id i (fun pg => set_data (f (page_data pg)) pg)) as (H1 & H2 & H3 & H4 & H5); try done.
  intros [Hw1 Hw2 Hw3 Hw4]. destruct Hf as [? ?]. split; [|done]. by split.
Qed.

Lemma store_flush wal L x :
  store_ok wal L x ->
  wpl L (BP.flush_all_pages wal) x (fun _ x' =>
    store_ok wal L x' /\ (forall j, content x' j = content x j) /\ PM.page_count_ x'.2 = PM.page_count_ x.2 /\
    forall j, BP.pins x'.1 j = BP.pins x.1 j).
Proof.
  intros [Hinv Hk Hl]. apply wpl_intro. intros r x' E.
  destruct (wp_elim _ _ _ _ _ (BP.flush_all_pages_spec wal x Hinv) E) as (Hinv' & Htr & Ht & Hp & _).
  pose proof (wp_elim _ _ _ _ _ (flush_all_pages_count wal x) E) as Hc. cbn beta in Hc.
  destruct r as [[]|e].
  - split_and!; [|intros j; apply content_same; apply Htr|done|done]. split; [done|by rewrite Ht, Hc|].
    intros HL. destruct (Hl HL) as [Htd Hh]. split; [|by apply Htr]. exact (proj2 (wp_elim _ _ _ _ _ (BP.flush_all_pages_live wal x Hinv Htd Hh) E)).
  - intros HL. destruct (Hl HL) as [Htd Hh]. by destruct (wp_elim _ _ _ _ _ (BP.flush_all_pages_live wal x Hinv Htd Hh) E).
Qed.

Lemma store_valid wal L x : store_ok wal L x -> BP.validate_invariants x.1 = true.
Proof. intros [Hinv _ _]. apply BP.validate_invariants_wf, Hinv. Qed.

(** A page added behind the last one. *)
Lemma store_grow wal L x pm' id :
  store_ok wal L x -> PM.pm_ok pm' -> id = PM.page_count_ x.2 -> PM.page_count_ pm' = id + 1 ->
  PM.stored_page pm' id = Some (new_page id) ->
  (forall j, j <> id -> PM.stored_page pm' j = PM.stored_page x.2 j) ->
  (forall j, 0 <= j -> PM.is_page_allocated pm' j = if decide (j = id) then true else PM.is_page_allocated x.2 j) ->
  (L -> PM.pm_healthy pm') ->
  store_ok wal L (x.1, pm') /\ content x id = None /\
  forall j, content (x.1, pm') j = if decide (j = id) then Some (zeros kPagePayloadSize) else content x j.
Proof.
  intros Hok Hpm -> Hc Hst Hoth Hal Hh. pose proof Hok as [Hinv Hk Hl]. set (id := PM.page_count_ x.2) in *.
  assert (BP.page_table_ x.1 !! id = None) as Hnone.
  { destruct (BP.page_table_ x.1 !! id) as [i|] eqn:Hi; [|done]. specialize (Hk id). rewrite Hi in Hk. unfold id in *.
    assert (PM.page_count_ x.2 < PM.page_count_ x.2); [by apply Hk|lia]. }
  assert (0 <= id) as Hid by (destruct Hinv as [_ _ []]; unfold id; lia).
  assert (forall j, j <> id -> BP.view (x.1, pm') j = BP.view x j) as Hv.
  { intros j Hj. unfold BP.view. cbn [fst snd]. destruct (BP.page_table_ x.1 !! j); [done|]. by apply Hoth. }
  assert (BP.view (x.1, pm') id = Some (new_page id)) as Hvid.
  { unfold BP.view. cbn [fst snd]. by rewrite Hnone. }
  split_and!.
  - split; cbn [fst snd].
    + destruct Hinv as [Hwf Hco _]. split; [exact Hwf| |exact Hpm]. cbn [fst snd]. intros i f Hi Ho Hz Hd.
      pose proof (BP.wf_occupied _ _ Hwf _ _ Hi Ho) as Ht. etrans; [apply Hoth|by eapply Hco]. congruence.
    + intros j Hj. rewrite Hc. specialize (Hk j Hj). fold id in Hk. lia.
    + intros HL1. split; [|by apply Hh]. destruct (Hl HL1) as [[Hp1 Hf Ha Hd] _]. split; [done|done|..]; cbn [fst snd].
      * intros j Hj. change (PM.is_page_allocated pm' j = true).
        destruct (PM.allocated_range x.2 j) as [? _]; [apply Hinv|..|by apply Ha|].
        { pose proof (BP.pi_wf _ _ Hinv) as Hwf. destruct Hj as [i Hi]. destruct (BP.table_frame _ _ _ _ Hwf Hi) as (Hf' & Ho & <-).
          by apply (BP.wf_frames _ _ Hwf _ _ Hf'). }
        rewrite Hal by lia. case_decide; [done|]. by apply Ha.
      * intros j pg. destruct (decide (j = id)) as [->|Hne]; [|rewrite Hv by done; apply Hd].
        rewrite Hvid. by intros [= <-].
  - unfold content. replace (PM.is_page_allocated x.2 id) with false; [by rewrite andb_false_r|]. symmetry.
    destruct (PM.is_page_allocated x.2 id) eqn:E; [|done]. destruct (PM.allocated_range x.2 id) as [? _]; [apply Hinv| |done|unfold id in *; lia].
    destruct (PM.pm_ok_u64 x.2) as [? _]; [apply Hinv|done].
  - intros j. unfold content. cbn [snd]. destruct (Z.leb_spec 0 j) as [Hj|Hj]; cbn [andb]; [|by rewrite decide_False by lia].
    rewrite Hal by done. case_decide as Hd; [by subst; rewrite Hvid|]. by rewrite Hv.
Qed.
(** ** Without mutation context *)

(** The pool on its pages, and what its durability provider answers. *)
Record Plain : Type := mkPlain { pl_store : Store; pl_wal : option Z }.

Definition on_plain {A} (m : option Z -> M Store A) : M Plain A :=
  let! w := get in zoom pl_store (fun x w => mkPlain x (pl_wal w)) (m (pl_wal w)).

#[global] Instance plain_access : PageAccess Plain := {
  pa_fetch id := on_plain (fun wal => BP.fetch_page wal id);
  pa_data w i := page_data (BP.fr_page (BP.frame (pl_store w).1 i));
  pa_write i f := on_plain (fun _ => BP.write_frame i (fun pg => set_data (f (page_data pg)) pg));
  pa_unpin id d := on_plain (fun _ => BP.unpin_page id d);
  pa_watch _ := ret tt;
  pa_finish _ _ := ret tt;
  pa_allocate := on_plain (fun _ => BP.on_store PM.allocate_page);
  pa_flush := on_plain (fun wal => BP.flush_all_pages wal);
  pa_valid w := BP.validate_invariants (pl_store w).1;
}.

Lemma wpl_on_plain {A} L (m : option Z -> M Store A) w Q :
  wpl L (m (pl_wal w)) (pl_store w) (fun a x => Q a (mkPlain x (pl_wal w))) -> wpl L (on_plain m) w Q.
Proof. intros Hw. unfold on_plain. by do 3 wpl_step. Qed.

(** Allocating a page for the pool. *)
Lemma store_allocate wal L x :
  store_ok wal L x -> (L -> PM.page_count_ x.2 < PM.kCatalogBits) ->
  wpl L (BP.on_store PM.allocate_page) x (fun id x' =>
    x'.1 = x.1 /\ store_ok wal L x' /\ is_u64 id /\ is_valid id = true /\ content x id = None /\
    PM.page_count_ x'.2 = PM.page_count_ x.2 + 1 /\
    forall j, content x' j = if decide (j = id) then Some (zeros kPagePayloadSize) else content x j).
Proof.
  intros Hok Hroom. pose proof (BP.pi_store _ _ (so_inv _ _ _ Hok)) as Hpm. unfold BP.on_store. wpl_step.
  apply wpl_intro. intros r pm' E. destruct (wp_elim _ _ _ _ _ (PM.allocate_page_spec x.2 Hpm) E) as (Hok' & Hoth & Hr & Hfull & Hh).
  destruct r as [id|e].
  - destruct (Hr id eq_refl) as (-> & Hc & Hst & _ & _ & Hal). cbn [fst snd].
    destruct (store_grow wal L x pm' (PM.page_count_ x.2)) as (H1 & H2 & H3); try done.
    { intros HL. apply Hh. by apply (so_live _ _ _ Hok). }
    split_and!; try done; [by apply PM.pm_ok_u64|]. apply PM.page_valid. destruct Hpm, Hok'. PM.clia.
  - intros HL. destruct (so_live _ _ _ Hok HL) as [_ Hhe]. destruct (Hh Hhe) as [_ Hx]. by specialize (Hx (Hroom HL)).
Qed.

#[global] Program Instance plain_laws : PageAccessLaws Plain := {
  pa_ok L w := store_ok (pl_wal w) L (pl_store w);
  pa_content w := content (pl_store w);
  pa_held w := BP.pins (pl_store w).1;
  pa_at w := at_frame (pl_store w);
  pa_clean w id := BP.unpin_allowed (pl_store w) id false;
  pa_free w := PM.kCatalogBits - PM.page_count_ (pl_store w).2;
}.
Next Obligation. intros L w id d. apply store_payload. Qed.
Next Obligation. intros L w id i _. apply store_at_data. Qed.
Next Obligation.
  intros L w id Hok Hu HL. apply wpl_on_plain. wpl_use store_fetch; [done|done| |].
  { intros HL1 Hv. destruct (HL HL1 Hv). split; [done|by left]. }
  intros o x' (H1 & H2 & H3 & _ & H4). cbn [pl_store pl_wal]. rewrite H3. by split_and!.
Qed.
Next Obligation.
  intros L w id i d Hok Hat Hd. apply wpl_on_plain. wpl_use store_unpin; [exact Hok|exact Hat|exact Hd|].
  intros b x' (-> & H1 & H2 & H3 & _ & H4). cbn [pl_store pl_wal]. rewrite H3. by split_and!.
Qed.
Next Obligation.
  intros A L w id i f Hok Hu Hv Hat HL Hf. unfold pa_update. cbn [pa_watch pa_write pa_finish pa_data plain_access].
  do 5 wpl_step. apply wpl_on_plain. wpl_use (store_write _ _ _ id i (fun d => (f d).2)); [exact Hok|exact Hat|exact Hf|].
  intros [] x' (H1 & H2 & H3 & H4 & _ & H5). do 3 wpl_step. cbn [pl_store pl_wal]. rewrite H3. by split_and!.
Qed.
Next Obligation.
  intros L w Hok Hroom. apply wpl_on_plain. wpl_use store_allocate; [exact Hok|intros HL; specialize (Hroom HL); lia|].
  intros id x' (H1 & H2 & H3 & H4 & H5 & H7 & H6). cbn [pl_store pl_wal]. rewrite H1. split_and!; try done. lia.
Qed.
Next Obligation.
  intros L w Hok. apply wpl_on_plain. wpl_use store_flush; [exact Hok|]. intros [] x' (H1 & H2 & H3 & H4). cbn [pl_store pl_wal]. rewrite H3. by split_and!.
Qed.
Next Obligation. intros L w. apply store_valid. Qed.

(** A pool of [n + 1] frames that caches nothing yet, in front of a database of two pages. *)
Definition fresh (n : nat) : Plain := mkPlain (BP.create (S n), BP.pm_two) None.

Lemma fresh_ok n : pa_ok True (fresh n) /\ idle (fresh n) /\ 100 < pa_free (fresh n).
Proof.
  split_and!.
  - split; [exact (BP.create_inv (S n) BP.pm_two BP.pm_two_ok)|intros j [i Hi]; cbn in Hi; by rewrite lookup_empty in Hi|].
    intros _. split; [exact (BP.create_tidy n BP.pm_two None BP.pm_two_pages)|exact BP.pm_two_healthy].
  - intros j. cbn. unfold BP.pins. cbn. by rewrite lookup_empty.
  - cbn. replace (PM.page_count_ BP.pm_two) with 2 by (vm_compute; reflexivity). done.
Qed.

(** ** With a mutation context of the caller *)

(** Taking the image of a page that is held. *)
Lemma store_image wal L x id i :
  store_ok wal L x -> is_u64 id -> is_valid id = true -> at_frame x id i -> (L -> BP.pins x.1 id = 1) ->
  wpl L (MC.image wal id) x (fun img x' =>
    store_ok wal L x' /\ (forall j, content x' j = content x j) /\ PM.page_count_ x'.2 = PM.page_count_ x.2 /\
    at_frame x' id i /\ (forall j, BP.pins x'.1 j = BP.pins x.1 j) /\ img.1 = page_data (BP.fr_page (BP.frame x.1 i))).
Proof.
  intros Hok Hu Hv Hat HL. unfold MC.image, BP.pool. wpl_step. wpl_use store_fetch; [done|done| |].
  { intros HL1 _. split; [by rewrite (store_at_data _ _ _ Hat)|]. right. left. exists i. destruct Hat as (_ & _ & Hi & _).
    split; [done|]. rewrite <- (BP.pins_table _ _ _ Hi), (HL HL1). done. }
  intros [k|] x1 (Hok1 & Hc1 & Hn1 & Hat1 & Hr); [|wpl_step; intros HL1; destruct Hr as [_ Hr]; rewrite Hr in Hv; done].
  destruct Hr as (_ & Hk & Hcl & Hp). pose proof (Hat1 _ _ Hat) as Hi1. pose proof Hat as (_ & _ & _ & Hpos).
  assert (k = i) as -> by (destruct Hk as (_ & _ & ? & _), Hi1 as (_ & _ & ? & _); congruence).
  wpl_step. wpl_step. wpl_step. wpl_use store_unpin; [exact Hok1|exact Hk|by intros _|].
  intros b x2 (-> & Hok2 & Hc2 & Hn2 & Ht2 & Hp2). wpl_step. wpl_step; [done|]. wpl_step. cbn [fst].
  assert (forall j, BP.pins x2.1 j = BP.pins x.1 j) as Hp'.
  { intros j. rewrite Hp2, Hp. case_decide; lia. }
  split_and!; [done|intros j; by rewrite Hc2, Hc1|by rewrite Hn2| |done|].
  - destruct Hk as (H1 & H2 & H3 & _). split_and!; [done| |by rewrite Ht2|by rewrite Hp'].
    assert (is_Some (content x2 id)) as [d Hd]; [|by apply content_some in Hd as (_ & ? & _)].
    by rewrite Hc2, Hc1, (store_at_data _ _ _ Hat).
  - pose proof (store_at_data _ _ _ Hat) as E1. rewrite <- Hc1, (store_at_data _ _ _ Hk) in E1. by injection E1.
Qed.

Abbreviation Captured := (MC.state (P := PM.t) (F := option Z)).

#[global] Instance captured_access : PageAccess Captured := {
  pa_fetch id := let! w := get in MC.on_pool (BP.fetch_page (MC.ms_fin w) id);
  pa_data w i := page_data (BP.fr_page (BP.frame (MC.ms_pool w).1 i));
  pa_write i f := MC.on_pool (BP.write_frame i (fun pg => set_data (f (page_data pg)) pg));
  pa_unpin id d := MC.on_pool (BP.unpin_page id d);
  pa_watch id := MC.watch (fun wal => wal) id;
  pa_finish id i := MC.finish None id i;
  pa_allocate := MC.on_pool (BP.on_store PM.allocate_page);
  pa_flush := let! w := get in MC.on_pool (BP.flush_all_pages (MC.ms_fin w));
  pa_valid w := BP.validate_invariants (MC.ms_pool w).1;
}.

(** Without finalizer, [finish] only moves the capture to the list of mutations. *)
Lemma finish_captured (w : Captured) id i before prev :
  MC.pending_ (MC.ms_context w) = [MC.mkPending id before prev] ->
  page_id (BP.fr_page (BP.frame (MC.ms_pool w).1 i)) = id ->
  exists c, MC.finish None id i w = (Ok tt, MC.mkState c (MC.ms_pool w) (MC.ms_fin w)) /\ MC.pending_ c = [].
Proof.
  intros Hp Hid. unfold MC.finish, MC.capture, MC.find_pending, bind, get, throw_if.
  rewrite Hid, Z.eqb_refl. cbn [negb ret]. rewrite Hp. cbn [list_find]. rewrite decide_True by done.
  cbn [MC.pd_before MC.pd_previous_lsn]. case_bool_decide; cbn; eexists; (split; [reflexivity|]); cbn; by rewrite ?Hp.
Qed.
(** A held page is the page it is asked for. *)
Lemma at_frame_id wal L x id i : store_ok wal L x -> at_frame x id i -> page_id (BP.fr_page (BP.frame x.1 i)) = id.
Proof. intros [Hinv _ _] (_ & _ & Hi & _). by destruct (BP.table_frame _ _ _ _ (BP.pi_wf _ _ Hinv) Hi) as (_ & _ & ?). Qed.

#[global] Program Instance captured_laws : PageAccessLaws Captured := {
  pa_ok L w := store_ok (MC.ms_fin w) L (MC.ms_pool w) /\ MC.pending_ (MC.ms_context w) = [];
  pa_content w := content (MC.ms_pool w);
  pa_held w := BP.pins (MC.ms_pool w).1;
  pa_at w := at_frame (MC.ms_pool w);
  pa_clean w id := BP.unpin_allowed (MC.ms_pool w) id false;
  pa_free w := PM.kCatalogBits - PM.page_count_ (MC.ms_pool w).2;
}.
Next Obligation. intros L w id d [Hok _]. by eapply store_payload. Qed.
Next Obligation. intros L w id i _. apply store_at_data. Qed.
Next Obligation.
  intros L w id [Hok Hp] Hu HL. cbn [pa_fetch captured_access]. unfold MC.on_pool. do 3 wpl_step. wpl_use store_fetch; [done|done| |].
  { intros HL1 Hv. destruct (HL HL1 Hv). split; [done|by left]. }
  intros o x' (H1 & H2 & H3 & _ & H4). cbn [MC.ms_pool MC.ms_fin MC.ms_context]. rewrite H3. by split_and!.
Qed.
Next Obligation.
  intros L w id i d [Hok Hp] Hat Hd. cbn [pa_unpin captured_access]. unfold MC.on_pool. wpl_step. wpl_use store_unpin; [exact Hok|exact Hat|exact Hd|].
  intros b x' (-> & H1 & H2 & H3 & _ & H4). cbn [MC.ms_pool MC.ms_fin MC.ms_context]. rewrite H3. by split_and!.
Qed.
Next Obligation.
  intros A L w id i f [Hok Hp] Hu Hv Hat HL Hf. unfold pa_update. cbn [pa_watch pa_write pa_finish pa_data captured_access].
  unfold MC.watch, MC.durable, MC.on_pool, MC.on_context. wpl_step. wpl_step. rewrite Hv. cbn [negb]. wpl_step; [done|].
  do 4 wpl_step. wpl_use (store_image _ _ _ id i); [exact Hok|done|done|done|done|].
  intros [d l] x1 (Hok1 & Hc1 & Hn1 & Hat1 & Hp1 & Hd). cbn [fst] in Hd. subst d. wpl_step. cbn [MC.ms_pool MC.ms_fin MC.ms_context].
  assert (page_data (BP.fr_page (BP.frame x1.1 i)) = page_data (BP.fr_page (BP.frame (MC.ms_pool w).1 i))) as Hsame.
  { pose proof (store_at_data _ _ _ Hat1) as E1. rewrite Hc1, (store_at_data _ _ _ Hat) in E1. by injection E1. }
  wpl_step. wpl_step. wpl_step. wpl_step. cbn [MC.ms_pool MC.ms_fin MC.ms_context].
  wpl_use (store_write _ _ _ id i (fun d => (f d).2)); [exact Hok1|exact Hat1|rewrite Hsame; exact Hf|].
  intros [] x2 (Hok2 & Hat2 & Hs2 & Hp2 & _ & Hc2). wpl_step. apply wpl_intro. intros r w' E.
  edestruct (finish_captured (MC.mkState (MC.set_pending (MC.pending_ (MC.ms_context w) ++
    [MC.mkPending id (page_data (BP.fr_page (BP.frame (MC.ms_pool w).1 i))) l]) (MC.ms_context w)) x2 (MC.ms_fin w)) id i)
    as (c & Hfin & Hpend); [cbn; by rewrite Hp|by eapply at_frame_id|].
  cbn in E, Hfin. rewrite Hfin in E. injection E as <- <-. wpl_step. cbn [MC.ms_pool MC.ms_fin MC.ms_context pa_data captured_access].
  rewrite Hsame in *. split_and!; [done|done|done|done|rewrite Hs2, Hn1; done|..].
  - intros j. rewrite Hc2. case_decide; [done|by rewrite Hc1].
  - intros j. by rewrite Hp2, Hp1.
Qed.
Next Obligation.
  intros L w [Hok Hp] Hroom. cbn [pa_allocate captured_access]. unfold MC.on_pool. wpl_step. wpl_use store_allocate; [exact Hok|intros HL; specialize (Hroom HL); lia|].
  intros id x' (H1 & H2 & H3 & H4 & H5 & H7 & H6). cbn [MC.ms_pool MC.ms_fin MC.ms_context]. rewrite H1. split_and!; try done. lia.
Qed.
Next Obligation.
  intros L w [Hok Hp]. cbn [pa_flush captured_access]. unfold MC.on_pool. do 3 wpl_step. wpl_use store_flush; [exact Hok|].
  intros [] x' (H1 & H2 & H3 & H4). cbn [MC.ms_pool MC.ms_fin MC.ms_context]. rewrite H3. by split_and!.
Qed.
Next Obligation. intros L w [Hok _]. exact (store_valid _ _ _ Hok). Qed.

(** ** Under a transaction

    [Session provider] is the world of a transaction whose pool asks the log for its durable
    LSN or not.  No progress is promised here: a frame whose PageLSN the log has not made durable
    cannot be reused. *)

Definition Session (provider : bool) : Type := TX.World.

Section session.
Context (provider : bool).
Implicit Types w : TX.World.

#[global] Instance session_access : PageAccess (Session provider) := {
  pa_fetch id := let! wal := TX.durable provider in TX.on_pool (BP.fetch_page wal id);
  pa_data w i := page_data (BP.fr_page (BP.frame (TX.w_pool w) i));
  pa_write i f := TX.on_pool (BP.write_frame i (fun pg => set_data (f (page_data pg)) pg));
  pa_unpin id d := TX.on_pool (BP.unpin_page id d);
  pa_watch id := TX.watch provider id;
  pa_finish id i := TX.finish id i;
  pa_allocate := TX.allocate_page;
  pa_flush := let! wal := TX.durable provider in TX.on_pool (BP.flush_all_pages wal);
  pa_valid w := BP.validate_invariants (TX.w_pool w);
}.

Record session_ok w : Prop := {
  se_store : store_ok (TX.wal_of provider (TX.w_log w)) False (TX.w_pool w, TX.w_pages w);
  se_pending : BP.no_pending (TX.w_pool w);
  se_context : exists c, TX.mutation_context_ (TX.w_tx w) = Some c /\ MC.pending_ c = [];
  se_sink : TX.log_sink_ (TX.w_tx w) = true;
  se_lsn : is_u64 (LM.next_lsn_ (TX.w_log w));
}.

Lemma store_ok_wal wal wal' x : store_ok wal False x -> store_ok wal' False x.
Proof. by intros []; split. Qed.

Lemma session_pool w x :
  session_ok w -> store_ok (TX.wal_of provider (TX.w_log w)) False x -> BP.no_pending x.1 ->
  session_ok (TX.mkW (TX.w_tx w) x.1 x.2 (TX.w_log w)).
Proof. intros [] Hx Hn. destruct x. by split. Qed.

Lemma write_frame_pending i g x : BP.no_pending x.1 -> wp (BP.write_frame i g) x (fun _ x' => BP.no_pending x'.1).
Proof. intros Hx. unfold BP.write_frame, BP.on_pool. wp_step. by apply BP.no_pending_upd. Qed.

Lemma session_watch w id i :
  session_ok w -> is_u64 id -> is_valid id = true -> at_frame (TX.w_pool w, TX.w_pages w) id i ->
  wpl False (TX.watch provider id) w (fun _ w' => exists c pd prev,
    TX.w_tx w' = TX.upd_context c (TX.w_tx w) /\ TX.w_log w' = TX.w_log w /\ MC.pending_ c = [MC.mkPending id pd prev] /\
    store_ok (TX.wal_of provider (TX.w_log w)) False (TX.w_pool w', TX.w_pages w') /\ BP.no_pending (TX.w_pool w') /\
    at_frame (TX.w_pool w', TX.w_pages w') id i /\
    (forall j, content (TX.w_pool w', TX.w_pages w') j = content (TX.w_pool w, TX.w_pages w) j) /\
    PM.page_count_ (TX.w_pages w') = PM.page_count_ (TX.w_pages w) /\
    forall j, BP.pins (TX.w_pool w') j = BP.pins (TX.w_pool w) j).
Proof.
  intros [Hok Hnp (c & Hc & Hpd) Hs Hl] Hu Hv Hat.
  unfold TX.watch, TX.in_context, MC.watch, MC.durable, MC.on_pool, MC.on_context. wpl_step.
  unfold TX.context_state. rewrite Hc. cbn [default Datatypes.id]. wpl_step. rewrite Hv. cbn [negb]. wpl_step; [done|].
  do 4 wpl_step. cbn [MC.ms_pool MC.ms_fin snd]. eapply wpl_mono.
  { apply wpl_and; [by eapply (store_image _ _ _ id i)|by apply MC.image_pending]. }
  cbn beta. intros [d l] x1 [(Hok1 & Hc1 & Hn1 & Hat1 & Hp1 & _) Hnp1]. wpl_step.
  cbn [MC.ms_pool MC.ms_fin MC.ms_context fst snd TX.w_tx TX.w_log TX.w_pool TX.w_pages].
  eexists _, d, l. destruct x1. split_and!; try done. cbn. by rewrite Hpd.
Qed.

Lemma session_finish w c id i pd prev :
  TX.mutation_context_ (TX.w_tx w) = Some c -> MC.pending_ c = [MC.mkPending id pd prev] ->
  TX.log_sink_ (TX.w_tx w) = true -> is_u64 (LM.next_lsn_ (TX.w_log w)) ->
  store_ok (TX.wal_of provider (TX.w_log w)) False (TX.w_pool w, TX.w_pages w) -> BP.no_pending (TX.w_pool w) ->
  at_frame (TX.w_pool w, TX.w_pages w) id i ->
  wpl False (TX.finish id i) w (fun _ w' => session_ok w' /\ at_frame (TX.w_pool w', TX.w_pages w') id i /\
    TX.w_pages w' = TX.w_pages w /\ (forall j, BP.pins (TX.w_pool w') j = BP.pins (TX.w_pool w) j) /\
    forall j, content (TX.w_pool w', TX.w_pages w') j = content (TX.w_pool w, TX.w_pages w) j).
Proof.
  intros Hc Hpd Hs Hl Hok Hnp Hat. apply wpl_intro. intros r w' E.
  eapply wp_elim in E; [|eapply (TX.finish_spec id i w c pd prev); try done; exact (at_frame_id _ _ _ _ _ Hok Hat)].
  destruct E as [Hl' Hr]. destruct r as [[]|e]; [|by intros []]. destruct Hr as (c' & Hc' & [[_ ->]|(lsn & m & log' & Hlsn & _ & _ & _ & _ & _ & ->)]).
  - cbn [TX.w_pool TX.w_pages]. split_and!; [|done|done|done|done]. split; cbn; [done|done|by exists c'|done|done].
  - destruct (store_touch (TX.wal_of provider (TX.w_log w)) False (TX.w_pool w, TX.w_pages w) id i (set_lsn lsn))
      as (H1 & H2 & H3 & _ & H5); [done|done|by intros []|done|].
    cbn [TX.w_pool TX.w_pages fst snd] in *. split_and!; [|done|done|done|].
    + split; cbn; [by eapply store_ok_wal|by apply BP.no_pending_upd|by exists c'|done|done].
    + intros j. rewrite H5. case_decide; [|done]. subst. by rewrite (store_at_data _ _ _ Hat).
Qed.

(** What a logged allocation does to the pages. *)
Lemma allocate_pages tx st id :
  PM.pm_ok (sto_pages st) -> id = PM.page_count_ (sto_pages st) ->
  wp (allocate_transactional_page tx) st (fun r st' => forall id', r = Ok id' ->
    id' = id /\ PM.pm_ok (sto_pages st') /\ PM.page_count_ (sto_pages st') = id + 1 /\
    PM.stored_page (sto_pages st') id = Some (new_page id) /\
    (forall j, j <> id -> PM.stored_page (sto_pages st') j = PM.stored_page (sto_pages st) j) /\
    forall j, 0 <= j -> PM.is_page_allocated (sto_pages st') j =
      if decide (j = id) then true else PM.is_page_allocated (sto_pages st) j).
Proof.
  intros Hpm Hid. unfold allocate_transactional_page, on_pages, on_log. wp_step. wp_step. wp_use PM.reserve_page_spec; [done|].
  intros [id1|e] pm1 (Hok1 & Hb1 & _ & Hoth & Hr & _); [|done]. destruct Hr as (-> & Hcnt & Hlt & Hst & _). rewrite <- Hid in *.
  wp_step. wp_step. apply wp_intro. intros [lsn|e] l1 _; [|done]. wp_step. wp_step. apply wp_intro. intros [[]|e] l2 _; [|done].
  wp_step. wp_step. cbn [sto_pages sto_log]. wp_use PM.activate_spec; [done|destruct Hpm; lia|].
  intros [[]|e] pm2 (Hok2 & Hc2 & _ & Hst2 & Hr2 & _); [|done]. wp_step. cbn [sto_pages].
  destruct (Hr2 eq_refl) as (_ & _ & _ & Hal). intros id' [= <-]. split_and!.
  - done.
  - exact Hok2.
  - lia.
  - rewrite Hst2. exact Hst.
  - intros j Hj. rewrite Hst2. by apply Hoth.
  - intros j Hj. rewrite Hal by done. case_decide; [done|]. by apply PM.reserved_unallocated; rewrite <- ?Hid.
Qed.

Lemma session_allocate w :
  session_ok w ->
  wpl False TX.allocate_page w (fun id w' => session_ok w' /\ TX.w_pool w' = TX.w_pool w /\ is_u64 id /\ is_valid id = true /\
    content (TX.w_pool w, TX.w_pages w) id = None /\ PM.page_count_ (TX.w_pages w') = PM.page_count_ (TX.w_pages w) + 1 /\
    forall j, content (TX.w_pool w', TX.w_pages w') j =
      if decide (j = id) then Some (zeros kPagePayloadSize) else content (TX.w_pool w, TX.w_pages w) j).
Proof.
  intros [Hok Hnp Hc Hs Hl]. pose proof (BP.pi_store _ _ (so_inv _ _ _ Hok)) as Hpm. cbn [snd] in Hpm.
  apply wpl_intro. intros [id|e] w' E; [|by intros []].
  destruct (wp_elim _ _ _ _ _ (TX.tx_allocate_spec w Hpm Hl Hs) E) as (_ & Hl' & Hpl & Hu & Htx).
  assert (exists st', allocate_transactional_page (TX.id_ (TX.w_tx w)) (mkStorage (TX.w_pages w) (TX.w_log w)) = (Ok id, st') /\
    TX.w_pages w' = sto_pages st') as (st' & Est & Hpg).
  { unfold TX.allocate_page, TX.on_storage, TX.upd_tx, bind, get, zoom, modify, ret in E. rewrite Hs in E.
    destruct (allocate_transactional_page _ _) as [[id1|e1] st1]; [|discriminate E]. injection E as -> <-. by exists st1. }
  pose proof (wp_elim _ _ _ _ _ (allocate_pages (TX.id_ (TX.w_tx w)) (mkStorage (TX.w_pages w) (TX.w_log w)) _ Hpm eq_refl) Est) as Hst'.
  destruct (Hst' id eq_refl) as (-> & Hpm' & Hcnt & Hst & Hoth & Hal). cbn [sto_pages] in *.
  rewrite <- Hpg in *. set (id := PM.page_count_ (TX.w_pages w)) in *.
  destruct (store_grow (TX.wal_of provider (TX.w_log w)) False (TX.w_pool w, TX.w_pages w) (TX.w_pages w') id)
    as (H1 & H2 & H3); [done|exact Hpm'|done|exact Hcnt|exact Hst|exact Hoth|exact Hal|by intros []|]. cbn [fst] in *.
  split_and!; [|done|done| |done|done|by rewrite Hpl].
  - split; rewrite ?Hpl; [by eapply store_ok_wal|done|by rewrite Htx|by rewrite Htx|done].
  - apply PM.page_valid. destruct Hpm' as [Hx _ _ _ _ _ _]. rewrite Hcnt in Hx. unfold is_u64 in Hu. PM.clia.
Qed.

#[global] Program Instance session_laws : PageAccessLaws (Session provider) := {
  pa_ok L w := ~ L /\ session_ok w;
  pa_content w := content (TX.w_pool w, TX.w_pages w);
  pa_held w := BP.pins (TX.w_pool w);
  pa_at w := at_frame (TX.w_pool w, TX.w_pages w);
  pa_clean w id := BP.unpin_allowed (TX.w_pool w, TX.w_pages w) id false;
  pa_free w := PM.kCatalogBits - PM.page_count_ (TX.w_pages w);
}.
Next Obligation. intros L w id d [_ Hok] Hd. exact (store_payload _ _ _ _ _ (se_store _ Hok) Hd). Qed.
Next Obligation. intros L w id i _ Hat. exact (store_at_data _ _ _ Hat). Qed.
Next Obligation.
  intros L w id [HnL Hok] Hu _. apply (wpl_false L); [done|]. cbn [pa_fetch session_access]. unfold TX.durable, TX.on_pool.
  do 3 wpl_step. eapply wpl_mono.
  { apply wpl_and; [eapply store_fetch; [exact (se_store _ Hok)|done|by intros []]|apply BP.fetch_page_pending; exact (se_pending _ Hok)]. }
  cbn beta. intros o [s p] [(H1 & H2 & H3 & _ & H4) H5]. cbn [fst snd TX.w_pool TX.w_pages] in *.
  rewrite H3. split_and!; [done|by apply (session_pool w (s, p))|done|done|]. destruct o; [done|]. by destruct H4 as [? _].
Qed.
Next Obligation.
  intros L w id i d [HnL Hok] Hat Hd. apply (wpl_false L); [done|]. cbn [pa_unpin session_access]. unfold TX.on_pool. wpl_step.
  eapply wpl_mono.
  { apply wpl_and; [eapply store_unpin; [exact (se_store _ Hok)|exact Hat|exact Hd]|apply BP.unpin_page_pending; exact (se_pending _ Hok)]. }
  cbn beta. intros b [s p] [(-> & H1 & H2 & H3 & _ & H4) H5]. cbn [fst snd TX.w_pool TX.w_pages] in *.
  rewrite H3. split_and!; [done|done|by apply (session_pool w (s, p))|done|done|done].
Qed.
Next Obligation.
  intros A L w id i f [HnL Hok] Hu Hv Hat _ Hf. apply (wpl_false L); [done|]. unfold pa_update.
  cbn [pa_watch pa_write pa_finish pa_data session_access]. unfold TX.on_pool. wpl_step. wpl_use session_watch; [done|done|done|exact Hat|].
  intros [] w1 (c & pd & prev & Htx & Hlog & Hpd & Hok1 & Hnp1 & Hat1 & Hc1 & Hn1 & Hp1). do 4 wpl_step.
  assert (page_data (BP.fr_page (BP.frame (TX.w_pool w1) i)) = page_data (BP.fr_page (BP.frame (TX.w_pool w) i))) as Hsame.
  { pose proof (store_at_data _ _ _ Hat1) as E1. rewrite Hc1, (store_at_data _ _ _ Hat) in E1. by injection E1. }
  eapply wpl_mono.
  { apply wpl_and; [eapply (store_write _ _ _ id i (fun d => (f d).2)); [exact Hok1|exact Hat1|cbn [fst]; rewrite Hsame; exact Hf]|].
    apply write_frame_pending. exact Hnp1. }
  cbn beta. intros [] [s2 p2] [(Hok2 & Hat2 & Hs2 & Hp2 & Hf2 & Hc2) Hnp2]. cbn [fst snd] in *. subst p2.
  wpl_step. wpl_use session_finish; [by rewrite Htx|exact Hpd|rewrite Htx; apply Hok|rewrite Hlog; apply Hok|by rewrite Hlog|done|done|].
  cbn [TX.w_pool TX.w_pages]. intros [] w3 (Hok3 & Hat3 & Hpg3 & Hp3 & Hc3). wpl_step.
  rewrite Hsame in *. split_and!; [done|done|done|done|by rewrite Hpg3, Hn1|..].
  - intros j. rewrite Hc3, Hc2. case_decide; [done|by rewrite Hc1].
  - intros j. by rewrite Hp3, Hp2, Hp1.
Qed.
Next Obligation.
  intros L w [HnL Hok] _. apply (wpl_false L); [done|]. wpl_use session_allocate; [done|].
  intros id w' (H1 & H2 & H3 & H4 & H5 & H7 & H6). split_and!; try done; [lia|]. intros j. by rewrite H2.
Qed.
Next Obligation.
  intros L w [HnL Hok]. apply (wpl_false L); [done|]. cbn [pa_flush session_access]. unfold TX.durable, TX.on_pool. do 3 wpl_step.
  eapply wpl_mono.
  { apply wpl_and; [eapply store_flush; exact (se_store _ Hok)|apply BP.flush_all_pages_pending; exact (se_pending _ Hok)]. }
  cbn beta. intros [] [s p] [(H1 & H2 & H3 & H4) H5]. cbn [fst snd TX.w_pool TX.w_pages] in *.
  rewrite H3. split_and!; [done|by apply (session_pool w (s, p))|done|done|done].
Qed.
Next Obligation. intros L w [_ Hok]. exact (store_valid _ _ _ (se_store _ Hok)). Qed.

End session.

End AC.
