(* ===== verification/SlottedPage.v ===== *)
(** * The pages of a table heap

    Models what [src/src/execution/table_heap.cpp] does inside one page: the metadata page
    ([DDBTH4], first and last data page) and the slotted data page ([DDBDP4], next page, number of
    slots, end of the slot array, start of the records; slots of six bytes growing up, records
    growing down). *)

From S2P Require Import Prelude Bytes Page Payload Tuple.

Module SP.

Definition kHeader : Z := 24.
Definition kSlot : Z := 6.
(** "DDBTH4" and "DDBDP4" *)
Definition kMetaMagic : bytes := [68; 68; 66; 84; 72; 52].
Definition kDataMagic : bytes := [68; 68; 66; 68; 80; 52].

Definition magic (d m : bytes) : bool := bool_decide (slice d 0 6 = m).

(** ** Metadata page *)

(** What [create] writes. *)
Definition meta_init : bytes :=
  let d := zeros kPagePayloadSize in
  let d := blit d 0 kMetaMagic in
  let d := put64 d 8 kInvalidValue in
  put64 d 16 kInvalidValue.

Definition meta_set (first last : PageId) (d : bytes) : bytes := put64 (put64 d 8 first) 16 last.

(** ** Data page *)

Definition data_init : bytes :=
  let d := zeros kPagePayloadSize in
  let d := blit d 0 kDataMagic in
  let d := put64 d 8 kInvalidValue in
  let d := put16 d 16 0 in
  let d := put16 d 18 kHeader in
  put16 d 20 kPagePayloadSize.

Definition next_of (d : bytes) : PageId := get64 d 8.
Definition set_next (id : PageId) (d : bytes) : bytes := put64 d 8 id.
Definition slots (d : bytes) : Z := get16 d 16.
Definition start_of (d : bytes) : Z := get16 d 18.
Definition end_of (d : bytes) : Z := get16 d 20.

(** [kHeader + i * kSlot] *)
Definition slot_pos (i : Z) : Z := kHeader + i * kSlot.
Definition offset_of (d : bytes) (i : Z) : Z := get16 d (slot_pos i).
Definition length_of (d : bytes) (i : Z) : Z := get16 d (slot_pos i + 2).
Definition live (d : bytes) (i : Z) : bool := negb (get16 d (slot_pos i + 4) =? 0).

(** [get16(20) - get16(18) < bytes.size() + kSlot]: the difference is an [int] that the comparison
    converts to an unsigned 64-bit value. *)
Definition full (d : bytes) (size : Z) : bool := to_u64 (end_of d - start_of d) <? size + kSlot.

(** The end of [insert_impl]: the record, its slot and the three header fields.  Returns the slot
    number. *)
Definition put_record (bs : bytes) (d : bytes) : Z * bytes :=
  let slots := slots d in
  let start := start_of d in
  let end_ := to_u16 (end_of d - zlen bs) in
  let d := blit d end_ bs in
  let sp := slot_pos slots in
  let d := put16 d sp end_ in
  let d := put16 d (sp + 2) (to_u16 (zlen bs)) in
  let d := put16 d (sp + 4) 1 in
  let d := put16 d 16 (to_u16 (slots + 1)) in
  let d := put16 d 18 (to_u16 (start + kSlot)) in
  let d := put16 d 20 end_ in
  (slots, d).

(** [put16(p->data(), sp + 4, 0)] *)
Definition kill (i : Z) (d : bytes) : bytes := put16 d (slot_pos i + 4) 0.

(** [deserialize(p->data() + o, l)] for slot [i]. *)
Definition read_record (s : TU.Schema) (d : bytes) (i : Z) : option TU.Tuple :=
  TU.deserialize s (drop (Z.to_nat (offset_of d i)) d) (length_of d i).

(** What [get] finds in slot [i] of a page that it has pinned. *)
Definition lookup (s : TU.Schema) (d : bytes) (i : Z) : option TU.Tuple :=
  if negb (magic d kDataMagic) || (slots d <=? i) then None
  else if negb (live d i) || (kPagePayloadSize <? offset_of d i + length_of d i) then None
  else read_record s d i.

(** The test of one page in [validate_invariants]. *)
Definition slot_valid (s : TU.Schema) (d : bytes) (i : Z) : bool :=
  negb (live d i) ||
  ((end_of d <=? offset_of d i) && (offset_of d i + length_of d i <=? kPagePayloadSize) &&
   bool_decide (is_Some (read_record s d i))).
Definition page_valid (s : TU.Schema) (d : bytes) : bool :=
  (start_of d =? kHeader + slots d * kSlot) && (end_of d <=? kPagePayloadSize) && (start_of d <=? end_of d) &&
  forallb (slot_valid s d) (seqZ 0 (slots d)).

(** ** Well-formed data pages *)

Record slot_ok (s : TU.Schema) (d : bytes) (i : Z) : Prop := {
  so_offset : end_of d <= offset_of d i;
  so_length : offset_of d i + length_of d i <= kPagePayloadSize;
  so_record : live d i = true -> is_Some (read_record s d i);
}.

Record page_ok (s : TU.Schema) (d : bytes) : Prop := {
  po_payload : payload d;
  po_magic : slice d 0 6 = kDataMagic;
  po_start : start_of d = slot_pos (slots d);
  po_end : start_of d <= end_of d <= kPagePayloadSize;
  po_slots : forall i, 0 <= i < slots d -> slot_ok s d i;
}.

(** ** Records depend on their own bytes only *)

Lemma deserialize_value_ext ty d d' n p :
  0 <= p -> n <= zlen d -> n <= zlen d' -> Forall is_byte d -> slice d 0 n = slice d' 0 n ->
  TU.deserialize_value ty d n p = TU.deserialize_value ty d' n p /\
  forall v q, TU.deserialize_value ty d n p = Some (v, q) -> p <= q.
Proof.
  intros Hp Hn Hn' Hb He.
  assert (forall q m, 0 <= q -> 0 <= m -> q + m <= n -> slice d q m = slice d' q m) as Hs.
  { intros q m Hq Hm Hqm. change q with (0 + q). rewrite <- (slice_slice d 0 n), <- (slice_slice d' 0 n), He by lia. done. }
  assert (forall k q, 0 <= q -> q + Z.of_nat k <= n -> le_value k d q = le_value k d' q) as Hv.
  { intros k q Hq Hk. apply le_value_slice_eq; [lia..|]. apply Hs; lia. }
  assert (forall k q, 0 <= q -> q + Z.of_nat k <= n -> 0 <= le_value k d q) as Hpos.
  { intros k q Hq Hk. apply (le_value_range k d q); [done|lia|lia]. }
  destruct ty; cbn [TU.deserialize_value].
  - destruct (Z.ltb_spec n (p + 8)); [done|]. unfold get64. rewrite Hv by lia. split; [done|]. intros v q [= _ <-]. lia.
  - destruct (Z.ltb_spec n (p + 8)); [done|]. unfold get64. rewrite Hv by lia. split; [done|]. intros v q [= _ <-]. lia.
  - destruct (Z.ltb_spec n (p + 1)); [done|].
    assert (byte_at d p = byte_at d' p) as ->; [|split; [done|]; intros v q [= _ <-]; lia].
    unfold byte_at. f_equal. pose proof (slice_lookup d p 1 0) as E1. pose proof (slice_lookup d' p 1 0) as E2.
    rewrite Nat.add_0_r in E1, E2. rewrite <- E1, <- E2 by lia. by rewrite Hs by lia.
  - destruct (Z.ltb_spec n (p + 4)); [done|]. unfold get32. pose proof (Hpos 4%nat p). rewrite <- Hv by lia.
    destruct (Z.ltb_spec n (p + 4 + le_value 4 d p)); [done|]. rewrite Hs by lia. split; [done|]. intros v q [= _ <-]. lia.
Qed.

Lemma deserialize_from_ext s d d' n p t :
  0 <= p -> n <= zlen d -> n <= zlen d' -> Forall is_byte d -> slice d 0 n = slice d' 0 n ->
  TU.deserialize_from s d n p t = TU.deserialize_from s d' n p t.
Proof.
  intros Hp Hn Hn' Hb He. revert p t Hp. induction s as [|c s IH]; intros p t Hp; [done|]. cbn [TU.deserialize_from].
  destruct (deserialize_value_ext (TU.col_type c) d d' n p) as [<- Hq]; [done..|].
  destruct (TU.deserialize_value _ _ _ _) as [[v q]|] eqn:E; [|done]. apply IH. specialize (Hq v q eq_refl). lia.
Qed.

(** A record stays what it is when its bytes stay what they are. *)
Lemma record_ext s d d' (o l : Z) :
  0 <= o -> 0 <= l -> o + l <= zlen d -> o + l <= zlen d' -> Forall is_byte d -> slice d o l = slice d' o l ->
  TU.deserialize s (drop (Z.to_nat o) d) l = TU.deserialize s (drop (Z.to_nat o) d') l.
Proof.
  intros Ho Hl Hd Hd' Hb He. apply deserialize_from_ext; [done|len|len|by apply Forall_drop|].
  rewrite !slice_drop by lia. by rewrite Z.add_0_r.
Qed.
(** Closes the bounds of fields. *)
Ltac slia := unfold slot_pos, kHeader, kSlot in *; plia.

(** Fields that a change has not touched. *)
Ltac untouched H :=
  unfold slots, start_of, end_of, next_of, offset_of, length_of, live, get16, get64 in *;
  rewrite (changed_get _ _ _ _ _ _ H) by slia.

(** ** A slot that keeps its bytes keeps its record *)

Lemma read_record_ext s d d' i :
  payload d -> payload d' -> offset_of d' i = offset_of d i -> length_of d' i = length_of d i ->
  0 <= offset_of d i -> 0 <= length_of d i -> offset_of d i + length_of d i <= kPagePayloadSize ->
  slice d' (offset_of d i) (length_of d i) = slice d (offset_of d i) (length_of d i) ->
  read_record s d' i = read_record s d i.
Proof.
  intros [Hl Hb] [Hl' Hb'] Ho Hn Ho1 Hn1 Hon Hs. unfold read_record. rewrite Ho, Hn.
  apply record_ext; [done|done|lia|lia|done|done].
Qed.

Lemma slots_bound s d : page_ok s d -> 0 <= slots d /\ kHeader + slots d * kSlot <= end_of d <= kPagePayloadSize.
Proof.
  intros [Hp _ Hs He _]. assert (0 <= slots d < 2 ^ 16) by (apply get16_range; [done|lia|plia]).
  rewrite Hs in He. slia.
Qed.

Lemma slot_range s d i :
  page_ok s d -> 0 <= i < slots d -> 0 <= offset_of d i /\ 0 <= length_of d i.
Proof.
  intros Hok Hi. pose proof (slots_bound s d Hok) as [_ Hb]. pose proof (po_payload _ _ Hok) as Hp.
  split; apply get16_range; done || slia.
Qed.

(** ** Initial pages *)

Lemma data_init_ok s : page_ok s data_init /\ slots data_init = 0 /\ next_of data_init = kInvalidValue.
Proof.
  unfold data_init. pose proof zeros_payload as Hz. assert (zlen (zeros kPagePayloadSize) = kPagePayloadSize) as Hl by apply Hz.
  pose proof (changed_blit (zeros kPagePayloadSize) 0 kDataMagic) as C0.
  set (d0 := blit (zeros kPagePayloadSize) 0 kDataMagic) in *.
  assert (slice d0 0 6 = kDataMagic) as M0 by (apply slice_blit_same; [rewrite Hl; plia|done]).
  specialize (C0 ltac:(lia) ltac:(rewrite Hl; cbn; plia) ltac:(repeat constructor; unfold is_byte; lia)).
  change (zlen kDataMagic) with 6 in C0. assert (zlen d0 = kPagePayloadSize) as L0 by (rewrite (ch_len _ _ _ _ C0); done).
  destruct (changed_put64 d0 8 kInvalidValue) as [C1 G1]; [lia|rewrite L0; plia|unfold is_u64, kInvalidValue; lia|]. set (d1 := put64 d0 8 kInvalidValue) in *.
  assert (zlen d1 = kPagePayloadSize) as L1 by (rewrite (ch_len _ _ _ _ C1); done).
  destruct (changed_put16 d1 16 0) as [C2 G2]; [lia|rewrite L1; plia|lia|]. set (d2 := put16 d1 16 0) in *.
  assert (zlen d2 = kPagePayloadSize) as L2 by (rewrite (ch_len _ _ _ _ C2); done).
  destruct (changed_put16 d2 18 kHeader) as [C3 G3]; [lia|rewrite L2; plia|unfold kHeader; lia|]. set (d3 := put16 d2 18 kHeader) in *.
  assert (zlen d3 = kPagePayloadSize) as L3 by (rewrite (ch_len _ _ _ _ C3); done).
  destruct (changed_put16 d3 20 kPagePayloadSize) as [C4 G4]; [lia|rewrite L3; plia|plia|]. set (d4 := put16 d3 20 kPagePayloadSize) in *.
  assert (slots d4 = 0) as Hs by (do 2 (untouched C4 || untouched C3); exact G2).
  assert (start_of d4 = kHeader) as Hst by (untouched C4; exact G3).
  assert (end_of d4 = kPagePayloadSize) as He by exact G4.
  split_and!; [|done|].
  - split.
    + apply (changed_payload _ _ _ _ C4), (changed_payload _ _ _ _ C3), (changed_payload _ _ _ _ C2), (changed_payload _ _ _ _ C1), (changed_payload _ _ _ _ C0), Hz.
    + rewrite (ch_slice _ _ _ _ C4), (ch_slice _ _ _ _ C3), (ch_slice _ _ _ _ C2), (ch_slice _ _ _ _ C1) by plia. exact M0.
    + rewrite Hs, Hst. done.
    + rewrite Hst, He. slia.
    + rewrite Hs. lia.
  - untouched C4. untouched C3. untouched C2. exact G1.
Qed.
(** ** Storing a record *)

(** Storing writes the record, its slot and the last six bytes of the header. *)
Lemma put_record_fields s d bs :
  page_ok s d -> full d (zlen bs) = false -> Forall is_byte bs ->
  let d' := (put_record bs d).2 in let n := slots d in let e := end_of d - zlen bs in
  (put_record bs d).1 = n /\ payload d' /\ slots d' = n + 1 /\ start_of d' = slot_pos (n + 1) /\ end_of d' = e /\
  slot_pos (n + 1) <= e /\
  offset_of d' n = e /\ length_of d' n = zlen bs /\ live d' n = true /\ slice d' e (zlen bs) = bs /\
  forall q m, 0 <= q -> 0 <= m -> q + m <= 16 \/ 22 <= q /\ q + m <= slot_pos n \/ end_of d <= q /\ q + m <= kPagePayloadSize ->
    slice d' q m = slice d q m.
Proof.
  intros Hok Hfull Hbs. destruct (slots_bound s d Hok) as [Hs0 Hse]. pose proof Hok as [Hp _ Hst _ _].
  assert (end_of d - start_of d >= zlen bs + kSlot) as Hfit.
  { unfold full in Hfull. apply Z.ltb_ge in Hfull. unfold to_u64 in Hfull. rewrite Z.mod_small in Hfull; rewrite Hst in *; slia. }
  assert (zlen d = kPagePayloadSize) as Hl by apply Hp. unfold put_record. cbv zeta. cbn [fst snd].
  set (n := slots d) in *. set (e := end_of d - zlen bs) in *. rewrite Hst in Hfit.
  assert (to_u16 e = e) as -> by (unfold to_u16; rewrite Z.mod_small; slia).
  assert (to_u16 (zlen bs) = zlen bs) as -> by (unfold to_u16; rewrite Z.mod_small; slia).
  assert (to_u16 (n + 1) = n + 1) as -> by (unfold to_u16; rewrite Z.mod_small; slia).
  assert (to_u16 (start_of d + kSlot) = slot_pos (n + 1)) as -> by (rewrite Hst; unfold to_u16; rewrite Z.mod_small; slia).
  assert (0 <= e) as He0 by slia.
  pose proof (changed_blit d e bs He0 ltac:(slia) Hbs) as C0. assert (slice (blit d e bs) e (zlen bs) = bs) as M0 by (apply slice_blit_same; slia).
  set (d0 := blit d e bs) in *. pose proof (ch_len _ _ _ _ C0) as L0.
  destruct (changed_put16 d0 (slot_pos n) e) as [C1 G1]; [slia..|]. set (d1 := put16 d0 (slot_pos n) e) in *. pose proof (ch_len _ _ _ _ C1) as L1.
  destruct (changed_put16 d1 (slot_pos n + 2) (zlen bs)) as [C2 G2]; [slia..|]. set (d2 := put16 d1 _ _) in *. pose proof (ch_len _ _ _ _ C2) as L2.
  destruct (changed_put16 d2 (slot_pos n + 4) 1) as [C3 G3]; [slia..|]. set (d3 := put16 d2 _ _) in *. pose proof (ch_len _ _ _ _ C3) as L3.
  destruct (changed_put16 d3 16 (n + 1)) as [C4 G4]; [slia..|]. set (d4 := put16 d3 _ _) in *. pose proof (ch_len _ _ _ _ C4) as L4.
  destruct (changed_put16 d4 18 (slot_pos (n + 1))) as [C5 G5]; [slia..|]. set (d5 := put16 d4 _ _) in *. pose proof (ch_len _ _ _ _ C5) as L5.
  destruct (changed_put16 d5 20 e) as [C6 G6]; [slia..|]. set (d6 := put16 d5 _ _) in *.
  split_and!; [done|..].
  - apply (changed_payload _ _ _ _ C6), (changed_payload _ _ _ _ C5), (changed_payload _ _ _ _ C4), (changed_payload _ _ _ _ C3),
      (changed_payload _ _ _ _ C2), (changed_payload _ _ _ _ C1), (changed_payload _ _ _ _ C0), Hp.
  - untouched C6. untouched C5. exact G4.
  - untouched C6. exact G5.
  - exact G6.
  - slia.
  - untouched C6. untouched C5. untouched C4. untouched C3. untouched C2. exact G1.
  - untouched C6. untouched C5. untouched C4. untouched C3. exact G2.
  - untouched C6. untouched C5. untouched C4. unfold get16 in G3. by rewrite G3.
  - rewrite (ch_slice _ _ _ _ C6), (ch_slice _ _ _ _ C5), (ch_slice _ _ _ _ C4), (ch_slice _ _ _ _ C3), (ch_slice _ _ _ _ C2),
      (ch_slice _ _ _ _ C1) by slia. exact M0.
  - intros q m Hq Hm Ho.
    rewrite (ch_slice _ _ _ _ C6), (ch_slice _ _ _ _ C5), (ch_slice _ _ _ _ C4), (ch_slice _ _ _ _ C3), (ch_slice _ _ _ _ C2),
      (ch_slice _ _ _ _ C1), (ch_slice _ _ _ _ C0) by slia. done.
Qed.

(** The slots below [n] and their records are the same in both pages. *)
Lemma kept_slot s d d' i :
  page_ok s d -> payload d' -> 0 <= i < slots d -> end_of d' <= end_of d ->
  (forall q m, 0 <= q -> 0 <= m -> slot_pos i <= q /\ q + m <= slot_pos i + 6 \/ end_of d <= q /\ q + m <= kPagePayloadSize ->
     slice d' q m = slice d q m) ->
  slot_ok s d' i /\ live d' i = live d i /\ read_record s d' i = read_record s d i /\
  offset_of d' i = offset_of d i /\ length_of d' i = length_of d i.
Proof.
  intros Hok Hp' Hi He Hs. destruct (slots_bound s d Hok) as [Hs0 Hse]. pose proof (po_payload _ _ Hok) as Hp.
  destruct (po_slots _ _ Hok i Hi) as [Ho Hlen Hrec]. destruct (slot_range s d i Hok Hi) as [Ho0 Hl0].
  assert (zlen d = kPagePayloadSize /\ zlen d' = kPagePayloadSize) as [Hl Hl'] by (split; [apply Hp|apply Hp']).
  assert (forall q, slot_pos i <= q -> q + 2 <= slot_pos i + 6 -> get16 d' q = get16 d q) as Hg.
  { intros q Hq1 Hq2. apply le_value_slice_eq; [slia..|]. apply Hs; slia. }
  assert (offset_of d' i = offset_of d i) as E1 by (apply Hg; lia).
  assert (length_of d' i = length_of d i) as E2 by (apply Hg; lia).
  assert (live d' i = live d i) as E3 by (unfold live; rewrite Hg by lia; done).
  assert (read_record s d' i = read_record s d i) as E4.
  { apply read_record_ext; try done. apply Hs; lia. }
  split_and!; try done. split; rewrite ?E1, ?E2, ?E3, ?E4; [lia|lia|done].
Qed.

Lemma lookup_ok s d i :
  page_ok s d -> 0 <= i -> lookup s d i = if (i <? slots d) && live d i then read_record s d i else None.
Proof.
  intros Hok Hi. unfold lookup, magic. rewrite bool_decide_true by apply Hok. cbn [negb orb].
  destruct (Z.leb_spec (slots d) i); [by replace (i <? slots d) with false by lia|]. replace (i <? slots d) with true by lia.
  cbn [andb]. destruct (live d i) eqn:El; cbn [negb orb]; [|done].
  destruct (po_slots _ _ Hok i) as [_ Hl _]; [lia|]. by replace (kPagePayloadSize <? _) with false by lia.
Qed.

Lemma put_record_spec s d t bs :
  page_ok s d -> full d (zlen bs) = false -> Forall is_byte bs -> TU.deserialize s bs (zlen bs) = Some t ->
  let d' := (put_record bs d).2 in
  (put_record bs d).1 = slots d /\ page_ok s d' /\ next_of d' = next_of d /\ slots d' = slots d + 1 /\
  lookup s d' (slots d) = Some t /\ forall i, 0 <= i -> i <> slots d -> lookup s d' i = lookup s d i.
Proof.
  intros Hok Hfull Hbs Hdes d'.
  destruct (put_record_fields s d bs Hok Hfull Hbs) as (H1 & H2 & H3 & H4 & H5 & H6 & H7 & H8 & H9 & H10 & H11). fold d' in H2, H3, H4, H5, H7, H8, H9, H10, H11.
  destruct (slots_bound s d Hok) as [Hs0 Hse]. set (n := slots d) in *.
  assert (zlen d' = kPagePayloadSize) as Hl' by apply H2.
  assert (zlen d = kPagePayloadSize) as Hl by apply Hok.
  assert (read_record s d' n = Some t) as Hnew.
  { unfold read_record. rewrite H7, H8, <- Hdes. apply deserialize_from_ext; [done|len; slia|done|by apply Forall_drop, H2|].
    rewrite slice_drop by slia. rewrite Z.add_0_r, H10. symmetry. apply slice_full. lia. }
  assert (forall i, 0 <= i < n -> slot_ok s d' i /\ live d' i = live d i /\ read_record s d' i = read_record s d i) as Hold.
  { intros i Hi. destruct (kept_slot s d d' i) as (K1 & K2 & K3 & _); try done; [lia|]. intros q m Hq Hm Hqm. apply H11; [done|done|]. slia. }
  assert (page_ok s d') as Hok'.
  { split; [done| |by rewrite H4, H3|rewrite H4, H5; slia|].
    - rewrite H11 by slia. apply Hok.
    - intros i Hi. rewrite H3 in Hi. destruct (decide (i = n)) as [->|Hne]; [|by apply Hold; lia].
      split; rewrite ?H5, ?H7, ?H8, ?Hnew; [lia|slia|done]. }
  split_and!; [done|done| |done| |].
  - apply le_value_slice_eq; [slia..|]. apply H11; slia.
  - rewrite lookup_ok by done. rewrite H3, H9. replace (n <? n + 1) with true by lia. done.
  - intros i Hi Hne. rewrite !lookup_ok by done. rewrite H3. fold n. destruct (Z.ltb_spec i n).
    + destruct (Hold i) as (_ & -> & ->); [lia|]. by replace (i <? n + 1) with true by lia.
    + by replace (i <? n + 1) with false by lia.
Qed.
(** ** Erasing a record *)

Lemma kill_spec s d i :
  page_ok s d -> 0 <= i < slots d ->
  page_ok s (kill i d) /\ next_of (kill i d) = next_of d /\ slots (kill i d) = slots d /\
  lookup s (kill i d) i = None /\ forall j, 0 <= j -> j <> i -> lookup s (kill i d) j = lookup s d j.
Proof.
  intros Hok Hi. destruct (slots_bound s d Hok) as [Hs0 Hse]. pose proof Hok as [Hp Hm Hst Hen Hsl].
  assert (zlen d = kPagePayloadSize) as Hl by apply Hp. unfold kill.
  destruct (changed_put16 d (slot_pos i + 4) 0) as [C G]; [slia..|]. set (d' := put16 d (slot_pos i + 4) 0) in *.
  pose proof (changed_payload _ _ _ _ C Hp) as Hp'.
  assert (slots d' = slots d) as E1 by (by untouched C). assert (start_of d' = start_of d) as E2 by (by untouched C).
  assert (end_of d' = end_of d) as E3 by (by untouched C). assert (next_of d' = next_of d) as E4 by (by untouched C).
  assert (live d' i = false) as Hdead by (unfold live; by rewrite G).
  assert (forall j, 0 <= j < slots d -> j <> i -> slot_ok s d' j /\ live d' j = live d j /\ read_record s d' j = read_record s d j) as Hoth.
  { intros j Hj Hne. destruct (kept_slot s d d' j) as (K1 & K2 & K3 & _); try done; [lia|]. intros q m Hq Hm' Hqm.
    assert (j < i \/ i < j) by lia. apply (ch_slice _ _ _ _ C); slia. }
  assert (slot_ok s d' i) as Hself.
  { destruct (Hsl i Hi) as [Ho Hlen _]. assert (offset_of d' i = offset_of d i) as F1 by (by untouched C).
    assert (length_of d' i = length_of d i) as F2 by (by untouched C).
    split; rewrite ?F1, ?F2, ?E3; [done|done|by rewrite Hdead]. }
  assert (page_ok s d') as Hok'.
  { split; [done| |by rewrite E2, E1|by rewrite E2, E3|].
    - rewrite (ch_slice _ _ _ _ C) by slia. done.
    - rewrite E1. intros j Hj. destruct (decide (j = i)) as [->|Hne]; [done|]. by apply Hoth. }
  split_and!; [done|done|done| |].
  - rewrite lookup_ok by (done || lia). rewrite Hdead. by rewrite andb_false_r.
  - intros j Hj Hne. rewrite !lookup_ok by done. rewrite E1. destruct (Z.ltb_spec j (slots d)); [|done].
    by destruct (Hoth j) as (_ & -> & ->).
Qed.

(** ** Linking pages *)

Lemma set_next_spec s d id :
  page_ok s d -> is_u64 id ->
  page_ok s (set_next id d) /\ next_of (set_next id d) = id /\ slots (set_next id d) = slots d /\
  forall j, 0 <= j -> lookup s (set_next id d) j = lookup s d j.
Proof.
  intros Hok Hid. destruct (slots_bound s d Hok) as [Hs0 Hse]. pose proof Hok as [Hp Hm Hst Hen Hsl].
  assert (zlen d = kPagePayloadSize) as Hl by apply Hp. unfold set_next.
  destruct (changed_put64 d 8 id) as [C G]; [lia|plia|done|]. set (d' := put64 d 8 id) in *.
  pose proof (changed_payload _ _ _ _ C Hp) as Hp'.
  assert (slots d' = slots d) as E1 by (by untouched C). assert (start_of d' = start_of d) as E2 by (by untouched C).
  assert (end_of d' = end_of d) as E3 by (by untouched C).
  assert (forall j, 0 <= j < slots d -> slot_ok s d' j /\ live d' j = live d j /\ read_record s d' j = read_record s d j) as Hoth.
  { intros j Hj. destruct (kept_slot s d d' j) as (K1 & K2 & K3 & _); try done; [lia|]. intros q m Hq Hm' Hqm.
    apply (ch_slice _ _ _ _ C); slia. }
  assert (page_ok s d') as Hok'.
  { split; [done| |by rewrite E2, E1|by rewrite E2, E3|rewrite E1; intros j Hj; by apply Hoth].
    rewrite (ch_slice _ _ _ _ C) by slia. done. }
  split_and!; [done|exact G|done|]. intros j Hj. rewrite !lookup_ok by done. rewrite E1.
  destruct (Z.ltb_spec j (slots d)); [|done]. by destruct (Hoth j) as (_ & -> & ->).
Qed.

(** Well-formed pages pass the test of [validate_invariants]. *)
Lemma page_ok_valid s d : page_ok s d -> page_valid s d = true.
Proof.
  intros Hok. pose proof Hok as [_ _ Hst [H1 H2] Hsl]. unfold page_valid. rewrite !andb_true_iff, forallb_forall.
  split_and!; [unfold slot_pos in Hst; lia|lia|lia|]. intros i Hi%list_elem_of_In%elem_of_seqZ. destruct (Hsl i) as [Ho Hl Hr]; [lia|].
  unfold slot_valid. destruct (live d i); [|done]. cbn [negb orb]. rewrite !andb_true_iff. split_and!; [lia|lia|].
  apply bool_decide_true. auto.
Qed.

(** ** The metadata page *)

Record meta_ok (d : bytes) (first last : PageId) : Prop := {
  mt_payload : payload d;
  mt_magic : slice d 0 6 = kMetaMagic;
  mt_first : get64 d 8 = first;
  mt_last : get64 d 16 = last;
}.

Lemma meta_set_payload f l d : is_u64 f -> is_u64 l -> payload d -> payload (meta_set f l d).
Proof.
  intros Hf Hl Hp. assert (zlen d = kPagePayloadSize) as Hz by apply Hp. unfold meta_set.
  destruct (changed_put64 d 8 f) as [C1 _]; [lia|plia|done|]. pose proof (ch_len _ _ _ _ C1) as L1.
  destruct (changed_put64 (put64 d 8 f) 16 l) as [C2 _]; [lia|plia|done|].
  apply (changed_payload _ _ _ _ C2), (changed_payload _ _ _ _ C1), Hp.
Qed.

Lemma set_next_payload id d : is_u64 id -> payload d -> payload (set_next id d).
Proof.
  intros Hu Hp. assert (zlen d = kPagePayloadSize) as Hz by apply Hp.
  destruct (changed_put64 d 8 id) as [C _]; [lia|plia|done|]. by apply (changed_payload _ _ _ _ C).
Qed.

Lemma meta_set_ok d f l f' l' : meta_ok d f l -> is_u64 f' -> is_u64 l' -> meta_ok (meta_set f' l' d) f' l'.
Proof.
  intros [Hp Hm _ _] Hf Hl. assert (zlen d = kPagePayloadSize) as Hz by apply Hp. unfold meta_set.
  destruct (changed_put64 d 8 f') as [C1 G1]; [lia|plia|done|]. set (d1 := put64 d 8 f') in *. pose proof (ch_len _ _ _ _ C1) as L1.
  destruct (changed_put64 d1 16 l') as [C2 G2]; [lia|plia|done|]. set (d2 := put64 d1 16 l') in *. split.
  - apply (changed_payload _ _ _ _ C2), (changed_payload _ _ _ _ C1), Hp.
  - rewrite (ch_slice _ _ _ _ C2), (ch_slice _ _ _ _ C1) by plia. done.
  - unfold get64 in *. rewrite (changed_get _ _ _ _ _ _ C2) by plia. done.
  - done.
Qed.

Lemma meta_init_ok : meta_ok meta_init kInvalidValue kInvalidValue.
Proof.
  assert (is_u64 kInvalidValue) as Hi by (unfold is_u64, kInvalidValue; lia).
  change meta_init with (meta_set kInvalidValue kInvalidValue (blit (zeros kPagePayloadSize) 0 kMetaMagic)).
  pose proof zeros_payload as Hz. assert (zlen (zeros kPagePayloadSize) = kPagePayloadSize) as Hl by apply Hz.
  pose proof (changed_blit (zeros kPagePayloadSize) 0 kMetaMagic ltac:(lia) ltac:(rewrite Hl; cbn; plia)
    ltac:(repeat constructor; unfold is_byte; lia)) as C0.
  eapply meta_set_ok; [|done|done]. split; [by apply (changed_payload _ _ _ _ C0)| |done|done].
  apply slice_blit_same; [rewrite Hl; plia|done].
Qed.

End SP.
