(* ===== verification/TableHeap.v ===== *)
(** * The table heap

    Models [src/src/execution/table_heap.cpp] and its header, over the interface [PageAccess]: the
    instance says whether the heap runs bare, with a mutation context of the caller or under a
    transaction, which the source keeps in [active_mutations_] and [active_transaction_] and a
    [Scope] object resets at the end of every call.  A heap is a list of data pages linked through
    their headers; a tuple is addressed by its page and its slot. *)

From S2P Require Import Prelude Bytes Page Stream PageStore PageManager Wal LogManager BufferPool LockManager Mutation Transaction Payload Access Tuple SlottedPage.

Module TH.
Import OB.

(** The members of the object that are not references. *)
Record Heap : Type := mkHeap { meta_ : PageId; schema_ : TU.Schema; first_ : PageId; last_ : PageId }.
Definition set_first (v : PageId) (h : Heap) : Heap := mkHeap (meta_ h) (schema_ h) v (last_ h).
Definition set_last (v : PageId) (h : Heap) : Heap := mkHeap (meta_ h) (schema_ h) (first_ h) v.

Section heap.
Context {W : Type} `{PageAccess W}.
Abbreviation st := (Heap * W)%type.

(** ** Creating and opening *)

(** The two [create]: [context] obtains the mutation context of the transaction, if there is one. *)
Definition create (context : M W unit) (s : TU.Schema) : M W PageId :=
  throw_if (bool_decide (s = [])) (InvalidArgument "table schema must contain at least one column") ;;
  let! id := pa_allocate in
  let! p := pa_fetch id in
  match p with
  | None => throw (RuntimeError "cannot pin table metadata")
  | Some i =>
      context ;;
      pa_update id i (fun _ => (tt, SP.meta_init)) ;;
      release id true ;;
      ret id
  end.

(** The constructor. *)
Definition open (m : PageId) (s : TU.Schema) : M W Heap :=
  let! p := pa_fetch m in
  match p with
  | None => throw (RuntimeError "invalid table metadata page")
  | Some i =>
      let! w := get in
      let d := pa_data w i in
      if negb (SP.magic d SP.kMetaMagic) then release m false ;; throw (RuntimeError "invalid table metadata page")
      else release m false ;; ret (mkHeap m s (get64 d 8) (get64 d 16))
  end.

(** ** Inserting *)

Definition write_metadata : M st unit :=
  let! h := this in
  on_pages (pa_modify (meta_ h) (RuntimeError "cannot pin table metadata")
              (fun d => (tt, SP.meta_set (first_ h) (last_ h) d))).

(** The branch of [insert_impl] that adds a page: it is allocated and initialized, linked from
    the last page or made the first one, entered in the metadata, and pinned again. *)
Definition append_page : M st (PageId * nat) :=
  let! id := on_pages pa_allocate in
  on_pages (pa_modify id (RuntimeError "cannot pin new data page") (fun _ => (tt, SP.data_init))) ;;
  let! h := this in
  (if is_valid (last_ h)
   then on_pages (pa_modify (last_ h) (RuntimeError "cannot pin previous data page") (fun d => (tt, SP.set_next id d)))
   else upd (set_first id)) ;;
  upd (set_last id) ;;
  write_metadata ;;
  let! p := on_pages (pa_fetch id) in
  match p with
  | None => throw (RuntimeError "cannot re-pin new data page")
  | Some i => ret (id, i)
  end.

Definition insert_impl (t : TU.Tuple) : M st (option TU.RecordId) :=
  let! h := this in
  let! bs := lift (TU.serialize (schema_ h) t) in
  if kPagePayloadSize <? zlen bs + SP.kHeader + SP.kSlot then ret None
  else
    let! p := (if is_valid (last_ h) then on_pages (pa_fetch (last_ h)) else ret None) in
    let! target :=
      match p with
      | None => append_page
      | Some i =>
          let! d := data i in
          if SP.full d (zlen bs) then on_pages (release (last_ h) false) ;; append_page
          else ret (last_ h, i)
      end in
    let '(id, i) := target in
    let! slot := on_pages (pa_update id i (SP.put_record bs)) in
    on_pages (release id true) ;;
    ret (Some (TU.mkRid id slot)).

(** ** Reading and erasing *)

Definition get_tuple (r : TU.RecordId) : M st (option TU.Tuple) :=
  if negb (is_valid (TU.rid_page r)) then ret None
  else
    let! p := on_pages (pa_fetch (TU.rid_page r)) in
    match p with
    | None => ret None
    | Some i =>
        let! h := this in
        let! d := data i in
        let out := SP.lookup (schema_ h) d (TU.rid_slot r) in
        on_pages (release (TU.rid_page r) false) ;;
        ret out
    end.

Definition erase_impl (r : TU.RecordId) : M st bool :=
  let! p := on_pages (pa_fetch (TU.rid_page r)) in
  match p with
  | None => ret false
  | Some i =>
      let! d := data i in
      if negb (SP.magic d SP.kDataMagic) || (SP.slots d <=? TU.rid_slot r)
      then on_pages (release (TU.rid_page r) false) ;; ret false
      else if negb (SP.live d (TU.rid_slot r)) then on_pages (release (TU.rid_page r) false) ;; ret false
      else
        on_pages (pa_update (TU.rid_page r) i (fun d => (tt, SP.kill (TU.rid_slot r) d))) ;;
        on_pages (release (TU.rid_page r) true) ;;
        ret true
  end.

(** ** Scanning *)

(** The loop over the slots of a page. *)
Fixpoint scan_slots (s : TU.Schema) (id : PageId) (d : bytes) (ixs : list Z) (out : list (TU.RecordId * TU.Tuple)) :
    option (list (TU.RecordId * TU.Tuple)) :=
  match ixs with
  | [] => Some out
  | i :: ixs =>
      if SP.live d i then
        match SP.read_record s d i with
        | None => None
        | Some v => scan_slots s id d ixs (out ++ [(TU.mkRid id i, v)])
        end
      else scan_slots s id d ixs out
  end.

(** The loop over the pages, for at most [fuel] of them: [None] if it has not ended by then. *)
Fixpoint scan_from (fuel : nat) (id : PageId) (out : list (TU.RecordId * TU.Tuple)) :
    M st (option (list (TU.RecordId * TU.Tuple))) :=
  if negb (is_valid id) then ret (Some out)
  else match fuel with
  | O => ret None
  | S fuel =>
      let! p := on_pages (pa_fetch id) in
      match p with
      | None => throw (RuntimeError "cannot pin data page")
      | Some i =>
          let! h := this in
          let! d := data i in
          if negb (SP.magic d SP.kDataMagic)
          then on_pages (release id false) ;; throw (RuntimeError "invalid data page")
          else
            match scan_slots (schema_ h) id d (seqZ 0 (SP.slots d)) out with
            | None => on_pages (release id false) ;; throw (RuntimeError "corrupt tuple")
            | Some out => on_pages (release id false) ;; scan_from fuel (SP.next_of d) out
            end
      end
  end.

Definition scan (fuel : nat) : M st (option (list (TU.RecordId * TU.Tuple))) :=
  let! h := this in scan_from fuel (first_ h) [].

(** ** [validate_invariants] *)

Fixpoint validate_from (fuel : nat) (id : PageId) : M st (option bool) :=
  if negb (is_valid id) then ret (Some true)
  else match fuel with
  | O => ret None
  | S fuel =>
      let! p := on_pages (pa_fetch id) in
      match p with
      | None => ret (Some false)
      | Some i =>
          let! h := this in
          let! d := data i in
          if negb (SP.magic d SP.kDataMagic) then on_pages (release id false) ;; ret (Some false)
          else
            let ok := SP.page_valid (schema_ h) d in
            on_pages (release id false) ;;
            if negb ok then ret (Some false) else validate_from fuel (SP.next_of d)
      end
  end.

(** [try { ... } catch (...) { return false; }] *)
Definition validate_invariants (fuel : nat) : M st (option bool) :=
  fun s => match (let! h := this in validate_from fuel (first_ h)) s with
           | (Ok b, s') => (Ok b, s')
           | (Throw _, s') => (Ok (Some false), s')
           end.

Definition flush : M st unit := on_pages pa_flush.

End heap.

(** ** The heap as a list of pages *)

(** The pages of the list exist, are well formed, and each links to the one behind it. *)
Fixpoint chain (ct : PageId -> option bytes) (s : TU.Schema) (pages : list PageId) : Prop :=
  match pages with
  | [] => True
  | id :: rest =>
      (exists d, ct id = Some d /\ SP.page_ok s d /\ SP.next_of d = default kInvalidValue (head rest)) /\ chain ct s rest
  end.

Record heap_ok (h : Heap) (ct : PageId -> option bytes) (pages : list PageId) : Prop := {
  ho_meta : exists d, ct (meta_ h) = Some d /\ SP.meta_ok d (first_ h) (last_ h);
  ho_meta_id : is_u64 (meta_ h) /\ is_valid (meta_ h) = true;
  ho_first : first_ h = default kInvalidValue (head pages);
  ho_last : last_ h = default kInvalidValue (list.last pages);
  ho_nodup : NoDup (meta_ h :: pages);
  ho_ids : Forall (fun id => is_u64 id /\ is_valid id = true) pages;
  ho_chain : chain ct (schema_ h) pages;
}.

(** The tuple a record identifier stands for. *)
Definition stored (s : TU.Schema) (ct : PageId -> option bytes) (r : TU.RecordId) : option TU.Tuple :=
  ct (TU.rid_page r) ≫= fun d => SP.lookup s d (TU.rid_slot r).

Lemma chain_page ct s pages id :
  chain ct s pages -> id ∈ pages -> exists d, ct id = Some d /\ SP.page_ok s d.
Proof.
  induction pages as [|p pages IH]; [by intros _ ?%not_elem_of_nil|]. intros [(d & H1 & H2 & _) Hc] [->|Hin]%elem_of_cons; eauto.
Qed.

(** Pages may change as long as they stay well formed and keep their links. *)
Lemma chain_step ct ct' s pages :
  chain ct s pages ->
  (forall id d, id ∈ pages -> ct id = Some d -> SP.page_ok s d ->
     exists d', ct' id = Some d' /\ SP.page_ok s d' /\ SP.next_of d' = SP.next_of d) ->
  chain ct' s pages.
Proof.
  induction pages as [|p pages IH]; [done|]. intros [(d & H1 & H2 & H3) Hc] Hstep. split.
  - destruct (Hstep p d) as (d' & ? & ? & Hn); [left|done|done|]. exists d'. split_and!; [done|done|congruence].
  - apply IH; [done|]. intros id d' Hin. apply Hstep. by right.
Qed.

Lemma chain_append ct ct' s pages id d0 :
  chain ct s pages -> NoDup pages -> is_u64 id ->
  ct' id = Some d0 -> SP.page_ok s d0 -> SP.next_of d0 = kInvalidValue ->
  (forall p d, p ∈ pages -> ct p = Some d -> ct' p = Some (if decide (list.last pages = Some p) then SP.set_next id d else d)) ->
  chain ct' s (pages ++ [id]).
Proof.
  intros Hc Hnd Hu H1 H2 H3. induction pages as [|p pages IH]; intros Hstep.
  { cbn. split; [|done]. by exists d0. }
  destruct Hc as [(d & Hd & Hok & Hn) Hc]. apply list.NoDup_cons in Hnd as [Hp Hnd].
  pose proof (Hstep p d ltac:(left) Hd) as Hp'. destruct pages as [|q pages].
  - cbn in Hp'. rewrite decide_True in Hp' by done. destruct (SP.set_next_spec s d id Hok Hu) as (K1 & K2 & _). cbn. split_and!; [|by exists d0|done].
    eexists. by split_and!.
  - cbn [app chain]. change (list.last (p :: q :: pages)) with (list.last (q :: pages)) in *. split.
    + rewrite decide_False in Hp'; [|intros Hl; apply Hp; by apply last_Some_elem_of]. exists d. by split_and!.
    + apply IH; [done|done|]. intros p' d' Hin. apply Hstep. by right.
Qed.

(** The identifier has been given to a record of the page, live or erased. *)
Definition issued (c : PageId -> option bytes) (r : TU.RecordId) : Prop :=
  exists d, c (TU.rid_page r) = Some d /\ 0 <= TU.rid_slot r < SP.slots d.

(** ** The rows of a heap

    The abstract table: the records with their identifiers, in the order of a scan. *)

Abbreviation Row := (TU.RecordId * TU.Tuple)%type.

Definition page_rows (s : TU.Schema) (id : PageId) (d : bytes) (ixs : list Z) : list Row :=
  omap (fun i => (fun t => (TU.mkRid id i, t)) <$> SP.lookup s d i) ixs.
Definition rows_at (s : TU.Schema) (c : PageId -> option bytes) (id : PageId) : list Row :=
  match c id with Some d => page_rows s id d (seqZ 0 (SP.slots d)) | None => [] end.
Definition heap_rows (s : TU.Schema) (c : PageId -> option bytes) (pages : list PageId) : list Row :=
  concat (rows_at s c <$> pages).

(** Removing a record from a table. *)
Definition without (r : TU.RecordId) (l : list Row) : list Row := filter (fun x => x.1 <> r) l.

Lemma page_rows_ext s id d d' ixs :
  (forall i, i ∈ ixs -> SP.lookup s d' i = SP.lookup s d i) -> page_rows s id d' ixs = page_rows s id d ixs.
Proof.
  induction ixs as [|i ixs IH]; [done|]. intros Hi. unfold page_rows in *. csimpl. rewrite Hi by left.
  rewrite IH; [done|]. intros j Hj. apply Hi. by right.
Qed.

Lemma page_rows_elem s id d ixs r t :
  (r, t) ∈ page_rows s id d ixs <-> TU.rid_page r = id /\ TU.rid_slot r ∈ ixs /\ SP.lookup s d (TU.rid_slot r) = Some t.
Proof.
  unfold page_rows. rewrite list_elem_of_omap. split.
  - intros (i & Hi & (t' & Ht & [= -> ->])%fmap_Some). done.
  - intros (<- & Hi & Ht). exists (TU.rid_slot r). split; [done|]. rewrite Ht. by destruct r.
Qed.

Lemma rows_same s c c' pages :
  (forall id, id ∈ pages -> rows_at s c' id = rows_at s c id) -> heap_rows s c' pages = heap_rows s c pages.
Proof. intros Hc. unfold heap_rows. f_equal. apply list_fmap_ext. intros k id Hk. apply Hc. by eapply list_elem_of_lookup_2. Qed.

Lemma heap_rows_ext s (c c' : PageId -> option bytes) pages : (forall j, c' j = c j) -> heap_rows s c' pages = heap_rows s c pages.
Proof. intros Hc. apply rows_same. intros id _. unfold rows_at. by rewrite Hc. Qed.

Lemma heap_rows_snoc s c pages id : heap_rows s c (pages ++ [id]) = heap_rows s c pages ++ rows_at s c id.
Proof. unfold heap_rows. rewrite fmap_app, concat_app. cbn. by rewrite app_nil_r. Qed.

Lemma rows_put s (c c' : PageId -> option bytes) pages id d bs t :
  list.last pages = Some id -> NoDup pages -> c id = Some d -> SP.page_ok s d ->
  SP.full d (zlen bs) = false -> Forall is_byte bs -> TU.deserialize s bs (zlen bs) = Some t ->
  (forall j, c' j = if decide (j = id) then Some (SP.put_record bs d).2 else c j) ->
  heap_rows s c' pages = heap_rows s c pages ++ [(TU.mkRid id (SP.slots d), t)].
Proof.
  intros (init & ->)%last_Some Hnd Hd Hok Hfull Hbs Hdes Hc. apply list.NoDup_app in Hnd as (_ & Hnot & _).
  destruct (SP.put_record_spec s d t bs Hok Hfull Hbs Hdes) as (_ & _ & _ & K4 & K5 & K6). destruct (SP.slots_bound s d Hok) as [Hs _].
  revert K4 K5 K6 Hc. generalize ((SP.put_record bs d).2). intros d' K4 K5 K6 Hc. rewrite !heap_rows_snoc, <- app_assoc. f_equal.
  - apply rows_same. intros j Hj. unfold rows_at. rewrite Hc, decide_False; [done|]. intros ->. apply (Hnot _ Hj). by left.
  - unfold rows_at. rewrite Hc, decide_True, Hd, K4 by done. rewrite seqZ_app by lia. unfold page_rows. rewrite omap_app. f_equal.
    + apply page_rows_ext. intros i ?%elem_of_seqZ. apply K6; lia.
    + rewrite Z.add_0_l. change (seqZ (SP.slots d) 1) with [Z.of_nat 0 + SP.slots d]. rewrite Z.add_0_l. csimpl. by rewrite K5.
Qed.

Lemma rows_link s (c c' : PageId -> option bytes) pages id :
  chain c s pages -> is_u64 id -> c' id = Some SP.data_init ->
  (forall j d, j ∈ pages -> c j = Some d -> c' j = Some (if decide (list.last pages = Some j) then SP.set_next id d else d)) ->
  heap_rows s c' (pages ++ [id]) = heap_rows s c pages.
Proof.
  intros Hch Hu Hid Hpg. rewrite heap_rows_snoc. destruct (SP.data_init_ok s) as (_ & K & _).
  assert (rows_at s c' id = []) as -> by (unfold rows_at; by rewrite Hid, K). rewrite app_nil_r.
  apply rows_same. intros j Hj. destruct (chain_page _ _ _ _ Hch Hj) as (d & Hd & Hdok). unfold rows_at. rewrite (Hpg j d Hj Hd), Hd.
  case_decide; [|done]. destruct (SP.set_next_spec s d id Hdok Hu) as (_ & _ & -> & K3). apply page_rows_ext.
  intros i ?%elem_of_seqZ. apply K3. lia.
Qed.

Lemma filter_id {A} (P : A -> Prop) `{forall x, Decision (P x)} (l : list A) : (forall x, x ∈ l -> P x) -> filter P l = l.
Proof.
  induction l as [|x l IH]; [done|]. intros Hl. rewrite filter_cons, decide_True by (apply Hl; left). f_equal. apply IH. intros; apply Hl; by right.
Qed.

Lemma page_rows_kill s id d i ixs :
  SP.page_ok s d -> 0 <= i < SP.slots d -> (forall j, j ∈ ixs -> 0 <= j) ->
  page_rows s id (SP.kill i d) ixs = without (TU.mkRid id i) (page_rows s id d ixs).
Proof.
  intros Hok Hi. destruct (SP.kill_spec s d i Hok Hi) as (_ & _ & _ & K4 & K5).
  induction ixs as [|j ixs IH]; [done|]. intros Hj. unfold page_rows, without in *. csimpl. rewrite IH by (intros; apply Hj; by right).
  destruct (decide (j = i)) as [->|Hne].
  - rewrite K4. destruct (SP.lookup s d i); csimpl; [|done]. rewrite filter_cons, decide_False; [done|]. intros Hx. by apply Hx.
  - rewrite K5 by (done || apply Hj; left). destruct (SP.lookup s d j); csimpl; [|done]. rewrite filter_cons, decide_True; [done|]. cbn. by intros [= ->].
Qed.

Lemma rows_kill s (c c' : PageId -> option bytes) pages r d :
  c (TU.rid_page r) = Some d -> SP.page_ok s d -> 0 <= TU.rid_slot r < SP.slots d ->
  (forall j, c' j = if decide (j = TU.rid_page r) then Some (SP.kill (TU.rid_slot r) d) else c j) ->
  heap_rows s c' pages = without r (heap_rows s c pages).
Proof.
  intros Hd Hok Hi Hc. unfold heap_rows, without. induction pages as [|p pages IH]; [done|]. cbn. rewrite list.filter_app, <- IH. f_equal.
  unfold rows_at. rewrite Hc. destruct (decide (p = TU.rid_page r)) as [->|Hne].
  - rewrite Hd. destruct (SP.kill_spec s d _ Hok Hi) as (_ & _ & -> & _). rewrite page_rows_kill by (done || (intros j ?%elem_of_seqZ; lia)).
    by destruct r.
  - symmetry. apply filter_id. intros [r' t] Hr Heq. cbn in Heq. subst r'. destruct (c p) as [dp|]; [|by apply not_elem_of_nil in Hr].
    by apply page_rows_elem in Hr as (<- & _).
Qed.

(** The rows are the stored tuples of the pages, each once. *)
Lemma rows_elem h (c : PageId -> option bytes) pages r t :
  heap_ok h c pages ->
  (r, t) ∈ heap_rows (schema_ h) c pages <-> TU.rid_page r ∈ pages /\ 0 <= TU.rid_slot r /\ stored (schema_ h) c r = Some t.
Proof.
  intros [_ _ _ _ _ _ Hch]. unfold heap_rows. rewrite list_elem_of_In, in_concat. split.
  - intros (l & Hl & Hr). apply list_elem_of_In in Hl, Hr. apply list_elem_of_fmap in Hl as (id & -> & Hid).
    unfold rows_at, stored in *. destruct (chain_page _ _ _ _ Hch Hid) as (d & Hd & _). rewrite Hd in Hr.
    apply page_rows_elem in Hr as (<- & Hs%elem_of_seqZ & Hlk). rewrite Hd. split_and!; [done|lia|done].
  - intros (Hp & Hs & Hst). exists (rows_at (schema_ h) c (TU.rid_page r)). rewrite <- !list_elem_of_In. split; [by apply list_elem_of_fmap_2|].
    unfold rows_at, stored in *. destruct (chain_page _ _ _ _ Hch Hp) as (d & Hd & Hok). rewrite Hd in *. cbn in Hst. apply page_rows_elem.
    split_and!; [done| |done]. apply elem_of_seqZ. rewrite SP.lookup_ok in Hst by done.
    destruct (Z.ltb_spec (TU.rid_slot r) (SP.slots d)); [lia|done].
Qed.

Lemma rows_nodup s (c : PageId -> option bytes) pages : NoDup pages -> NoDup (heap_rows s c pages).*1.
Proof.
  unfold heap_rows. induction 1 as [|p pages Hp Hnd IH]; [apply base.NoDup_nil_2|]. cbn. rewrite fmap_app. apply list.NoDup_app. split_and!.
  - unfold rows_at. destruct (c p) as [d|]; [|apply base.NoDup_nil_2]. unfold page_rows.
    generalize (NoDup_seqZ 0 (SP.slots d)). induction 1 as [|i ixs Hi Hn IH']; [apply base.NoDup_nil_2|]. csimpl.
    destruct (SP.lookup s d i); csimpl; [|done]. apply list.NoDup_cons. split; [|done]. intros ([r t'] & Hr & Hin)%list_elem_of_fmap.
    cbn in Hr. subst r. by apply page_rows_elem in Hin as (_ & ? & _).
  - intros r Hr Hr'. apply list_elem_of_fmap in Hr as ([r1 t1] & -> & H1), Hr' as ([r2 t2] & Heq & H2). cbn in Heq. subst r2.
    apply list_elem_of_In, in_concat in H2 as (l & Hl & H2). apply list_elem_of_In in Hl, H2. apply list_elem_of_fmap in Hl as (q & -> & Hq).
    unfold rows_at in *. destruct (c p), (c q); try by apply not_elem_of_nil in H1 || by apply not_elem_of_nil in H2.
    apply page_rows_elem in H1 as (<- & _). apply page_rows_elem in H2 as (Hx & _). cbn in Hx. by rewrite Hx in Hp.
  - done.
Qed.

(** ** What the operations do *)

Section specs.
Context {W : Type} `{PageAccessLaws W}.
Implicit Types (h : Heap) (w : W) (id : PageId).
Abbreviation ct w := (pa_content w).

(** No frame is pinned that was not pinned before. *)
Definition held_same w w' : Prop := forall j, pa_held w' j = pa_held w j.

Lemma idle_same w w' : idle w -> held_same w w' -> idle w'.
Proof. intros Hi Hh j. by rewrite Hh. Qed.

Lemma create_spec L s w :
  pa_ok L w -> s <> [] -> (L -> 0 < pa_free w /\ idle w) ->
  wpl L (create (ret tt) s) w (fun id w' =>
    pa_ok L w' /\ held_same w w' /\ pa_free w' = pa_free w - 1 /\ ct w id = None /\
    heap_ok (mkHeap id s kInvalidValue kInvalidValue) (ct w') [] /\ forall j, j <> id -> ct w' j = ct w j).
Proof.
  intros Hok Hs HL. unfold create. rewrite bool_decide_false by done. wpl_step. wpl_step; [done|]. wpl_step.
  wpl_use pa_allocate_spec; [done|naive_solver|]. intros id w1 (Hok1 & Hu & Hv & Hn & Hfr1 & Hc1 & Hh1).
  assert (ct w1 id = Some (zeros kPagePayloadSize)) as Hid by (by rewrite Hc1, decide_True).
  apply pa_peek_spec; [done|done|intros HL1 _; split; [by rewrite Hid|eapply idle_same; [by apply HL|done]]|..].
  { intros w2 _ _ _ _ Hx. wpl_step. intros HL1. rewrite (Hx HL1) in Hv. done. }
  intros i w2 Hok2 Hc2 Hr2 _ Hat2 Hcl2 Hd2 Hh2. wpl_step. wpl_step. wpl_step.
  wpl_use pa_update_spec; [done|done|done|done| |intros; apply SP.meta_init_ok|].
  { intros HL1. rewrite Hh2, decide_True, Hh1 by done. destruct (HL HL1) as [_ Hi]. by rewrite Hi. }
  intros [] w3 (_ & Hok3 & Hat3 & Hr3 & Hc3 & Hh3). wpl_step. wpl_use release_page_spec; [done|exact Hat3|done|].
  intros [] w4 (Hok4 & Hc4 & Hr4 & Hh4). wpl_step. split_and!; [done| |congruence|done| |].
  - intros j. rewrite Hh4, Hh3, Hh2, Hh1. case_decide; lia.
  - split; cbn; try done; [|by apply list.NoDup_singleton]. eexists. rewrite Hc4, Hc3, decide_True by done. split; [done|]. apply SP.meta_init_ok.
  - intros j Hj. rewrite Hc4, Hc3, decide_False, Hc2, Hc1, decide_False by done. done.
Qed.

Lemma open_spec L h w pages :
  pa_ok L w -> heap_ok h (ct w) pages -> (L -> idle w) ->
  wpl L (open (meta_ h) (schema_ h)) w (fun h' w' =>
    h' = h /\ pa_ok L w' /\ held_same w w' /\ pa_free w' = pa_free w /\ forall j, ct w' j = ct w j).
Proof.
  intros Hok [(md & Hmd & Hmeta) [Hu Hv] _ _ _ _ _] HL. unfold open.
  apply pa_peek_spec; [done|done|intros HL1 _; split; [by rewrite Hmd|auto]|..].
  { intros w2 _ _ _ _ Hx. wpl_step. intros HL1. rewrite (Hx HL1) in Hv. done. }
  intros i w1 Hok1 Hc1 Hr1 _ Hat1 Hcl1 Hd1 Hh1. rewrite Hmd in Hd1. injection Hd1 as Hd1. wpl_step. wpl_step. rewrite <- Hd1.
  unfold SP.magic. rewrite bool_decide_true by apply Hmeta. cbn [negb]. wpl_step. wpl_use release_page_spec; [done|exact Hat1|done|].
  intros [] w2 (Hok2 & Hc2 & Hr2 & Hh2). wpl_step. split_and!; [|done| |congruence|].
  - destruct h. cbn. destruct Hmeta as [_ _ -> ->]. done.
  - exact (held_back _ _ _ _ Hh1 Hh2).
  - intros j. by rewrite Hc2, Hc1.
Qed.

(** *** Inserting *)

Lemma write_metadata_spec L h w d :
  pa_ok L w -> is_u64 (meta_ h) -> is_u64 (first_ h) -> is_u64 (last_ h) ->
  (L -> is_valid (meta_ h) = true /\ idle w) ->
  ct w (meta_ h) = Some d -> (exists f l, SP.meta_ok d f l) ->
  wpl L write_metadata (h, w) (fun _ s => s.1 = h /\ pa_ok L s.2 /\ held_same w s.2 /\ pa_free s.2 = pa_free w /\
    exists d', SP.meta_ok d' (first_ h) (last_ h) /\
    forall j, ct s.2 j = if decide (j = meta_ h) then Some d' else ct w j).
Proof.
  intros Hok Hu Hf Hl HL Hd (f & l & Hm). unfold write_metadata, this. wpl_step. wpl_step. cbn [fst]. apply wpl_on_pages.
  wpl_use pa_modify_spec; [done|done| | |].
  { intros HL1. destruct (HL HL1). split_and!; [done|by exists d|done]. }
  { intros d0 Hd0. by apply SP.meta_set_payload. }
  intros [] w' (d1 & Hd1 & _ & Hok' & Hfr & Hc & Hh). rewrite Hd in Hd1. injection Hd1 as <-. cbn [fst snd] in *.
  split_and!; [done|done|done|done|]. exists (SP.meta_set (first_ h) (last_ h) d). split; [by eapply SP.meta_set_ok|done].
Qed.

Lemma last_valid h (c : PageId -> option bytes) pages :
  heap_ok h c pages ->
  match list.last pages with
  | Some p => last_ h = p /\ p ∈ pages /\ is_u64 p /\ is_valid p = true
  | None => pages = [] /\ is_valid (last_ h) = false
  end.
Proof.
  intros [_ _ _ Hl _ Hids _]. destruct (list.last pages) as [p|] eqn:E.
  - apply last_Some_elem_of in E. pose proof (proj1 (list.Forall_forall _ _) Hids p E) as [? ?]. done.
  - apply last_None in E. split; [done|]. rewrite Hl. done.
Qed.

(** A page behind the last one: the metadata names it, the last page links to it. *)
Lemma heap_ok_append h (c c' : PageId -> option bytes) pages id md :
  heap_ok h c pages -> is_u64 id -> is_valid id = true -> c id = None ->
  c' (meta_ h) = Some md -> SP.meta_ok md (default id (head pages)) id -> c' id = Some SP.data_init ->
  (forall j d, j ∈ pages -> c j = Some d -> c' j = Some (if decide (list.last pages = Some j) then SP.set_next id d else d)) ->
  heap_ok (mkHeap (meta_ h) (schema_ h) (default id (head pages)) id) c' (pages ++ [id]).
Proof.
  intros [(md0 & Hmd & _) Hm _ _ Hnd Hids Hchain] Hu Hv Hnone Hmd' Hmeta Hid Hpg. apply list.NoDup_cons in Hnd as [Hmnot Hnd].
  split; cbn; [by exists md|done|by destruct pages|by rewrite last_snoc|..].
  - apply list.NoDup_cons. split.
    + rewrite elem_of_app, list_elem_of_singleton. intros [?|?]; congruence.
    + apply list.NoDup_app. split_and!; [done| |by apply list.NoDup_singleton]. intros x Hx ->%list_elem_of_singleton.
      destruct (chain_page _ _ _ _ Hchain Hx) as (d & Hd & _). congruence.
  - apply Forall_app_2; [done|]. by apply list.Forall_singleton.
  - destruct (SP.data_init_ok (schema_ h)) as (K1 & _ & K2). by eapply chain_append.
Qed.

(** The new page is linked from the last page, or becomes the first one. *)
Lemma link_spec L h (c : PageId -> option bytes) w pages id :
  pa_ok L w -> heap_ok h c pages -> is_u64 id -> c id = None ->
  (forall j, j <> id -> ct w j = c j) -> (L -> idle w) ->
  wpl L (if is_valid (last_ h)
         then on_pages (pa_modify (last_ h) (RuntimeError "cannot pin previous data page") (fun d => (tt, SP.set_next id d)))
         else upd (set_first id)) (h, w)
    (fun _ s => s.1 = mkHeap (meta_ h) (schema_ h) (default id (head pages)) (last_ h) /\
      pa_ok L s.2 /\ held_same w s.2 /\ pa_free s.2 = pa_free w /\ (forall j, j ∉ pages -> ct s.2 j = ct w j) /\
      forall j d, j ∈ pages -> c j = Some d -> ct s.2 j = Some (if decide (list.last pages = Some j) then SP.set_next id d else d)).
Proof.
  intros Hok Hheap Hu Hnone Hc HL. pose proof (last_valid _ _ _ Hheap) as Hlv. pose proof Hheap as [_ _ Hfirst _ _ _ Hchain].
  destruct (list.last pages) as [p|] eqn:El.
  - destruct Hlv as (Hlp & Hp & Hpu & Hpv). rewrite Hlp, Hpv. apply wpl_on_pages.
    destruct (chain_page _ _ _ _ Hchain Hp) as (dp & Hdp & Hdpok). assert (p <> id) as Hpid by congruence.
    wpl_use pa_modify_spec; [done|done| |intros; by apply SP.set_next_payload|].
    { intros HL1. split_and!; [done|by rewrite Hc, Hdp|auto]. }
    intros [] w3 (d3 & Hd3 & _ & Hok3 & Hfr3 & Hc3 & Hh3). cbn [fst snd] in *. rewrite Hc, Hdp in Hd3 by done. injection Hd3 as <-.
    split_and!; [|done|done|done| |].
    + destruct h as [m s f l], pages as [|q pages]; cbn in *; [done|congruence].
    + intros j Hj. rewrite Hc3, decide_False; [done|congruence].
    + intros j d Hj Hd. rewrite Hc3. destruct (decide (j = p)) as [->|Hjp].
      * rewrite decide_True by done. congruence.
      * rewrite decide_False, Hc, Hd by congruence. done.
  - destruct Hlv as [-> Hlv]. rewrite Hlv. unfold upd. wpl_step. cbn [fst snd]. split_and!; [by destruct h|done|done|done|done|].
    by intros j d Hj%not_elem_of_nil.
Qed.

(** What [append_page] leaves: a page more, pinned and empty; no tuple has changed. *)
Lemma append_page_spec L h w pages :
  pa_ok L w -> heap_ok h (ct w) pages -> (L -> 0 < pa_free w /\ idle w) ->
  wpl L append_page (h, w) (fun x s => let '(id, i) := x in
    schema_ s.1 = schema_ h /\ meta_ s.1 = meta_ h /\ pa_ok L s.2 /\ pa_free s.2 = pa_free w - 1 /\ ct w id = None /\ is_u64 id /\ is_valid id = true /\
    heap_ok s.1 (ct s.2) (pages ++ [id]) /\ pa_at s.2 id i /\ ct s.2 id = Some SP.data_init /\
    (forall j, pa_held s.2 j = if decide (j = id) then pa_held w j + 1 else pa_held w j) /\
    (forall j, j ∉ meta_ h :: pages ++ [id] -> ct s.2 j = ct w j) /\
    forall j d, j ∈ pages -> ct w j = Some d -> ct s.2 j = Some (if decide (list.last pages = Some j) then SP.set_next id d else d)).
Proof.
  intros Hok Hheap HL. pose proof Hheap as [(md & Hmd & Hmeta) [Hmu Hmv] Hfirst Hlast Hnd Hids Hchain].
  apply list.NoDup_cons in Hnd as [Hmnot Hnd]. unfold append_page, this. wpl_step. apply wpl_on_pages.
  wpl_use pa_allocate_spec; [done|naive_solver|]. intros id w1 (Hok1 & Hu & Hv & Hnone & Hfr1 & Hc1 & Hh1).
  assert (id ∉ pages) as Hidp. { intros Hin. destruct (chain_page _ _ _ _ Hchain Hin) as (d & Hd & _). congruence. }
  assert (id <> meta_ h) as Hidm by congruence.
  wpl_step. apply wpl_on_pages. wpl_use pa_modify_spec; [done|done| |intros; apply (SP.data_init_ok [])|].
  { intros HL1. destruct (HL HL1) as [_ Hi]. rewrite Hc1, decide_True by done. split_and!; [done|done|by eapply idle_same]. }
  intros [] w2 (d2 & Hd2 & _ & Hok2 & Hfr2 & Hc2 & Hh2). cbn [snd] in Hc2.
  assert (forall j, j <> id -> ct w2 j = ct w j) as Hc2' by (intros j Hj; by rewrite Hc2, decide_False, Hc1, decide_False).
  assert (L -> idle w2) as Hi2. { intros HL1 j. rewrite Hh2, Hh1. by apply HL. }
  wpl_step. wpl_step. wpl_step. cbn [fst]. wpl_use link_spec; [done|exact Hheap|done|done|done|done|].
  intros [] [h3 w3] (E3 & Hok3 & Hh3 & Hfr3 & Hc3 & Hc3'). cbn [fst snd] in *. subst h3. unfold upd. wpl_step. wpl_step.
  cbn [fst snd set_last meta_ schema_ first_]. set (h4 := mkHeap (meta_ h) (schema_ h) (default id (head pages)) id).
  wpl_step. change (set_last id _) with h4. eapply wpl_mono.
  { apply (write_metadata_spec L h4 w3 md); cbn; try done.
    - destruct pages as [|q pages]; [done|]. apply list.Forall_cons in Hids as [[? _] _]. done.
    - intros HL1. split; [done|]. eapply idle_same; [by apply Hi2|done].
    - by rewrite Hc3, Hc2' by congruence.
    - eauto. }
  cbn beta. intros [] [h5 w5] (E5 & Hok5 & Hh5 & Hfr5 & md5 & Hmd5 & Hc5). cbn [fst snd] in *. subst h5. wpl_step. apply wpl_on_pages.
  assert (held_same w w5) as Hh5' by (intros j; by rewrite Hh5, Hh3, Hh2, Hh1).
  assert (ct w5 id = Some SP.data_init) as Hid5 by (by rewrite Hc5, decide_False, Hc3, Hc2, decide_True).
  wpl_use pa_fetch_spec; [done|done|intros HL1 _; split; [by rewrite Hid5|eapply idle_same; [by apply HL|done]]|].
  intros o w6 (Hok6 & Hc6 & Hfr6 & Ho). destruct o as [i|].
  2:{ wpl_step. intros HL1. destruct Ho as [_ Ho]. rewrite (Ho HL1) in Hv. done. }
  destruct Ho as (_ & Hat & _ & Hh6). wpl_step. cbn [fst snd].
  assert (forall j d, j ∈ pages -> ct w j = Some d ->
    ct w6 j = Some (if decide (list.last pages = Some j) then SP.set_next id d else d)) as Hpg.
  { intros j d Hj Hd. rewrite Hc6, Hc5, decide_False by (intros ->; done). by apply Hc3'. }
  split_and!; try done.
  - congruence.
  - eapply (heap_ok_append h (ct w) _ pages id md5); try done; rewrite Hc6; [by rewrite Hc5, decide_True|done].
  - by rewrite Hc6.
  - intros j. rewrite Hh6. case_decide; by rewrite Hh5'.
  - intros j Hj. rewrite not_elem_of_cons, not_elem_of_app, list_elem_of_singleton in Hj. destruct Hj as (Hj1 & Hj2 & Hj3).
    rewrite Hc6, Hc5, decide_False, Hc3, Hc2' by done. done.
Qed.

(** The heap after one page has got another payload with the same link. *)
Lemma heap_ok_page h (c c' : PageId -> option bytes) pages id d d' :
  heap_ok h c pages -> id ∈ pages -> c id = Some d -> SP.page_ok (schema_ h) d' -> SP.next_of d' = SP.next_of d ->
  (forall j, c' j = if decide (j = id) then Some d' else c j) -> heap_ok h c' pages.
Proof.
  intros [(md & Hmd & Hmeta) Hm Hf Hl Hnd Hids Hchain] Hid Hd Hok Hn Hc. split; try done.
  - exists md. rewrite Hc, decide_False; [done|]. intros Hx. apply list.NoDup_cons in Hnd as [Hx' _]. congruence.
  - eapply chain_step; [exact Hchain|]. intros j dj Hj Hdj Hjok. rewrite Hc. destruct (decide (j = id)) as [->|].
    + exists d'. split_and!; [done|done|congruence].
    + exists dj. by split_and!.
Qed.

Lemma full_init n : SP.kHeader + SP.kSlot + n <= kPagePayloadSize -> 0 <= n -> SP.full SP.data_init n = false.
Proof.
  intros Hn H0'. destruct (SP.data_init_ok []) as ([_ _ Hst _ _] & Hs & _). rewrite Hs in Hst.
  assert (SP.end_of SP.data_init = kPagePayloadSize) as He.
  { unfold SP.data_init, SP.end_of. cbv zeta. apply get_blit; [lia| |plia]. unfold put16, put64.
    repeat (rewrite blit_length; [|lia|]); rewrite ?zeros_length, ?le_bytes_length; cbn [length SP.kDataMagic]; plia. }
  unfold SP.full. rewrite He, Hst. unfold to_u64. rewrite Z.mod_small by SP.slia. apply Z.ltb_ge. SP.slia.
Qed.

(** The end of [insert_impl]: the record goes into the pinned page. *)
Lemma put_spec L h w pages id i bs t :
  pa_ok L w -> heap_ok h (ct w) pages -> list.last pages = Some id -> pa_at w id i -> (L -> pa_held w id = 1) ->
  SP.full (pa_data w i) (zlen bs) = false -> Forall is_byte bs -> TU.deserialize (schema_ h) bs (zlen bs) = Some t ->
  wpl L (let! slot := on_pages (pa_update id i (SP.put_record bs)) in on_pages (release id true) ;; ret (Some (TU.mkRid id slot))) (h, w)
    (fun r s => exists rid, r = Some rid /\ TU.rid_page rid = id /\ 0 <= TU.rid_slot rid /\ s.1 = h /\ pa_ok L s.2 /\ pa_free s.2 = pa_free w /\
       heap_ok h (ct s.2) pages /\ (forall j, pa_held s.2 j = if decide (j = id) then pa_held w j - 1 else pa_held w j) /\
       (forall j, j <> id -> ct s.2 j = ct w j) /\
       stored (schema_ h) (ct w) rid = None /\ stored (schema_ h) (ct s.2) rid = Some t /\
       (forall r', 0 <= TU.rid_slot r' -> r' <> rid -> stored (schema_ h) (ct s.2) r' = stored (schema_ h) (ct w) r') /\
       heap_rows (schema_ h) (ct s.2) pages = heap_rows (schema_ h) (ct w) pages ++ [(rid, t)] /\
       ~ issued (ct w) rid /\ forall r', issued (ct w) r' \/ r' = rid -> issued (ct s.2) r').
Proof.
  intros Hok Hheap Hlast Hat HL Hfull Hbs Hdes. pose proof Hheap as [_ _ _ _ Hnd Hids Hchain]. pose proof (last_Some_elem_of _ _ Hlast) as Hid.
  pose proof (proj1 (list.Forall_forall _ _) Hids id Hid) as [Hu Hv].
  destruct (chain_page _ _ _ _ Hchain Hid) as (d & Hd & Hdok). pose proof (pa_at_data _ _ _ _ Hok Hat) as Hd'.
  rewrite Hd in Hd'. injection Hd' as Hd'. rewrite <- Hd' in Hfull.
  destruct (SP.put_record_spec (schema_ h) d t bs Hdok Hfull Hbs Hdes) as (K1 & K2 & K3 & K4 & K5 & K6).
  wpl_step. apply wpl_on_pages. wpl_use pa_update_spec; [done|done|done|done|done|rewrite <- Hd'; apply K2|].
  intros slot w1 (-> & Hok1 & Hat1 & Hfr1 & Hc1 & Hh1). rewrite <- Hd' in *. wpl_step. apply wpl_on_pages.
  wpl_use release_page_spec; [done|exact Hat1|done|]. intros [] w2 (Hok2 & Hc2 & Hfr2 & Hh2). wpl_step. cbn [fst snd].
  assert (forall j, ct w2 j = if decide (j = id) then Some (SP.put_record bs d).2 else ct w j) as Hc by (intros j; by rewrite Hc2, Hc1).
  rewrite K1. eexists. split_and!; [done|done|by apply (SP.slots_bound (schema_ h))|done|done|congruence|by eapply heap_ok_page| | | | | | | |].
  - intros j. rewrite Hh2. case_decide; by rewrite Hh1.
  - intros j Hj. by rewrite Hc, decide_False.
  - unfold stored. cbn. rewrite Hd. cbn. rewrite SP.lookup_ok by (done || by apply (SP.slots_bound (schema_ h))). by rewrite Z.ltb_irrefl.
  - unfold stored. cbn. rewrite Hc, decide_True by done. exact K5.
  - intros [p' n'] Hn Hne. unfold stored. cbn in *. rewrite Hc. case_decide; [|done]. subst p'. rewrite Hd. cbn. apply K6; [done|congruence].
  - apply list.NoDup_cons in Hnd as [_ Hnd]. by eapply rows_put.
  - intros (d0 & Hd0 & ?). cbn in *. rewrite Hd in Hd0. injection Hd0 as <-. lia.
  - pose proof (SP.slots_bound _ _ Hdok) as [? _]. intros r' [(d0 & Hd0 & Hs)| ->]; unfold issued; rewrite Hc.
    + destruct (decide (TU.rid_page r' = id)) as [E|E]; [|by exists d0]. rewrite E, Hd in Hd0. injection Hd0 as <-. exists (SP.put_record bs d).2. split; [done|]. rewrite K4. lia.
    + cbn. rewrite decide_True by done. exists (SP.put_record bs d).2. split; [done|]. rewrite K4. lia.
Qed.

(** What a completed [insert_impl] has done. *)
Record inserted (h h' : Heap) (w w' : W) (t : TU.Tuple) (rid : TU.RecordId) (pages pages' : list PageId) : Prop := {
  in_schema : schema_ h' = schema_ h;
  in_meta : meta_ h' = meta_ h;
  in_heap : heap_ok h' (ct w') pages';
  in_pages : pages' = pages \/ exists id, pages' = pages ++ [id] /\ ct w id = None;
  in_page : TU.rid_page rid ∈ pages';
  in_frame : forall j, j ∉ meta_ h :: pages' -> ct w' j = ct w j;
  in_fresh : stored (schema_ h) (ct w) rid = None;
  in_stored : stored (schema_ h) (ct w') rid = Some t;
  in_others : forall r, 0 <= TU.rid_slot r -> r <> rid -> stored (schema_ h) (ct w') r = stored (schema_ h) (ct w) r;
  in_new : ~ issued (ct w) rid;
  in_issued : forall r, TU.rid_page r ∈ pages /\ issued (ct w) r \/ r = rid -> issued (ct w') r;
  in_rows : heap_rows (schema_ h) (ct w') pages' = heap_rows (schema_ h) (ct w) pages ++ [(rid, t)];
}.

(** Adding an empty page changes no tuple. *)
Lemma append_stored s (c c' : PageId -> option bytes) m pages id r md md' :
  chain c s pages -> is_u64 id -> id ∉ pages -> c id = None -> c' id = Some SP.data_init ->
  c m = Some md -> c' m = Some md' -> slice md 0 6 = SP.kMetaMagic -> slice md' 0 6 = SP.kMetaMagic ->
  (forall j, j ∉ m :: pages ++ [id] -> c' j = c j) ->
  (forall j d, j ∈ pages -> c j = Some d -> c' j = Some (if decide (list.last pages = Some j) then SP.set_next id d else d)) ->
  0 <= TU.rid_slot r -> stored s c' r = stored s c r.
Proof.
  intros Hch Hu Hid Hn Hn' Hm Hm' Hmg Hmg' Hoth Hpg Hr. unfold stored. destruct r as [p n]. cbn in *.
  assert (forall d, slice d 0 6 = SP.kMetaMagic -> SP.lookup s d n = None) as Hmeta.
  { intros d Hd. unfold SP.lookup, SP.magic. rewrite bool_decide_false by (rewrite Hd; done). done. }
  destruct (decide (p = id)) as [->|Hp].
  - rewrite Hn', Hn. cbn. destruct (SP.data_init_ok s) as (K1 & K2 & _). rewrite SP.lookup_ok, K2 by done. by replace (n <? 0) with false by lia.
  - destruct (decide (p = m)) as [->|Hpm]; [rewrite Hm, Hm'; cbn; by rewrite !Hmeta|].
    destruct (decide (p ∈ pages)) as [Hin|Hin].
    + destruct (chain_page _ _ _ _ Hch Hin) as (d & Hd & Hdok). rewrite (Hpg p d), Hd by done. cbn. case_decide; [|done].
      by apply SP.set_next_spec.
    + rewrite Hoth; [done|]. rewrite not_elem_of_cons, not_elem_of_app, list_elem_of_singleton. done.
Qed.

Lemma heap_ok_ext h (c c' : PageId -> option bytes) pages : (forall j, c' j = c j) -> heap_ok h c pages -> heap_ok h c' pages.
Proof.
  intros Hc [Hmd Hm Hf Hl Hnd Hids Hchain]. split; try done; [by rewrite Hc|].
  eapply chain_step; [exact Hchain|]. intros id d _ Hd Hok. exists d. by rewrite Hc.
Qed.

Lemma inserted_ext h h' w w1 w' t rid pages pages' :
  (forall j, ct w1 j = ct w j) -> inserted h h' w1 w' t rid pages pages' -> inserted h h' w w' t rid pages pages'.
Proof.
  intros Hc [Hs Hm Hh Hp Hpg Hfr Hf Hst Ho Hnew Hiss Hrw]. unfold stored in *. split; try done.
  - setoid_rewrite Hc in Hp. done.
  - intros j Hj. by rewrite <- Hc, Hfr.
  - unfold stored. by rewrite <- Hc.
  - intros r Hr Hne. unfold stored. by rewrite <- Hc, Ho.
  - unfold issued in *. by rewrite <- Hc.
  - intros r Hr. apply Hiss. unfold issued in *. by rewrite Hc.
  - by rewrite Hrw, (heap_rows_ext _ _ _ _ Hc).
Qed.

(** Inserting through a page that was just added. *)
Lemma insert_appended L h w pages bs t :
  pa_ok L w -> heap_ok h (ct w) pages -> (L -> 0 < pa_free w /\ idle w) ->
  SP.kHeader + SP.kSlot + zlen bs <= kPagePayloadSize -> Forall is_byte bs ->
  TU.deserialize (schema_ h) bs (zlen bs) = Some t ->
  wpl L (let! target := append_page in let '(id, i) := target in
         let! slot := on_pages (pa_update id i (SP.put_record bs)) in
         on_pages (release id true) ;; ret (Some (TU.mkRid id slot))) (h, w)
    (fun r s => pa_ok L s.2 /\ held_same w s.2 /\ pa_free s.2 = pa_free w - 1 /\
       exists rid pages', r = Some rid /\ inserted h s.1 w s.2 t rid pages pages').
Proof.
  intros Hok Hheap HL Hsz Hbs Hdes. wpl_step. wpl_use append_page_spec; [done|done|done|].
  intros [id i] [h1 w1] (Hs1 & Hm1 & Hok1 & Hfr1' & Hnone & Hu & Hv & Hheap1 & Hat1 & Hid1 & Hh1 & Hfr1 & Hpg1). cbn [fst snd] in *.
  rewrite <- Hs1 in Hdes. pose proof (pa_at_data _ _ _ _ Hok1 Hat1) as Hd1. rewrite Hid1 in Hd1. injection Hd1 as Hd1.
  wpl_use put_spec; [done|done|by apply last_snoc|exact Hat1| | |done|done|].
  { intros HL1. rewrite Hh1, decide_True by done. destruct (HL HL1) as [_ Hi]. by rewrite Hi. }
  { rewrite <- Hd1. apply full_init; lia. }
  intros r [h2 w2] (rid & -> & Hrid & Hsl & Hh & Hok2 & Hfr2 & Hheap2 & Hheld & Hc2 & Hn2 & Hst2 & Hoth2 & Hrw2 & Hnew2 & Hiss2). cbn [fst snd] in *. subst h2.
  split_and!; [done|intros j; rewrite Hheld, Hh1; case_decide; lia|congruence|]. exists rid, (pages ++ [id]). split; [done|].
  rewrite Hs1 in Hn2, Hst2, Hoth2, Hrw2. pose proof Hheap as [(md & Hmd & Hmeta) _ _ _ _ _ Hchain]. pose proof Hheap1 as [(md1 & Hmd1 & Hmeta1) _ _ _ _ _ _].
  assert (forall r', 0 <= TU.rid_slot r' -> stored (schema_ h) (ct w1) r' = stored (schema_ h) (ct w) r') as Happ.
  { intros r' Hr'. rewrite Hm1 in Hmd1. eapply (append_stored _ (ct w) (ct w1) (meta_ h) pages id r' md md1); try done.
    - intros Hin. destruct (chain_page _ _ _ _ Hchain Hin) as (d & Hd & _). congruence.
    - apply Hmeta.
    - apply Hmeta1. }
  split; try done.
  - right. by exists id.
  - rewrite Hrid. apply elem_of_app. right. by apply list_elem_of_singleton.
  - intros j Hj. rewrite Hc2; [by apply Hfr1|]. rewrite not_elem_of_cons, not_elem_of_app, list_elem_of_singleton in Hj. naive_solver.
  - rewrite <- Happ by done. done.
  - intros r' Hr' Hne. by rewrite Hoth2, Happ.
  - intros (d0 & Hd0 & _). rewrite Hrid in Hd0. congruence.
  - intros r' [[Hp (d0 & Hd0 & Hs)]| ->]; apply Hiss2; [|by right]. left. unfold issued. rewrite (Hpg1 _ d0) by done. eexists. split; [done|].
    destruct (chain_page _ _ _ _ Hchain Hp) as (d' & Hd' & Hok'). rewrite Hd0 in Hd'. injection Hd' as <-. case_decide; [|done].
    by destruct (SP.set_next_spec _ _ id Hok' Hu) as (_ & _ & -> & _).
  - rewrite Hrw2. f_equal. by eapply rows_link.
Qed.

(** Inserting a tuple that matches the schema. *)
Lemma insert_spec L h w pages t :
  pa_ok L w -> heap_ok h (ct w) pages -> Forall TU.value_wf t ->
  (L -> TU.validates (schema_ h) t = true /\ 0 < pa_free w /\ idle w) ->
  wpl L (insert_impl t) (h, w) (fun r s =>
    pa_ok L s.2 /\ held_same w s.2 /\ pa_free w - 1 <= pa_free s.2 /\
    if kPagePayloadSize <? zlen (TU.serialized t) + SP.kHeader + SP.kSlot
    then r = None /\ s = (h, w)
    else exists rid pages', r = Some rid /\ inserted h s.1 w s.2 t rid pages pages').
Proof.
  intros Hok Hheap Hwf HL. pose proof Hheap as [_ _ _ _ Hnd Hids Hchain]. unfold insert_impl, this, data. wpl_step. wpl_step. cbn [fst].
  wpl_step. apply wpl_lift.
  2:{ intros e He HL1. destruct (HL HL1) as [Hval _]. rewrite TU.serialize_eq in He; done. }
  intros bs Hbs. assert (TU.validates (schema_ h) t = true) as Hval.
  { unfold TU.serialize in Hbs. destruct (TU.validates _ _); [done|]. done. }
  rewrite TU.serialize_eq in Hbs by done. injection Hbs as <-. set (bs := TU.serialized t).
  pose proof (TU.serialized_bytes t Hwf) as Hby. pose proof (TU.deserialize_serialized _ _ Hwf Hval) as Hdes. fold bs in Hby, Hdes.
  destruct (Z.ltb_spec kPagePayloadSize (zlen bs + SP.kHeader + SP.kSlot)) as [Hbig|Hsz]; [wpl_step; split_and!; done || (cbn; lia)|].
  assert (L -> 0 < pa_free w /\ idle w) as HL' by naive_solver. pose proof (last_valid _ _ _ Hheap) as Hlv.
  destruct (list.last pages) as [p|] eqn:El.
  2:{ destruct Hlv as [-> Hlv]. rewrite Hlv. do 2 wpl_step. wpl_use insert_appended; [done|done|done|lia|done|done|].
      intros r s (? & ? & Hfr & ?). split_and!; done || lia. }
  destruct Hlv as (Hlp & Hp & Hu & Hv). rewrite Hlp, Hv. destruct (chain_page _ _ _ _ Hchain Hp) as (d & Hd & Hdok).
  wpl_step. apply wpl_on_pages. wpl_use pa_fetch_spec; [done|done|intros HL1 _; split; [by rewrite Hd|by apply HL']|].
  intros [i|] w1 (Hok1 & Hc1 & Hr1 & Ho).
  - destruct Ho as (_ & Hat1 & Hcl1 & Hh1). pose proof (pa_at_data _ _ _ _ Hok1 Hat1) as Hd1. rewrite Hc1, Hd in Hd1. injection Hd1 as Hd1.
    wpl_step. wpl_step. wpl_step. cbn [snd]. destruct (SP.full (pa_data w1 i) (zlen bs)) eqn:Hfull.
    + wpl_step. apply wpl_on_pages. wpl_use release_page_spec; [done|exact Hat1|done|]. intros [] w2 (Hok2 & Hc2 & Hr2 & Hh2).
      assert (forall j, ct w2 j = ct w j) as Hc by (intros j; by rewrite Hc2, Hc1).
      pose proof (held_back _ _ _ _ Hh1 Hh2) as Hh. apply wpl_unbind. wpl_use insert_appended; [done|by eapply heap_ok_ext| |lia|done|done|].
      { intros HL1. destruct (HL' HL1) as [Hroom Hi]. split; [by rewrite Hr2, Hr1|]. by eapply idle_same. }
      intros r s (Hok3 & Hh3 & Hfr3 & rid & pages' & -> & Hins). split_and!; [done|intros j; by rewrite Hh3, Hh|lia|].
      exists rid, pages'. split; [done|]. by eapply inserted_ext.
    + wpl_step. wpl_use put_spec; [done|by eapply heap_ok_ext|exact El|exact Hat1| |done|done|done|].
      { intros HL1. rewrite Hh1, decide_True by done. destruct (HL' HL1) as [_ Hi]. by rewrite Hi. }
      intros r [h2 w2] (rid & -> & Hrid & Hsl & Hh & Hok2 & Hfr2 & Hheap2 & Hheld & Hc2 & Hn2 & Hst2 & Hoth2 & Hrw2 & Hnew2 & Hiss2). cbn [fst snd] in *. subst h2.
      split_and!; [done|exact (held_back _ _ _ _ Hh1 Hheld)|lia|]. exists rid, pages. split; [done|].
      eapply inserted_ext; [exact Hc1|]. split; try done; [by left|by rewrite Hrid|..].
      { intros j Hj. apply Hc2. intros ->. apply Hj. by right. }
      intros r [[_ Hr]| ->]; apply Hiss2; [by left|by right].
  - destruct Ho as [Hh1 Ho]. wpl_step. apply wpl_unbind. wpl_use insert_appended; [done|by eapply heap_ok_ext| |lia|done|done|].
    { intros HL1. rewrite (Ho HL1) in Hv. done. }
    intros r s (Hok3 & Hh3 & Hfr3 & rid & pages' & -> & Hins). split_and!; [done|intros j; by rewrite Hh3, Hh1|lia|].
    exists rid, pages'. split; [done|]. by eapply inserted_ext.
Qed.

(** *** Reading *)

Lemma get_spec L h w r :
  pa_ok L w -> is_u64 (TU.rid_page r) ->
  (L -> idle w /\ (is_valid (TU.rid_page r) = true -> is_Some (ct w (TU.rid_page r)))) ->
  wpl L (get_tuple r) (h, w) (fun o s => s.1 = h /\ pa_ok L s.2 /\ held_same w s.2 /\ pa_free s.2 = pa_free w /\ (forall j, ct s.2 j = ct w j) /\
    (o = stored (schema_ h) (ct w) r \/ o = None /\ ~ (L /\ is_valid (TU.rid_page r) = true))).
Proof.
  intros Hok Hu HL. unfold get_tuple, this, data. destruct (is_valid (TU.rid_page r)) eqn:Hv; cbn [negb].
  2:{ wpl_step. split_and!; try done. right. split; [done|naive_solver]. }
  wpl_step. apply wpl_on_pages. wpl_use pa_fetch_spec; [done|done|naive_solver|].
  intros [i|] w1 (Hok1 & Hc1 & Hfr1 & Ho).
  - destruct Ho as (_ & Hat & Hcl & Hh1). pose proof (pa_at_data _ _ _ _ Hok1 Hat) as Hd. rewrite Hc1 in Hd.
    do 5 wpl_step. apply wpl_on_pages. wpl_use release_page_spec; [done|exact Hat|done|].
    intros [] w2 (Hok2 & Hc2 & Hfr2 & Hh2). wpl_step. cbn [fst snd]. split_and!; [done|done|exact (held_back _ _ _ _ Hh1 Hh2)|congruence| |].
    + intros j. by rewrite Hc2, Hc1.
    + left. unfold stored. by rewrite Hd.
  - destruct Ho as [Hh1 Ho]. wpl_step. cbn [fst snd]. split_and!; [done|done|done|done|done|]. right. split; [done|].
    intros [HL1 _]. rewrite (Ho HL1) in Hv. done.
Qed.

(** *** Erasing *)

(** Whether [erase_impl] finds a live record. *)
Definition erasable (c : PageId -> option bytes) (r : TU.RecordId) : bool :=
  match c (TU.rid_page r) with
  | Some d => SP.magic d SP.kDataMagic && (TU.rid_slot r <? SP.slots d) && SP.live d (TU.rid_slot r)
  | None => false
  end.

Lemma erasable_stored h (c : PageId -> option bytes) pages r :
  heap_ok h c pages -> TU.rid_page r ∈ pages -> 0 <= TU.rid_slot r ->
  erasable c r = true <-> is_Some (stored (schema_ h) c r).
Proof.
  intros [_ _ _ _ _ _ Hchain] Hr Hs. destruct (chain_page _ _ _ _ Hchain Hr) as (d & Hd & Hok).
  unfold erasable, stored. rewrite Hd. cbn. rewrite SP.lookup_ok by done. unfold SP.magic. rewrite bool_decide_true by apply Hok. cbn [andb].
  destruct (Z.ltb_spec (TU.rid_slot r) (SP.slots d)); cbn [andb]; [|by split; [|intros []]].
  destruct (SP.live d (TU.rid_slot r)) eqn:El; [|by split; [|intros []]]. split; [|done]. intros _.
  destruct (SP.po_slots _ _ Hok (TU.rid_slot r)) as [_ _ Hrec]; [lia|auto].
Qed.

(** What [erase_impl] has done when it returns [b]. *)
Record erased (L : Prop) (h : Heap) (w w' : W) (pages : list PageId) (r : TU.RecordId) (b : bool) : Prop := {
  er_ok : pa_ok L w';
  er_held : held_same w w';
  er_free : pa_free w' = pa_free w;
  er_heap : heap_ok h (ct w') pages;
  er_frame : forall j, b = false \/ j <> TU.rid_page r -> ct w' j = ct w j;
  er_gone : b = true -> is_Some (stored (schema_ h) (ct w) r) /\ stored (schema_ h) (ct w') r = None;
  er_found : L -> is_Some (stored (schema_ h) (ct w) r) -> b = true;
  er_others : forall r', 0 <= TU.rid_slot r' -> r' <> r -> stored (schema_ h) (ct w') r' = stored (schema_ h) (ct w) r';
  er_issued : forall r', issued (ct w) r' -> issued (ct w') r';
  er_rows : heap_rows (schema_ h) (ct w') pages =
    if b then without r (heap_rows (schema_ h) (ct w) pages) else heap_rows (schema_ h) (ct w) pages;
}.

Lemma erased_nothing L h w w' pages r :
  heap_ok h (ct w) pages -> pa_ok L w' -> held_same w w' -> pa_free w' = pa_free w -> (forall j, ct w' j = ct w j) ->
  (L -> is_Some (stored (schema_ h) (ct w) r) -> False) -> erased L h w w' pages r false.
Proof.
  intros Hh H1 H2 Hfr H3 H4. split; try done; [by eapply heap_ok_ext|naive_solver| | |by apply heap_rows_ext].
  - intros r' _ _. unfold stored. by rewrite H3.
  - intros r'. unfold issued. by rewrite H3.
Qed.

Lemma erased_slot L h w w' pages r d :
  heap_ok h (ct w) pages -> TU.rid_page r ∈ pages -> ct w (TU.rid_page r) = Some d -> 0 <= TU.rid_slot r < SP.slots d ->
  is_Some (stored (schema_ h) (ct w) r) -> pa_ok L w' -> held_same w w' -> pa_free w' = pa_free w ->
  (forall j, ct w' j = if decide (j = TU.rid_page r) then Some (SP.kill (TU.rid_slot r) d) else ct w j) ->
  erased L h w w' pages r true.
Proof.
  intros Hheap Hr Hd Hs Hst Hok Hh Hfr Hc. destruct (chain_page _ _ _ _ (ho_chain _ _ _ Hheap) Hr) as (d' & Hd' & Hdok).
  rewrite Hd in Hd'. injection Hd' as <-. destruct (SP.kill_spec (schema_ h) d (TU.rid_slot r) Hdok Hs) as (K1 & K2 & K3 & K4 & K5). split; try done.
  - by eapply heap_ok_page.
  - intros j [?|Hj]; [done|]. by rewrite Hc, decide_False.
  - intros _. split; [done|]. unfold stored. rewrite Hc, decide_True by done. exact K4.
  - intros [p n] Hn Hne. unfold stored. cbn in *. rewrite Hc. case_decide; [|done]. subst p. rewrite Hd. cbn. apply K5; [done|].
    intros ->. by destruct r.
  - intros r' (d0 & Hd0 & ?). unfold issued. rewrite Hc. destruct (decide (TU.rid_page r' = TU.rid_page r)) as [E|E]; [|by exists d0].
    rewrite E, Hd in Hd0. injection Hd0 as <-. eexists. split; [done|]. by rewrite K3.
  - by eapply rows_kill.
Qed.

Lemma erase_spec L h w pages r :
  pa_ok L w -> heap_ok h (ct w) pages -> TU.rid_page r ∈ pages -> 0 <= TU.rid_slot r -> (L -> idle w) ->
  wpl L (erase_impl r) (h, w) (fun b s => s.1 = h /\ erased L h w s.2 pages r b).
Proof.
  intros Hok Hheap Hr Hslot HL. pose proof Hheap as [_ _ _ _ _ Hids Hchain].
  pose proof (proj1 (list.Forall_forall _ _) Hids _ Hr) as [Hu Hv]. pose proof (erasable_stored _ _ _ _ Hheap Hr Hslot) as Hera.
  destruct (chain_page _ _ _ _ Hchain Hr) as (d & Hd & Hdok). unfold erasable in Hera. rewrite Hd in Hera.
  unfold erase_impl, data. wpl_step. apply wpl_on_pages. wpl_use pa_fetch_spec; [done|done|intros HL1 _; split; [by rewrite Hd|by apply HL]|].
  intros [i|] w1 (Hok1 & Hc1 & Hfr1 & Ho).
  2:{ destruct Ho as [Hh1 Ho]. wpl_step. split; [done|]. apply erased_nothing; try done. intros HL1 _. rewrite (Ho HL1) in Hv. done. }
  destruct Ho as (_ & Hat & Hcl & Hh1). pose proof (pa_at_data _ _ _ _ Hok1 Hat) as Hd1. rewrite Hc1, Hd in Hd1. injection Hd1 as Hd1.
  assert ((L -> is_Some (stored (schema_ h) (ct w) r) -> False) ->
    wpl L (on_pages (release (TU.rid_page r) false) ;; ret false) (h, w1) (fun b s => s.1 = h /\ erased L h w s.2 pages r b)) as Hno.
  { intros Hx. wpl_step. apply wpl_on_pages. wpl_use release_page_spec; [done|exact Hat|done|]. intros [] w2 (Hok2 & Hc2 & Hfr2 & Hh2). wpl_step.
    split; [done|]. apply erased_nothing; try done; [exact (held_back _ _ _ _ Hh1 Hh2)|cbn; congruence|intros j; by rewrite Hc2, Hc1]. }
  wpl_step. wpl_step. cbn [snd]. rewrite <- Hd1. unfold SP.magic in *. rewrite bool_decide_true in * by apply Hdok. cbn [negb orb andb] in *.
  destruct (Z.leb_spec (SP.slots d) (TU.rid_slot r)) as [Hge|Hlt].
  { apply Hno. intros _ Hx%Hera. by replace (_ <? _) with false in Hx by lia. }
  replace (TU.rid_slot r <? SP.slots d) with true in Hera by lia. cbn [andb] in Hera.
  destruct (SP.live d (TU.rid_slot r)) eqn:Hlive; cbn [negb]; [|apply Hno; by intros _ Hx%Hera].
  destruct (SP.kill_spec (schema_ h) d (TU.rid_slot r) Hdok) as (K1 & _); [done|].
  wpl_step. apply wpl_on_pages. wpl_use pa_update_spec; [done|done|done|done| |cbn; rewrite <- Hd1; apply K1|].
  { intros HL1. rewrite Hh1, decide_True, (HL HL1) by done. done. }
  intros [] w2 (_ & Hok2 & Hat2 & Hfr2 & Hc2 & Hh2). cbn [snd] in Hc2. rewrite <- Hd1 in Hc2.
  wpl_step. apply wpl_on_pages. wpl_use release_page_spec; [done|exact Hat2|done|]. intros [] w3 (Hok3 & Hc3 & Hfr3 & Hh3). wpl_step. cbn [fst snd].
  split; [done|]. eapply erased_slot; try done; [by apply Hera| |congruence|].
  - refine (held_back w w1 w3 (TU.rid_page r) Hh1 _). intros j. by rewrite Hh3, Hh2.
  - intros j. rewrite Hc3, Hc2. case_decide; [done|apply Hc1].
Qed.

(** *** Scanning *)

Lemma scan_slots_spec s id d ixs out :
  SP.page_ok s d -> (forall i, i ∈ ixs -> 0 <= i < SP.slots d) ->
  scan_slots s id d ixs out = Some (out ++ page_rows s id d ixs).
Proof.
  intros Hok. revert out. induction ixs as [|i ixs IH]; intros out Hi; [by rewrite app_nil_r|]. cbn [scan_slots].
  assert (0 <= i < SP.slots d) as Hir by (apply Hi; left). unfold page_rows. csimpl. rewrite SP.lookup_ok by (done || lia).
  replace (i <? SP.slots d) with true by lia. cbn [andb]. destruct (SP.live d i) eqn:El.
  - destruct (SP.po_slots _ _ Hok i Hir) as [_ _ Hr]. destruct (Hr El) as [t ->]. cbn. rewrite IH by (intros; apply Hi; by right).
    by rewrite <- app_assoc.
  - cbn. apply IH. intros; apply Hi; by right.
Qed.

(** One page of a walk along the chain: pinned, looked at, and unpinned. *)
Lemma walk_page {A} L h w id d (k : option nat -> M (Heap * W) A) Q :
  pa_ok L w -> is_u64 id -> is_valid id = true -> ct w id = Some d -> (L -> idle w) ->
  (forall w', pa_ok L w' -> (forall j, ct w' j = ct w j) -> held_same w w' -> pa_free w' = pa_free w -> ~ L -> wpl L (k None) (h, w') Q) ->
  (forall i w1, pa_data w1 i = d -> (forall m, (forall w2, pa_ok L w2 -> (forall j, ct w2 j = ct w j) -> held_same w w2 -> pa_free w2 = pa_free w -> wpl L m (h, w2) Q) ->
     wpl L (on_pages (release id false) ;; m) (h, w1) Q) -> wpl L (k (Some i)) (h, w1) Q) ->
  wpl L (let! p := on_pages (pa_fetch id) in k p) (h, w) Q.
Proof.
  intros Hok Hu Hv Hd HL Hn Hs. wpl_step. apply wpl_on_pages. wpl_use pa_fetch_spec; [done|done|intros HL1 _; split; [by rewrite Hd|by apply HL]|].
  intros [i|] w1 (Hok1 & Hc1 & Hfr1 & Ho).
  - destruct Ho as (_ & Hat & Hcl & Hh1). pose proof (pa_at_data _ _ _ _ Hok1 Hat) as Hd1. rewrite Hc1, Hd in Hd1. injection Hd1 as Hd1.
    apply Hs; [done|]. intros m Hm. wpl_step. apply wpl_on_pages. wpl_use release_page_spec; [done|exact Hat|done|].
    intros [] w2 (Hok2 & Hc2 & Hfr2 & Hh2). apply Hm; [done|intros j; by rewrite Hc2, Hc1|exact (held_back _ _ _ _ Hh1 Hh2)|congruence].
  - destruct Ho as [Hh1 Ho]. apply Hn; [done|done|done|done|]. intros HL1. rewrite (Ho HL1) in Hv. done.
Qed.

Lemma scan_from_spec L h fuel pages w out :
  pa_ok L w -> chain (ct w) (schema_ h) pages -> Forall (fun id => is_u64 id /\ is_valid id = true) pages -> (L -> idle w) ->
  (length pages <= fuel)%nat ->
  wpl L (scan_from fuel (default kInvalidValue (head pages)) out) (h, w) (fun o s =>
    o = Some (out ++ heap_rows (schema_ h) (ct w) pages) /\
    s.1 = h /\ pa_ok L s.2 /\ held_same w s.2 /\ pa_free s.2 = pa_free w /\ forall j, ct s.2 j = ct w j).
Proof.
  revert fuel w out. induction pages as [|id pages IH]; intros fuel w out Hok Hc Hids HL Hf.
  { destruct fuel; cbn; wpl_step; by rewrite app_nil_r. }
  destruct fuel as [|fuel]; [cbn in Hf; lia|]. destruct Hc as [(d & Hd & Hdok & Hn) Hc]. apply list.Forall_cons in Hids as [[Hu Hv] Hids].
  change (default kInvalidValue (head (id :: pages))) with id. cbn [scan_from]. rewrite Hv. cbn [negb].
  apply (walk_page L h w id d); [done|done|done|done|done|intros; by wpl_step|]. intros i w1 Hd1 Hgo. unfold this, data. do 4 wpl_step. cbn [fst snd]. rewrite Hd1.
  unfold SP.magic. rewrite bool_decide_true by apply Hdok. cbn [negb].
  rewrite (scan_slots_spec _ id d) by (done || (intros j ?%elem_of_seqZ; lia)). apply Hgo. intros w2 Hok2 Hc2 Hh2 Hfr2. rewrite Hn.
  wpl_use IH; [done| |done|intros HL1; eapply idle_same; eauto|cbn in Hf; lia|].
  { eapply chain_step; [exact Hc|]. intros j dj _ Hj Hjok. exists dj. by rewrite Hc2. }
  intros o s (-> & Hs & Hok3 & Hh3 & Hfr3 & Hc3). split_and!; [|done|done|intros j; by rewrite Hh3, Hh2|congruence|intros j; by rewrite Hc3, Hc2].
  rewrite (heap_rows_ext _ _ _ _ Hc2), <- app_assoc. unfold heap_rows. cbn. unfold rows_at at 2. by rewrite Hd.
Qed.

Lemma validate_from_spec L h fuel pages w :
  pa_ok L w -> chain (ct w) (schema_ h) pages -> Forall (fun id => is_u64 id /\ is_valid id = true) pages -> (L -> idle w) ->
  (length pages <= fuel)%nat ->
  wpl L (validate_from fuel (default kInvalidValue (head pages))) (h, w) (fun o s =>
    (L -> o = Some true) /\ s.1 = h /\ pa_ok L s.2 /\ held_same w s.2 /\ pa_free s.2 = pa_free w /\ forall j, ct s.2 j = ct w j).
Proof.
  revert fuel w. induction pages as [|id pages IH]; intros fuel w Hok Hc Hids HL Hf.
  { destruct fuel; cbn; by wpl_step. }
  destruct fuel as [|fuel]; [cbn in Hf; lia|]. destruct Hc as [(d & Hd & Hdok & Hn) Hc]. apply list.Forall_cons in Hids as [[Hu Hv] Hids].
  change (default kInvalidValue (head (id :: pages))) with id. cbn [validate_from]. rewrite Hv. cbn [negb].
  apply (walk_page L h w id d); [done|done|done|done|done|intros; by wpl_step|]. intros i w1 Hd1 Hgo. unfold this, data. do 4 wpl_step. cbn [fst snd]. rewrite Hd1.
  unfold SP.magic. rewrite bool_decide_true by apply Hdok. cbn [negb]. rewrite SP.page_ok_valid by done. cbn [negb].
  apply Hgo. intros w2 Hok2 Hc2 Hh2 Hfr2. rewrite Hn.
  wpl_use IH; [done| |done|intros HL1; eapply idle_same; eauto|cbn in Hf; lia|].
  { eapply chain_step; [exact Hc|]. intros j dj _ Hj Hjok. exists dj. by rewrite Hc2. }
  intros o s (Ho & Hs & Hok3 & Hh3 & Hfr3 & Hc3). split_and!; [done|done|done|intros j; by rewrite Hh3, Hh2|congruence|intros j; by rewrite Hc3, Hc2].
Qed.

End specs.
(** ** The abstract table

    A client sees records with identifiers; an identifier is never given out twice. *)

Inductive Op : Type := OpInsert (t : TU.Tuple) | OpErase (r : TU.RecordId) | OpGet (r : TU.RecordId) | OpScan.
Inductive Res : Type :=
  | RInsert (o : option TU.RecordId) | RErase (b : bool) | RGet (o : option TU.Tuple) | RScan (o : option (list Row)).

Definition run_op {W} `{PageAccess W} (fuel : nat) (o : Op) : M (Heap * W) Res :=
  match o with
  | OpInsert t => let! x := insert_impl t in ret (RInsert x)
  | OpErase r => let! x := erase_impl r in ret (RErase x)
  | OpGet r => let! x := get_tuple r in ret (RGet x)
  | OpScan => let! x := scan fuel in ret (RScan x)
  end.

Record Table : Type := mkTable { tb_issued : list TU.RecordId; tb_rows : list Row }.

Definition fits (t : TU.Tuple) : Prop := zlen (TU.serialized t) + SP.kHeader + SP.kSlot <= kPagePayloadSize.

(** The record with that identifier. *)
Definition find_row (r : TU.RecordId) (l : list Row) : option TU.Tuple := (list_find (fun x => x.1 = r) l) ≫= fun y => Some y.2.2.

Inductive abs_step : Op -> Res -> Table -> Table -> Prop :=
  | abs_insert t r T : fits t -> r ∉ tb_issued T ->
      abs_step (OpInsert t) (RInsert (Some r)) T (mkTable (r :: tb_issued T) (tb_rows T ++ [(r, t)]))
  | abs_too_large t T : ~ fits t -> abs_step (OpInsert t) (RInsert None) T T
  | abs_erase r T :
      abs_step (OpErase r) (RErase (bool_decide (r ∈ (tb_rows T).*1))) T (mkTable (tb_issued T) (without r (tb_rows T)))
  | abs_get r T : abs_step (OpGet r) (RGet (find_row r (tb_rows T))) T T
  | abs_scan T : abs_step OpScan (RScan (Some (tb_rows T))) T T.

(** What a client may ask for: tuples of the schema, identifiers it was given. *)
Definition allowed (s : TU.Schema) (T : Table) (o : Op) : Prop :=
  match o with
  | OpInsert t => Forall TU.value_wf t /\ TU.validates s t = true
  | OpErase r | OpGet r => r ∈ tb_issued T
  | OpScan => True
  end.

(** How many pages an operation may need. *)
Definition cost (o : Op) : Z := match o with OpInsert _ => 1 | _ => 0 end.

Lemma find_row_elem r l t : NoDup l.*1 -> (r, t) ∈ l -> find_row r l = Some t.
Proof.
  intros Hnd Hin. unfold find_row. destruct (list_find _ l) as [[i [r' t']]|] eqn:E.
  - apply list_find_Some in E as (Hi & Hr & _). cbn in *. subst r'. f_equal. apply list_elem_of_lookup in Hin as [j Hj].
    assert (j = i) as -> by (eapply list.NoDup_lookup; [exact Hnd|by rewrite list_lookup_fmap, Hj|by rewrite list_lookup_fmap, Hi]). congruence.
  - apply list_find_None in E. rewrite list.Forall_forall in E. by specialize (E _ Hin).
Qed.

Lemma find_row_none r l : (forall t, (r, t) ∉ l) -> find_row r l = None.
Proof.
  intros Hn. unfold find_row. destruct (list_find _ l) as [[i [r' t']]|] eqn:E; [|done].
  apply list_find_Some in E as (Hi & Hr & _). cbn in Hr. subst r'. exfalso. apply (Hn t'). by eapply list_elem_of_lookup_2.
Qed.

Section table.
Context {W : Type} `{PageAccessLaws W}.
Implicit Types (h : Heap) (w : W) (T : Table).
Abbreviation ct w := (pa_content w).

(** The heap shows the table on these pages. *)
Record shows (s : TU.Schema) h w (pages : list PageId) T : Prop := {
  sh_ok : pa_ok True w;
  sh_idle : idle w;
  sh_schema : schema_ h = s;
  sh_heap : heap_ok h (ct w) pages;
  sh_rows : tb_rows T = heap_rows s (ct w) pages;
  sh_issued : forall r, r ∈ tb_issued T -> TU.rid_page r ∈ pages /\ issued (ct w) r;
}.

Lemma find_stored s h w pages T r :
  shows s h w pages T -> TU.rid_page r ∈ pages -> 0 <= TU.rid_slot r -> find_row r (tb_rows T) = stored s (ct w) r.
Proof.
  intros [_ _ <- Hheap -> _] Hp Hr. pose proof (ho_nodup _ _ _ Hheap) as [_ Hnd]%list.NoDup_cons.
  pose proof (fun t => rows_elem h (ct w) pages r t Hheap) as He.
  destruct (stored (schema_ h) (ct w) r) as [t|] eqn:E.
  - apply find_row_elem; [by apply rows_nodup|]. by apply He.
  - apply find_row_none. intros t (_ & _ & Ht)%He. congruence.
Qed.

Lemma stored_rows s h w pages T r :
  shows s h w pages T -> TU.rid_page r ∈ pages -> 0 <= TU.rid_slot r -> is_Some (stored s (ct w) r) <-> r ∈ (tb_rows T).*1.
Proof.
  intros [_ _ <- Hheap -> _] Hp Hr. rewrite list_elem_of_fmap. split.
  - intros [t Ht]. exists (r, t). split; [done|]. by apply rows_elem.
  - intros ([r' t] & Hx & Hin). cbn in Hx. subst r'. apply rows_elem in Hin as (_ & _ & ?); [by exists t|done].
Qed.
Lemma shows_same s h w w' pages T :
  shows s h w pages T -> pa_ok True w' -> held_same w w' -> (forall j, ct w' j = ct w j) -> shows s h w' pages T.
Proof.
  intros [H1 H2 H3 H4 H5 H6] Hok Hh Hc. split; [done|by eapply idle_same|done|by eapply heap_ok_ext|by rewrite (heap_rows_ext _ _ _ _ Hc)|].
  intros r Hr. unfold issued. rewrite Hc. by apply H6.
Qed.

Lemma simulate_insert fuel s h w pages T t :
  shows s h w pages T -> Forall TU.value_wf t -> TU.validates s t = true -> 0 < pa_free w ->
  exists x h' w' pages' T', run_op fuel (OpInsert t) (h, w) = (Ok x, (h', w')) /\ abs_step (OpInsert t) x T T' /\
    shows s h' w' pages' T' /\ (length pages' <= length pages + 1)%nat /\ pa_free w - 1 <= pa_free w'.
Proof.
  intros Hsh Hwf Hval Hfree. pose proof Hsh as [Hok Hidle Hs Hheap Hrows Hiss].
  destruct (wpl_total True (insert_impl t) (h, w) _ I (insert_spec True h w pages t Hok Hheap Hwf ltac:(rewrite Hs; done)))
    as (x & [h' w'] & E & Hok' & Hh & Hfr & Hx). cbn [run_op]. unfold bind. rewrite E. cbn [fst snd] in *.
  destruct (Z.ltb_spec kPagePayloadSize (zlen (TU.serialized t) + SP.kHeader + SP.kSlot)).
  - destruct Hx as [-> [= -> ->]]. eexists _, h, w, pages, T. split_and!; [done|constructor; unfold fits; lia|done|lia|lia].
  - destruct Hx as (rid & pages' & -> & [Is Im Ih Ip Ipg _ _ _ _ Inew Iiss Irows]).
    eexists _, h', w', pages', _. split_and!; [done|apply (abs_insert t rid); [unfold fits; lia|]|..|lia].
    + intros Hr. by apply Inew, Hiss.
    + rewrite Hs in *. split; cbn; [done|by eapply idle_same|done|done|by rewrite Hrows, Irows|].
      intros r [->|Hr]%elem_of_cons; [split; [done|by apply Iiss; right]|]. destruct (Hiss r Hr) as [Hp Hi].
      split; [|by apply Iiss; left]. destruct Ip as [->|(id & -> & _)]; [done|]. apply elem_of_app. by left.
    + destruct Ip as [->|(id & -> & _)]; [lia|]. rewrite length_app. cbn. lia.
Qed.

Lemma simulate_erase fuel s h w pages T r :
  shows s h w pages T -> r ∈ tb_issued T ->
  exists x w' T', run_op fuel (OpErase r) (h, w) = (Ok x, (h, w')) /\ abs_step (OpErase r) x T T' /\ shows s h w' pages T' /\ pa_free w' = pa_free w.
Proof.
  intros Hsh Hr. pose proof Hsh as [Hok Hidle Hs Hheap Hrows Hiss]. destruct (Hiss r Hr) as [Hp (d & Hd & Hsl)].
  destruct (wpl_total True (erase_impl r) (h, w) _ I (erase_spec True h w pages r Hok Hheap Hp ltac:(lia) ltac:(done)))
    as (b & [h' w'] & E & Hh & [Eok Eh Ef Eheap _ Egone Efound _ Eiss Erows]). cbn [fst snd] in *. subst h'. cbn [run_op]. unfold bind. rewrite E.
  pose proof (stored_rows _ _ _ _ _ r Hsh Hp ltac:(lia)) as Hst. rewrite Hs in *.
  assert (b = bool_decide (r ∈ (tb_rows T).*1)) as Hb.
  { destruct b; symmetry; [apply bool_decide_true, Hst; by apply Egone|]. apply bool_decide_false. intros Hx%Hst. by specialize (Efound I Hx). }
  eexists _, w', _. split_and!; [done|rewrite Hb; constructor| |done]. split; cbn; [done|by eapply idle_same|done|done| |].
  - rewrite Hrows, Erows. destruct b; [done|]. symmetry in Hb. apply bool_decide_eq_false in Hb. apply filter_id.
    intros [r' t] Hin Hx. cbn in Hx. subst r'. apply Hb. rewrite Hrows. apply list_elem_of_fmap. by exists (r, t).
  - intros r' Hr'. destruct (Hiss r' Hr') as [? ?]. split; [done|by apply Eiss].
Qed.

Lemma simulate_get fuel s h w pages T r :
  shows s h w pages T -> r ∈ tb_issued T ->
  exists x w', run_op fuel (OpGet r) (h, w) = (Ok x, (h, w')) /\ abs_step (OpGet r) x T T /\ shows s h w' pages T /\ pa_free w' = pa_free w.
Proof.
  intros Hsh Hr. pose proof Hsh as [Hok Hidle Hs Hheap Hrows Hiss]. destruct (Hiss r Hr) as [Hp (d & Hd & Hsl)].
  pose proof (proj1 (list.Forall_forall _ _) (ho_ids _ _ _ Hheap) _ Hp) as [Hu Hv].
  destruct (wpl_total True (get_tuple r) (h, w) _ I (get_spec True h w r Hok Hu ltac:(intros _; split; [done|by rewrite Hd])))
    as (o & [h' w'] & E & Hh & Hok' & Hheld & Hfr & Hc & Ho). cbn [fst snd] in *. subst h'. cbn [run_op]. unfold bind. rewrite E.
  eexists _, w'. split_and!; [done| |by eapply shows_same|done]. destruct Ho as [->|[_ []]]; [|done].
  rewrite Hs, <- (find_stored _ _ _ _ _ r Hsh Hp) by lia. constructor.
Qed.

Lemma simulate_scan fuel s h w pages T :
  shows s h w pages T -> (length pages <= fuel)%nat ->
  exists x w', run_op fuel OpScan (h, w) = (Ok x, (h, w')) /\ abs_step OpScan x T T /\ shows s h w' pages T /\ pa_free w' = pa_free w.
Proof.
  intros Hsh Hf. pose proof Hsh as [Hok Hidle Hs Hheap Hrows Hiss].
  destruct (wpl_total True (scan_from fuel (default kInvalidValue (head pages)) []) (h, w) _ I
    (scan_from_spec True h fuel pages w [] Hok (ho_chain _ _ _ Hheap) (ho_ids _ _ _ Hheap) ltac:(done) Hf))
    as (o & [h' w'] & E & -> & Hh & Hok' & Hheld & Hfr & Hc). cbn [fst snd app] in *. subst h'.
  cbn [run_op]. unfold scan, this, gets, get, bind. cbn [fst]. rewrite (ho_first _ _ _ Hheap), E.
  eexists _, w'. split_and!; [done| |by eapply shows_same|done]. rewrite Hs, <- Hrows. constructor.
Qed.

End table.

(** ** The overloads

    Without a context, with a context of the caller, and under a transaction, which binds its
    context to the pool first. *)

Definition insert (t : TU.Tuple) : M (Heap * AC.Plain) (option TU.RecordId) := insert_impl t.
Definition insert_captured (t : TU.Tuple) : M (Heap * AC.Captured) (option TU.RecordId) := insert_impl t.
Definition insert_in (provider : bool) (pool : Z) (t : TU.Tuple) : M (Heap * AC.Session provider) (option TU.RecordId) :=
  on_pages (W := AC.Session provider) (TX.mutation_context pool) ;; insert_impl (W := AC.Session provider) t.

Definition erase (r : TU.RecordId) : M (Heap * AC.Plain) bool := erase_impl r.
Definition erase_captured (r : TU.RecordId) : M (Heap * AC.Captured) bool := erase_impl r.
Definition erase_in (provider : bool) (pool : Z) (r : TU.RecordId) : M (Heap * AC.Session provider) bool :=
  on_pages (W := AC.Session provider) (TX.mutation_context pool) ;; erase_impl (W := AC.Session provider) r.
(** ** The claims *)

(** A new table: on a healthy store with a free page, [create] and then opening the page it
    returns give a heap that shows the empty table; the pages of others keep their contents. *)
Theorem create_then_open {W} `{PageAccessLaws W} (s : TU.Schema) (w : W) :
  pa_ok True w -> idle w -> s <> [] -> 0 < pa_free w ->
  exists id h w1 w2, create (ret tt) s w = (Ok id, w1) /\ open id s w1 = (Ok h, w2) /\
    meta_ h = id /\ pa_content w id = None /\ shows s h w2 [] (mkTable [] []) /\ pa_free w2 = pa_free w - 1 /\
    forall j, j <> id -> pa_content w2 j = pa_content w j.
Proof.
  intros Hok Hi Hs Hf.
  destruct (wpl_total True _ w _ I (create_spec True s w Hok Hs ltac:(done))) as (id & w1 & E1 & Hok1 & Hh1 & Hf1 & Hn & Hheap1 & Hc1).
  set (h := mkHeap id s kInvalidValue kInvalidValue) in *.
  destruct (wpl_total True _ w1 _ I (open_spec True h w1 [] Hok1 Hheap1 ltac:(intros _; by eapply idle_same))) as (h2 & w2 & E2 & -> & Hok2 & Hh2 & Hf2 & Hc2).
  exists id, h, w1, w2. split_and!; [done|exact E2|done|done| |congruence|intros j Hj; rewrite Hc2; by apply Hc1].
  split; [done|intros j; by rewrite Hh2, Hh1|done|by eapply heap_ok_ext|done|by intros r ?%not_elem_of_nil].
Qed.

(** C9: The heap implements the table: whatever of [insert], [erase], [get] and [scan] a client
    calls, with tuples of the schema and identifiers it was given, the call returns what the
    abstract table answers, and the heap then shows the table after the step.  In particular an
    insertion answers an identifier that was never given out, not even to a record since erased;
    a scan within [length pages] pages ends with all the live records in the order of their
    insertion; a tuple is refused exactly if it does not fit into an empty page. *)
Theorem heap_simulates_table {W} `{PageAccessLaws W} fuel s h (w : W) pages T o :
  shows s h w pages T -> allowed s T o -> cost o <= pa_free w -> (length pages <= fuel)%nat ->
  exists x h' w' pages' T', run_op fuel o (h, w) = (Ok x, (h', w')) /\ abs_step o x T T' /\
    shows s h' w' pages' T' /\ (length pages' <= length pages + 1)%nat /\ pa_free w - cost o <= pa_free w'.
Proof.
  intros Hsh Hal Hc Hf. destruct o as [t|r|r|]; cbn [cost allowed] in *.
  - destruct Hal as [Hwf Hval]. apply simulate_insert; done || lia.
  - destruct (simulate_erase fuel _ _ _ _ _ r Hsh Hal) as (x & w' & T' & ? & ? & ? & ?). exists x, h, w', pages, T'. split_and!; done || lia.
  - destruct (simulate_get fuel _ _ _ _ _ r Hsh Hal) as (x & w' & ? & ? & ? & ?). exists x, h, w', pages, T. split_and!; done || lia.
  - destruct (simulate_scan fuel _ _ _ _ _ Hsh Hf) as (x & w' & ? & ? & ? & ?). exists x, h, w', pages, T. split_and!; done || lia.
Qed.

(** C10: [insert_impl], however the pages are reached and whatever fails: it returns normally only if
    the record is in the table as the last row, with a new identifier, every other record and every
    page that is not of this heap as before, and the heap well formed; or without any change if the
    tuple is too large.  No page stays pinned.  It throws only if the environment fails, the
    database is full, or the tuple is not of the schema. *)
Theorem insert_correct {W} `{PageAccessLaws W} L h (w : W) pages t r h' w' :
  pa_ok L w -> heap_ok h (pa_content w) pages -> Forall TU.value_wf t ->
  (L -> TU.validates (schema_ h) t = true /\ 0 < pa_free w /\ idle w) ->
  insert_impl t (h, w) = (r, (h', w')) ->
  match r with
  | Ok (Some rid) => fits t /\ pa_ok L w' /\ held_same w w' /\ exists pages', inserted h h' w w' t rid pages pages'
  | Ok None => ~ fits t /\ (h', w') = (h, w)
  | Throw _ => ~ L
  end.
Proof.
  intros Hok Hheap Hwf HL E. pose proof (wpl_run _ _ _ _ _ _ (insert_spec L h w pages t Hok Hheap Hwf HL) E) as Hx. cbn beta in Hx.
  destruct r as [o|e]; [|done]. destruct Hx as (Hok' & Hh & _ & Hx). unfold fits. cbn [fst snd] in *.
  destruct (Z.ltb_spec kPagePayloadSize (zlen (TU.serialized t) + SP.kHeader + SP.kSlot)).
  - destruct Hx as [-> Hx]. split; [lia|done].
  - destruct Hx as (rid & pages' & -> & Hx). split_and!; [lia|done|done|by exists pages'].
Qed.

(** [erase_impl], however the pages are reached and whatever fails: [true] means that the record
    was live and is gone, [false] that nothing has changed; no other record changes, identifiers
    stay issued, the heap stays well formed, no page stays pinned.  If the environment does not
    fail, the answer is [true] exactly for the live records. *)
Theorem erase_correct {W} `{PageAccessLaws W} L h (w : W) pages r b h' w' :
  pa_ok L w -> heap_ok h (pa_content w) pages -> TU.rid_page r ∈ pages -> 0 <= TU.rid_slot r -> (L -> idle w) ->
  erase_impl r (h, w) = (b, (h', w')) ->
  match b with
  | Ok b => h' = h /\ erased L h w w' pages r b
  | Throw _ => ~ L
  end.
Proof. intros Hok Hheap Hr Hs HL E. exact (wpl_run _ _ _ _ _ _ (erase_spec L h w pages r Hok Hheap Hr Hs HL) E). Qed.

(** [validate_invariants] accepts every well-formed heap of a healthy store, within as many steps as
    the heap has pages. *)
Theorem validate_accepts {W} `{PageAccessLaws W} fuel h (w : W) pages :
  pa_ok True w -> idle w -> heap_ok h (pa_content w) pages -> (length pages <= fuel)%nat ->
  exists w', validate_invariants fuel (h, w) = (Ok (Some true), (h, w')) /\ forall j, pa_content w' j = pa_content w j.
Proof.
  intros Hok Hi Hheap Hf. unfold validate_invariants, this, gets, get, bind. cbn [fst]. rewrite (ho_first _ _ _ Hheap).
  destruct (wpl_total True _ (h, w) _ I (validate_from_spec True h fuel pages w Hok (ho_chain _ _ _ Hheap) (ho_ids _ _ _ Hheap) ltac:(done) Hf))
    as (o & [h' w'] & E & Ho & Hh & _ & _ & _ & Hc). cbn [fst snd] in *. subst h'. rewrite E, Ho by done. by exists w'.
Qed.

(** ** Witnesses *)

#[local] Opaque AC.fresh.

Definition sch : TU.Schema := [TU.mkColumn "id" TU.Int64].
Definition row (n : Z) : TU.Tuple := [TU.VInt n].

(** A new table, with one record. *)
Definition made : Heap * AC.Plain :=
  match create (ret tt) sch (AC.fresh 3) with
  | (Ok id, w) => (mkHeap id sch kInvalidValue kInvalidValue, w)
  | (Throw _, w) => (mkHeap 0 sch 0 0, w)
  end.

Lemma made_shows : shows sch made.1 made.2 [] (mkTable [] []) /\ 0 < pa_free made.2.
Proof.
  destruct (AC.fresh_ok 3) as (Hok & Hi & Hf).
  destruct (wpl_total True _ _ _ I (create_spec True sch (AC.fresh 3) Hok ltac:(done) ltac:(intros _; split; [lia|done])))
    as (id & w1 & E1 & Hok1 & Hh1 & Hf1 & Hn & Hheap1 & Hc1).
  unfold made. rewrite E1. cbn [fst snd]. split; [|lia].
  split; [exact Hok1|exact (idle_same _ _ Hi Hh1)|reflexivity|exact Hheap1|reflexivity|]. intros r Hr. exfalso. exact (not_elem_of_nil r Hr).
Qed.
#[local] Opaque made.

Lemma create_then_open_witness :
  exists id h w1 w2, create (ret tt) sch (AC.fresh 3) = (Ok id, w1) /\ open id sch w1 = (Ok h, w2) /\
    meta_ h = id /\ pa_content (AC.fresh 3) id = None /\ shows sch h w2 [] (mkTable [] []) /\
    pa_free w2 = pa_free (AC.fresh 3) - 1 /\ (forall j, j <> id -> pa_content w2 j = pa_content (AC.fresh 3) j).
Proof.
  destruct (AC.fresh_ok 3) as (Hok & Hi & Hf). apply (create_then_open sch (AC.fresh 3) Hok Hi); [discriminate|lia].
Defined.

Lemma row_fits n : - 2 ^ 63 <= n < 2 ^ 63 -> Forall TU.value_wf (row n) /\ TU.validates sch (row n) = true.
Proof. intros Hn. split; [|done]. by apply list.Forall_singleton. Qed.

Lemma heap_simulates_table_witness :
  exists x h' w' pages' T', run_op 0 (OpInsert (row 7)) (made.1, made.2) = (Ok x, (h', w')) /\ abs_step (OpInsert (row 7)) x (mkTable [] []) T' /\
    shows sch h' w' pages' T' /\ (length pages' <= length (@nil PageId) + 1)%nat /\ pa_free made.2 - cost (OpInsert (row 7)) <= pa_free w'.
Proof.
  destruct made_shows as [Hs Hf].
  apply (heap_simulates_table 0 sch made.1 made.2 [] (mkTable [] []) (OpInsert (row 7)) Hs); [apply row_fits; lia|cbn [cost]; lia|cbn [length]; lia].
Defined.

(** The record inserted. *)
Definition filled : outcome (option TU.RecordId) * (Heap * AC.Plain) := insert_impl (row 7) (made.1, made.2).
Definition filled_rid : TU.RecordId := match filled.1 with Ok (Some r) => r | _ => TU.mkRid 0 0 end.

Lemma filled_facts : exists pages, inserted made.1 filled.2.1 made.2 filled.2.2 (row 7) filled_rid [] pages /\ filled.1 = Ok (Some filled_rid) /\
  pa_ok True filled.2.2 /\ idle filled.2.2 /\ 0 <= TU.rid_slot filled_rid.
Proof.
  destruct made_shows as [[Hok Hi Hs Hheap _ _] Hf]. destruct (row_fits 7) as [Hwf Hval]; [lia|]. rewrite <- Hs in Hval.
  destruct (wpl_total True (insert_impl (row 7)) (made.1, made.2) _ I (insert_spec True made.1 made.2 [] (row 7) Hok Hheap Hwf (fun _ => conj Hval (conj Hf Hi))))
    as (x & s & E & Hok' & Hh & Hfr & Hx).
  replace (kPagePayloadSize <? _) with false in Hx by (vm_compute; reflexivity). destruct Hx as (rid & pages & -> & Hins).
  assert (filled = (Ok (Some rid), s)) as Hfl by exact E. unfold filled_rid. rewrite Hfl. cbn [fst snd]. exists pages.
  split; [exact Hins|]. split; [reflexivity|]. split; [exact Hok'|]. split; [exact (idle_same _ _ Hi Hh)|]. destruct (in_issued _ _ _ _ _ _ _ _ Hins rid (or_intror eq_refl)) as (d & _ & Hz & _). exact Hz.
Qed.

Lemma insert_correct_witness :
  match filled.1 with
  | Ok (Some rid) => fits (row 7) /\ pa_ok True filled.2.2 /\ held_same made.2 filled.2.2 /\
      exists pages', inserted made.1 filled.2.1 made.2 filled.2.2 (row 7) rid [] pages'
  | Ok None => ~ fits (row 7) /\ (filled.2.1, filled.2.2) = (made.1, made.2)
  | Throw _ => ~ True
  end.
Proof.
  destruct made_shows as [[Hok Hi Hs Hheap _ _] Hf]. destruct (row_fits 7) as [Hwf Hval]; [lia|]. rewrite <- Hs in Hval.
  apply (insert_correct True made.1 made.2 [] (row 7) filled.1 filled.2.1 filled.2.2 Hok Hheap Hwf (fun _ => conj Hval (conj Hf Hi))).
  exact (run_eta filled).
Defined.

#[local] Opaque filled.

Lemma erase_correct_witness :
  exists pages, match (erase_impl filled_rid (filled.2.1, filled.2.2)).1 with
    | Ok b => (erase_impl filled_rid (filled.2.1, filled.2.2)).2.1 = filled.2.1 /\
        erased True filled.2.1 filled.2.2 (erase_impl filled_rid (filled.2.1, filled.2.2)).2.2 pages filled_rid b
    | Throw _ => ~ True
    end.
Proof.
  destruct filled_facts as (pages & [_ _ Hheap _ Hp _ _ _ _ _ _ _] & _ & Hok & Hi & Hs). exists pages.
  apply (erase_correct True filled.2.1 filled.2.2 pages filled_rid _ _ _ Hok Hheap Hp Hs (fun _ => Hi)).
  exact (run_eta (erase_impl filled_rid (filled.2.1, filled.2.2))).
Defined.

Lemma validate_accepts_witness :
  exists (pages : list PageId) w', validate_invariants (length pages) (filled.2.1, filled.2.2) = (Ok (Some true), (filled.2.1, w')) /\
    (forall j, pa_content w' j = pa_content filled.2.2 j).
Proof.
  destruct filled_facts as (pages & [_ _ Hheap _ Hp _ _ _ _ _ _ _] & _ & Hok & Hi & Hs). exists pages.
  apply (validate_accepts (length pages) filled.2.1 filled.2.2 pages Hok Hi Hheap). reflexivity.
Defined.

End TH.
