(* ===== verification/TreeNode.v ===== *)
(** * The nodes of the B+ tree and their pages

    Models the private [Node], the page layout and the two codecs of
    [src/src/index/bplus_tree.cpp]: [node_of] is what [read_node] builds from a payload,
    [node_bytes] what [write_node] leaves in the page. *)

From S2P Require Import Prelude Bytes Page Payload Tuple.

Module BN.

Definition kHeaderSize : Z := 32.
Definition kLeafEntrySize : Z := 20.
Definition kInternalEntrySize : Z := 16.
(** ['D','D','B','B','P','T','3',0] *)
Definition kMetadataMagic : bytes := [68; 68; 66; 66; 80; 84; 51; 0].

(** [KeyType] is [std::int64_t]. *)
Definition is_s64 (k : Z) : Prop := - 2 ^ 63 <= k < 2 ^ 63.

Record BPlusTreeConfig : Type := mkConfig { leaf_max_keys : Z; internal_max_keys : Z }.

Record Node : Type := mkNode {
  leaf : bool;
  parent : PageId;
  next : PageId;
  keys : list Z;
  values : list TU.RecordId;
  children : list PageId;
}.
Definition set_parent_ (p : PageId) (n : Node) : Node := mkNode (leaf n) p (next n) (keys n) (values n) (children n).

#[global] Instance Node_eq_dec : EqDecision Node.
Proof. solve_decision. Defined.

(** ** Layout *)

(** The loops that write and read the entries of a node. *)
Fixpoint put_entries {A} (put : bytes -> Z -> A -> bytes) (step at_ : Z) (l : list A) (d : bytes) : bytes :=
  match l with
  | [] => d
  | x :: l => put_entries put step (at_ + step) l (put d at_ x)
  end.
Definition get_entries {A} (get : bytes -> Z -> A) (step at_ n : Z) (d : bytes) : list A :=
  (fun i => get d (at_ + i * step)) <$> seqZ 0 n.

Definition put_leaf_entry (d : bytes) (at_ : Z) (x : Z * TU.RecordId) : bytes :=
  put32 (put64 (put64 d at_ (to_u64 x.1)) (at_ + 8) (TU.rid_page x.2)) (at_ + 16) (TU.rid_slot x.2).
Definition get_leaf_entry (d : bytes) (at_ : Z) : Z * TU.RecordId :=
  (TU.to_s64 (get64 d at_), TU.mkRid (get64 d (at_ + 8)) (get32 d (at_ + 16))).

Definition put_internal_entry (d : bytes) (at_ : Z) (x : Z * PageId) : bytes :=
  put64 (put64 d at_ (to_u64 x.1)) (at_ + 8) x.2.
Definition get_internal_entry (d : bytes) (at_ : Z) : Z * PageId := (TU.to_s64 (get64 d at_), get64 d (at_ + 8)).

(** The header of [write_node]: kind, parent, next and the number of keys, in a cleared page. *)
Definition header_bytes (n : Node) : bytes :=
  let d := blit (zeros kPagePayloadSize) 0 [if leaf n then 1 else 2] in
  let d := put64 d 4 (parent n) in
  let d := put64 d 12 (next n) in
  put16 d 20 (to_u16 (zlen (keys n))).

Definition node_bytes (n : Node) : bytes :=
  let d := header_bytes n in
  if leaf n then put_entries put_leaf_entry kLeafEntrySize kHeaderSize (zip (keys n) (values n)) d
  else
    let d := put64 d kHeaderSize (hd 0 (children n)) in
    put_entries put_internal_entry kInternalEntrySize (kHeaderSize + 8) (zip (keys n) (tail (children n))) d.

(** The number of keys a node may have. *)
Definition max_keys (cfg : BPlusTreeConfig) (is_leaf : bool) : Z :=
  if is_leaf then leaf_max_keys cfg else internal_max_keys cfg.

(** The test of [read_node]. *)
Definition well_formed (cfg : BPlusTreeConfig) (d : bytes) : bool :=
  let kind := byte_at d 0 in
  ((kind =? 1) || (kind =? 2)) && (get16 d 20 <=? max_keys cfg (kind =? 1)).

Definition node_of (d : bytes) : Node :=
  let count := get16 d 20 in
  if byte_at d 0 =? 1 then
    let es := get_entries get_leaf_entry kLeafEntrySize kHeaderSize count d in
    mkNode true (get64 d 4) (get64 d 12) es.*1 es.*2 []
  else
    let es := get_entries get_internal_entry kInternalEntrySize (kHeaderSize + 8) count d in
    mkNode false (get64 d 4) (get64 d 12) es.*1 [] (get64 d kHeaderSize :: es.*2).

(** The test of [write_node]. *)
Definition writable (cfg : BPlusTreeConfig) (n : Node) : bool :=
  (zlen (keys n) <=? max_keys cfg (leaf n)) &&
  (if leaf n then zlen (values n) =? zlen (keys n) else zlen (children n) =? zlen (keys n) + 1).

(** The capacity test of [create]. *)
Definition config_ok (cfg : BPlusTreeConfig) : bool :=
  negb ((leaf_max_keys cfg <? 2) || (internal_max_keys cfg <? 2) ||
    (kPagePayloadSize <? kHeaderSize + leaf_max_keys cfg * kLeafEntrySize) ||
    (kPagePayloadSize <? kHeaderSize + 8 + internal_max_keys cfg * kInternalEntrySize)).

(** The metadata page. *)
Definition meta_bytes (root : PageId) (cfg : BPlusTreeConfig) : bytes :=
  let d := blit (zeros kPagePayloadSize) 0 kMetadataMagic in
  let d := put64 d 8 root in
  let d := put16 d 16 (leaf_max_keys cfg) in
  put16 d 18 (internal_max_keys cfg).

#[global] Arguments node_bytes : simpl never.
#[global] Arguments meta_bytes : simpl never.
#[global] Arguments node_of : simpl never.
#[global] Arguments well_formed : simpl never.

(** ** Round trip *)

Ltac nlia := unfold kHeaderSize, kLeafEntrySize, kInternalEntrySize in *; plia.

(** What an entry codec must do. *)
Record codec {A} (put : bytes -> Z -> A -> bytes) (get : bytes -> Z -> A) (step : Z) (ok : A -> Prop) : Prop := {
  co_step : 0 < step;
  co_changed : forall d p x, 0 <= p -> p + step <= zlen d -> ok x -> changed d p step (put d p x);
  co_get : forall d p x, 0 <= p -> p + step <= zlen d -> ok x -> get (put d p x) p = x;
  co_local : forall d d' p, 0 <= p -> p + step <= zlen d -> zlen d' = zlen d -> slice d' p step = slice d p step -> get d' p = get d p;
}.

Lemma slice_sub d d' p n q m :
  slice d' p n = slice d p n -> 0 <= p -> p <= q -> 0 <= m -> q + m <= p + n -> slice d' q m = slice d q m.
Proof.
  intros Hs Hp Hq Hm Hn. apply (f_equal (fun l => slice l (q - p) m)) in Hs. rewrite !slice_slice in Hs by lia.
  by replace (p + (q - p)) with q in Hs by lia.
Qed.

Lemma le_value_sub k d d' p n q :
  slice d' p n = slice d p n -> zlen d' = zlen d -> p + n <= zlen d -> 0 <= p -> p <= q -> q + Z.of_nat k <= p + n ->
  le_value k d' q = le_value k d q.
Proof. intros Hs Hl Hn Hp Hq Hk. apply le_value_slice_eq; [lia..|]. eapply slice_sub; [exact Hs|lia..]. Qed.

Lemma leaf_codec : codec put_leaf_entry get_leaf_entry kLeafEntrySize (fun x => is_s64 x.1 /\ is_u64 (TU.rid_page x.2) /\ 0 <= TU.rid_slot x.2 < 2 ^ 32).
Proof.
  split; [done|..].
  - intros d p [k [i s]] Hp Hl (Hk & Hi & Hs). cbn in *. unfold put_leaf_entry. cbn.
    assert (is_u64 (to_u64 k)) as Hku by (unfold is_u64, to_u64; apply Z.mod_pos_bound; lia).
    destruct (changed_put64 d p (to_u64 k)) as [C1 _]; [nlia..|done|]. pose proof (ch_len _ _ _ _ C1).
    destruct (changed_put64 (put64 d p (to_u64 k)) (p + 8) i) as [C2 _]; [nlia..|done|]. pose proof (ch_len _ _ _ _ C2).
    destruct (changed_put32 (put64 (put64 d p (to_u64 k)) (p + 8) i) (p + 16) s) as [C3 _]; [nlia..|].
    eapply (changed_trans _ p 16); [eapply (changed_trans _ p 8); [exact C1|exact C2|nlia..]|exact C3|nlia..].
  - intros d p [k [i s]] Hp Hl (Hk & Hi & Hs). cbn in *. unfold put_leaf_entry, get_leaf_entry. cbn.
    assert (is_u64 (to_u64 k)) as Hku by (unfold is_u64, to_u64; apply Z.mod_pos_bound; lia).
    destruct (changed_put64 d p (to_u64 k)) as [C1 G1]; [nlia..|done|]. pose proof (ch_len _ _ _ _ C1) as L1.
    set (d1 := put64 d p (to_u64 k)) in *.
    destruct (changed_put64 d1 (p + 8) i) as [C2 G2]; [nlia..|done|]. pose proof (ch_len _ _ _ _ C2) as L2. set (d2 := put64 d1 (p + 8) i) in *.
    destruct (changed_put32 d2 (p + 16) s) as [C3 G3]; [nlia..|]. rewrite G3.
    unfold get64 in *. rewrite !(changed_get _ _ _ _ _ _ C3), G2, (changed_get _ _ _ _ _ _ C2), G1, TU.to_s64_u64 by nlia || done. done.
  - intros d d' p Hp Hl Hd Hs. unfold get_leaf_entry, get64, get32.
    rewrite (le_value_sub 8 d d' _ _ p Hs), (le_value_sub 8 d d' _ _ (p + 8) Hs), (le_value_sub 4 d d' _ _ (p + 16) Hs) by nlia. done.
Qed.

Lemma internal_codec : codec put_internal_entry get_internal_entry kInternalEntrySize (fun x => is_s64 x.1 /\ is_u64 x.2).
Proof.
  split; [done|..].
  - intros d p [k i] Hp Hl (Hk & Hi). cbn in *. unfold put_internal_entry. cbn.
    assert (is_u64 (to_u64 k)) as Hku by (unfold is_u64, to_u64; apply Z.mod_pos_bound; lia).
    destruct (changed_put64 d p (to_u64 k)) as [C1 _]; [nlia..|done|]. pose proof (ch_len _ _ _ _ C1).
    destruct (changed_put64 (put64 d p (to_u64 k)) (p + 8) i) as [C2 _]; [nlia..|done|].
    eapply (changed_trans _ p 8); [exact C1|exact C2|nlia..].
  - intros d p [k i] Hp Hl (Hk & Hi). cbn in *. unfold put_internal_entry, get_internal_entry. cbn.
    assert (is_u64 (to_u64 k)) as Hku by (unfold is_u64, to_u64; apply Z.mod_pos_bound; lia).
    destruct (changed_put64 d p (to_u64 k)) as [C1 G1]; [nlia..|done|]. pose proof (ch_len _ _ _ _ C1) as L1.
    set (d1 := put64 d p (to_u64 k)) in *.
    destruct (changed_put64 d1 (p + 8) i) as [C2 G2]; [nlia..|done|]. rewrite G2.
    unfold get64 in *. rewrite (changed_get _ _ _ _ _ _ C2), G1, TU.to_s64_u64 by nlia || done. done.
  - intros d d' p Hp Hl Hd Hs. unfold get_internal_entry, get64.
    rewrite (le_value_sub 8 d d' _ _ p Hs), (le_value_sub 8 d d' _ _ (p + 8) Hs) by nlia. done.
Qed.

Section entries.
Context {A : Type} (put : bytes -> Z -> A -> bytes) (get : bytes -> Z -> A) (step : Z) (ok : A -> Prop) (C : codec put get step ok).

Lemma put_entries_changed l at_ d :
  Forall ok l -> 0 <= at_ -> at_ + step * zlen l <= zlen d -> changed d at_ (step * zlen l) (put_entries put step at_ l d).
Proof.
  destruct C as [Hst Hch _ _]. revert at_ d. induction l as [|x l IH]; intros at_ d Hok Ha Hl.
  { split; [done|done|done]. }
  apply list.Forall_cons in Hok as [Hx Hok]. cbn [put_entries]. rewrite length_cons, Nat2Z.inj_succ in *.
  pose proof (Hch d at_ x Ha ltac:(nia) Hx) as C1. pose proof (ch_len _ _ _ _ C1) as L1.
  eapply changed_trans; [exact C1|apply IH; [done|lia|nia]|nia..].
Qed.

Lemma get_put_entries l at_ d :
  Forall ok l -> 0 <= at_ -> at_ + step * zlen l <= zlen d ->
  get_entries get step at_ (zlen l) (put_entries put step at_ l d) = l.
Proof.
  destruct C as [Hst Hch Hget Hloc]. revert at_ d. induction l as [|x l IH]; intros at_ d Hok Ha Hl; [done|].
  apply list.Forall_cons in Hok as [Hx Hok]. cbn [put_entries]. rewrite length_cons, Nat2Z.inj_succ in *.
  pose proof (Hch d at_ x Ha ltac:(nia) Hx) as C1. pose proof (ch_len _ _ _ _ C1) as L1.
  pose proof (put_entries_changed l (at_ + step) (put d at_ x) Hok ltac:(lia) ltac:(nia)) as C2. pose proof (ch_len _ _ _ _ C2) as L2.
  unfold get_entries. rewrite seqZ_cons by lia. rewrite fmap_cons. f_equal.
  - replace (at_ + 0 * step) with at_ by lia. rewrite (Hloc (put d at_ x)); [apply Hget; [done|nia|done]|lia|nia|lia|].
    apply (ch_slice _ _ _ _ C2); [lia|lia|nia|lia].
  - etrans; [|apply (IH (at_ + step) (put d at_ x)); [done|lia|nia]]. unfold get_entries.
    replace (Z.pred (Z.succ (zlen l))) with (zlen l) by lia. rewrite <- fmap_add_seqZ with (m := 1) (m' := 0), <- list_fmap_compose.
    apply list_fmap_ext. intros i j _. cbn. f_equal. lia.
Qed.

Lemma get_entries_same l at_ n d d' :
  get_entries get step at_ n d = l -> 0 <= at_ -> at_ + step * n <= zlen d -> zlen d' = zlen d ->
  slice d' at_ (step * n) = slice d at_ (step * n) -> get_entries get step at_ n d' = l.
Proof.
  destruct C as [Hst _ _ Hloc]. intros <- Ha Hn Hl Hs. apply list_fmap_ext. intros i j Hij.
  apply list_elem_of_lookup_2, elem_of_seqZ in Hij. apply Hloc; [nia|nia|done|]. eapply slice_sub; [exact Hs|nia..].
Qed.

End entries.
(** ** Nodes that a page can hold *)

Definition rid_ok (r : TU.RecordId) : Prop := is_u64 (TU.rid_page r) /\ 0 <= TU.rid_slot r < 2 ^ 32.

Record node_ok (cfg : BPlusTreeConfig) (n : Node) : Prop := {
  no_writable : writable cfg n = true;
  no_parent : is_u64 (parent n);
  no_next : is_u64 (next n);
  no_keys : Forall is_s64 (keys n);
  no_values : Forall rid_ok (values n);
  no_children : Forall is_u64 (children n);
  no_shape : if leaf n then children n = [] else values n = [];
}.

Lemma config_bounds cfg : config_ok cfg = true ->
  2 <= leaf_max_keys cfg /\ 2 <= internal_max_keys cfg /\
  kHeaderSize + leaf_max_keys cfg * kLeafEntrySize <= kPagePayloadSize /\
  kHeaderSize + 8 + internal_max_keys cfg * kInternalEntrySize <= kPagePayloadSize.
Proof. unfold config_ok. rewrite negb_true_iff, !orb_false_iff, !Z.ltb_ge. lia. Qed.

(** What a header says. *)
Record header (d : bytes) (kind p nx n : Z) : Prop := {
  hd_payload : payload d;
  hd_kind : byte_at d 0 = kind;
  hd_parent : get64 d 4 = p;
  hd_next : get64 d 12 = nx;
  hd_count : get16 d 20 = n;
}.

(** Entries are written behind the header. *)
Lemma header_changed d d' kind p nx n q m :
  header d kind p nx n -> changed d q m d' -> kHeaderSize <= q -> header d' kind p nx n.
Proof.
  intros [Hp Hk H1 H2 H3] C Hq. pose proof Hp as [Hl _]. split; [by eapply changed_payload| | | |].
  - rewrite <- Hk. pose proof (ch_slice _ _ _ _ C 0 1 ltac:(lia) ltac:(lia) ltac:(plia) ltac:(nlia)) as Hs. pose proof (ch_len _ _ _ _ C) as Hl'.
    unfold byte_at. apply (f_equal (fun l => l !! 0%nat)) in Hs. rewrite !slice_lookup in Hs by lia. change (Z.to_nat 0) with 0%nat in *. cbn [Nat.add] in Hs. by rewrite Hs.
  - rewrite <- H1. unfold get64. by rewrite (changed_get _ _ _ _ _ _ C) by nlia.
  - rewrite <- H2. unfold get64. by rewrite (changed_get _ _ _ _ _ _ C) by nlia.
  - rewrite <- H3. unfold get16. by rewrite (changed_get _ _ _ _ _ _ C) by nlia.
Qed.

Lemma header_bytes_ok n :
  is_u64 (parent n) -> is_u64 (next n) -> zlen (keys n) < 2 ^ 16 ->
  header (header_bytes n) (if leaf n then 1 else 2) (parent n) (next n) (zlen (keys n)).
Proof.
  intros Hp Hn Hk. unfold header_bytes. set (kind := if leaf n then 1 else 2). pose proof zeros_payload as Hz. pose proof Hz as [Hl0 _].
  assert (is_byte kind) as Hkb by (unfold kind, is_byte; destruct (leaf n); lia).
  pose proof (changed_blit (zeros kPagePayloadSize) 0 [kind] ltac:(lia) ltac:(rewrite Hl0; cbn; plia) ltac:(by apply list.Forall_singleton)) as C0.
  set (d0 := blit (zeros kPagePayloadSize) 0 [kind]) in *. pose proof (ch_len _ _ _ _ C0) as L0.
  assert (byte_at d0 0 = kind) as B0.
  { assert (slice d0 0 1 = [kind]) as Hs by (apply slice_blit_same; [rewrite Hl0; plia|done]).
    apply (f_equal (fun l => l !! 0%nat)) in Hs. rewrite slice_lookup in Hs by lia. unfold byte_at. change (Z.to_nat 0) with 0%nat in *. cbn in Hs. by rewrite Hs. }
  destruct (changed_put64 d0 4 (parent n)) as [C1 G1]; [lia|plia|done|]. set (d1 := put64 d0 4 (parent n)) in *. pose proof (ch_len _ _ _ _ C1) as L1.
  destruct (changed_put64 d1 12 (next n)) as [C2 G2]; [lia|plia|done|]. set (d2 := put64 d1 12 (next n)) in *. pose proof (ch_len _ _ _ _ C2) as L2.
  assert (to_u16 (zlen (keys n)) = zlen (keys n)) as Hu by (unfold to_u16; apply Z.mod_small; lia). rewrite Hu.
  destruct (changed_put16 d2 20 (zlen (keys n))) as [C3 G3]; [lia|plia|lia|]. set (d3 := put16 d2 20 (zlen (keys n))) in *.
  pose proof (changed_trans _ _ _ _ _ _ _ 4 18 (changed_trans _ _ _ _ _ _ _ 4 16 C1 C2 ltac:(lia) ltac:(lia) ltac:(lia) ltac:(lia)) C3 ltac:(lia) ltac:(lia) ltac:(lia) ltac:(lia)) as C.
  split; [|..|exact G3].
  - eapply changed_payload; [exact C|]. by eapply changed_payload.
  - pose proof (ch_slice _ _ _ _ C 0 1 ltac:(lia) ltac:(lia) ltac:(plia) ltac:(lia)) as Hs. rewrite <- B0. unfold byte_at.
    apply (f_equal (fun l => l !! 0%nat)) in Hs. rewrite !slice_lookup in Hs by lia. change (Z.to_nat 0) with 0%nat in *. cbn [Nat.add] in Hs. by rewrite Hs.
  - unfold get64 in *. by rewrite (changed_get _ _ _ _ _ _ C3), (changed_get _ _ _ _ _ _ C2) by plia.
  - unfold get64 in *. by rewrite (changed_get _ _ _ _ _ _ C3) by plia.
Qed.

Lemma zip_keys {A B} (l : list A) (k : list B) : length l = length k -> (zip l k).*1 = l /\ (zip l k).*2 = k /\ zlen (zip l k) = zlen l.
Proof. intros Hl. split_and!; [apply fst_zip; lia|apply snd_zip; lia|]. rewrite length_zip_with. lia. Qed.

Lemma Forall_zip {A B} (P : A -> Prop) (Q : B -> Prop) (l : list A) (k : list B) :
  Forall P l -> Forall Q k -> Forall (fun x => P x.1 /\ Q x.2) (zip l k).
Proof. intros Hl. revert k. induction Hl as [|x l Hx Hl IH]; intros k Hk; [constructor|]. destruct Hk; [constructor|]. cbn. constructor; [done|by apply IH]. Qed.

Lemma node_bytes_ok cfg n :
  config_ok cfg = true -> node_ok cfg n ->
  payload (node_bytes n) /\ well_formed cfg (node_bytes n) = true /\ node_of (node_bytes n) = n.
Proof.
  intros Hc%config_bounds [Hw Hp Hx Hk Hv Hch Hsh]. unfold writable in Hw. rewrite andb_true_iff, Z.leb_le in Hw. destruct Hw as [Hmax Hlen].
  assert (zlen (keys n) < 2 ^ 16) as Hk16 by (unfold max_keys in Hmax; destruct (leaf n); nlia).
  pose proof (header_bytes_ok n Hp Hx Hk16) as Hh. pose proof (hd_payload _ _ _ _ _ Hh) as [Hl _]. destruct n as [lf p nx ks vs cs].
  unfold node_bytes, max_keys in *. cbn [leaf parent next keys values children] in *. destruct lf; apply Z.eqb_eq in Hlen.
  - destruct (zip_keys ks vs) as (Z1 & Z2 & Z3); [lia|]. set (es := zip ks vs) in *.
    assert (Forall (fun x => is_s64 x.1 /\ is_u64 (TU.rid_page x.2) /\ 0 <= TU.rid_slot x.2 < 2 ^ 32) es) as Hes by (by apply (Forall_zip is_s64 rid_ok)).
    pose proof (put_entries_changed _ _ _ _ leaf_codec es kHeaderSize _ Hes ltac:(nlia) ltac:(rewrite Z3, Hl; nlia)) as C.
    pose proof (get_put_entries _ _ _ _ leaf_codec es kHeaderSize _ Hes ltac:(nlia) ltac:(rewrite Z3, Hl; nlia)) as G.
    destruct (header_changed _ _ _ _ _ _ _ _ Hh C ltac:(lia)) as [K1 K2 K3 K4 K5]. split_and!; [done| |].
    + unfold well_formed. rewrite K2, K5. unfold max_keys. cbn. apply Z.leb_le. lia.
    + unfold node_of. rewrite K2, K3, K4, K5, <- Z3, G, Z1, Z2. cbn. by rewrite Hsh.
  - destruct cs as [|c cs]; [cbn in Hlen; lia|]. cbn [hd tail] in *. destruct (zip_keys ks cs) as (Z1 & Z2 & Z3); [cbn in Hlen; lia|]. set (es := zip ks cs) in *.
    apply list.Forall_cons in Hch as [Hcu Hcs]. destruct (changed_put64 (header_bytes (mkNode false p nx ks vs (c :: cs))) kHeaderSize c) as [C0 G0]; [nlia..|done|].
    set (d0 := put64 _ kHeaderSize c) in *. pose proof (ch_len _ _ _ _ C0) as L0.
    assert (Forall (fun x => is_s64 x.1 /\ is_u64 x.2) es) as Hes by (by apply (Forall_zip is_s64 is_u64)).
    pose proof (put_entries_changed _ _ _ _ internal_codec es (kHeaderSize + 8) d0 Hes ltac:(nlia) ltac:(rewrite Z3, L0, Hl; nlia)) as C.
    pose proof (get_put_entries _ _ _ _ internal_codec es (kHeaderSize + 8) d0 Hes ltac:(nlia) ltac:(rewrite Z3, L0, Hl; nlia)) as G.
    destruct (header_changed _ _ _ _ _ _ _ _ (header_changed _ _ _ _ _ _ _ _ Hh C0 ltac:(lia)) C ltac:(lia)) as [K1 K2 K3 K4 K5]. split_and!; [done| |].
    + unfold well_formed. rewrite K2, K5. unfold max_keys. cbn. apply Z.leb_le. lia.
    + unfold node_of. rewrite K2, K3, K4, K5, <- Z3, G, Z1, Z2. cbn. rewrite Hsh. f_equal. f_equal.
      unfold get64 in *. rewrite (changed_get _ _ _ _ _ _ C); [done|nlia..].
Qed.

(** ** The metadata page *)

Record meta_page (d : bytes) (root : PageId) (cfg : BPlusTreeConfig) : Prop := {
  mp_payload : payload d;
  mp_magic : slice d 0 8 = kMetadataMagic;
  mp_root : get64 d 8 = root;
  mp_leaf : get16 d 16 = leaf_max_keys cfg;
  mp_internal : get16 d 18 = internal_max_keys cfg;
}.

Lemma meta_bytes_ok root cfg : is_u64 root -> config_ok cfg = true -> meta_page (meta_bytes root cfg) root cfg.
Proof.
  intros Hr Hc%config_bounds. unfold meta_bytes. pose proof zeros_payload as Hz. pose proof Hz as [Hl0 _].
  pose proof (changed_blit (zeros kPagePayloadSize) 0 kMetadataMagic ltac:(lia) ltac:(rewrite Hl0; cbn; plia) ltac:(repeat constructor; unfold is_byte; lia)) as C0.
  set (d0 := blit (zeros kPagePayloadSize) 0 kMetadataMagic) in *. pose proof (ch_len _ _ _ _ C0) as L0.
  assert (slice d0 0 8 = kMetadataMagic) as M0 by (apply slice_blit_same; [rewrite Hl0; plia|done]).
  destruct (changed_put64 d0 8 root) as [C1 G1]; [lia|plia|done|]. set (d1 := put64 d0 8 root) in *. pose proof (ch_len _ _ _ _ C1) as L1.
  destruct (changed_put16 d1 16 (leaf_max_keys cfg)) as [C2 G2]; [lia|plia|nlia|]. set (d2 := put16 d1 16 (leaf_max_keys cfg)) in *. pose proof (ch_len _ _ _ _ C2) as L2.
  destruct (changed_put16 d2 18 (internal_max_keys cfg)) as [C3 G3]; [lia|plia|nlia|]. set (d3 := put16 d2 18 (internal_max_keys cfg)) in *.
  split; [|..|exact G3].
  - eapply changed_payload; [exact C3|]. eapply changed_payload; [exact C2|]. eapply changed_payload; [exact C1|]. by eapply changed_payload.
  - rewrite (ch_slice _ _ _ _ C3), (ch_slice _ _ _ _ C2), (ch_slice _ _ _ _ C1) by plia. done.
  - unfold get64 in *. rewrite (changed_get _ _ _ _ _ _ C3), (changed_get _ _ _ _ _ _ C2) by plia. done.
  - unfold get16 in *. rewrite (changed_get _ _ _ _ _ _ C3) by plia. done.
Qed.

(** The B+ tree reads the node it has written: with a configuration that [create] accepts, every
    node that passes the test of [write_node] (and whose keys and identifiers have their width)
    fits into a page, passes the test of [read_node], and is read back as it was. *)
Theorem node_roundtrip cfg n :
  config_ok cfg = true -> node_ok cfg n ->
  payload (node_bytes n) /\ well_formed cfg (node_bytes n) = true /\ node_of (node_bytes n) = n.
Proof. apply node_bytes_ok. Qed.

Lemma node_roundtrip_witness :
  payload (node_bytes (mkNode false kInvalidValue kInvalidValue [-5] [] [3; 4])) /\
  well_formed (mkConfig 16 16) (node_bytes (mkNode false kInvalidValue kInvalidValue [-5] [] [3; 4])) = true /\
  node_of (node_bytes (mkNode false kInvalidValue kInvalidValue [-5] [] [3; 4])) = mkNode false kInvalidValue kInvalidValue [-5] [] [3; 4].
Proof.
  apply node_roundtrip; [reflexivity|]. split; [reflexivity|done|done|repeat constructor; unfold is_s64; lia|constructor|repeat constructor; unfold is_u64; lia|reflexivity].
Defined.

End BN.
