(* ===== verification/BPlusTree.v ===== *)
(** * The B+ tree

    Models [src/src/index/bplus_tree.cpp] and its header, over the interface [PageAccess].  An
    access outside a vector and a loop that does not end within [fuel] rounds give [None] (see
    [MO] in the prelude); [TreeSearch], [TreeInsert] and [TreeRemove] show that neither happens on
    a tree.  [std::lower_bound] and [std::upper_bound] are their meaning on a sorted range. *)

From S2P Require Import Prelude Bytes Page Stream PageStore PageManager Wal LogManager BufferPool LockManager Mutation Transaction Payload Access Tuple TreeNode.

Module BT.
Import OB BN.

(** The members of the object that are not references. *)
Record Tree : Type := mkTree { metadata_page_id_ : PageId; root_page_id_ : PageId; config_ : BPlusTreeConfig }.
Definition set_root (id : PageId) (t : Tree) : Tree := mkTree (metadata_page_id_ t) id (config_ t).

(** ** Vectors *)

(** [v.insert(v.begin() + i, x)], [v.erase(v.begin() + i)] and [v[i] = x] *)
Definition insert_at {A} (i : nat) (x : A) (l : list A) : option (list A) :=
  if decide (i <= length l)%nat then Some (take i l ++ x :: drop i l) else None.
Definition erase_at {A} (i : nat) (l : list A) : option (list A) :=
  if decide (i < length l)%nat then Some (take i l ++ drop (S i) l) else None.
Definition assign_at {A} (i : nat) (x : A) (l : list A) : option (list A) :=
  if decide (i < length l)%nat then Some (<[i := x]> l) else None.
(** [v.pop_back()] *)
Definition pop_back {A} (l : list A) : option (list A) :=
  if decide (l = []) then None else Some (take (length l - 1) l).

(** [std::lower_bound(l, k) - l.begin()] and [std::upper_bound(l, k) - l.begin()] *)
Fixpoint lower_bound (l : list Z) (k : Z) : nat :=
  match l with [] => 0%nat | x :: l => if x <? k then S (lower_bound l k) else 0%nat end.
Fixpoint upper_bound (l : list Z) (k : Z) : nat :=
  match l with [] => 0%nat | x :: l => if k <? x then 0%nat else S (upper_bound l k) end.
(** [std::find(l, x) - l.begin()] *)
Fixpoint find_at (l : list PageId) (x : PageId) : nat :=
  match l with [] => 0%nat | y :: l => if decide (y = x) then 0%nat else S (find_at l x) end.

(** [(config_.leaf_max_keys + 1) / 2] and [config_.internal_max_keys / 2] *)
Definition leaf_min (cfg : BPlusTreeConfig) : Z := (leaf_max_keys cfg + 1) / 2.
Definition internal_min (cfg : BPlusTreeConfig) : Z := internal_max_keys cfg / 2.

(** [n] with other keys, values and children *)
Definition with_entries (n : Node) (ks : list Z) (vs : list TU.RecordId) (cs : list PageId) : Node :=
  mkNode (leaf n) (parent n) (next n) ks vs cs.
Definition set_next (id : PageId) (n : Node) : Node := mkNode (leaf n) (parent n) id (keys n) (values n) (children n).

(** The local variables [seen], [leaves] and [unique] of [validate_invariants]. *)
Record Visited : Type := mkVisited { seen : gset Z; leaves : list PageId; unique : gset Z }.

(** [std::is_sorted] *)
Fixpoint is_sorted (l : list Z) : bool :=
  match l with
  | x :: l' => match l' with y :: _ => negb (y <? x) && is_sorted l' | [] => true end
  | [] => true
  end.

(** [for (k : ks) if (!unique.insert(k).second) return false;] *)
Fixpoint insert_all (ks : list Z) (u : gset Z) : option (gset Z) :=
  match ks with
  | [] => Some u
  | k :: ks => if decide (k ∈ u) then None else insert_all ks ({[k]} ∪ u)
  end.

Section tree.
Context {W : Type} `{PageAccess W}.
Abbreviation st := (Tree * W)%type.

(** [(void)bp.unpin_page(id, dirty)] *)
Definition unpin (id : PageId) (dirty : bool) : M W unit := let! _ := pa_unpin id dirty in ret tt.

(** ** Pages and nodes *)

(** The constructor. *)
Definition open (metadata : PageId) : M W Tree :=
  let! p := pa_fetch metadata in
  match p with
  | None => throw (RuntimeError "cannot fetch B+ tree metadata page")
  | Some i =>
      let! w := get in
      let d := pa_data w i in
      let valid := bool_decide (slice d 0 8 = kMetadataMagic) in
      let root := if valid then get64 d 8 else kInvalidValue in
      let cfg := if valid then mkConfig (get16 d 16) (get16 d 18) else mkConfig 16 16 in
      unpin metadata false ;;
      throw_if (negb valid || negb (is_valid root) || (leaf_max_keys cfg <? 2) || (internal_max_keys cfg <? 2))
        (RuntimeError "invalid B+ tree metadata page") ;;
      ret (mkTree metadata root cfg)
  end.

Definition write_metadata : M st unit :=
  let! t := this in
  let! p := on_pages (pa_fetch (metadata_page_id_ t)) in
  match p with
  | None => throw (RuntimeError "cannot fetch B+ tree metadata")
  | Some i =>
      on_pages (pa_update (metadata_page_id_ t) i (fun _ => (tt, meta_bytes (root_page_id_ t) (config_ t)))) ;;
      on_pages (unpin (metadata_page_id_ t) true)
  end.

Definition read_node (id : PageId) : M st Node :=
  let! p := on_pages (pa_fetch id) in
  match p with
  | None => throw (RuntimeError "cannot fetch B+ tree node")
  | Some i =>
      let! t := this in
      let! d := data i in
      if negb (well_formed (config_ t) d)
      then on_pages (unpin id false) ;; throw (RuntimeError "corrupt B+ tree node")
      else on_pages (unpin id false) ;; ret (node_of d)
  end.

Definition write_node (id : PageId) (n : Node) : M st unit :=
  let! t := this in
  throw_if (negb (writable (config_ t) n)) (LogicError "invalid B+ tree node write") ;;
  let! p := on_pages (pa_fetch id) in
  match p with
  | None => throw (RuntimeError "cannot fetch B+ tree node for write")
  | Some i =>
      on_pages (pa_update id i (fun _ => (tt, node_bytes n))) ;;
      on_pages (unpin id true)
  end.

Definition allocate_node (n : Node) : M st PageId :=
  let! id := on_pages pa_allocate in
  write_node id n ;;
  ret id.

Definition set_parent (child par : PageId) : M st unit :=
  let! n := read_node child in
  write_node child (set_parent_ par n).

Definition flush : M st unit := on_pages pa_flush.

(** The part the two [create] share; [context] obtains the mutation context of the transaction, if
    there is one. *)
Definition create_nodes (context : M W unit) (cfg : BPlusTreeConfig) : M W (PageId * Tree) :=
  throw_if (negb (config_ok cfg)) (InvalidArgument "invalid B+ tree node capacity") ;;
  let! metadata := pa_allocate in
  let! root := pa_allocate in
  context ;;
  let! p := pa_fetch metadata in
  match p with
  | None => throw (RuntimeError "cannot fetch new B+ tree metadata")
  | Some i =>
      pa_update metadata i (fun _ => (tt, meta_bytes root cfg)) ;;
      unpin metadata true ;;
      let! t := open metadata in
      let! r := on_local t (write_node root (mkNode true kInvalidValue kInvalidValue [] [] [])) in
      ret (metadata, r.2)
  end.

(** [create(pm, bp, config)] *)
Definition create (cfg : BPlusTreeConfig) : M W PageId :=
  let! r := create_nodes (ret tt) cfg in
  on_local r.2 (write_metadata ;; flush) ;;
  ret r.1.

(** [create(transaction, pm, bp, config)] *)
Definition create_in (context : M W unit) (cfg : BPlusTreeConfig) : M W PageId :=
  let! r := create_nodes context cfg in ret r.1.

(** ** Searching *)

Fixpoint descend (fuel : nat) (id : PageId) (key : Z) : MO st PageId :=
  match fuel with
  | O => ret None
  | S fuel =>
      let? n := run (read_node id) in
      if leaf n then ret (Some id)
      else let? c := opt (children n !! upper_bound (keys n) key) in descend fuel c key
  end.

Definition find_leaf (fuel : nat) (key : Z) : MO st PageId :=
  let? t := run this in descend fuel (root_page_id_ t) key.

(** The value, if the key is there. *)
Definition get_value (fuel : nat) (key : Z) : MO st (option TU.RecordId) :=
  let? id := find_leaf fuel key in
  let? l := run (read_node id) in
  let at_ := lower_bound (keys l) key in
  if decide (keys l !! at_ = Some key) then let? v := opt (values l !! at_) in ret (Some (Some v))
  else ret (Some None).

(** The loop of [scan] over the entries of a leaf: the entries so far, and whether it returns. *)
Fixpoint scan_entries (low high : Z) (es : list (Z * TU.RecordId)) (out : list (Z * TU.RecordId)) :
    list (Z * TU.RecordId) * bool :=
  match es with
  | [] => (out, false)
  | e :: es =>
      if e.1 <? low then scan_entries low high es out
      else if high <? e.1 then (out, true)
      else scan_entries low high es (out ++ [e])
  end.

Fixpoint scan_from (fuel : nat) (low high : Z) (id : PageId) (out : list (Z * TU.RecordId)) : MO st (list (Z * TU.RecordId)) :=
  if negb (is_valid id) then ret (Some out)
  else match fuel with
  | O => ret None
  | S fuel =>
      let? n := run (read_node id) in
      let '(out, done) := scan_entries low high (zip (keys n) (values n)) out in
      if done : bool then ret (Some out) else scan_from fuel low high (next n) out
  end.

Definition scan (fuel : nat) (low high : Z) : MO st (list (Z * TU.RecordId)) :=
  if high <? low then ret (Some [])
  else let? id := find_leaf fuel low in scan_from fuel low high id [].

Fixpoint height_from (fuel : nat) (h : Z) (n : Node) : MO st Z :=
  if leaf n then ret (Some h)
  else match fuel with
  | O => ret None
  | S fuel =>
      let? c := opt (head (children n)) in
      let? n := run (read_node c) in
      height_from fuel (h + 1) n
  end.

Definition height (fuel : nat) : MO st Z :=
  let? t := run this in
  let? n := run (read_node (root_page_id_ t)) in
  height_from fuel 1 n.

(** ** Inserting *)

Fixpoint insert_into_parent (fuel : nat) (left : PageId) (sep : Z) (right : PageId) : MO st unit :=
  match fuel with
  | O => ret None
  | S fuel =>
      let? left_node := run (read_node left) in
      if negb (is_valid (parent left_node)) then
        let? rid := run (allocate_node (mkNode false kInvalidValue kInvalidValue [sep] [] [left; right])) in
        run (set_parent left rid) ;?
        run (set_parent right rid) ;?
        run (upd (set_root rid)) ;?
        run write_metadata
      else
        let pid := parent left_node in
        let? p := run (read_node pid) in
        let idx := find_at (children p) left in
        run (throw_if (bool_decide (idx = length (children p))) (LogicError "parent missing child")) ;?
        let? ks := opt (insert_at idx sep (keys p)) in
        let? cs := opt (insert_at (idx + 1) right (children p)) in
        run (set_parent right pid) ;?
        let? t := run this in
        if zlen ks <=? internal_max_keys (config_ t) then
          run (write_node pid (with_entries p ks (values p) cs))
        else
          let mid := (length ks / 2)%nat in
          let? promote := opt (ks !! mid) in
          let sibling := mkNode false (parent p) kInvalidValue (drop (mid + 1) ks) [] (drop (mid + 1) cs) in
          let? sid := run (allocate_node sibling) in
          run (write_node pid (with_entries p (take mid ks) (values p) (take (mid + 1) cs))) ;?
          run (for_each (children sibling) (fun child => set_parent child sid)) ;?
          insert_into_parent fuel pid promote sid
  end.

Fixpoint update_parent_separator (fuel : nat) (child : PageId) (first : Z) : MO st unit :=
  match fuel with
  | O => ret None
  | S fuel =>
      let? n := run (read_node child) in
      if negb (is_valid (parent n)) then ret (Some tt)
      else
        let? p := run (read_node (parent n)) in
        let idx := find_at (children p) child in
        run (throw_if (bool_decide (idx = length (children p))) (LogicError "parent missing child during separator update")) ;?
        if decide (0 < idx)%nat then
          let? ks := opt (assign_at (idx - 1) first (keys p)) in
          run (write_node (parent n) (with_entries p ks (values p) (children p)))
        else update_parent_separator fuel (parent n) first
  end.

Definition insert_impl (fuel : nat) (key : Z) (value : TU.RecordId) : MO st bool :=
  let? id := find_leaf fuel key in
  let? l := run (read_node id) in
  let at_ := lower_bound (keys l) key in
  if decide (keys l !! at_ = Some key) then ret (Some false)
  else
    let? ks := opt (insert_at at_ key (keys l)) in
    let? vs := opt (insert_at at_ value (values l)) in
    let? t := run this in
    if zlen ks <=? leaf_max_keys (config_ t) then
      run (write_node id (with_entries l ks vs (children l))) ;?
      (if decide (at_ = 0)%nat then update_parent_separator fuel id key else ret (Some tt)) ;?
      ret (Some true)
    else
      let split := (length ks / 2)%nat in
      let right := mkNode true (parent l) (next l) (drop split ks) (drop split vs) [] in
      let? rid := run (allocate_node right) in
      run (write_node id (set_next rid (with_entries l (take split ks) (take split vs) (children l)))) ;?
      let? sep := opt (head (keys right)) in
      insert_into_parent fuel id sep rid ;?
      ret (Some true).

(** ** Removing *)

Fixpoint rebalance_internal (fuel : nat) (id : PageId) : MO st unit :=
  match fuel with
  | O => ret None
  | S fuel =>
      let? n := run (read_node id) in
      let? t := run this in
      if decide (id = root_page_id_ t) then
        if decide (keys n = []) then
          let? child := opt (head (children n)) in
          run (set_parent child kInvalidValue) ;?
          run (upd (set_root child)) ;?
          run write_metadata
        else run (write_node id n)
      else if internal_min (config_ t) <=? zlen (keys n) then run (write_node id n)
      else
        let pid := parent n in
        let? p := run (read_node pid) in
        let idx := find_at (children p) id in
        if decide (0 < idx)%nat then
          let? lid := opt (children p !! (idx - 1)%nat) in
          let? l := run (read_node lid) in
          let? sep := opt (keys p !! (idx - 1)%nat) in
          if internal_min (config_ t) <? zlen (keys l) then
            let? moved := opt (list.last (children l)) in
            let? k := opt (list.last (keys l)) in
            let? pks := opt (assign_at (idx - 1) k (keys p)) in
            let? lks := opt (pop_back (keys l)) in
            let? lcs := opt (pop_back (children l)) in
            run (set_parent moved id) ;?
            run (write_node lid (with_entries l lks (values l) lcs)) ;?
            run (write_node id (with_entries n (sep :: keys n) (values n) (moved :: children n))) ;?
            run (write_node pid (with_entries p pks (values p) (children p)))
          else
            let l' := with_entries l (keys l ++ [sep] ++ keys n) (values l) (children l ++ children n) in
            run (for_each (children n) (fun c => set_parent c lid)) ;?
            let? pks := opt (erase_at (idx - 1) (keys p)) in
            let? pcs := opt (erase_at idx (children p)) in
            run (write_node lid l') ;?
            run (write_node pid (with_entries p pks (values p) pcs)) ;?
            rebalance_internal fuel pid
        else
          let? rid := opt (children p !! (idx + 1)%nat) in
          let? r := run (read_node rid) in
          let? sep := opt (keys p !! idx) in
          if internal_min (config_ t) <? zlen (keys r) then
            let? moved := opt (head (children r)) in
            let? k := opt (head (keys r)) in
            let? pks := opt (assign_at idx k (keys p)) in
            let? rcs := opt (erase_at 0 (children r)) in
            let? rks := opt (erase_at 0 (keys r)) in
            run (set_parent moved id) ;?
            run (write_node id (with_entries n (keys n ++ [sep]) (values n) (children n ++ [moved]))) ;?
            run (write_node rid (with_entries r rks (values r) rcs)) ;?
            run (write_node pid (with_entries p pks (values p) (children p)))
          else
            let n' := with_entries n (keys n ++ [sep] ++ keys r) (values n) (children n ++ children r) in
            run (for_each (children r) (fun c => set_parent c id)) ;?
            let? pks := opt (erase_at idx (keys p)) in
            let? pcs := opt (erase_at (idx + 1) (children p)) in
            run (write_node id n') ;?
            run (write_node pid (with_entries p pks (values p) pcs)) ;?
            rebalance_internal fuel pid
  end.

Definition rebalance_leaf (fuel : nat) (id : PageId) : MO st unit :=
  let? n := run (read_node id) in
  let pid := parent n in
  let? p := run (read_node pid) in
  let? t := run this in
  let idx := find_at (children p) id in
  if decide (0 < idx)%nat then
    let? lid := opt (children p !! (idx - 1)%nat) in
    let? l := run (read_node lid) in
    if leaf_min (config_ t) <? zlen (keys l) then
      let? k := opt (list.last (keys l)) in
      let? v := opt (list.last (values l)) in
      let? lks := opt (pop_back (keys l)) in
      let? lvs := opt (pop_back (values l)) in
      let? pks := opt (assign_at (idx - 1) k (keys p)) in
      run (write_node lid (with_entries l lks lvs (children l))) ;?
      run (write_node id (with_entries n (k :: keys n) (v :: values n) (children n))) ;?
      run (write_node pid (with_entries p pks (values p) (children p)))
    else
      let l' := set_next (next n) (with_entries l (keys l ++ keys n) (values l ++ values n) (children l)) in
      let? pks := opt (erase_at (idx - 1) (keys p)) in
      let? pcs := opt (erase_at idx (children p)) in
      run (write_node lid l') ;?
      run (write_node pid (with_entries p pks (values p) pcs)) ;?
      rebalance_internal fuel pid
  else
    let? rid := opt (children p !! (idx + 1)%nat) in
    let? r := run (read_node rid) in
    if leaf_min (config_ t) <? zlen (keys r) then
      let? k := opt (head (keys r)) in
      let? v := opt (head (values r)) in
      let n' := with_entries n (keys n ++ [k]) (values n ++ [v]) (children n) in
      let? rks := opt (erase_at 0 (keys r)) in
      let? rvs := opt (erase_at 0 (values r)) in
      let? rk := opt (head rks) in
      let? pks := opt (assign_at idx rk (keys p)) in
      run (write_node id n') ;?
      run (write_node rid (with_entries r rks rvs (children r))) ;?
      run (write_node pid (with_entries p pks (values p) (children p))) ;?
      let? first := opt (head (keys n')) in
      update_parent_separator fuel pid first
    else
      let n' := set_next (next r) (with_entries n (keys n ++ keys r) (values n ++ values r) (children n)) in
      let? pks := opt (erase_at idx (keys p)) in
      let? pcs := opt (erase_at (idx + 1) (children p)) in
      run (write_node id n') ;?
      run (write_node pid (with_entries p pks (values p) pcs)) ;?
      let? first := opt (head (keys n')) in
      update_parent_separator fuel pid first ;?
      rebalance_internal fuel pid.

Definition remove_impl (fuel : nat) (key : Z) : MO st bool :=
  let? id := find_leaf fuel key in
  let? l := run (read_node id) in
  let idx := lower_bound (keys l) key in
  if decide (keys l !! idx <> Some key) then ret (Some false)
  else
    let? ks := opt (erase_at idx (keys l)) in
    let? vs := opt (erase_at idx (values l)) in
    let l' := with_entries l ks vs (children l) in
    let? t := run this in
    if decide (id = root_page_id_ t) then run (write_node id l') ;? ret (Some true)
    else if leaf_min (config_ t) <=? zlen ks then
      run (write_node id l') ;?
      (match ks with
       | k :: _ => if decide (idx = 0)%nat then update_parent_separator fuel id k else ret (Some tt)
       | [] => ret (Some tt)
       end) ;?
      ret (Some true)
    else
      run (write_node id l') ;?
      rebalance_leaf fuel id ;?
      ret (Some true).

(** ** [validate_invariants] *)

(** [first_key(id)]: the first key of the leftmost leaf below; an empty leaf throws. *)
Fixpoint first_key_from (fuel : nat) (n : Node) : MO st Z :=
  if leaf n then
    match keys n with
    | [] => run (throw (RuntimeError "empty child"))
    | k :: _ => ret (Some k)
    end
  else match fuel with
  | O => ret None
  | S fuel =>
      let? id := opt (head (children n)) in
      let? n := run (read_node id) in
      first_key_from fuel n
  end.
Definition first_key (fuel : nat) (id : PageId) : MO st Z :=
  let? n := run (read_node id) in first_key_from fuel n.

(** [if (first_key(n.children[i + 1]) != n.keys[i]) return false;] for each key *)
Fixpoint separators_ok (fuel : nat) (l : list (Z * PageId)) : MO st bool :=
  match l with
  | [] => ret (Some true)
  | (k, c) :: l =>
      let? first := first_key fuel c in
      if decide (first <> k) then ret (Some false) else separators_ok fuel l
  end.

(** [for (PageId child : l) if (!visit(child)) return false; return true;], the local variables
    of the caller being passed along *)
Fixpoint visit {A} (l : list PageId) (f : PageId -> A -> MO st (option A)) (v : A) : MO st (option A) :=
  match l with
  | [] => ret (Some (Some v))
  | c :: l =>
      let? r := f c v in
      match r with
      | Some v => visit l f v
      | None => ret (Some None)
      end
  end.

(** [walk]: the local variables afterwards, or [None] where it returns false. *)
Fixpoint walk (fuel : nat) (id par : PageId) (v : Visited) : MO st (option Visited) :=
  match fuel with
  | O => ret None
  | S fuel =>
      if negb (is_valid id) || bool_decide (id ∈ seen v) then ret (Some None)
      else
        let v := mkVisited ({[id]} ∪ seen v) (leaves v) (unique v) in
        let? n := run (read_node id) in
        if negb (bool_decide (parent n = par)) || negb (is_sorted (keys n)) then ret (Some None)
        else if leaf n then
          ret (Some (match insert_all (keys n) (unique v) with
                     | Some u => Some (mkVisited (seen v) (leaves v ++ [id]) u)
                     | None => None
                     end))
        else if negb (bool_decide (length (children n) = length (keys n) + 1)%nat) then ret (Some None)
        else
          let? ok := separators_ok fuel (zip (keys n) (tail (children n))) in
          if negb ok then ret (Some None) else visit (children n) (fun c v => walk fuel c id v) v
  end.

(** [for (PageId expected : l) { if (next != expected) return false; next = read_node(next).next; }] *)
Fixpoint follow (nx : PageId) (l : list PageId) : MO st (option PageId) :=
  match l with
  | [] => ret (Some (Some nx))
  | expected :: l =>
      if decide (nx <> expected) then ret (Some None)
      else let? n := run (read_node nx) in follow (next n) l
  end.

Definition validate_body (fuel : nat) : MO st bool :=
  let? t := run this in
  let? r := walk fuel (root_page_id_ t) kInvalidValue (mkVisited ∅ [] ∅) in
  match r with
  | None => ret (Some false)
  | Some v =>
      let? o := follow (default kInvalidValue (head (leaves v))) (leaves v) in
      match o with
      | None => ret (Some false)
      | Some nx => let? ok := run (gets (fun s => pa_valid s.2)) in ret (Some (negb (is_valid nx) && ok))
      end
  end.

(** [try { ... } catch (...) { return false; }] *)
Definition validate_invariants (fuel : nat) : MO st bool :=
  fun s => match validate_body fuel s with
           | (Ok b, s') => (Ok b, s')
           | (Throw _, s') => (Ok (Some false), s')
           end.

End tree.

End BT.
