(* ===== verification/TreeShape.v ===== *)
(** * The shape of a B+ tree

    The tree seen as levels: the leaves from left to right, and above them levels of internal
    nodes, each a grouping of the level below.  A node is known to the level above by its
    identifier and the smallest key under it, its [Head]; the keys an internal node stores are
    those of its children but the first.  This file has no state: it is about lists. *)

From Stdlib Require Import Sorted.
From S2P Require Import Prelude Bytes Page Payload Tuple TreeNode BPlusTree.

Module BS.
Import BN BT.

Abbreviation Entry := (Z * TU.RecordId)%type.
Abbreviation Head := (PageId * Z)%type.
Abbreviation LeafG := (PageId * list (Z * TU.RecordId))%type.
Abbreviation InnerG := (PageId * list (PageId * Z))%type.

Definition leaf_head (x : LeafG) : Head := (x.1, match x.2 with e :: _ => e.1 | [] => 0 end).
Definition inner_head (x : InnerG) : Head := (x.1, match x.2 with h :: _ => h.2 | [] => 0 end).

(** The keys an internal node stores for its children. *)
Definition seps (g : list Head) : list Z := tail g.*2.

Definition leaf_node (p nx : PageId) (es : list Entry) : Node := mkNode true p nx es.*1 es.*2 [].
Definition inner_node (p : PageId) (g : list Head) : Node := mkNode false p kInvalidValue (seps g) [] g.*1.

(** ** Vector operations on the lists of a node *)

Lemma insert_at_app {A} (l1 l2 : list A) x i : i = length l1 -> insert_at i x (l1 ++ l2) = Some (l1 ++ x :: l2).
Proof.
  intros ->. unfold insert_at. rewrite decide_True by (rewrite length_app; lia). by rewrite take_app_length, drop_app_length.
Qed.

Lemma erase_at_app {A} (l1 l2 : list A) x i : i = length l1 -> erase_at i (l1 ++ x :: l2) = Some (l1 ++ l2).
Proof.
  intros ->. unfold erase_at. rewrite decide_True by (rewrite length_app; cbn; lia). rewrite take_app_length. do 2 f_equal.
  rewrite drop_app_ge by lia. by replace (S (length l1) - length l1)%nat with 1%nat by lia.
Qed.

Lemma erase_at_fmap {A B} (h : A -> B) (l1 l2 : list A) x i : i = length l1 -> erase_at i (h <$> (l1 ++ x :: l2)) = Some (h <$> (l1 ++ l2)).
Proof. intros ->. rewrite !fmap_app. cbn [fmap list_fmap]. apply erase_at_app. by rewrite length_fmap. Qed.

Lemma assign_at_app {A} (l1 l2 : list A) x y i : i = length l1 -> assign_at i y (l1 ++ x :: l2) = Some (l1 ++ y :: l2).
Proof.
  intros ->. unfold assign_at. rewrite decide_True by (rewrite length_app; cbn; lia). f_equal.
  replace (length l1) with (length l1 + 0)%nat by lia. by rewrite insert_app_r.
Qed.

Lemma lookup_mid {A} (l1 l2 : list A) x i : i = length l1 -> (l1 ++ x :: l2) !! i = Some x.
Proof. intros ->. by rewrite lookup_app_r, Nat.sub_diag by lia. Qed.

Lemma pop_back_snoc {A} (l : list A) x : pop_back (l ++ [x]) = Some l.
Proof.
  unfold pop_back. rewrite decide_False by (by destruct l). rewrite length_app. cbn. replace (length l + 1 - 1)%nat with (length l) by lia.
  by rewrite take_app_length.
Qed.

Lemma find_at_app (l1 l2 : list PageId) x : x ∉ l1 -> find_at (l1 ++ x :: l2) x = length l1.
Proof.
  induction l1 as [|y l1 IH]; cbn; [by rewrite decide_True|]. intros [Hy Hx]%not_elem_of_cons. rewrite decide_False by done. by rewrite IH.
Qed.

Lemma fmap_length_snd {A B} (l : list (A * B)) : length l.*2 = length l.
Proof. apply length_fmap. Qed.

(** The separators of a changed group. *)
Lemma seps_cons x g : seps (x :: g) = g.*2.
Proof. done. Qed.

Lemma seps_app g1 g2 : g1 <> [] -> seps (g1 ++ g2) = seps g1 ++ g2.*2.
Proof. destruct g1; [done|]. intros _. cbn. apply fmap_app. Qed.

Lemma seps_length g : length (seps g) = (length g - 1)%nat.
Proof. destruct g; [done|]. cbn. rewrite length_fmap. lia. Qed.

Lemma seps_insert g1 x y g2 : insert_at (length g1) y.2 (seps (g1 ++ x :: g2)) = Some (seps (g1 ++ x :: y :: g2)).
Proof.
  destruct g1 as [|z g1]; [by apply (insert_at_app [])|]. cbn [app]. rewrite !seps_cons, !fmap_app. cbn.
  replace (g1.*2 ++ x.2 :: g2.*2) with ((g1.*2 ++ [x.2]) ++ g2.*2) by (by rewrite <- app_assoc).
  replace (g1.*2 ++ x.2 :: y.2 :: g2.*2) with ((g1.*2 ++ [x.2]) ++ y.2 :: g2.*2) by (by rewrite <- app_assoc).
  apply insert_at_app. rewrite length_app, length_fmap. cbn. lia.
Qed.

Lemma seps_assign g1 x y g2 : g1 <> [] -> assign_at (length g1 - 1) y.2 (seps (g1 ++ x :: g2)) = Some (seps (g1 ++ y :: g2)).
Proof.
  destruct g1 as [|z g1]; [done|]. intros _. cbn [length]. replace (S (length g1) - 1)%nat with (length g1) by lia.
  change (seps ((z :: g1) ++ x :: g2)) with (g1 ++ x :: g2).*2. change (seps ((z :: g1) ++ y :: g2)) with (g1 ++ y :: g2).*2.
  rewrite !fmap_app. apply assign_at_app. by rewrite length_fmap.
Qed.

Lemma seps_erase g1 x g2 : g1 <> [] -> erase_at (length g1 - 1) (seps (g1 ++ x :: g2)) = Some (seps (g1 ++ g2)).
Proof.
  destruct g1 as [|z g1]; [done|]. intros _. cbn [length]. replace (S (length g1) - 1)%nat with (length g1) by lia.
  change (seps ((z :: g1) ++ x :: g2)) with (g1 ++ x :: g2).*2. change (seps ((z :: g1) ++ g2)) with (g1 ++ g2).*2.
  rewrite !fmap_app. apply erase_at_app. by rewrite length_fmap.
Qed.

Lemma seps_lookup g1 x g2 : g1 <> [] -> seps (g1 ++ x :: g2) !! (length g1 - 1)%nat = Some x.2.
Proof.
  destruct g1 as [|z g1]; [done|]. intros _. cbn [length]. replace (S (length g1) - 1)%nat with (length g1) by lia.
  change (seps ((z :: g1) ++ x :: g2)) with (g1 ++ x :: g2).*2. rewrite fmap_app. apply lookup_mid. by rewrite length_fmap.
Qed.

Lemma seps_take n g : seps (take (S n) g) = take n (seps g).
Proof. destruct g as [|x g]; [by destruct n|]. cbn. by rewrite firstn_map || rewrite fmap_take. Qed.

Lemma seps_drop n g : seps (drop (S n) g) = drop (S n) (seps g).
Proof.
  destruct g as [|x g]; [by destruct n|]. unfold seps. rewrite fmap_drop. cbn [fmap list_fmap tail drop].
  generalize (g.*2). clear. induction n as [|n IH]; intros [|y l]; try done. apply IH.
Qed.

(** ** Levels *)

(** The groups of an internal level: [lo .. max + 1] children each, and at least two. *)
Definition group_ok (cfg : BPlusTreeConfig) (many : bool) (g : list Head) : Prop :=
  2 <= zlen g <= internal_max_keys cfg + 1 /\ (many = true -> internal_min cfg + 1 <= zlen g).

Definition many {A} (l : list A) : bool := match l with _ :: _ :: _ => true | _ => false end.

Fixpoint tower (cfg : BPlusTreeConfig) (hs : list Head) (ups : list (list InnerG)) : Prop :=
  match ups with
  | [] => length hs = 1%nat
  | lv :: ups => hs = concat lv.*2 /\ Forall (fun x => group_ok cfg (many lv) x.2) lv /\ tower cfg (inner_head <$> lv) ups
  end.

Fixpoint root (hs : list Head) (ups : list (list InnerG)) : PageId :=
  match ups with
  | [] => match hs with h :: _ => h.1 | [] => kInvalidValue end
  | lv :: ups => root (inner_head <$> lv) ups
  end.

(** The node of a level that a node of the level below belongs to. *)
Fixpoint parent_in (lv : list InnerG) (c : PageId) : PageId :=
  match lv with
  | [] => kInvalidValue
  | x :: lv => if decide (c ∈ x.2.*1) then x.1 else parent_in lv c
  end.
Definition par (ups : list (list InnerG)) (c : PageId) : PageId :=
  match ups with [] => kInvalidValue | lv :: _ => parent_in lv c end.

Definition up_ids (ups : list (list InnerG)) : list PageId := concat ((fun lv => lv.*1) <$> ups).

(** The nodes are stored. *)
Fixpoint rep_up (nd : PageId -> option Node) (ups : list (list InnerG)) : Prop :=
  match ups with
  | [] => True
  | lv :: ups => (forall id g, (id, g) ∈ lv -> nd id = Some (inner_node (par ups id) g)) /\ rep_up nd ups
  end.

Definition next_id (ls : list LeafG) : PageId := match ls with [] => kInvalidValue | x :: _ => x.1 end.
Fixpoint rep_leaves (nd : PageId -> option Node) (p : PageId -> PageId) (ls : list LeafG) : Prop :=
  match ls with
  | [] => True
  | x :: ls => nd x.1 = Some (leaf_node (p x.1) (next_id ls) x.2) /\ rep_leaves nd p ls
  end.
(** *** Levels and their parts *)

Lemma many_true {A} (l : list A) : many l = true <-> (2 <= length l)%nat.
Proof. destruct l as [|x [|y l]]; cbn; split; intros; try done; lia. Qed.
Lemma many_length {A B} (l : list A) (k : list B) : length l = length k -> many l = many k.
Proof. destruct l as [|x [|y l]], k as [|x' [|y' k]]; cbn; intros; try done; lia. Qed.

Lemma concat_mid {A B} (lv : list (A * list B)) h1 x h2 :
  concat lv.*2 = h1 ++ x :: h2 ->
  exists lv1 id g1 g2 lv2, lv = lv1 ++ (id, g1 ++ x :: g2) :: lv2 /\ h1 = concat lv1.*2 ++ g1 /\ h2 = g2 ++ concat lv2.*2.
Proof.
  revert h1. induction lv as [|[id g] lv IH]; intros h1 E; [by destruct h1|]. cbn in E.
  destruct (decide (length h1 < length g)%nat) as [Hl|Hl].
  - assert (g = h1 ++ drop (length h1) g) as Hg.
    { rewrite <- (take_drop (length h1) g) at 1. f_equal. apply (f_equal (take (length h1))) in E. rewrite take_app_length, take_app_le in E by lia. done. }
    destruct (drop (length h1) g) as [|y g2] eqn:Ed; [apply (f_equal length) in Ed; rewrite length_drop in Ed; cbn in Ed; lia|].
    rewrite Hg in E. rewrite <- app_assoc in E. apply app_inv_head in E. injection E as -> E. exists [], id, h1, g2, lv. rewrite <- Hg. by split_and!.
  - assert (h1 = g ++ drop (length g) h1) as Hh.
    { rewrite <- (take_drop (length g) h1) at 1. f_equal. apply (f_equal (take (length g))) in E. rewrite take_app_length, take_app_le in E by lia. done. }
    rewrite Hh, <- app_assoc in E. apply app_inv_head in E. destruct (IH _ E) as (lv1 & i & g1 & g2 & lv2 & -> & H1 & H2).
    exists ((id, g) :: lv1), i, g1, g2, lv2. split_and!; [done| |done]. cbn. by rewrite <- app_assoc, <- H1.
Qed.

Lemma concat_parts {A B} (lv1 : list (A * list B)) x lv2 : concat (lv1 ++ x :: lv2).*2 = concat lv1.*2 ++ x.2 ++ concat lv2.*2.
Proof. by rewrite fmap_app, concat_app. Qed.

Lemma parent_in_app lv1 lv2 c : c ∉ (concat lv1.*2).*1 -> parent_in (lv1 ++ lv2) c = parent_in lv2 c.
Proof.
  induction lv1 as [|x lv1 IH]; [done|]. cbn. rewrite fmap_app, not_elem_of_app. intros [Hx Hc]. rewrite decide_False by done. by apply IH.
Qed.

Lemma parent_in_mid lv1 x lv2 c : c ∉ (concat lv1.*2).*1 -> c ∈ x.2.*1 -> parent_in (lv1 ++ x :: lv2) c = x.1.
Proof. intros H1 H2. rewrite parent_in_app by done. cbn. by rewrite decide_True. Qed.

Lemma parent_in_elem lv x c : NoDup (concat lv.*2).*1 -> x ∈ lv -> c ∈ x.2.*1 -> parent_in lv c = x.1.
Proof.
  intros Hnd (lv1 & lv2 & ->)%list_elem_of_split Hc. apply parent_in_mid; [|done]. intros Hin.
  rewrite concat_parts, fmap_app in Hnd. apply list.NoDup_app in Hnd as (_ & Hd & _). apply (Hd c Hin). rewrite fmap_app. apply elem_of_app. by left.
Qed.

(** Every child is in a group. *)
Lemma concat_elem {A B} (lv : list (A * list B)) y : y ∈ concat lv.*2 <-> exists x, x ∈ lv /\ y ∈ x.2.
Proof.
  rewrite list_elem_of_In, in_concat. split.
  - intros (g & Hg & Hy). apply list_elem_of_In in Hg, Hy. apply list_elem_of_fmap in Hg as (x & -> & Hx). by exists x.
  - intros (x & Hx & Hy). exists x.2. rewrite <- !list_elem_of_In. split; [|done]. by apply list_elem_of_fmap_2.
Qed.

Lemma child_in_group (lv : list InnerG) c : c ∈ (concat lv.*2).*1 -> exists x, x ∈ lv /\ c ∈ x.2.*1.
Proof. intros (h & -> & (x & Hx & Hh)%concat_elem)%list_elem_of_fmap. exists x. split; [done|]. by apply list_elem_of_fmap_2. Qed.

Lemma parent_in_level lv c : c ∈ (concat lv.*2).*1 -> parent_in lv c ∈ lv.*1.
Proof.
  induction lv as [|x lv IH]; cbn; [by intros ?%not_elem_of_nil|]. rewrite fmap_app, elem_of_app. intros Hc. case_decide; [left|].
  right. apply IH. by destruct Hc.
Qed.

(** ** Order *)

Abbreviation increasing := (StronglySorted Z.lt).

Lemma increasing_app l1 l2 : increasing (l1 ++ l2) <-> increasing l1 /\ increasing l2 /\ forall x y, x ∈ l1 -> y ∈ l2 -> x < y.
Proof.
  induction l1 as [|a l1 IH]; cbn.
  - split; [|by intros (_ & ? & _)]. intros Hl. split_and!; [constructor|done|by intros x y ?%not_elem_of_nil].
  - split.
    + intros Hl. inversion Hl as [|? ? Hs Hf]; subst. apply IH in Hs as (H1 & H2 & H3). apply Forall_app in Hf as [Hf1 Hf2].
      split_and!; [by constructor|done|]. intros x y [->|Hx]%elem_of_cons Hy; [|by apply H3]. rewrite list.Forall_forall in Hf2. by apply Hf2.
    + intros (H1 & H2 & H3). inversion H1 as [|? ? Hs Hf]; subst. constructor; [apply IH; split_and!; [done|done|]|].
      * intros x y Hx. apply H3. by right.
      * apply Forall_app_2; [done|]. apply list.Forall_forall. intros y Hy. apply H3; [left|done].
Qed.

Lemma increasing_cons a l : increasing (a :: l) <-> increasing l /\ forall y, y ∈ l -> a < y.
Proof.
  split; [|intros [H1 H2]; constructor; [done|by apply list.Forall_forall]].
  intros Hl. inversion Hl as [|? ? Hs Hf]; subst. split; [done|]. by rewrite list.Forall_forall in Hf.
Qed.

Lemma upper_bound_spec l k : increasing l ->
  Forall (fun x => x <= k) (take (upper_bound l k) l) /\ Forall (fun x => k < x) (drop (upper_bound l k) l).
Proof.
  induction l as [|x l IH]; [by split|]. intros [Hl Hx]%increasing_cons. cbn. destruct (Z.ltb_spec k x); cbn.
  - split; [constructor|]. apply list.Forall_cons. split; [done|]. apply list.Forall_forall. intros y Hy. specialize (Hx y Hy). lia.
  - destruct (IH Hl). split; [|done]. by constructor.
Qed.

Lemma lower_bound_spec l k : increasing l ->
  Forall (fun x => x < k) (take (lower_bound l k) l) /\ Forall (fun x => k <= x) (drop (lower_bound l k) l).
Proof.
  induction l as [|x l IH]; [by split|]. intros [Hl Hx]%increasing_cons. cbn. destruct (Z.ltb_spec x k); cbn.
  - destruct (IH Hl). split; [|done]. by constructor.
  - split; [constructor|]. apply list.Forall_cons. split; [done|]. apply list.Forall_forall. intros y Hy. specialize (Hx y Hy). lia.
Qed.

Lemma lower_bound_length l k : (lower_bound l k <= length l)%nat.
Proof. induction l as [|x l IH]; cbn; [done|]. destruct (x <? k); lia. Qed.

(** Where a key leads: everything behind is larger, and the place itself is not, unless it is the first. *)
Definition routed {A} (low : A -> Z) (key : Z) (l1 : list A) (x : A) (l2 : list A) : Prop :=
  (l1 = [] \/ low x <= key) /\ Forall (fun y => key < low y) l2.

Lemma route_group g key :
  increasing g.*2 -> g <> [] ->
  exists g1 c g2, g = g1 ++ c :: g2 /\ g.*1 !! upper_bound (seps g) key = Some c.1 /\ routed snd key g1 c g2.
Proof.
  destruct g as [|x g]; [done|]. intros Hi _. change (increasing (x.2 :: g.*2)) in Hi. apply increasing_cons in Hi as [Hg _]. rewrite seps_cons.
  destruct (upper_bound_spec g.*2 key Hg) as [H1 H2]. remember (upper_bound g.*2 key) as n eqn:En. rewrite <- fmap_take in H1. rewrite <- fmap_drop in H2.
  rewrite Forall_fmap in H1, H2. destruct n as [|n].
  - exists [], x, g. split_and!; [done|done|]. split; [by left|exact H2].
  - destruct (g !! n) as [c|] eqn:Ec.
    + exists (x :: take n g), c, (drop (S n) g). split_and!.
      * cbn. f_equal. symmetry. by apply take_drop_middle.
      * change (g.*1 !! n = Some c.1). by rewrite list_lookup_fmap, Ec.
      * split; [right|exact H2]. rewrite list.Forall_forall in H1. apply (H1 c). rewrite (take_S_r _ _ _ Ec). apply elem_of_app. right. by left.
    + exfalso. apply lookup_ge_None in Ec. assert (upper_bound g.*2 key <= length g)%nat as Hle; [|lia].
      clear. induction g as [|y g IH]; cbn; [done|]. destruct (key <? y.2); lia.
Qed.

Lemma routed_fmap {A B} (f : A -> B) (low : B -> Z) key (l : list A) l1 b l2 :
  f <$> l = l1 ++ b :: l2 -> routed low key l1 b l2 ->
  exists k1 a k2, l = k1 ++ a :: k2 /\ f a = b /\ routed (fun x => low (f x)) key k1 a k2.
Proof.
  intros E [H1 H2]. apply fmap_app_inv in E as (k1 & k' & -> & E' & ->). destruct k' as [|a k2]; [done|]. injection E' as -> ->.
  exists k1, a, k2. split_and!; [done|done|]. split; [|by rewrite Forall_fmap in H2]. destruct H1 as [H1|H1]; [left; by destruct k1|by right].
Qed.

Lemma concat_increasing (lv : list InnerG) x : increasing (concat lv.*2).*2 -> x ∈ lv -> increasing x.2.*2.
Proof.
  intros Hs (lv1 & lv2 & ->)%list_elem_of_split. rewrite concat_parts, !fmap_app in Hs. apply increasing_app in Hs as (_ & Hs & _).
  by apply increasing_app in Hs as (? & _ & _).
Qed.

Lemma routed_down lv1 id g1 c g2 lv2 key :
  increasing (concat (lv1 ++ (id, g1 ++ c :: g2) :: lv2).*2).*2 ->
  routed (fun x => (inner_head x).2) key lv1 (id, g1 ++ c :: g2) lv2 -> routed snd key g1 c g2 ->
  Forall (fun x => x.2 <> []) lv1 ->
  routed snd key (concat lv1.*2 ++ g1) c (g2 ++ concat lv2.*2).
Proof.
  intros Hs [H1 H2] [G1 G2] Hne. split.
  - destruct g1 as [|y g1]; [|right; by destruct G1]. destruct H1 as [->|H1]; [by left|]. right. exact H1.
  - apply Forall_app_2; [done|]. apply list.Forall_forall. intros y (x & Hx & Hy)%concat_elem. rewrite list.Forall_forall in H2. specialize (H2 x Hx).
    destruct x as [i g]. cbn in *. destruct g as [|z g]; [by apply not_elem_of_nil in Hy|]. cbn in H2. apply elem_of_cons in Hy as [->|Hy]; [done|].
    assert (increasing (z.2 :: g.*2)) as [_ Hz]%increasing_cons.
    { apply (concat_increasing _ (i, z :: g) Hs). apply elem_of_app. right. by right. }
    specialize (Hz y.2 ltac:(by apply list_elem_of_fmap_2)). lia.
Qed.

(** The smallest keys of the groups are in order. *)
Lemma heads_increasing (lv : list InnerG) :
  increasing (concat lv.*2).*2 -> Forall (fun x => x.2 <> []) lv -> increasing (inner_head <$> lv).*2.
Proof.
  induction lv as [|[id g] lv IH]; [constructor|]. cbn. rewrite fmap_app. intros (Hg & Hs & Hx)%increasing_app [Hne Hnes]%list.Forall_cons.
  apply increasing_cons. split; [by apply IH|]. intros y (h & -> & (x & -> & Hin)%list_elem_of_fmap)%list_elem_of_fmap.
  destruct g as [|z g]; [done|]. cbn. apply Hx; [left|]. rewrite list.Forall_forall in Hnes. specialize (Hnes x Hin).
  destruct x as [i [|z' g']]; [done|]. cbn. apply list_elem_of_fmap. exists z'. split; [done|]. apply concat_elem. eexists. split; [exact Hin|left].
Qed.

Lemma group_nonempty cfg m lv : Forall (fun x : InnerG => group_ok cfg m x.2) lv -> Forall (fun x => x.2 <> []) lv.
Proof. intros Hl. eapply list.Forall_impl; [exact Hl|]. intros [id g] [[Hg _] _] Hx. cbn in *. subst g. cbn in Hg. lia. Qed.

(** Below another level there are two nodes at least. *)
Lemma level_many cfg hs lv ups : tower cfg hs (lv :: ups) -> hs <> [] -> many hs = true.
Proof.
  intros (Hc & Hg & _) Hne. apply many_true. subst hs. destruct lv as [|[i g] lv]; [done|].
  apply list.Forall_cons in Hg as [[[Hg _] _] _]. cbn in *. rewrite length_app. lia.
Qed.

End BS.
