(* ===== verification/TreeSearch.v ===== *)
(** * Searching the B+ tree

    [store] is the ghost state of the proofs about the tree: the payloads of the pages, apart
    from where they are cached.  [tree_ok] says that the pages hold the tree with given leaves
    and levels.  Shown here: reading and writing nodes, [find_leaf], [get_value], [scan],
    [height]. *)

From Stdlib Require Import Sorted.
From S2P Require Import Prelude Bytes Page Stream PageStore PageManager Wal LogManager BufferPool LockManager Mutation Transaction Payload Access Tuple TreeNode BPlusTree TreeShape.

Module BQ.
Import OB BN BT BS.

Definition id_ok (id : PageId) : Prop := is_u64 id /\ is_valid id = true.

(** The node in a page. *)
Definition nodes (cfg : BPlusTreeConfig) (c : PageId -> option bytes) (id : PageId) : option Node :=
  match c id with Some d => if well_formed cfg d then Some (node_of d) else None | None => None end.

(** A payload written. *)
Definition put (c : PageId -> option bytes) (id : PageId) (d : bytes) : PageId -> option bytes :=
  fun j => if decide (j = id) then Some d else c j.

Lemma nodes_put cfg c id n j :
  config_ok cfg = true -> node_ok cfg n -> nodes cfg (put c id (node_bytes n)) j = if decide (j = id) then Some n else nodes cfg c j.
Proof.
  intros Hc Hn. unfold nodes, put. case_decide; [|done]. destruct (node_bytes_ok cfg n Hc Hn) as (_ & -> & ->). done.
Qed.

Lemma nodes_ext cfg (c c' : PageId -> option bytes) j : c' j = c j -> nodes cfg c' j = nodes cfg c j.
Proof. intros Hj. unfold nodes. by rewrite Hj. Qed.

Section store.
Context {W : Type} `{PageAccessLaws W} (L : Prop) (held : PageId -> Z).
Implicit Types (w : W) (t : Tree) (id : PageId) (c : PageId -> option bytes).

Record store w c (f : Z) : Prop := {
  st_ok : pa_ok L w;
  st_content : forall j, pa_content w j = c j;
  st_free : pa_free w = f;
  st_held : forall j, pa_held w j = held j;
  st_idle : L -> forall j, held j = 0;
}.

Lemma tree_store_ext w c c' f : (forall j, c' j = c j) -> store w c f -> store w c' f.
Proof. intros Hc [H1 H2 H3 H4 H5]. split; try done. intros j. by rewrite H2. Qed.

Lemma tree_unpin_spec w id i d :
  pa_ok L w -> pa_at w id i -> (d = false -> pa_clean w id) ->
  wpl L (unpin id d) w (fun _ w' => pa_ok L w' /\ (forall j, pa_content w' j = pa_content w j) /\ pa_free w' = pa_free w /\
    forall j, pa_held w' j = if decide (j = id) then pa_held w j - 1 else pa_held w j).
Proof.
  intros Hok Hat Hd. unfold unpin. wpl_step. wpl_use pa_unpin_spec; [done|exact Hat|exact Hd|]. intros b w' (_ & ?). by wpl_step.
Qed.

Lemma read_node_spec t w c f id n :
  store w c f -> id_ok id -> nodes (config_ t) c id = Some n ->
  wpl L (read_node id) (t, w) (fun n' s => n' = n /\ exists w', s = (t, w') /\ store w' c f).
Proof.
  intros [Hok Hc Hf Hh Hi] [Hu Hv] Hn. unfold nodes in Hn. destruct (c id) as [d|] eqn:Hd; [|done]. destruct (well_formed _ d) eqn:Hw; [|done].
  injection Hn as <-. unfold read_node, this, data. wpl_step. apply wpl_on_pages. wpl_use pa_fetch_spec; [done|done| |].
  { intros HL _. split; [by rewrite Hc, Hd|]. intros j. by rewrite Hh, Hi. }
  intros [i|] w1 (Hok1 & Hc1 & Hf1 & Ho).
  2:{ wpl_step. intros HL. destruct Ho as [_ Ho]. rewrite (Ho HL) in Hv. done. }
  destruct Ho as (_ & Hat & Hcl & Hh1). pose proof (pa_at_data _ _ _ _ Hok1 Hat) as Hd1. rewrite Hc1, Hc, Hd in Hd1. injection Hd1 as Hd1.
  do 4 wpl_step. cbn [fst snd]. rewrite <- Hd1, Hw. cbn [negb]. wpl_step. apply wpl_on_pages. wpl_use tree_unpin_spec; [done|exact Hat|done|].
  intros [] w2 (Hok2 & Hc2 & Hf2 & Hh2). wpl_step. split; [done|]. exists w2. split; [done|]. split; try done.
  - intros j. by rewrite Hc2, Hc1.
  - congruence.
  - intros j. rewrite (held_back _ _ _ _ Hh1 Hh2). done.
Qed.

(** Pinning a page, writing its payload, unpinning it. *)
Lemma rewrite_page_spec t w c f id (missing : exn) d :
  store w c f -> id_ok id -> is_Some (c id) -> payload d ->
  wpl L (let! p := on_pages (pa_fetch id) in
         match p with
         | None => throw missing
         | Some i => on_pages (pa_update id i (fun _ => (tt, d))) ;; on_pages (unpin id true)
         end) (t, w) (fun _ s => exists w', s = (t, w') /\ store w' (put c id d) f).
Proof.
  intros [Hok Hc Hf Hh Hi] [Hu Hv] Hsome Hp. wpl_step. apply wpl_on_pages. wpl_use pa_fetch_spec; [done|done| |].
  { intros HL _. split; [by rewrite Hc|]. intros j. by rewrite Hh, Hi. }
  intros [i|] w1 (Hok1 & Hc1 & Hf1 & Ho).
  2:{ wpl_step. intros HL. destruct Ho as [_ Ho]. rewrite (Ho HL) in Hv. done. }
  destruct Ho as (_ & Hat & Hcl & Hh1). wpl_step. apply wpl_on_pages. wpl_use pa_update_spec; [done|done|done|done| |exact Hp|].
  { intros HL. rewrite Hh1, decide_True, Hh, Hi by done. done. }
  intros [] w2 (_ & Hok2 & Hat2 & Hf2 & Hc2 & Hh2). apply wpl_on_pages. wpl_use tree_unpin_spec; [done|exact Hat2|done|].
  intros [] w3 (Hok3 & Hc3 & Hf3 & Hh3). exists w3. split; [done|]. split; try done.
  - intros j. rewrite Hc3, Hc2. unfold put. cbn. case_decide; [done|]. by rewrite Hc1.
  - congruence.
  - intros j. rewrite Hh3, Hh2, Hh1. case_decide; rewrite Hh; lia.
Qed.

Lemma write_node_spec t w c f id n :
  store w c f -> id_ok id -> is_Some (c id) -> config_ok (config_ t) = true -> node_ok (config_ t) n ->
  wpl L (write_node id n) (t, w) (fun _ s => exists w', s = (t, w') /\ store w' (put c id (node_bytes n)) f).
Proof.
  intros Hst Hid Hc Hcfg Hn. unfold write_node, this. wpl_step. wpl_step. cbn [fst]. rewrite (no_writable _ _ Hn). wpl_step. wpl_step; [done|].
  apply rewrite_page_spec; try done. by apply (node_bytes_ok (config_ t)).
Qed.

Lemma tree_metadata_spec t w c f :
  store w c f -> id_ok (metadata_page_id_ t) -> is_Some (c (metadata_page_id_ t)) -> config_ok (config_ t) = true -> is_u64 (root_page_id_ t) ->
  wpl L write_metadata (t, w) (fun _ s => exists w', s = (t, w') /\
    store w' (put c (metadata_page_id_ t) (meta_bytes (root_page_id_ t) (config_ t))) f).
Proof.
  intros Hst Hid Hc Hcfg Hr. unfold write_metadata, this. wpl_step. wpl_step. cbn [fst].
  apply rewrite_page_spec; try done. by apply meta_bytes_ok.
Qed.

Lemma tree_allocate_spec t w c f :
  store w c f -> (L -> 0 < f) ->
  wpl L (on_pages pa_allocate) (t, w) (fun id s => id_ok id /\ c id = None /\ exists w', s = (t, w') /\
    store w' (put c id (zeros kPagePayloadSize)) (f - 1)).
Proof.
  intros [Hok Hc Hf Hh Hi] HL. apply wpl_on_pages. wpl_use pa_allocate_spec; [done|by rewrite Hf|].
  intros id w1 (Hok1 & Hu & Hv & Hnone & Hf1 & Hc1 & Hh1). rewrite Hc in Hnone. split_and!; [done|done|]. exists w1. split; [done|]. split; try done.
  - intros j. rewrite Hc1. unfold put. case_decide; [done|by rewrite Hc].
  - lia.
  - intros j. by rewrite Hh1.
Qed.

Lemma allocate_node_spec t w c f n :
  store w c f -> (L -> 0 < f) -> config_ok (config_ t) = true -> node_ok (config_ t) n ->
  wpl L (allocate_node n) (t, w) (fun id s => id_ok id /\ c id = None /\ exists w', s = (t, w') /\
    store w' (put c id (node_bytes n)) (f - 1)).
Proof.
  intros Hst HL Hcfg Hn. unfold allocate_node. wpl_step. wpl_use tree_allocate_spec; [done|done|]. intros id ? (Hid & Hc & w1 & -> & Hst1).
  wpl_step. wpl_use write_node_spec; [exact Hst1|done|unfold put; by rewrite decide_True|done|done|].
  intros [] ? (w2 & -> & Hst2). wpl_step. split_and!; [done|done|]. exists w2. split; [done|]. eapply tree_store_ext; [|exact Hst2].
  intros j. unfold put. by case_decide.
Qed.

Lemma set_parent_spec t w c f id p n :
  store w c f -> id_ok id -> nodes (config_ t) c id = Some n -> config_ok (config_ t) = true -> node_ok (config_ t) (set_parent_ p n) ->
  wpl L (set_parent id p) (t, w) (fun _ s => exists w', s = (t, w') /\ store w' (put c id (node_bytes (set_parent_ p n))) f).
Proof.
  intros Hst Hid Hn Hcfg Hok. unfold set_parent. wpl_step. wpl_use read_node_spec; [exact Hst|done|exact Hn|]. intros n' ? (-> & w1 & -> & Hst1).
  apply write_node_spec; try done. unfold nodes in Hn. by destruct (c id).
Qed.

(** The loop that gives several nodes a new parent. *)
Lemma set_parents_spec t w c f cs p :
  store w c f -> config_ok (config_ t) = true -> is_u64 p -> NoDup cs -> Forall id_ok cs ->
  (forall x, x ∈ cs -> exists n, nodes (config_ t) c x = Some n /\ node_ok (config_ t) n) ->
  wpl L (for_each cs (fun x => set_parent x p)) (t, w) (fun _ s => exists w' c', s = (t, w') /\ store w' c' f /\
    (forall j, j ∉ cs -> c' j = c j) /\
    forall x n, x ∈ cs -> nodes (config_ t) c x = Some n -> nodes (config_ t) c' x = Some (set_parent_ p n)).
Proof.
  intros Hst Hcfg Hp. revert w c Hst. induction cs as [|x cs IH]; intros w c Hst Hnd Hids Hn; cbn [for_each].
  { wpl_step. exists w, c. split_and!; [done|done|done|]. by intros x n ?%not_elem_of_nil. }
  apply list.NoDup_cons in Hnd as [Hx Hnd]. apply list.Forall_cons in Hids as [Hid Hids]. destruct (Hn x ltac:(left)) as (n & Hnx & Hok).
  assert (node_ok (config_ t) (set_parent_ p n)) as Hok' by (destruct Hok; by split).
  wpl_step. wpl_use set_parent_spec; [exact Hst|done|exact Hnx|done|exact Hok'|]. intros [] ? (w1 & -> & Hst1).
  wpl_use IH; [exact Hst1|done|done| |].
  { intros y Hy. destruct (Hn y ltac:(by right)) as (ny & Hny & Hoky). exists ny. rewrite nodes_put, decide_False by (done || congruence). done. }
  intros [] ? (w2 & c2 & -> & Hst2 & Hc2 & Hn2). exists w2, c2. split_and!; [done|done| |].
  - intros j [Hjx Hj]%not_elem_of_cons. rewrite Hc2 by done. unfold put. by rewrite decide_False.
  - intros y ny [->|Hy]%elem_of_cons Hny.
    + rewrite (nodes_ext _ _ _ _ (Hc2 x Hx)), nodes_put, decide_True by done. congruence.
    + apply Hn2; [done|]. rewrite nodes_put, decide_False by (done || congruence). done.
Qed.

End store.
(** ** The tree in its pages *)

Definition entry_ok (e : Entry) : Prop := is_s64 e.1 /\ rid_ok e.2.
Definition head_ok (h : Head) : Prop := id_ok h.1 /\ is_s64 h.2.

(** The entries of the tree in key order. *)
Definition entries (ls : list LeafG) : list Entry := concat ls.*2.

Definition leaf_ok (cfg : BPlusTreeConfig) (m : bool) (es : list Entry) : Prop :=
  zlen es <= leaf_max_keys cfg /\ (m = true -> leaf_min cfg <= zlen es).

Record shape_ok (cfg : BPlusTreeConfig) (ls : list LeafG) (ups : list (list InnerG)) : Prop := {
  sp_config : config_ok cfg = true;
  sp_tower : tower cfg (leaf_head <$> ls) ups;
  sp_leaves : Forall (fun x => leaf_ok cfg (many ls) x.2) ls;
  sp_sorted : increasing (entries ls).*1;
  sp_entries : Forall entry_ok (entries ls);
  sp_nodup : NoDup (ls.*1 ++ up_ids ups);
  sp_ids : Forall id_ok (ls.*1 ++ up_ids ups);
}.

Record tree_ok (t : Tree) (c : PageId -> option bytes) (ls : list LeafG) (ups : list (list InnerG)) : Prop := {
  to_shape : shape_ok (config_ t) ls ups;
  to_root : root_page_id_ t = root (leaf_head <$> ls) ups;
  to_meta : exists d, c (metadata_page_id_ t) = Some d /\ meta_page d (root_page_id_ t) (config_ t);
  to_meta_id : id_ok (metadata_page_id_ t) /\ metadata_page_id_ t ∉ ls.*1 ++ up_ids ups;
  to_leaves : rep_leaves (nodes (config_ t) c) (par ups) ls;
  to_ups : rep_up (nodes (config_ t) c) ups;
}.

Lemma leaf_min_pos cfg : config_ok cfg = true -> 1 <= leaf_min cfg.
Proof. intros Hc%config_bounds. unfold leaf_min. apply Z.div_le_lower_bound; lia. Qed.

Lemma leaf_head_ids ls : (leaf_head <$> ls).*1 = ls.*1.
Proof. rewrite <- list_fmap_compose. by apply list_fmap_ext. Qed.
Lemma inner_head_ids lv : (inner_head <$> lv).*1 = lv.*1.
Proof. rewrite <- list_fmap_compose. by apply list_fmap_ext. Qed.

Lemma leaf_heads_increasing cfg ls :
  config_ok cfg = true -> Forall (fun x => leaf_ok cfg (many ls) x.2) ls -> increasing (entries ls).*1 -> increasing (leaf_head <$> ls).*2.
Proof.
  intros Hc Hl Hs. destruct ls as [|x [|y ls]]; [constructor|by repeat constructor|]. cbn [many] in Hl. revert Hl Hs. generalize (x :: y :: ls).
  clear x y ls. induction l as [|[id es] l IH]; [constructor|]. unfold entries. cbn. rewrite fmap_app.
  intros [[_ Hmin] Hl]%list.Forall_cons (_ & Hs & Hx)%increasing_app. apply increasing_cons. split; [by apply IH|].
  intros k (h & -> & ([i' es'] & -> & Hin)%list_elem_of_fmap)%list_elem_of_fmap. cbn in *. pose proof (leaf_min_pos cfg Hc).
  rewrite list.Forall_forall in Hl. destruct (Hl _ Hin) as [_ Hmin']. cbn in Hmin'. specialize (Hmin eq_refl). specialize (Hmin' eq_refl).
  destruct es as [|e es]; [cbn in Hmin; lia|]. destruct es' as [|e' es']; [cbn in Hmin'; lia|]. apply Hx; [left|].
  apply list_elem_of_fmap. exists e'. split; [done|]. apply concat_elem. eexists. split; [exact Hin|left].
Qed.

Lemma leaf_heads_ok ls : Forall entry_ok (entries ls) -> Forall id_ok ls.*1 -> Forall head_ok (leaf_head <$> ls).
Proof.
  intros He Hi. rewrite Forall_fmap in Hi. apply Forall_fmap, list.Forall_forall. intros [id es] Hin. rewrite list.Forall_forall in Hi. split; [by apply (Hi _ Hin)|].
  cbn. destruct es as [|e es]; [unfold is_s64; lia|]. rewrite list.Forall_forall in He. apply He. apply concat_elem. eexists. split; [exact Hin|left].
Qed.

Lemma inner_heads_ok (lv : list InnerG) : Forall head_ok (concat lv.*2) -> Forall id_ok lv.*1 -> Forall head_ok (inner_head <$> lv).
Proof.
  intros He Hi. rewrite Forall_fmap in Hi. apply Forall_fmap, list.Forall_forall. intros [id g] Hin. rewrite list.Forall_forall in Hi. split; [by apply (Hi _ Hin)|].
  cbn. destruct g as [|h g]; [unfold is_s64; lia|]. rewrite list.Forall_forall in He. destruct (He h) as [_ ?]; [|done]. apply concat_elem. eexists. split; [exact Hin|left].
Qed.

Lemma up_ids_cons lv ups : up_ids (lv :: ups) = lv.*1 ++ up_ids ups.
Proof. done. Qed.

Lemma leaf_node_ok cfg m p nx es :
  leaf_ok cfg m es -> Forall entry_ok es -> is_u64 p -> is_u64 nx -> node_ok cfg (leaf_node p nx es).
Proof.
  intros [Hl _] He Hp Hn. split; cbn; [|done|done|..|constructor|done].
  - unfold writable, max_keys. cbn. rewrite !length_fmap, Z.eqb_refl, andb_true_r. by apply Z.leb_le.
  - apply Forall_fmap. eapply list.Forall_impl; [exact He|]. by intros e [].
  - apply Forall_fmap. eapply list.Forall_impl; [exact He|]. by intros e [].
Qed.

Lemma inner_node_ok cfg p g :
  1 <= zlen g <= internal_max_keys cfg + 1 -> Forall head_ok g -> is_u64 p -> node_ok cfg (inner_node p g).
Proof.
  intros Hl Hg Hp. split; cbn; [|done|done|..|constructor| |done].
  - unfold writable, max_keys. cbn. rewrite seps_length, length_fmap. apply andb_true_iff. split; [apply Z.leb_le; lia|apply Z.eqb_eq; lia].
  - destruct g as [|x g]; [constructor|]. apply list.Forall_cons in Hg as [_ Hg]. rewrite seps_cons. apply Forall_fmap. eapply list.Forall_impl; [exact Hg|]. by intros h [].
  - apply Forall_fmap. eapply list.Forall_impl; [exact Hg|]. by intros h [[]].
Qed.
(** The other leaves are on their sides of the key. *)
Lemma routed_entries cfg ls1 id es ls2 ups key :
  shape_ok cfg (ls1 ++ (id, es) :: ls2) ups ->
  routed (fun x => (leaf_head x).2) key ls1 (id, es) ls2 ->
  (forall e, e ∈ entries ls1 -> e.1 < key) /\ (forall e, e ∈ entries ls2 -> key < e.1) /\ increasing es.*1.
Proof.
  intros [Hcfg _ Hlv Hs _ _ _] [H1 H2].
  pose proof (leaf_min_pos cfg Hcfg) as Hmin. unfold entries in *. rewrite concat_parts in Hs. cbn in Hs.
  rewrite !fmap_app in Hs. apply increasing_app in Hs as (_ & Hs & Hb). apply increasing_app in Hs as (Hes & Hs2 & Ha).
  assert (forall x, x ∈ ls1 ++ (id, es) :: ls2 -> many (ls1 ++ (id, es) :: ls2) = true -> x.2 <> []) as Hne.
  { intros x Hx Hm Hnil. rewrite list.Forall_forall in Hlv. destruct (Hlv x Hx) as [_ Hl]. specialize (Hl Hm). rewrite Hnil in Hl. cbn in Hl. lia. }
  split_and!; [..|done].
  - intros e He. destruct H1 as [->|H1]; [by apply not_elem_of_nil in He|]. assert (many (ls1 ++ (id, es) :: ls2) = true) as Hm.
    { apply many_true. destruct ls1; [by apply not_elem_of_nil in He|]. cbn. rewrite length_app. cbn. lia. }
    assert (es <> []) as Hene by (apply (Hne (id, es)); [apply elem_of_app; right; left|done]). destruct es as [|e0 es]; [done|]. cbn in H1.
    assert (e.1 < e0.1); [|lia]. apply Hb; [by apply list_elem_of_fmap_2|left].
  - intros e (x & Hx & He)%concat_elem. rewrite list.Forall_forall in H2. specialize (H2 x Hx). destruct x as [i es']. cbn in *.
    destruct es' as [|e0 es']; [by apply not_elem_of_nil in He|]. cbn in H2. apply elem_of_cons in He as [->|He]; [done|].
    apply list_elem_of_split in Hx as (k1 & k2 & ->). rewrite concat_parts in Hs2. cbn in Hs2. rewrite fmap_app in Hs2. apply increasing_app in Hs2 as (_ & Hs2 & _).
    cbn in Hs2. apply increasing_cons in Hs2 as [_ Hx0]. assert (e0.1 < e.1); [|lia]. apply Hx0. apply list_elem_of_fmap. exists e. split; [done|]. apply elem_of_app. by left.
Qed.

Lemma leaf_split (es : list Entry) key :
  increasing es.*1 ->
  exists a b, es = a ++ b /\ lower_bound es.*1 key = length a /\ (forall e, e ∈ a -> e.1 < key) /\
    ((exists v b', b = (key, v) :: b' /\ forall e, e ∈ b' -> key < e.1) /\ es.*1 !! length a = Some key \/
     (forall e, e ∈ b -> key < e.1) /\ es.*1 !! length a <> Some key).
Proof.
  intros Hs. destruct (lower_bound_spec es.*1 key Hs) as [H1 H2]. pose proof (lower_bound_length es.*1 key) as Hl. rewrite length_fmap in Hl.
  remember (lower_bound es.*1 key) as n eqn:En. exists (take n es), (drop n es). assert (length (take n es) = n) as Hn by (rewrite length_take; lia).
  rewrite <- fmap_take in H1. rewrite <- fmap_drop in H2. rewrite Forall_fmap, list.Forall_forall in H1, H2.
  split_and!; [by rewrite take_drop|done|exact H1|]. rewrite Hn. destruct (drop n es) as [|[k v] b'] eqn:Ed.
  - right. split; [by intros e ?%not_elem_of_nil|]. rewrite list_lookup_fmap, lookup_ge_None_2; [done|]. apply (f_equal length) in Ed. rewrite length_drop in Ed. cbn in Ed. lia.
  - assert (es !! n = Some (k, v)) as Hes by (rewrite <- (Nat.add_0_r n), <- lookup_drop, Ed; done).
    rewrite <- (take_drop n es), fmap_app, Ed in Hs. apply increasing_app in Hs as (_ & Hs & _). cbn in Hs. apply increasing_cons in Hs as [_ Hb].
    assert (forall e, e ∈ b' -> k < e.1) as Hb' by (intros e He; apply Hb; by apply list_elem_of_fmap_2).
    pose proof (H2 (k, v) ltac:(left)) as Hk. cbn in Hk. rewrite list_lookup_fmap, Hes. destruct (decide (k = key)) as [->|Hne].
    + left. split; [|done]. by exists v, b'.
    + right. split; [|cbn; congruence]. intros e [->|He]%elem_of_cons; [cbn; lia|]. specialize (Hb' e He). lia.
Qed.

(** The tree as a map. *)
Definition to_map (ls : list LeafG) : gmap Z TU.RecordId := list_to_map (entries ls).

Lemma increasing_nodup l : increasing l -> NoDup l.
Proof. induction l as [|x l IH]; [constructor|]. intros [Hl Hx]%increasing_cons. apply list.NoDup_cons. split; [|by apply IH]. intros Hin%Hx. lia. Qed.

Lemma map_elem (l : list Entry) k v : increasing l.*1 -> (k, v) ∈ l <-> (list_to_map l : gmap Z TU.RecordId) !! k = Some v.
Proof. intros Hs%increasing_nodup. split; [by apply elem_of_list_to_map_1|apply elem_of_list_to_map_2]. Qed.

Lemma map_absent (l : list Entry) k : (forall e, e ∈ l -> e.1 <> k) -> (list_to_map l : gmap Z TU.RecordId) !! k = None.
Proof. intros Hl. apply not_elem_of_list_to_map_1. intros (e & -> & He)%list_elem_of_fmap. by apply (Hl e). Qed.

Lemma entries_parts ls1 id es ls2 : entries (ls1 ++ (id, es) :: ls2) = entries ls1 ++ es ++ entries ls2.
Proof. unfold entries. by rewrite concat_parts. Qed.

(** ** Searching *)

Section search.
Context {W : Type} `{PageAccessLaws W} (L : Prop) (held : PageId -> Z).
Implicit Types (w : W) (t : Tree) (c : PageId -> option bytes).
Abbreviation store := (store L held).

(** From the root down to the level of the given heads. *)
Lemma descend_to t c f key ups : forall hs fuel w Q,
  tower (config_ t) hs ups -> increasing hs.*2 -> Forall id_ok (up_ids ups) -> rep_up (nodes (config_ t) c) ups -> store w c f ->
  (forall h1 h h2 w', hs = h1 ++ h :: h2 -> routed snd key h1 h h2 -> store w' c f -> wpo L (descend fuel h.1 key) (t, w') Q) ->
  wpo L (descend (length ups + fuel) (root hs ups) key) (t, w) Q.
Proof.
  induction ups as [|lv ups IH]; intros hs fuel w Q Ht Hs Hids Hrep Hst Hk.
  { cbn in Ht. destruct hs as [|h [|]]; try done. apply (Hk [] h []); [done| |done]. split; [by left|constructor]. }
  destruct Ht as (-> & Hg & Ht). destruct Hrep as [Hlv Hrep]. rewrite up_ids_cons in Hids. apply Forall_app in Hids as [Hidl Hids].
  pose proof (group_nonempty _ _ _ Hg) as Hne. cbn [root length]. replace (S (length ups) + fuel)%nat with (length ups + S fuel)%nat by lia.
  apply (IH _ (S fuel)); [done|by apply heads_increasing|done|done|done|]. intros h1 h h2 w1 Eh Hr Hst1.
  destruct (routed_fmap inner_head snd key lv h1 h h2 Eh Hr) as (lv1 & [id g] & lv2 & -> & <- & Hr'). cbn [fst inner_head].
  assert ((id, g) ∈ lv1 ++ (id, g) :: lv2) as Hin by (apply elem_of_app; right; left).
  rewrite fmap_app in Hidl. apply Forall_app in Hidl as [_ Hidl]. apply list.Forall_cons in Hidl as [Hid _].
  apply Forall_app in Hne as [Hne1 Hne]. apply list.Forall_cons in Hne as [Hgne _].
  destruct (route_group g key) as (g1 & ch & g2 & -> & Hch & Hr2); [exact (concat_increasing _ _ Hs Hin)|done|].
  cbn [descend]. apply wpo_bind, wpo_run. wpl_use read_node_spec; [exact Hst1|exact Hid|exact (Hlv _ _ Hin)|].
  intros n ? (-> & w2 & -> & Hst2). cbn [inner_node leaf children keys]. apply wpo_bind. eapply wpo_opt; [exact Hch|].
  eapply (Hk (concat lv1.*2 ++ g1) ch (g2 ++ concat lv2.*2)); [|by eapply routed_down|done].
  rewrite concat_parts. cbn. by rewrite <- !app_assoc.
Qed.

Lemma rep_leaves_mid nd p ls1 id es ls2 :
  rep_leaves nd p (ls1 ++ (id, es) :: ls2) -> nd id = Some (leaf_node (p id) (next_id ls2) es).
Proof. induction ls1 as [|x ls1 IH]; cbn; [by intros [? _]|]. intros [_ Hr]. by apply IH. Qed.

(** [find_leaf] finds the leaf the key leads to. *)
Lemma find_leaf_spec t c f key ls ups fuel w :
  tree_ok t c ls ups -> store w c f -> (length ups < fuel)%nat ->
  wpo L (find_leaf fuel key) (t, w) (fun id s => exists w', s = (t, w') /\ store w' c f /\
    exists ls1 es ls2, ls = ls1 ++ (id, es) :: ls2 /\ routed (fun x => (leaf_head x).2) key ls1 (id, es) ls2).
Proof.
  intros [[Hcfg Ht Hlv Hs He Hnd Hids] Hroot _ _ Hleaves Hups] Hst Hf. unfold find_leaf, this. apply wpo_bind, wpo_run. wpl_step. cbn [fst].
  rewrite Hroot. replace fuel with (length ups + S (fuel - length ups - 1))%nat by lia. apply Forall_app in Hids as [Hidl Hidu].
  apply (descend_to t c f); [done|by eapply leaf_heads_increasing|done|done|done|]. intros h1 h h2 w1 Eh Hr Hst1.
  destruct (routed_fmap leaf_head snd key ls h1 h h2 Eh Hr) as (ls1 & [id es] & ls2 & -> & <- & Hr'). cbn [fst leaf_head descend].
  rewrite fmap_app in Hidl. apply Forall_app in Hidl as [_ Hidl]. apply list.Forall_cons in Hidl as [Hid _].
  apply wpo_bind, wpo_run. wpl_use read_node_spec; [exact Hst1|exact Hid|by eapply rep_leaves_mid|]. intros n ? (-> & w2 & -> & Hst2).
  cbn [leaf_node leaf]. apply wpo_ret. exists w2. split_and!; [done|done|]. by exists ls1, es, ls2.
Qed.
(** [get_value] answers from the map. *)
Lemma get_value_spec t c f key ls ups fuel w :
  tree_ok t c ls ups -> store w c f -> (length ups < fuel)%nat ->
  wpo L (get_value fuel key) (t, w) (fun o s => o = to_map ls !! key /\ exists w', s = (t, w') /\ store w' c f).
Proof.
  intros Hok Hst Hf. unfold get_value. apply wpo_bind. wpo_use find_leaf_spec; [exact Hok|exact Hst|exact Hf|].
  intros id ? (w1 & -> & Hst1 & ls1 & es & ls2 & -> & Hr). pose proof Hok as [Hsh _ _ _ Hlv _]. pose proof Hsh as [_ _ _ Hs _ _ Hids].
  destruct (routed_entries _ _ _ _ _ _ _ Hsh Hr) as (Hlt & Hgt & Hes).
  rewrite fmap_app in Hids. apply Forall_app in Hids as [Hids _]. apply Forall_app in Hids as [_ Hids]. apply list.Forall_cons in Hids as [Hid _].
  apply wpo_bind, wpo_run. wpl_use read_node_spec; [exact Hst1|exact Hid|by eapply rep_leaves_mid|]. intros n ? (-> & w2 & -> & Hst2).
  cbn [leaf_node keys values]. destruct (leaf_split es key Hes) as (a & b & -> & -> & Ha & Hb). unfold to_map. rewrite entries_parts in *.
  destruct Hb as [[(v & b' & -> & Hb) Hl]|[Hb Hl]].
  - rewrite decide_True by done. apply wpo_bind. eapply wpo_opt; [rewrite fmap_app; cbn; apply lookup_mid; by rewrite length_fmap|].
    apply wpo_ret. split; [|by exists w2]. symmetry. apply map_elem; [done|]. rewrite !elem_of_app. right; left; right; left.
  - rewrite decide_False by done. apply wpo_ret. split; [|by exists w2]. symmetry. apply map_absent.
    intros e. rewrite !elem_of_app. intros [He|[[He|He]|He]]; [specialize (Hlt e He)|specialize (Ha e He)|specialize (Hb e He)|specialize (Hgt e He)]; lia.
Qed.

Definition in_range (low high : Z) (e : Entry) : Prop := low <= e.1 <= high.
#[global] Instance in_range_dec low high e : Decision (in_range low high e).
Proof. unfold in_range. apply _. Defined.

Lemma scan_entries_spec low high es out :
  increasing es.*1 ->
  exists stop, scan_entries low high es out = (out ++ filter (in_range low high) es, stop) /\ (stop = true -> exists e, e ∈ es /\ high < e.1).
Proof.
  revert out. induction es as [|e es IH]; intros out Hs; [exists false; cbn; by rewrite app_nil_r|].
  cbn in Hs. apply increasing_cons in Hs as [Hs Hx]. cbn [scan_entries]. destruct (Z.ltb_spec e.1 low) as [Hlow|Hlow].
  - destruct (IH out Hs) as (stop & -> & Hstop). exists stop. rewrite filter_cons, decide_False by (unfold in_range; lia). split; [done|].
    intros E. destruct (Hstop E) as (e' & ? & ?). exists e'. split; [by right|done].
  - destruct (Z.ltb_spec high e.1) as [Hhi|Hhi].
    + exists true. split; [|intros _; exists e; split; [left|done]]. rewrite filter_none; [by rewrite app_nil_r|].
      intros x [->|Hin]%elem_of_cons; unfold in_range; [lia|]. specialize (Hx x.1 ltac:(by apply list_elem_of_fmap_2)). lia.
    + destruct (IH (out ++ [e]) Hs) as (stop & -> & Hstop). exists stop. rewrite filter_cons, decide_True by (unfold in_range; lia).
      rewrite <- app_assoc. split; [done|]. intros E. destruct (Hstop E) as (e' & ? & ?). exists e'. split; [by right|done].
Qed.

Lemma zip_entries (es : list Entry) : zip es.*1 es.*2 = es.
Proof. apply zip_fst_snd. Qed.

Lemma scan_from_leaves t c f low high ls : forall p fuel w out,
  rep_leaves (nodes (config_ t) c) p ls -> Forall id_ok ls.*1 -> increasing (entries ls).*1 -> store w c f -> (length ls <= fuel)%nat ->
  wpo L (scan_from fuel low high (next_id ls) out) (t, w) (fun r s =>
    r = out ++ filter (in_range low high) (entries ls) /\ exists w', s = (t, w') /\ store w' c f).
Proof.
  induction ls as [|[id es] ls IH]; intros p fuel w out Hrep Hids Hs Hst Hf.
  { destruct fuel; cbn; apply wpo_ret; (split; [by rewrite app_nil_r|by exists w]). }
  destruct fuel as [|fuel]; [cbn in Hf; lia|]. destruct Hrep as [Hn Hrep]. apply list.Forall_cons in Hids as [Hid Hids]. pose proof Hid as [_ Hv].
  unfold entries in Hs. cbn in Hs. rewrite fmap_app in Hs. apply increasing_app in Hs as (Hes & Hs & Hx).
  cbn [next_id fst scan_from]. cbn [fst] in Hv. rewrite Hv. cbn [negb]. apply wpo_bind, wpo_run.
  wpl_use read_node_spec; [exact Hst|exact Hid|exact Hn|]. intros n ? (-> & w1 & -> & Hst1). cbn [leaf_node keys values next snd].
  rewrite zip_entries. destruct (scan_entries_spec low high es out Hes) as (stop & -> & Hstop). unfold entries. cbn. rewrite list.filter_app. destruct stop.
  - apply wpo_ret. split; [|by exists w1]. rewrite (filter_none _ (concat ls.*2)); [by rewrite app_nil_r|].
    intros e He. destruct (Hstop eq_refl) as (e0 & He0 & Hhi). unfold in_range.
    specialize (Hx e0.1 e.1 ltac:(by apply list_elem_of_fmap_2) ltac:(by apply list_elem_of_fmap_2)). lia.
  - rewrite app_assoc. by apply (IH p); [..|cbn in Hf; lia].
Qed.

(** [scan] returns the entries of the range in key order. *)
Lemma tree_scan_spec t c f low high ls ups fuel w :
  tree_ok t c ls ups -> store w c f -> (length ups < fuel)%nat -> (length ls <= fuel)%nat ->
  wpo L (scan fuel low high) (t, w) (fun r s => r = filter (in_range low high) (entries ls) /\ exists w', s = (t, w') /\ store w' c f).
Proof.
  intros Hok Hst Hf Hf'. unfold scan. destruct (Z.ltb_spec high low) as [Hlt|Hle].
  { apply wpo_ret. split; [|by exists w]. symmetry. apply filter_none. intros e _. unfold in_range. lia. }
  apply wpo_bind. wpo_use find_leaf_spec; [exact Hok|exact Hst|exact Hf|]. intros id ? (w1 & -> & Hst1 & ls1 & es & ls2 & -> & Hr).
  pose proof Hok as [Hsh _ _ _ Hlv _]. pose proof Hsh as [_ _ _ Hs _ _ Hids].
  destruct (routed_entries _ _ _ _ _ _ _ Hsh Hr) as (Hlow & _ & _).
  rewrite fmap_app in Hids. apply Forall_app in Hids as [Hids _]. apply Forall_app in Hids as [_ Hids].
  unfold entries in *. rewrite fmap_app, concat_app in *. rewrite list.filter_app, (filter_none _ (concat ls1.*2)).
  2:{ intros e He. specialize (Hlow e He). unfold in_range. lia. }
  rewrite fmap_app in Hs. apply increasing_app in Hs as (_ & Hs & _).
  apply (scan_from_leaves t c f low high ((id, es) :: ls2) (par ups)); [|done|done|done|rewrite length_app in Hf'; cbn in *; lia].
  clear -Hlv. induction ls1 as [|x ls1 IH]; [done|]. destruct Hlv as [_ Hlv]. by apply IH.
Qed.

(** The leftmost path from the root down to the level of the given heads. *)
Lemma height_to t c f ups : forall hs fuel h w Q,
  tower (config_ t) hs ups -> Forall id_ok (up_ids ups) -> Forall head_ok hs -> rep_up (nodes (config_ t) c) ups -> store w c f ->
  (forall x hs' w', hs = x :: hs' -> store w' c f ->
     wpo L (let? n := run (read_node x.1) in height_from fuel (h + Z.of_nat (length ups)) n) (t, w') Q) ->
  wpo L (let? n := run (read_node (root hs ups)) in height_from (length ups + fuel) h n) (t, w) Q.
Proof.
  induction ups as [|lv ups IH]; intros hs fuel h w Q Ht Hids Hhs Hrep Hst Hk.
  { cbn in Ht. destruct hs as [|x [|]]; try done. specialize (Hk x [] w eq_refl Hst). cbn [length Nat.add] in *. by rewrite Z.add_0_r in Hk. }
  destruct Ht as (-> & Hg & Ht). destruct Hrep as [Hlv Hrep]. rewrite up_ids_cons in Hids. apply Forall_app in Hids as [Hidl Hids].
  cbn [root length]. replace (S (length ups) + fuel)%nat with (length ups + S fuel)%nat by lia.
  apply (IH _ (S fuel)); [done|done|by apply inner_heads_ok|done|done|]. intros x hs' w1 Ex Hst1.
  destruct lv as [|[id g] lv]; [done|]. injection Ex as <- _. cbn [fst]. pose proof (group_nonempty _ _ _ Hg) as [Hne _]%list.Forall_cons.
  destruct g as [|y g]; [done|]. apply list.Forall_cons in Hidl as [Hid _].
  apply wpo_bind, wpo_run. wpl_use read_node_spec; [exact Hst1|exact Hid|apply (Hlv id (y :: g)); left|]. intros n ? (-> & w2 & -> & Hst2).
  cbn [inner_node height_from leaf children fmap list_fmap head]. apply wpo_bind. eapply wpo_opt; [done|].
  specialize (Hk y (g ++ concat lv.*2) w2 eq_refl Hst2). cbn [length] in Hk.
  by replace (h + Z.of_nat (length ups) + 1) with (h + Z.of_nat (S (length ups))) by lia.
Qed.

(** [height] counts the levels. *)
Lemma height_spec t c f ls ups fuel w :
  tree_ok t c ls ups -> store w c f -> (length ups <= fuel)%nat ->
  wpo L (height fuel) (t, w) (fun h s => h = Z.of_nat (length ups) + 1 /\ exists w', s = (t, w') /\ store w' c f).
Proof.
  intros [[Hcfg Ht Hlv Hs He Hnd Hids] Hroot _ _ Hleaves Hups] Hst Hf. unfold height, this. apply wpo_bind, wpo_run. wpl_step. cbn [fst].
  apply Forall_app in Hids as [Hidl Hidu]. rewrite Hroot. replace fuel with (length ups + (fuel - length ups))%nat by lia.
  apply (height_to t c f); [done|done|by apply leaf_heads_ok|done|done|]. intros x hs' w1 Ex Hst1. destruct ls as [|[id es] ls]; [done|]. injection Ex as <- _.
  apply list.Forall_cons in Hidl as [Hid _]. destruct Hleaves as [Hn _]. apply wpo_bind, wpo_run.
  wpl_use read_node_spec; [exact Hst1|exact Hid|exact Hn|]. intros n ? (-> & w2 & -> & Hst2).
  destruct (fuel - length ups)%nat; cbn [leaf_node height_from leaf]; (apply wpo_ret; split; [lia|by exists w2]).
Qed.

End search.

End BQ.
