(* ===== verification/TreeInsert.v ===== *)
(** * Inserting into the B+ tree

    What happens above a level when a head of the level changes its smallest key
    ([update_parent_separator]) or gets a neighbour ([insert_into_parent]), and from that the
    correctness of [insert_impl]. *)

From Stdlib Require Import Sorted.
From S2P Require Import Prelude Bytes Page Stream PageStore PageManager Wal LogManager BufferPool LockManager Mutation Transaction Payload Access Tuple TreeNode BPlusTree TreeShape TreeSearch.

Module BI.
Import OB BN BT BS BQ.

Abbreviation heads lv := (fmap (M := list) (A := PageId * list (PageId * Z)) (B := PageId * Z) inner_head lv).

(** The levels above the heads [hs] are stored. *)
Record above (cfg : BPlusTreeConfig) (c : PageId -> option bytes) (hs : list Head) (ups : list (list InnerG)) : Prop := {
  ab_config : config_ok cfg = true;
  ab_tower : tower cfg hs ups;
  ab_heads : Forall head_ok hs;
  ab_ids : Forall id_ok (up_ids ups);
  ab_nodup : NoDup (hs.*1 ++ up_ids ups);
  ab_rep : rep_up (nodes cfg c) ups;
}.

Lemma above_up cfg c hs lv ups : above cfg c hs (lv :: ups) -> above cfg c (heads lv) ups.
Proof.
  intros [Hcfg (-> & Hg & Ht) Hh Hi Hnd [_ Hr]]. rewrite up_ids_cons in *. apply Forall_app in Hi as [Hil Hi].
  split; [done|done|by apply inner_heads_ok|done| |done]. rewrite inner_head_ids. by apply list.NoDup_app in Hnd as (_ & _ & ?).
Qed.

Lemma above_root cfg c ups : forall hs, above cfg c hs ups -> id_ok (root hs ups).
Proof.
  induction ups as [|lv ups IH]; intros hs Hab; [|apply IH; exact (above_up _ _ _ _ _ Hab)].
  destruct Hab as [_ Ht Hh _ _ _]. cbn in Ht. destruct hs as [|h hs]; [done|]. by apply list.Forall_cons in Hh as [[? _] _].
Qed.

Lemma rep_up_ext cfg c c' ups : (forall j, j ∈ up_ids ups -> c' j = c j) -> rep_up (nodes cfg c) ups -> rep_up (nodes cfg c') ups.
Proof.
  induction ups as [|lv ups IH]; [done|]. rewrite up_ids_cons. intros Hc [Hlv Hr]. split; [|apply IH; [|done]; intros j Hj; apply Hc, elem_of_app; by right].
  intros id g Hin. rewrite (nodes_ext _ _ _ _ (Hc id ltac:(apply elem_of_app; left; by apply (list_elem_of_fmap_2 fst lv (id, g))))). by apply Hlv.
Qed.

(** The group a head belongs to. *)
Lemma above_mid cfg c h1 h h2 lv ups :
  above cfg c (h1 ++ h :: h2) (lv :: ups) ->
  exists lv1 pid g1 g2 lv2, lv = lv1 ++ (pid, g1 ++ h :: g2) :: lv2 /\ h1 = concat lv1.*2 ++ g1 /\ h2 = g2 ++ concat lv2.*2 /\
    (h.1 ∉ g1.*1) /\ parent_in lv h.1 = pid /\ id_ok pid /\ (pid ∉ lv1.*1) /\ (pid ∉ lv2.*1) /\ (pid ∉ up_ids ups) /\
    nodes cfg c pid = Some (inner_node (par ups pid) (g1 ++ h :: g2)) /\ group_ok cfg (many lv) (g1 ++ h :: g2).
Proof.
  intros [Hcfg (Hc & Hg & Ht) Hh Hi Hnd [Hlv Hr]]. symmetry in Hc. destruct (concat_mid _ _ _ _ Hc) as (lv1 & pid & g1 & g2 & lv2 & -> & -> & ->).
  exists lv1, pid, g1, g2, lv2. rewrite up_ids_cons in *. apply Forall_app in Hi as [Hil Hi]. apply list.NoDup_app in Hnd as (Hndh & Hd & Hndu).
  apply list.NoDup_app in Hndu as (Hndl & Hd' & _). rewrite fmap_app in Hndl, Hil, Hd'. cbn in Hndl, Hil, Hd'. apply list.NoDup_app in Hndl as (_ & Hx & Hndl).
  apply list.NoDup_cons in Hndl as [Hp2 _]. apply Forall_app in Hil as [_ Hil]. apply list.Forall_cons in Hil as [Hid _].
  assert ((pid, g1 ++ h :: g2) ∈ lv1 ++ (pid, g1 ++ h :: g2) :: lv2) as Hin by (apply elem_of_app; right; left).
  rewrite !fmap_app in Hndh. cbn in Hndh. apply list.NoDup_app in Hndh as (Hn1 & Hn2 & Hn3). apply list.NoDup_app in Hn1 as (_ & Hn1 & _).
  assert (h.1 ∉ (concat lv1.*2).*1) as Hh1 by (intros Hx'; apply (Hn2 h.1); [apply elem_of_app; by left|left]).
  split_and!; try done.
  - intros Hx'. apply (Hn2 h.1); [apply elem_of_app; by right|left].
  - rewrite parent_in_mid; [done|done|]. cbn. rewrite fmap_app. apply elem_of_app. right. left.
  - intros Hx'. apply (Hx pid Hx'). left.
  - apply Hd'. apply elem_of_app. right. left.
  - by apply Hlv.
  - rewrite list.Forall_forall in Hg. by apply (Hg _ Hin).
Qed.

(** Parents depend on the identifiers of the children only. *)
Lemma parent_in_same lv1 id g g' lv2 j : g'.*1 = g.*1 -> parent_in (lv1 ++ (id, g') :: lv2) j = parent_in (lv1 ++ (id, g) :: lv2) j.
Proof. intros Hg. induction lv1 as [|x lv1 IH]; cbn; [by rewrite Hg|]. by rewrite IH. Qed.

Lemma elem_replace {A B} (lv1 : list (A * B)) id g g' lv2 i x :
  (i, x) ∈ lv1 ++ (id, g') :: lv2 -> id ∉ lv1.*1 -> id ∉ lv2.*1 -> i = id /\ x = g' \/ i <> id /\ (i, x) ∈ lv1 ++ (id, g) :: lv2.
Proof.
  intros Hin H1 H2. rewrite elem_of_app, elem_of_cons in *. destruct Hin as [Hin|[[= -> ->]|Hin]]; [right|by left|right].
  - split; [|by left]. intros ->. apply H1. by apply (list_elem_of_fmap_2 fst lv1 (id, x)).
  - split; [|by do 2 right]. intros ->. apply H2. by apply (list_elem_of_fmap_2 fst lv2 (id, x)).
Qed.

Lemma heads_replace lv1 id g g' lv2 : (inner_head (id, g')) = inner_head (id, g) ->
  inner_head <$> (lv1 ++ (id, g') :: lv2) = inner_head <$> (lv1 ++ (id, g) :: lv2).
Proof. intros E. rewrite !fmap_app. cbn. by rewrite E. Qed.

Lemma many_replace {A} (lv1 : list A) x y lv2 : many (lv1 ++ x :: lv2) = many (lv1 ++ y :: lv2).
Proof. apply many_length. rewrite !length_app. done. Qed.

(** A group of the lowest level replaced by one that looks the same from above; only its node is
    written. *)
Lemma above_replace cfg c c' lv1 id g g' lv2 ups :
  above cfg c (concat (lv1 ++ (id, g) :: lv2).*2) ((lv1 ++ (id, g) :: lv2) :: ups) ->
  inner_head (id, g') = inner_head (id, g) -> group_ok cfg (many (lv1 ++ (id, g) :: lv2)) g' -> Forall head_ok g' ->
  NoDup ((concat (lv1 ++ (id, g') :: lv2).*2).*1 ++ up_ids ((lv1 ++ (id, g) :: lv2) :: ups)) ->
  nodes cfg c' id = Some (inner_node (par ups id) g') ->
  (forall j, j ∈ up_ids ((lv1 ++ (id, g) :: lv2) :: ups) -> j <> id -> c' j = c j) ->
  above cfg c' (concat (lv1 ++ (id, g') :: lv2).*2) ((lv1 ++ (id, g') :: lv2) :: ups).
Proof.
  intros [Hcfg (_ & Hg & Ht) Hh Hi Hnd [Hlv Hr]] Hhd Hg' Hh' Hnd' Hn Hc. rewrite up_ids_cons in *.
  pose proof Hnd as (_ & _ & Hndu)%list.NoDup_app. apply list.NoDup_app in Hndu as (Hndl & Hd & _). rewrite fmap_app in Hndl, Hd. cbn in Hndl, Hd.
  apply list.NoDup_app in Hndl as (_ & Hx & Hndl). apply list.NoDup_cons in Hndl as [Hp2 _].
  assert ((lv1 ++ (id, g') :: lv2).*1 = (lv1 ++ (id, g) :: lv2).*1) as Hids by (by rewrite !fmap_app).
  split; [done| |..].
  - split_and!; [done| |by rewrite (heads_replace lv1 id g g' lv2 Hhd)]. apply Forall_app in Hg as [Hg1 Hg]. apply list.Forall_cons in Hg as [_ Hg2].
    rewrite (many_replace lv1 (id, g') (id, g) lv2). apply Forall_app_2; [done|]. by apply list.Forall_cons.
  - rewrite concat_parts in *. apply Forall_app in Hh as [Hh1 Hh]. apply Forall_app in Hh as [_ Hh2]. apply Forall_app_2; [done|]. by apply Forall_app_2.
  - by rewrite up_ids_cons, Hids.
  - by rewrite up_ids_cons, Hids.
  - split.
    + intros i x Hin. destruct (elem_replace lv1 id g g' lv2 i x Hin) as [[-> ->]|[Hne Hin']]; [intros Hy; apply (Hx id Hy); left|done|done|].
      rewrite (nodes_ext _ c); [by apply Hlv|]. apply Hc; [|done]. apply elem_of_app. left. by apply (list_elem_of_fmap_2 fst _ (i, x)).
    + eapply rep_up_ext; [|exact Hr]. intros j Hj. apply Hc; [apply elem_of_app; by right|]. intros ->. apply (Hd id); [|done].
      apply elem_of_app. right. left.
Qed.

Lemma par_u64 ups id : Forall id_ok (up_ids ups) -> is_u64 (par ups id).
Proof.
  intros Hi. destruct ups as [|lv ups]; [done|]. rewrite up_ids_cons in Hi. apply Forall_app in Hi as [Hi _]. cbn. induction lv as [|x lv IH]; [done|].
  apply list.Forall_cons in Hi as [[Hx _] Hi]. cbn. case_decide; [done|by apply IH].
Qed.
(** ** A new smallest key *)

(** The levels above see the same nodes with another smallest key for one head. *)
Record retagged (hs hs' : list Head) (ups ups' : list (list InnerG)) : Prop := {
  rt_ids : up_ids ups' = up_ids ups;
  rt_par : forall j, par ups' j = par ups j;
  rt_root : root hs' ups' = root hs ups;
  rt_length : length ups' = length ups;
}.

Lemma head_ids (h1 : list Head) id (k k' : Z) h2 : (h1 ++ (id, k') :: h2).*1 = (h1 ++ (id, k) :: h2).*1.
Proof. by rewrite !fmap_app. Qed.

Lemma heads_ok_replace h1 id k k' h2 : Forall head_ok (h1 ++ (id, k) :: h2) -> is_s64 k' -> Forall head_ok (h1 ++ (id, k') :: h2).
Proof. intros [H1 [[Hid _] H2]%list.Forall_cons]%Forall_app Hk. apply Forall_app_2; [done|]. apply list.Forall_cons. by split. Qed.

Lemma above_nil cfg c h1 id k k' h2 : above cfg c (h1 ++ (id, k) :: h2) [] -> is_s64 k' ->
  above cfg c (h1 ++ (id, k') :: h2) [] /\ retagged (h1 ++ (id, k) :: h2) (h1 ++ (id, k') :: h2) [] [].
Proof.
  intros [Hcfg Ht Hh Hi Hnd Hr] Hk. cbn in Ht. rewrite length_app in Ht. cbn in Ht. destruct h1; [|cbn in Ht; lia]. destruct h2; [|cbn in Ht; lia].
  split; [|done]. split; try done. by eapply (heads_ok_replace []).
Qed.

(** The first child of a group: its key is not stored in the node. *)
Lemma above_first cfg c lv1 pid id k k' g2 lv2 ups ups' c' :
  above cfg c (concat (lv1 ++ (pid, (id, k) :: g2) :: lv2).*2) ((lv1 ++ (pid, (id, k) :: g2) :: lv2) :: ups) -> is_s64 k' ->
  above cfg c' ((heads lv1) ++ (pid, k') :: (heads lv2)) ups' ->
  retagged ((heads lv1) ++ (pid, k) :: (heads lv2)) ((heads lv1) ++ (pid, k') :: (heads lv2)) ups ups' ->
  (forall j, j ∈ (lv1 ++ (pid, (id, k) :: g2) :: lv2).*1 -> c' j = c j) ->
  above cfg c' (concat (lv1 ++ (pid, (id, k') :: g2) :: lv2).*2) ((lv1 ++ (pid, (id, k') :: g2) :: lv2) :: ups').
Proof.
  intros [Hcfg (_ & Hg & Ht) Hh Hi Hnd [Hlv Hr]] Hk [_ Ht' Hh' Hi' Hnd' Hr'] [R1 R2 R3 R4] Hc. rewrite up_ids_cons in *.
  assert ((lv1 ++ (pid, (id, k') :: g2) :: lv2).*1 = (lv1 ++ (pid, (id, k) :: g2) :: lv2).*1) as Hids by (by rewrite !fmap_app).
  pose proof Hnd as (_ & _ & Hndu)%list.NoDup_app. apply list.NoDup_app in Hndu as (Hndl & _ & _). rewrite fmap_app in Hndl. cbn in Hndl.
  apply list.NoDup_app in Hndl as (_ & Hx & Hndl). apply list.NoDup_cons in Hndl as [Hp2 _].
  assert (concat (lv1 ++ (pid, (id, k') :: g2) :: lv2).*2 = concat lv1.*2 ++ (id, k') :: (g2 ++ concat lv2.*2)) as Hcc by (by rewrite concat_parts).
  assert (concat (lv1 ++ (pid, (id, k) :: g2) :: lv2).*2 = concat lv1.*2 ++ (id, k) :: (g2 ++ concat lv2.*2)) as Hcc0 by (by rewrite concat_parts).
  split; [done| | |by rewrite up_ids_cons, R1, Hids| |].
  - split_and!; [done| |by rewrite fmap_app]. apply Forall_app in Hg as [Hg1 Hg]. apply list.Forall_cons in Hg as [Hgp Hg2].
    rewrite (many_replace lv1 _ (pid, (id, k) :: g2) lv2). apply Forall_app_2; [done|]. by apply list.Forall_cons.
  - rewrite Hcc. rewrite Hcc0 in Hh. by eapply heads_ok_replace.
  - rewrite up_ids_cons, R1, Hids, Hcc, (head_ids _ id k k'), <- Hcc0. done.
  - split; [|done]. intros i x Hin. destruct (elem_replace lv1 pid ((id, k) :: g2) ((id, k') :: g2) lv2 i x Hin) as [[-> ->]|[Hne Hin']]; [intros Hy; apply (Hx pid Hy); left|done|..].
    + assert ((pid, (id, k) :: g2) ∈ lv1 ++ (pid, (id, k) :: g2) :: lv2) as Hin' by (apply elem_of_app; right; left).
      rewrite (nodes_ext _ c), (Hlv _ _ Hin'), R2; [done|]. apply Hc. by apply (list_elem_of_fmap_2 fst _ (pid, (id, k) :: g2)).
    + rewrite (nodes_ext _ c), (Hlv _ _ Hin'), R2; [done|]. apply Hc. by apply (list_elem_of_fmap_2 fst _ (i, x)).
Qed.

Lemma retagged_first lv1 pid id k k' g2 lv2 ups ups' hs hs' :
  retagged ((heads lv1) ++ (pid, k) :: (heads lv2)) ((heads lv1) ++ (pid, k') :: (heads lv2)) ups ups' ->
  retagged hs hs' ((lv1 ++ (pid, (id, k) :: g2) :: lv2) :: ups) ((lv1 ++ (pid, (id, k') :: g2) :: lv2) :: ups').
Proof.
  intros [R1 R2 R3 R4]. split.
  - by rewrite !up_ids_cons, R1, !fmap_app.
  - intros j. cbn. by apply parent_in_same.
  - cbn [root]. by rewrite !fmap_app.
  - cbn. by rewrite R4.
Qed.

(** Nothing is written for the leftmost head. *)
Lemma retag_first cfg c ups : forall id k k' h2, above cfg c ((id, k) :: h2) ups -> is_s64 k' ->
  exists ups', above cfg c ((id, k') :: h2) ups' /\ retagged ((id, k) :: h2) ((id, k') :: h2) ups ups'.
Proof.
  induction ups as [|lv ups IH]; intros id k k' h2 Hab Hk.
  { exists []. by apply (above_nil cfg c []). }
  pose proof (ab_tower _ _ _ _ Hab) as (Hc & Hg & _). pose proof (group_nonempty _ _ _ Hg) as Hne.
  destruct lv as [|[pid g] lv2]; [done|]. apply list.Forall_cons in Hne as [Hne _]. destruct g as [|y g2]; [done|]. cbn in Hc. injection Hc as <- Hc. subst h2.
  destruct (IH pid k k' (heads lv2)) as (ups' & Hab' & Hrt); [exact (above_up _ _ _ _ _ Hab)|done|].
  exists (((pid, (id, k') :: g2) :: lv2) :: ups'). split; [|by apply (retagged_first [])].
  by apply (above_first cfg c [] pid id k k' g2 lv2 ups ups' c).
Qed.

(** Another key for a child that is not the first of its group. *)
Lemma above_assign cfg c lv1 pid g1 id k k' g2 lv2 ups :
  above cfg c ((concat lv1.*2 ++ g1) ++ (id, k) :: g2 ++ concat lv2.*2) ((lv1 ++ (pid, g1 ++ (id, k) :: g2) :: lv2) :: ups) -> is_s64 k' -> g1 <> [] ->
  node_ok cfg (inner_node (par ups pid) (g1 ++ (id, k') :: g2)) /\
  forall c', nodes cfg c' pid = Some (inner_node (par ups pid) (g1 ++ (id, k') :: g2)) ->
    (forall j, j ∈ up_ids ((lv1 ++ (pid, g1 ++ (id, k) :: g2) :: lv2) :: ups) -> j <> pid -> c' j = c j) ->
    above cfg c' (concat lv1.*2 ++ g1 ++ (id, k') :: g2 ++ concat lv2.*2) ((lv1 ++ (pid, g1 ++ (id, k') :: g2) :: lv2) :: ups).
Proof.
  intros Hab Hk Hne. pose proof (ab_tower _ _ _ _ Hab) as (Hcc & Hg & _). rewrite Hcc in Hab. pose proof Hab as [Hcfg _ Hh Hi Hnd _].
  apply Forall_app in Hg as [_ Hg]. apply list.Forall_cons in Hg as [Hg _]. cbn in Hg.
  rewrite concat_parts in Hh. apply Forall_app in Hh as [_ Hh]. apply Forall_app in Hh as [Hh _]. cbn in Hh.
  assert (Forall head_ok (g1 ++ (id, k') :: g2)) as Hh' by (by eapply heads_ok_replace).
  assert (length (g1 ++ (id, k') :: g2) = length (g1 ++ (id, k) :: g2)) as Hl by (by rewrite !length_app).
  pose proof Hg as [Hgl _]. rewrite up_ids_cons in Hi. apply Forall_app in Hi as [_ Hi]. split.
  { apply inner_node_ok; [rewrite Hl; lia|done|by apply par_u64]. }
  intros c' Hn Hc. assert (concat lv1.*2 ++ g1 ++ (id, k') :: g2 ++ concat lv2.*2 = concat (lv1 ++ (pid, g1 ++ (id, k') :: g2) :: lv2).*2) as ->.
  { rewrite concat_parts. cbn. by rewrite <- app_assoc. }
  eapply above_replace; [exact Hab|by destruct g1|unfold group_ok in *; by rewrite Hl|done| |exact Hn|exact Hc].
  assert ((concat (lv1 ++ (pid, g1 ++ (id, k') :: g2) :: lv2).*2).*1 = (concat (lv1 ++ (pid, g1 ++ (id, k) :: g2) :: lv2).*2).*1) as ->; [|done].
  rewrite !concat_parts. cbn [snd]. by rewrite !fmap_app.
Qed.

Section write.
Context {W : Type} `{PageAccessLaws W} (L : Prop) (held : PageId -> Z).
Implicit Types (w : W) (t : Tree) (c : PageId -> option bytes).
Abbreviation store := (store L held).

Lemma update_parent_separator_spec t ups : forall h1 id k h2 k' c f fuel w n,
  above (config_ t) c (h1 ++ (id, k) :: h2) ups -> is_s64 k' -> nodes (config_ t) c id = Some n -> parent n = par ups id ->
  store w c f -> (length ups < fuel)%nat ->
  wpo L (update_parent_separator fuel id k') (t, w) (fun _ s => exists w' c' ups', s = (t, w') /\ store w' c' f /\
    above (config_ t) c' (h1 ++ (id, k') :: h2) ups' /\ retagged (h1 ++ (id, k) :: h2) (h1 ++ (id, k') :: h2) ups ups' /\
    forall j, j ∉ up_ids ups -> c' j = c j).
Proof.
  induction ups as [|lv ups IH]; intros h1 id k h2 k' c f fuel w n Hab Hk Hn Hpar Hst Hf; (destruct fuel as [|fuel]; [lia|]); cbn [update_parent_separator].
  all: assert (id_ok id) as Hid by (pose proof (ab_heads _ _ _ _ Hab) as [_ [[? _] _]%list.Forall_cons]%Forall_app; done).
  all: apply wpo_bind, wpo_run; wpl_use read_node_spec; [exact Hst|exact Hid|exact Hn|]; intros n' ? (-> & w1 & -> & Hst1); rewrite Hpar.
  { change (is_valid (par [] id)) with false. cbn [negb]. apply wpo_ret. destruct (above_nil _ _ _ _ _ _ _ Hab Hk) as [Hab' Hrt]. by exists w1, c, []. }
  destruct (above_mid _ _ _ _ _ _ _ Hab) as (lv1 & pid & g1 & g2 & lv2 & -> & -> & -> & Hg1 & Hpin & Hpid & Hp1 & Hp2 & Hpu & Hnp & Hgok).
  cbn [par fst] in *. rewrite Hpin. rewrite (proj2 Hpid). cbn [negb]. apply wpo_bind, wpo_run.
  wpl_use read_node_spec; [exact Hst1|exact Hpid|exact Hnp|]. intros p ? (-> & w2 & -> & Hst2). cbn [inner_node children keys values leaf parent next].
  rewrite fmap_app. cbn [fmap list_fmap]. rewrite find_at_app by done. rewrite length_fmap. apply wpo_bind, wpo_run.
  rewrite bool_decide_false by (rewrite length_app, length_fmap; cbn; lia). wpl_step; [done|]. destruct (decide (0 < length g1)%nat) as [Hpos|Hzero].
  - assert (g1 <> []) as Hne by (intros ->; cbn in Hpos; lia). apply wpo_bind. eapply wpo_opt; [exact (seps_assign g1 (id, k) (id, k') g2 Hne)|].
    destruct (above_assign _ _ _ _ _ _ _ k' _ _ _ Hab Hk Hne) as (Hnok & Hnew). apply wpo_run.
    change (with_entries _ _ _ _) with (mkNode false (par ups pid) kInvalidValue (seps (g1 ++ (id, k') :: g2)) [] (g1.*1 ++ id :: g2.*1)).
    assert (g1.*1 ++ id :: g2.*1 = (g1 ++ (id, k') :: g2).*1) as -> by (by rewrite fmap_app).
    wpl_use write_node_spec; [exact Hst2|exact Hpid|unfold nodes in Hnp; by destruct (c pid)|exact (ab_config _ _ _ _ Hab)|exact Hnok|].
    intros [] ? (w3 & -> & Hst3). eexists w3, _, _. split_and!; [done|exact Hst3|..].
    + rewrite <- app_assoc. cbn. apply Hnew; [by rewrite nodes_put, decide_True by (done || apply Hab)|]. intros j _ Hj. unfold put. by rewrite decide_False.
    + split; [by rewrite !up_ids_cons, !fmap_app|intros j; cbn; apply parent_in_same; by rewrite !fmap_app| |done].
      cbn [root]. by rewrite (heads_replace lv1 pid (g1 ++ (id, k) :: g2)) by (by destruct g1).
    + intros j Hj. unfold put. rewrite decide_False; [done|]. intros ->. apply Hj. rewrite up_ids_cons, elem_of_app. left.
      rewrite fmap_app. apply elem_of_app. right. left.
  - assert (g1 = []) as -> by (destruct g1; [done|cbn in Hzero; lia]). cbn [app] in *. rewrite app_nil_r in *.
    pose proof (above_up _ _ _ _ _ Hab) as Hup. rewrite fmap_app in Hup. cbn in Hup.
    wpo_use IH; [exact Hup|exact Hk|exact Hnp|done|exact Hst2|cbn in Hf; lia|]. intros [] ? (w3 & c3 & ups3 & -> & Hst3 & Hab3 & Hrt & Hc3).
    exists w3, c3, ((lv1 ++ (pid, (id, k') :: g2) :: lv2) :: ups3). split_and!; [done|done| | |].
    + pose proof (ab_tower _ _ _ _ Hab) as (Hcc & _). rewrite Hcc in Hab. assert (concat lv1.*2 ++ (id, k') :: g2 ++ concat lv2.*2 = concat (lv1 ++ (pid, (id, k') :: g2) :: lv2).*2) as -> by (by rewrite concat_parts).
      eapply above_first; [exact Hab|done|exact Hab3|exact Hrt|]. intros j Hj. apply Hc3. pose proof (ab_nodup _ _ _ _ Hab) as Hnd. rewrite up_ids_cons in Hnd.
      apply list.NoDup_app in Hnd as (_ & _ & Hnd). apply list.NoDup_app in Hnd as (_ & Hnd & _). by apply Hnd.
    + by apply retagged_first.
    + intros j Hj. apply Hc3. rewrite up_ids_cons, not_elem_of_app in Hj. by destruct Hj.
Qed.

End write.
(** ** A new neighbour *)

Lemma set_parent_same p n : parent n = p -> set_parent_ p n = n.
Proof. intros <-. by destruct n. Qed.

(** The nodes below the levels know their parents. *)
Definition below (cfg : BPlusTreeConfig) (c : PageId -> option bytes) (hs : list Head) (ups : list (list InnerG)) : Prop :=
  forall x, x ∈ hs.*1 -> exists n, nodes cfg c x = Some n /\ node_ok cfg n /\ parent n = par ups x.

(** The tree [t] with pages [c] has become [t'] with pages [c'], in which the levels [ups'] are above [hs']. *)
Record lifted (t t' : Tree) (c c' : PageId -> option bytes) (f f' : Z) (hs' : list Head) (ups ups' : list (list InnerG)) : Prop := {
  lf_config : config_ t' = config_ t;
  lf_metadata : metadata_page_id_ t' = metadata_page_id_ t;
  lf_above : above (config_ t) c' hs' ups';
  lf_root : root_page_id_ t' = root hs' ups';
  lf_meta : c' (metadata_page_id_ t) = Some (meta_bytes (root_page_id_ t') (config_ t)) \/
            t' = t /\ c' (metadata_page_id_ t) = c (metadata_page_id_ t);
  lf_nodes : forall x n, x ∈ hs'.*1 -> nodes (config_ t) c x = Some n -> nodes (config_ t) c' x = Some (set_parent_ (par ups' x) n);
  lf_frame : forall j, j ∉ metadata_page_id_ t :: hs'.*1 ++ up_ids ups' -> c' j = c j;
  lf_fresh : forall j, j ∈ up_ids ups' -> j ∈ up_ids ups \/ c j = None;
  lf_length : (length ups' <= S (length ups))%nat;
  lf_free : f - (Z.of_nat (length ups) + 1) <= f';
}.

Lemma node_page cfg c id n : nodes cfg c id = Some n -> is_Some (c id).
Proof. unfold nodes. by destruct (c id). Qed.

(** A node is not the page of nothing. *)
Lemma node_not_free cfg c id j n : nodes cfg c id = Some n -> c j = None -> id <> j.
Proof. intros Hn Hj ->. unfold nodes in Hn. by rewrite Hj in Hn. Qed.

Lemma set_parent_ok cfg p n : node_ok cfg n -> is_u64 p -> node_ok cfg (set_parent_ p n).
Proof. intros [] Hp. by split. Qed.

Lemma above_pages cfg c hs ups j : above cfg c hs ups -> j ∈ up_ids ups -> is_Some (c j).
Proof.
  intros [_ _ _ _ _ Hr] Hj. induction ups as [|lv ups IH]; [by apply not_elem_of_nil in Hj|]. destruct Hr as [Hlv Hr]. rewrite up_ids_cons, elem_of_app in Hj.
  destruct Hj as [([id g] & -> & Hin)%list_elem_of_fmap|Hj]; [|by apply IH]. eapply node_page. by apply Hlv.
Qed.
Lemma above_cons cfg c lv ups :
  above cfg c (heads lv) ups -> (forall id g, (id, g) ∈ lv -> nodes cfg c id = Some (inner_node (par ups id) g)) ->
  Forall (fun x => group_ok cfg (many lv) x.2) lv -> Forall head_ok (concat lv.*2) -> Forall id_ok lv.*1 ->
  NoDup ((concat lv.*2).*1 ++ lv.*1 ++ up_ids ups) -> above cfg c (concat lv.*2) (lv :: ups).
Proof.
  intros [Hcfg Ht Hh Hi Hnd Hr] Hlv Hg Hh' Hid Hnd'. split; [done|done|done| |by rewrite up_ids_cons|done]. rewrite up_ids_cons. by apply Forall_app_2.
Qed.

(** The parents of the other children stay when a group gets a child. *)
Lemma parent_in_insert lv1 pid g1 x y g2 lv2 j : j <> y.1 ->
  parent_in (lv1 ++ (pid, g1 ++ x :: y :: g2) :: lv2) j = parent_in (lv1 ++ (pid, g1 ++ x :: g2) :: lv2) j.
Proof.
  intros Hj. induction lv1 as [|z lv1 IH]; cbn; [|by rewrite IH]. assert (j ∈ (g1 ++ x :: y :: g2).*1 <-> j ∈ (g1 ++ x :: g2).*1) as Hiff.
  { rewrite !fmap_app, !elem_of_app. cbn. rewrite !elem_of_cons. naive_solver. }
  destruct (decide (j ∈ (g1 ++ x :: g2).*1)); [by rewrite decide_True by naive_solver|by rewrite decide_False by naive_solver].
Qed.

(** The neighbour in its group. *)
Lemma concat_insert (lv1 : list InnerG) (pid : PageId) (g1 : list Head) (x y : Head) (g2 : list Head) (lv2 : list InnerG) :
  concat (lv1 ++ (pid, g1 ++ x :: y :: g2) :: lv2).*2 = (concat lv1.*2 ++ g1) ++ x :: y :: (g2 ++ concat lv2.*2).
Proof. rewrite concat_parts. cbn. by rewrite <- !app_assoc. Qed.
Lemma above_ext cfg c c' hs ups : (forall j, j ∈ up_ids ups -> c' j = c j) -> above cfg c hs ups -> above cfg c' hs ups.
Proof. intros Hc [Hcfg Ht Hh Hi Hnd Hr]. split; try done. by eapply rep_up_ext. Qed.

Lemma group_node_ok cfg m p g : group_ok cfg m g -> Forall head_ok g -> is_u64 p -> node_ok cfg (inner_node p g).
Proof. intros [Hg _] Hh Hp. apply inner_node_ok; [lia|done|done]. Qed.

Lemma level_head_ok (lv : list InnerG) x : Forall head_ok (concat lv.*2) -> x ∈ lv -> Forall head_ok x.2.
Proof. intros Hh (lv1 & lv2 & ->)%list_elem_of_split. rewrite concat_parts in Hh. apply Forall_app in Hh as [_ Hh]. by apply Forall_app in Hh as [? _]. Qed.

(** The nodes of a level know their parents. *)
Lemma above_below cfg c hs lv ups : above cfg c hs (lv :: ups) -> below cfg c (heads lv) ups.
Proof.
  intros [Hcfg (-> & Hg & _) Hh Hi _ [Hlv _]] x. rewrite inner_head_ids. intros ([id g] & -> & Hin)%list_elem_of_fmap. eexists. split_and!; [exact (Hlv _ _ Hin)| |done].
  rewrite up_ids_cons in Hi. apply Forall_app in Hi as [_ Hi]. rewrite list.Forall_forall in Hg. eapply group_node_ok; [exact (Hg _ Hin)|exact (level_head_ok _ _ Hh Hin)|by apply par_u64].
Qed.

Lemma many_elem {A} (l1 l2 : list A) x y : x ∈ l1 \/ x ∈ l2 -> many (l1 ++ y :: l2) = true.
Proof. intros Hx. apply many_true. rewrite length_app. cbn. destruct l1, l2; cbn; try lia. by destruct Hx as [?%not_elem_of_nil|?%not_elem_of_nil]. Qed.

(** A node is in one group only. *)
Lemma same_group {A B} (lv : list (A * B)) id g g' : NoDup lv.*1 -> (id, g) ∈ lv -> (id, g') ∈ lv -> g = g'.
Proof.
  intros Hnd [i1 Hi1]%list_elem_of_lookup [i2 Hi2]%list_elem_of_lookup.
  assert (i1 = i2) as <- by (eapply NoDup_lookup; [exact Hnd|by rewrite list_lookup_fmap, Hi1|by rewrite list_lookup_fmap, Hi2]). congruence.
Qed.

Section insert.
Context {W : Type} `{PageAccessLaws W} (L : Prop) (held : PageId -> Z).
Implicit Types (w : W) (t : Tree) (c : PageId -> option bytes).
Abbreviation store := (store L held).

(** What [insert_into_parent] starts from. *)
Record growing t c (f : Z) (h1 : list Head) (left : PageId) (kl : Z) (h2 : list Head) (right : PageId) (sep : Z) (ups : list (list InnerG)) : Prop := {
  gr_above : above (config_ t) c (h1 ++ (left, kl) :: h2) ups;
  gr_right : head_ok (right, sep);
  gr_nodup : NoDup (metadata_page_id_ t :: right :: (h1 ++ (left, kl) :: h2).*1 ++ up_ids ups);
  gr_below : below (config_ t) c (h1 ++ (left, kl) :: h2) ups;
  gr_node : exists n, nodes (config_ t) c right = Some n /\ node_ok (config_ t) n;
  gr_meta : id_ok (metadata_page_id_ t) /\ is_Some (c (metadata_page_id_ t));
  gr_root : root_page_id_ t = root (h1 ++ (left, kl) :: h2) ups;
  gr_free : L -> Z.of_nat (length ups) + 1 <= f;
}.

Lemma insert_root_spec t c f h1 left kl h2 right sep fuel w :
  growing t c f h1 left kl h2 right sep [] -> store w c f ->
  wpo L (insert_into_parent (S fuel) left sep right) (t, w) (fun _ s => exists t' w' c' f' ups', s = (t', w') /\ store w' c' f' /\
    lifted t t' c c' f f' (h1 ++ (left, kl) :: (right, sep) :: h2) [] ups').
Proof.
  intros [Hab Hr Hnd Hbel (nr & Hnr & Hnrok) [Hm Hmc] Hroot Hfree] Hst. pose proof Hab as [Hcfg Ht Hh _ _ _].
  cbn in Ht. rewrite length_app in Ht. cbn in Ht. destruct h1; [|cbn in Ht; lia]. destruct h2; [|cbn in Ht; lia]. cbn [app] in *.
  destruct (Hbel left) as (nl & Hnl & Hnlok & Hpar); [left|]. apply list.Forall_cons in Hh as [[Hlid Hkl] _]. cbn in Hlid. destruct Hr as [Hrid Hsep]. cbn in Hrid, Hsep.
  cbn [par] in Hpar. apply list.NoDup_cons in Hnd as [Hmn Hnd]. apply list.NoDup_cons in Hnd as [Hrl _]. cbn in Hmn, Hrl.
  assert (metadata_page_id_ t <> right) as Hmr by (intros E; apply Hmn; rewrite E; left).
  assert (metadata_page_id_ t <> left) as Hml by (intros E; apply Hmn; rewrite E; right; left).
  assert (right <> left) as Hrl' by (intros E; apply Hrl; rewrite E; left). cbn [insert_into_parent].
  apply wpo_bind, wpo_run. wpl_use read_node_spec; [exact Hst|exact Hlid|exact Hnl|]. intros n ? (-> & w1 & -> & Hst1). rewrite Hpar. change (negb (is_valid kInvalidValue)) with true. cbn iota.
  set (G := [(left, kl); (right, sep)]). change (mkNode false kInvalidValue kInvalidValue [sep] [] [left; right]) with (inner_node kInvalidValue G).
  assert (Forall head_ok G) as HG by (apply list.Forall_cons; split; [done|]; by apply list.Forall_singleton).
  assert (node_ok (config_ t) (inner_node kInvalidValue G)) as Hok.
  { apply inner_node_ok; [cbn; pose proof (config_bounds _ Hcfg); lia|done|done]. }
  apply wpo_bind, wpo_run. wpl_use allocate_node_spec; [exact Hst1|intros HL; specialize (Hfree HL); cbn in Hfree; lia|done|exact Hok|].
  intros rid ? (Hid & Hnone & w2 & -> & Hst2). pose proof (node_not_free _ _ _ _ _ Hnl Hnone) as Hlr. pose proof (node_not_free _ _ _ _ _ Hnr Hnone) as Hrr.
  assert (metadata_page_id_ t <> rid) as Hmrid by (intros E; rewrite E, Hnone in Hmc; by destruct Hmc).
  apply wpo_bind, wpo_run. wpl_use set_parent_spec; [exact Hst2|exact Hlid|by rewrite nodes_put, decide_False by done|done|apply set_parent_ok; [exact Hnlok|apply Hid]|].
  intros [] ? (w3 & -> & Hst3). apply wpo_bind, wpo_run.
  wpl_use set_parent_spec; [exact Hst3|exact Hrid| |done|apply set_parent_ok; [exact Hnrok|apply Hid]|].
  { rewrite nodes_put, decide_False by (done || by apply set_parent_ok; [|apply Hid]). by rewrite nodes_put, decide_False by done. }
  intros [] ? (w4 & -> & Hst4). unfold upd. apply wpo_bind, wpo_run. wpl_step. cbn [fst snd]. apply wpo_run.
  wpl_use tree_metadata_spec; [exact Hst4|exact Hm| |done|apply Hid|].
  { cbn. unfold put. rewrite !decide_False by done. done. }
  intros [] ? (w5 & -> & Hst5). eexists _, w5, _, _, [[(rid, G)]]. split_and!; [done|exact Hst5|]. cbn [set_root metadata_page_id_ root_page_id_ config_].
  assert (forall j, nodes (config_ t) (put (put (put (put c rid (node_bytes (inner_node kInvalidValue G))) left (node_bytes (set_parent_ rid nl))) right
    (node_bytes (set_parent_ rid nr))) (metadata_page_id_ t) (meta_bytes rid (config_ t))) j =
    if decide (j = metadata_page_id_ t) then nodes (config_ t) (fun _ => Some (meta_bytes rid (config_ t))) j
    else if decide (j = right) then Some (set_parent_ rid nr) else if decide (j = left) then Some (set_parent_ rid nl)
    else if decide (j = rid) then Some (inner_node kInvalidValue G) else nodes (config_ t) c j) as Hnodes.
  { intros j. unfold put at 1. unfold nodes at 1. destruct (decide (j = metadata_page_id_ t)); [done|]. fold (nodes (config_ t) (put (put (put c rid (node_bytes (inner_node kInvalidValue G))) left
      (node_bytes (set_parent_ rid nl))) right (node_bytes (set_parent_ rid nr))) j).
    rewrite nodes_put by (done || by apply set_parent_ok; [|apply Hid]). case_decide; [done|].
    rewrite nodes_put by (done || by apply set_parent_ok; [|apply Hid]). case_decide; [done|]. by rewrite nodes_put. }
  split; cbn [set_root metadata_page_id_ root_page_id_ config_]; try done.
  - split; [done| |exact HG|by apply list.Forall_singleton| |].
    + cbn. split_and!; [done| |done]. constructor; [|constructor]. split; [cbn; pose proof (config_bounds _ Hcfg); lia|done].
    + cbn. apply list.NoDup_cons. split; [|apply list.NoDup_cons; split; [|by apply list.NoDup_singleton]].
      * rewrite !elem_of_cons. intros [?|[?|?%not_elem_of_nil]]; congruence.
      * rewrite list_elem_of_singleton. congruence.
    + cbn. split; [|done]. intros i g Hin. apply list_elem_of_singleton in Hin as [= -> ->]. rewrite Hnodes. by rewrite decide_False, decide_False, decide_False, decide_True by congruence.
  - left. unfold put. by rewrite decide_True.
  - intros x n Hx Hn. cbn in Hx. rewrite Hnodes. cbn [par parent_in fst snd G fmap list_fmap]. rewrite !elem_of_cons in Hx.
    destruct Hx as [->|[->|?%not_elem_of_nil]]; [| |done].
    + rewrite decide_False, decide_False, decide_True by congruence. rewrite decide_True by left. congruence.
    + rewrite decide_False, decide_True by congruence. rewrite decide_True by (right; left). congruence.
  - intros j Hj. cbn in Hj. rewrite !not_elem_of_cons in Hj. unfold put. by rewrite !decide_False by naive_solver.
  - intros j Hj. cbn in Hj. apply list_elem_of_singleton in Hj as ->. by right.
Qed.

(** The group has room for the neighbour. *)
Lemma insert_fit t c f lv1 pid g1 left kl g2 lv2 right sep ups nr :
  growing t c f (concat lv1.*2 ++ g1) left kl (g2 ++ concat lv2.*2) right sep ((lv1 ++ (pid, g1 ++ (left, kl) :: g2) :: lv2) :: ups) ->
  nodes (config_ t) c right = Some nr -> node_ok (config_ t) nr -> id_ok pid ->
  zlen (g1 ++ (left, kl) :: (right, sep) :: g2) <= internal_max_keys (config_ t) + 1 ->
  node_ok (config_ t) (inner_node (par ups pid) (g1 ++ (left, kl) :: (right, sep) :: g2)) /\
  lifted t t c (put (put c right (node_bytes (set_parent_ pid nr))) pid (node_bytes (inner_node (par ups pid) (g1 ++ (left, kl) :: (right, sep) :: g2))))
    f f ((concat lv1.*2 ++ g1) ++ (left, kl) :: (right, sep) :: (g2 ++ concat lv2.*2))
    ((lv1 ++ (pid, g1 ++ (left, kl) :: g2) :: lv2) :: ups) ((lv1 ++ (pid, g1 ++ (left, kl) :: (right, sep) :: g2) :: lv2) :: ups).
Proof.
  intros [Hab Hr Hnd Hbel _ [Hm Hmc] Hroot Hfree] Hnr Hnrok Hpid Hsize. set (G := g1 ++ (left, kl) :: (right, sep) :: g2) in *.
  set (lv := lv1 ++ (pid, g1 ++ (left, kl) :: g2) :: lv2) in *. pose proof (ab_tower _ _ _ _ Hab) as (Hcc & Hg & _). pose proof Hab as [Hcfg _ Hh Hi _ _].
  assert (Forall head_ok G) as HG.
  { rewrite Hcc in Hh. unfold lv in Hh. rewrite concat_parts in Hh. apply Forall_app in Hh as [_ Hh]. apply Forall_app in Hh as [Hh _]. cbn in Hh.
    apply Forall_app in Hh as [Hh1 Hh]. apply list.Forall_cons in Hh as [Hl Hh2]. apply Forall_app_2; [done|]. by repeat (apply list.Forall_cons; split; [done|]). }
  assert (node_ok (config_ t) (inner_node (par ups pid) G)) as Hok.
  { apply inner_node_ok; [split; [unfold G; rewrite length_app; cbn; lia|lia]|done|]. apply par_u64. rewrite up_ids_cons in Hi. by apply Forall_app in Hi as [_ ?]. }
  split; [done|]. apply list.NoDup_cons in Hnd as [Hmn Hnd]. apply list.NoDup_cons in Hnd as [Hrn Hnd]. rewrite <- (concat_insert lv1 pid g1 (left, kl) (right, sep) g2 lv2). fold G.
  assert (pid ∈ up_ids (lv :: ups)) as Hpu by (rewrite up_ids_cons; apply elem_of_app; left; unfold lv; rewrite fmap_app; apply elem_of_app; right; left).
  assert (pid <> right) as Hpr by (intros ->; apply Hrn, elem_of_app; by right).
  assert (metadata_page_id_ t <> right) as Hmr by (intros E; apply Hmn; rewrite E; left).
  assert (metadata_page_id_ t <> pid) as Hmp by (intros E; apply Hmn; rewrite E; right; apply elem_of_app; by right).
  assert (up_ids ((lv1 ++ (pid, G) :: lv2) :: ups) = up_ids (lv :: ups)) as Hids by (unfold lv; by rewrite !up_ids_cons, !fmap_app).
  assert (forall x, x ∈ (concat (lv1 ++ (pid, G) :: lv2).*2).*1 <-> x = right \/ x ∈ ((concat lv1.*2 ++ g1) ++ (left, kl) :: (g2 ++ concat lv2.*2)).*1) as Hmem.
  { intros x. unfold G. rewrite concat_insert, !fmap_app, !elem_of_app. cbn. rewrite !elem_of_cons. naive_solver. }
  assert (NoDup ((concat (lv1 ++ (pid, G) :: lv2).*2).*1 ++ up_ids (lv :: ups))) as HndG.
  { unfold G. rewrite concat_insert. eapply (list.NoDup_Permutation_proper _ (right :: _)); [|apply list.NoDup_cons; split; [exact Hrn|exact Hnd]].
    rewrite !fmap_app. cbn. solve_Permutation. }
  split; try done.
  - rewrite Hcc in Hab. eapply above_replace; [exact Hab| | |done|done| |].
    + unfold G. by destruct g1.
    + unfold lv in Hg. apply Forall_app in Hg as [_ Hg]. apply list.Forall_cons in Hg as [[[Hg1 Hg2] Hg3] _]. cbn [snd] in Hg1, Hg2, Hg3.
      assert (zlen G = zlen (g1 ++ (left, kl) :: g2) + 1) as HlG by (unfold G; rewrite !length_app; cbn; lia). split; [lia|]. intros Hmany. specialize (Hg3 Hmany). lia.
    + by rewrite nodes_put, decide_True by done.
    + intros j Hj Hne. unfold put. rewrite !decide_False; [done| |done]. intros ->. apply Hrn, elem_of_app. by right.
  - rewrite Hroot. cbn [root]. by rewrite (heads_replace lv1 pid (g1 ++ (left, kl) :: g2) G lv2) by (unfold G; by destruct g1).
  - right. split; [done|]. unfold put. by rewrite !decide_False.
  - intros x n Hx Hn. cbn [par]. apply Hmem in Hx as [->|Hx].
    + rewrite Hnr in Hn. injection Hn as <-. rewrite nodes_put, decide_False, nodes_put, decide_True by (done || (apply set_parent_ok; [done|apply Hpid])).
      assert ((pid, G) ∈ lv1 ++ (pid, G) :: lv2) as Hin by (apply elem_of_app; right; left).
      rewrite (parent_in_elem _ (pid, G)); [done| |done|].
      * by apply list.NoDup_app in HndG as (? & _ & _).
      * unfold G. cbn. rewrite fmap_app. apply elem_of_app. right. right. left.
    + assert (x <> right) as Hxr by (intros ->; apply Hrn, elem_of_app; by left).
      assert (x <> pid) as Hxp by (intros ->; apply list.NoDup_app in Hnd as (_ & Hnd & _); by apply (Hnd pid)).
      rewrite nodes_put, decide_False, nodes_put, decide_False by (done || (apply set_parent_ok; [done|apply Hpid])).
      destruct (Hbel x Hx) as (n' & Hn' & _ & Hpar). rewrite Hn in Hn'. injection Hn' as <-. rewrite Hn, set_parent_same; [done|].
      rewrite Hpar. cbn [par]. unfold G. by rewrite parent_in_insert by done.
  - intros j Hj. rewrite Hids, not_elem_of_cons, not_elem_of_app, Hmem in Hj. unfold put. rewrite !decide_False; [done|naive_solver|]. intros ->. naive_solver.
  - intros j Hj. left. by rewrite <- Hids.
  - cbn. lia.
  - lia.
Qed.
(** The group has no room: it is parted into [GL], which keeps the node, and [GR], in a new node. *)
Record parted cfg c c' (p : PageId) (right pid sid : PageId) (GL GR : list Head) : Prop := {
  pt_sid : id_ok sid;
  pt_fresh : c sid = None;
  pt_left : nodes cfg c' pid = Some (inner_node p GL);
  pt_right : nodes cfg c' sid = Some (inner_node p GR);
  pt_moved : forall x n, x ∈ GR.*1 -> nodes cfg c x = Some n -> nodes cfg c' x = Some (set_parent_ sid n);
  pt_stay : forall n, right ∉ GR.*1 -> nodes cfg c right = Some n -> nodes cfg c' right = Some (set_parent_ pid n);
  pt_frame : forall j, j ∉ right :: pid :: sid :: GR.*1 -> c' j = c j;
}.
(** A group that is one too large, in two halves. *)
Lemma group_halves cfg G :
  config_ok cfg = true -> zlen G = internal_max_keys cfg + 2 ->
  exists GL hd GR, G = GL ++ hd :: GR /\ seps G !! (length (seps G) / 2)%nat = Some hd.2 /\
    take (length (seps G) / 2) (seps G) = seps GL /\ drop (length (seps G) / 2 + 1) (seps G) = seps (hd :: GR) /\
    take (length (seps G) / 2 + 1) G.*1 = GL.*1 /\ drop (length (seps G) / 2 + 1) G.*1 = (hd :: GR).*1 /\
    group_ok cfg true GL /\ group_ok cfg true (hd :: GR).
Proof.
  intros Hcfg%config_bounds Hl. rewrite seps_length. remember ((length G - 1) / 2)%nat as mid eqn:Em.
  assert (Z.of_nat mid = (internal_max_keys cfg + 1) / 2) as Hmid. { rewrite Em, Nat2Z.inj_div, Nat2Z.inj_sub by lia. rewrite Hl. f_equal. lia. }
  pose proof (Z.div_mod (internal_max_keys cfg + 1) 2 ltac:(lia)) as Hd. pose proof (Z.mod_pos_bound (internal_max_keys cfg + 1) 2 ltac:(lia)) as Hm.
  pose proof (Z.div_mod (internal_max_keys cfg) 2 ltac:(lia)) as Hd2. pose proof (Z.mod_pos_bound (internal_max_keys cfg) 2 ltac:(lia)) as Hm2.
  assert (length (drop (mid + 1) G) = length G - (mid + 1))%nat as Hld by (by rewrite length_drop).
  exists (take (mid + 1) G). destruct (drop (mid + 1) G) as [|hd GR] eqn:Ed; [cbn in Hld; lia|]. exists hd, GR.
  assert (G = take (mid + 1) G ++ hd :: GR) as HG by (by rewrite <- Ed, take_drop). replace (mid + 1)%nat with (S mid) in * by lia. split_and!.
  - done.
  - assert (length (take (S mid) G) = S mid) as Hlt by (rewrite length_take; lia). 
    assert (take (S mid) G <> []) as Hne by (intros E; by rewrite E in Hlt). pose proof (seps_lookup _ hd GR Hne) as Hs. rewrite <- HG, Hlt in Hs.
    by replace (S mid - 1)%nat with mid in Hs by lia.
  - by rewrite seps_take.
  - by rewrite <- Ed, seps_drop.
  - by rewrite fmap_take.
  - by rewrite <- Ed, fmap_drop.
  - unfold group_ok, internal_min. rewrite length_take. split; [|intros _]; lia.
  - unfold group_ok, internal_min. rewrite Hld. split; [|intros _]; lia.
Qed.

Lemma parted_writes cfg c c4 p right nr pid sid GL GR :
  config_ok cfg = true -> id_ok sid -> put c right (node_bytes (set_parent_ pid nr)) sid = None -> nodes cfg c right = Some nr -> node_ok cfg nr -> is_u64 pid ->
  node_ok cfg (inner_node p GL) -> node_ok cfg (inner_node p GR) -> pid <> right -> pid <> sid -> pid ∉ GR.*1 -> sid ∉ GR.*1 ->
  (forall j, j ∉ GR.*1 -> c4 j = put (put (put c right (node_bytes (set_parent_ pid nr))) sid (node_bytes (inner_node p GR))) pid (node_bytes (inner_node p GL)) j) ->
  (forall x n, x ∈ GR.*1 -> nodes cfg (put (put (put c right (node_bytes (set_parent_ pid nr))) sid (node_bytes (inner_node p GR))) pid (node_bytes (inner_node p GL))) x = Some n ->
    nodes cfg c4 x = Some (set_parent_ sid n)) ->
  parted cfg c c4 p right pid sid GL GR.
Proof.
  intros Hcfg Hsid Hnone Hnr Hnrok Hpu HokL HokR Hpr Hps HpG HsG Hc4 Hn4. assert (node_ok cfg (set_parent_ pid nr)) as Hok by (by apply set_parent_ok).
  assert (sid <> right /\ c sid = None) as [Hsr Hs]. { unfold put in Hnone. case_decide; [done|by split]. }
  split; try done.
  - by rewrite (nodes_ext _ _ _ _ (Hc4 pid HpG)), nodes_put, decide_True.
  - by rewrite (nodes_ext _ _ _ _ (Hc4 sid HsG)), nodes_put, decide_False, nodes_put, decide_True by done.
  - intros x n Hx Hn. assert (x <> pid /\ x <> sid) as [Hxp Hxs] by (split; by intros ->).
    destruct (decide (x = right)) as [->|Hne].
    + rewrite (Hn4 right (set_parent_ pid nr) Hx); [|by rewrite nodes_put, decide_False, nodes_put, decide_False, nodes_put, decide_True by done].
      rewrite Hnr in Hn. by injection Hn as <-.
    + apply Hn4; [done|]. by rewrite nodes_put, decide_False, nodes_put, decide_False, nodes_put, decide_False by done.
  - intros n Hr Hn. rewrite (nodes_ext _ _ _ _ (Hc4 right Hr)), nodes_put, decide_False, nodes_put, decide_False, nodes_put, decide_True by done. congruence.
  - intros j Hj. rewrite !not_elem_of_cons in Hj. destruct Hj as (H1 & H2 & H3 & H4). rewrite Hc4 by done. unfold put. by rewrite !decide_False.
Qed.

Section split.
Variables (t : Tree) (c c4 : PageId -> option bytes) (f : Z) (lv1 : list InnerG) (pid : PageId) (g1 : list Head) (left : PageId) (kl : Z) (g2 : list Head).
Variables (lv2 : list InnerG) (right : PageId) (sep : Z) (ups : list (list InnerG)) (sid : PageId) (hd : Head) (GL GR : list Head).
Abbreviation old := (g1 ++ (left, kl) :: g2).
Abbreviation lv := (lv1 ++ (pid, old) :: lv2).
Abbreviation lvN := (lv1 ++ (pid, GL) :: (sid, hd :: GR) :: lv2).
Abbreviation hs := (((concat lv1.*2 ++ g1) ++ (left, kl) :: (g2 ++ concat lv2.*2)) : list Head).
Abbreviation hs' := (((concat lv1.*2 ++ g1) ++ (left, kl) :: (right, sep) :: (g2 ++ concat lv2.*2)) : list Head).
Hypothesis Hgr : growing t c f (concat lv1.*2 ++ g1) left kl (g2 ++ concat lv2.*2) right sep (lv :: ups).
Hypothesis HG : g1 ++ (left, kl) :: (right, sep) :: g2 = GL ++ hd :: GR.
Hypothesis HGL : group_ok (config_ t) true GL.
Hypothesis HGR : group_ok (config_ t) true (hd :: GR).
Hypothesis Hpt : parted (config_ t) c c4 (par ups pid) right pid sid GL (hd :: GR).

Lemma split_concat : concat lvN.*2 = hs'.
Proof.
  rewrite <- (concat_insert lv1 pid g1 (left, kl) (right, sep) g2 lv2), HG, !concat_parts. cbn [snd fmap list_fmap concat]. by rewrite <- app_assoc.
Qed.

Lemma split_members x : x ∈ hs'.*1 <-> x = right \/ x ∈ hs.*1.
Proof. rewrite !fmap_app, !elem_of_app. cbn. rewrite !elem_of_cons. naive_solver. Qed.

Lemma split_pages x : x ∈ metadata_page_id_ t :: right :: hs.*1 ++ up_ids (lv :: ups) -> is_Some (c x).
Proof.
  destruct Hgr as [Hab _ _ Hbel (nr & Hnr & _) [_ Hm] _ _]. rewrite !elem_of_cons, elem_of_app. intros [->|[->|[Hx|Hx]]]; [done|by eapply node_page| |by eapply above_pages].
  destruct (Hbel x Hx) as (n & Hn & _). by eapply node_page.
Qed.

Lemma split_fresh : sid ∉ metadata_page_id_ t :: right :: hs.*1 ++ up_ids (lv :: ups).
Proof. intros Hx%split_pages. rewrite (pt_fresh _ _ _ _ _ _ _ _ _ Hpt) in Hx. by destruct Hx. Qed.

Lemma split_pid : pid ∈ up_ids (lv :: ups).
Proof. rewrite up_ids_cons, elem_of_app. left. rewrite fmap_app. apply elem_of_app. right. left. Qed.

Lemma split_children x : x ∈ (hd :: GR).*1 -> x = right \/ x ∈ hs.*1.
Proof.
  intros Hx. apply split_members. rewrite <- split_concat, concat_parts, !fmap_app, !elem_of_app. right. right. cbn [fmap list_fmap concat]. rewrite fmap_app, elem_of_app. by left.
Qed.

(** What is not among the children keeps its page. *)
Lemma split_same j : j ∈ metadata_page_id_ t :: up_ids (lv :: ups) -> j <> pid -> c4 j = c j.
Proof.
  intros Hj Hne. pose proof split_fresh as Hs. pose proof (gr_nodup _ _ _ _ _ _ _ _ _ _ Hgr) as Hnd. apply list.NoDup_cons in Hnd as [Hm Hnd]. apply list.NoDup_cons in Hnd as [Hr Hnd].
  apply list.NoDup_app in Hnd as (_ & Hd & _). apply (pt_frame _ _ _ _ _ _ _ _ _ Hpt). rewrite !not_elem_of_cons in *. rewrite !not_elem_of_app in *.
  assert (j ∉ (hd :: GR).*1) as Hc.
  { intros [->|Hx]%split_children; apply elem_of_cons in Hj as [->|Hj]; naive_solver. }
  apply elem_of_cons in Hj as [->|Hj]; split_and!; try done; naive_solver.
Qed.

Lemma split_growing : growing t c4 (f - 1) (heads lv1) pid (inner_head (pid, old)).2 (heads lv2) sid hd.2 ups.
Proof.
  pose proof split_fresh as Hs. pose proof split_pid as Hp. pose proof split_same as Hsame.
  destruct Hgr as [Hab Hr Hnd Hbel _ [Hm Hmc] Hroot Hfree]. pose proof (above_up _ _ _ _ _ Hab) as Hup. pose proof (above_below _ _ _ _ _ Hab) as Hb.
  assert (heads lv = heads lv1 ++ (pid, (inner_head (pid, old)).2) :: heads lv2) as Hh by (by rewrite fmap_app). rewrite Hh in Hup, Hb.
  pose proof Hab as [Hcfg (Hcc & Hg & _) Hhs Hi Hndu _]. rewrite up_ids_cons in *. apply Forall_app in Hi as [Hil Hi].
  pose proof Hndu as (_ & _ & Hnd2)%list.NoDup_app. pose proof Hnd2 as (_ & Hlu & _)%list.NoDup_app.
  assert (head_ok hd /\ Forall head_ok (GL ++ hd :: GR)) as [Hhd HGok].
  { rewrite <- HG. rewrite Hcc, concat_parts in Hhs. apply Forall_app in Hhs as [_ Hhs]. apply Forall_app in Hhs as [Hhs _]. cbn in Hhs.
    assert (Forall head_ok (g1 ++ (left, kl) :: (right, sep) :: g2)) as HF.
    { apply Forall_app in Hhs as [H1 H2]. apply list.Forall_cons in H2 as [H2 H3]. apply Forall_app_2; [done|]. by do 2 (apply list.Forall_cons; split; [done|]). }
    split; [|done]. rewrite HG in HF. apply Forall_app in HF as [_ HF]. by apply list.Forall_cons in HF as [? _]. }
  apply Forall_app in HGok as [HGLok HGRok]. pose proof (par_u64 ups pid Hi) as Hpu. destruct Hpt as [Hsid Hnone Hl Hrt _ _ _]. split.
  - eapply above_ext; [|exact Hup]. intros j Hj. apply Hsame; [right; apply elem_of_app; by right|]. intros ->. apply (Hlu pid); [|done].
    rewrite fmap_app. apply elem_of_app. right. left.
  - split; [done|]. apply Hhd.
  - rewrite <- Hh, inner_head_ids. rewrite !not_elem_of_cons, !not_elem_of_app in Hs.
    apply list.NoDup_cons in Hnd as [Hmn Hnd]. rewrite not_elem_of_cons, !not_elem_of_app in Hmn. apply list.NoDup_cons. split; [|apply list.NoDup_cons; split; [|done]].
    + rewrite not_elem_of_cons, not_elem_of_app. naive_solver.
    + rewrite not_elem_of_app. naive_solver.
  - intros x Hx. destruct (decide (x = pid)) as [->|Hne].
    + eexists. split_and!; [exact Hl|by eapply group_node_ok|done].
    + destruct (Hb x Hx) as (n & Hn & Hnok & Hpar). exists n. split_and!; [|done|done]. rewrite <- Hn. apply nodes_ext, Hsame; [|done].
      rewrite <- Hh, inner_head_ids in Hx. right. apply elem_of_app. by left.
  - eexists. split; [exact Hrt|by eapply group_node_ok].
  - split; [done|]. rewrite Hsame; [done|left|]. intros E. apply list.NoDup_cons in Hnd as [Hmn _]. apply Hmn. rewrite E. right. apply elem_of_app. by right.
  - rewrite Hroot. cbn [root]. by rewrite Hh.
  - intros HL. specialize (Hfree HL). cbn in Hfree. lia.
Qed.
(** Whatever has a page keeps one. *)
Lemma split_none j : c4 j = None -> c j = None.
Proof.
  intros Hj. destruct (decide (j ∈ right :: pid :: sid :: (hd :: GR).*1)) as [Hin|Hin]; [|by rewrite <- (pt_frame _ _ _ _ _ _ _ _ _ Hpt j Hin)]. exfalso.
  assert (exists n, nodes (config_ t) c4 j = Some n) as (n & Hn); [|unfold nodes in Hn; by rewrite Hj in Hn].
  destruct Hgr as [_ _ _ Hbel (nr & Hnr & _) _ _ _]. destruct Hpt as [Hsid Hnone Hl Hrt Hmv Hst Hfr].
  destruct (decide (j ∈ (hd :: GR).*1)) as [Hc|Hc].
  - assert (exists n, nodes (config_ t) c j = Some n) as (n & Hn); [|eexists; exact (Hmv _ _ Hc Hn)].
    destruct (split_children _ Hc) as [->|Hx]; [by eexists|]. destruct (Hbel j Hx) as (n & Hn & _). by eexists.
  - rewrite !elem_of_cons in Hin. destruct Hin as [->|[->|[->|Hin]]]; [eexists; exact (Hst nr Hc Hnr)|by eexists|by eexists|]. exfalso. apply Hc. cbn. by apply elem_of_cons.
Qed.

Lemma split_nodup : NoDup (concat lvN.*2).*1.
Proof.
  rewrite split_concat. pose proof (gr_nodup _ _ _ _ _ _ _ _ _ _ Hgr) as Hnd. apply list.NoDup_cons in Hnd as [_ Hnd]. apply list.NoDup_cons in Hnd as [Hr Hnd].
  apply list.NoDup_app in Hnd as (Hnd & _ & _). rewrite not_elem_of_app in Hr. destruct Hr as [Hr _].
  eapply (list.NoDup_Permutation_proper _ (right :: hs.*1)); [|by apply list.NoDup_cons]. rewrite !fmap_app. cbn. solve_Permutation.
Qed.

(** The nodes of the children after the split. *)
Lemma split_nodes x n : x ∈ hs'.*1 -> nodes (config_ t) c x = Some n -> nodes (config_ t) c4 x = Some (set_parent_ (parent_in lvN x) n).
Proof.
  pose proof split_nodup as HndN. pose proof split_fresh as Hs. pose proof split_pid as Hpid. pose proof Hgr as [Hab _ Hnd Hbel (nr & Hnr & _) _ _ _]. intros Hx Hn.
  apply list.NoDup_cons in Hnd as [_ Hnd]. apply list.NoDup_cons in Hnd as [Hrn Hnd]. apply list.NoDup_app in Hnd as (Hndh & Hd & _).
  assert (forall y, y ∈ lvN -> x ∈ y.2.*1 -> parent_in lvN x = y.1) as HinN by (intros y Hy1 Hy2; exact (parent_in_elem _ y x HndN Hy1 Hy2)).
  destruct Hpt as [Hsid Hnone Hl Hrt Hmv Hst Hfr]. destruct (decide (x ∈ (hd :: GR).*1)) as [Hc|Hc].
  { rewrite (HinN (sid, hd :: GR)); [by apply Hmv| |done]. apply elem_of_app. right. right. left. }
  destruct (decide (x = right)) as [->|Hne].
  { assert (right ∈ GL.*1) as HxL.
    { assert (right ∈ (g1 ++ (left, kl) :: (right, sep) :: g2).*1) as Hr by (rewrite fmap_app; apply elem_of_app; right; right; left).
      rewrite HG, fmap_app in Hr. apply elem_of_app in Hr as [?|?]; [done|]. by destruct Hc. }
    rewrite (HinN (pid, GL)); [by apply Hst| |done]. apply elem_of_app. right. left. }
  apply split_members in Hx as [?|Hx]; [done|]. assert (x <> pid) as Hxp by (intros ->; by apply (Hd pid)).
  assert (x <> sid) as Hxs. { intros ->. apply Hs. do 2 right. apply elem_of_app. by left. }
  rewrite (nodes_ext _ c), Hn by (apply Hfr; rewrite !not_elem_of_cons; split_and!; try done; cbn in Hc; by rewrite not_elem_of_cons in Hc).
  f_equal. symmetry. apply set_parent_same. destruct (Hbel x Hx) as (n' & Hn' & _ & Hpar). rewrite Hn in Hn'. injection Hn' as <-. rewrite Hpar. cbn [par].
  pose proof (ab_tower _ _ _ _ Hab) as (Hcc & _ & _). pose proof Hx as Hx'. rewrite Hcc in Hx'. destruct (child_in_group _ _ Hx') as ([i y] & Hy & Hxy). cbn in Hxy. rewrite Hcc in Hndh.
  rewrite (parent_in_elem _ (i, y) _ Hndh Hy Hxy). apply elem_of_app in Hy as [Hy|[[= -> ->]|Hy]%elem_of_cons].
  - symmetry. apply (HinN (i, y)); [|done]. apply elem_of_app. by left.
  - symmetry. apply (HinN (pid, GL)); [apply elem_of_app; right; left|]. cbn.
    assert (x ∈ (g1 ++ (left, kl) :: (right, sep) :: g2).*1) as Hr.
    { rewrite fmap_app in *. apply elem_of_app in Hxy as [?|Hxy]; apply elem_of_app; [by left|right]. cbn in *. rewrite !elem_of_cons in *. naive_solver. }
    rewrite HG, fmap_app in Hr. apply elem_of_app in Hr as [?|?]; [done|]. by destruct Hc.
  - symmetry. apply (HinN (i, y)); [|done]. apply elem_of_app. right. do 2 right. done.
Qed.

Lemma split_groups : Forall (fun x => group_ok (config_ t) (many lvN) x.2) lvN.
Proof.
  pose proof (ab_tower _ _ _ _ (gr_above _ _ _ _ _ _ _ _ _ _ Hgr)) as (_ & Hg & _). assert (many lvN = true) as -> by (apply many_true; rewrite length_app; cbn; lia).
  rewrite list.Forall_forall in Hg. apply list.Forall_forall. intros x [Hx|[->|[->|Hx]%elem_of_cons]%elem_of_cons]%elem_of_app; try done.
  - specialize (Hg x ltac:(apply elem_of_app; by left)). by rewrite (many_elem _ _ x) in Hg by (by left).
  - specialize (Hg x ltac:(apply elem_of_app; right; by right)). by rewrite (many_elem _ _ x) in Hg by (by right).
Qed.

Lemma split_lifted t' c5 f5 ups' :
  lifted t t' c4 c5 (f - 1) f5 (heads lv1 ++ (pid, (inner_head (pid, old)).2) :: (sid, hd.2) :: heads lv2) ups ups' ->
  lifted t t' c c5 f f5 hs' (lv :: ups) (lvN :: ups').
Proof.
  pose proof split_nodup as HndN. pose proof split_fresh as Hs. pose proof split_pid as Hpid. pose proof split_none as Hnone4. pose proof split_nodes as Hnodes. pose proof split_groups as HgN.
  pose proof split_same as Hsame. pose proof split_concat as HccN. pose proof split_members as Hmem.
  pose proof Hgr as [Hab Hr Hnd Hbel (nr & Hnr & Hnrok) [Hm Hmc] Hroot Hfree]. pose proof Hab as [Hcfg (Hcc & Hg & _) Hhs Hi Hndu _]. intros [Hc1 Hc2 Hab5 Hroot5 Hmeta5 Hn5 Hf5 Hfr5 Hl5 Hfree5].
  assert (heads lv1 ++ (pid, (inner_head (pid, old)).2) :: (sid, hd.2) :: heads lv2 = heads lvN) as Hh.
  { rewrite fmap_app. cbn [fmap list_fmap]. do 2 f_equal. unfold inner_head. cbn [fst snd]. f_equal. destruct HGL as [[HL _] _]. destruct GL as [|y GL']; [cbn in HL; lia|].
    destruct g1; cbn in HG |- *; by injection HG as <- _. }
  rewrite Hh in *. assert (forall x, x ∈ hs'.*1 -> is_Some (c x)) as Hpg.
  { intros x [->|Hx]%Hmem; apply split_pages; [right; left|]. do 2 right. apply elem_of_app. by left. }
  apply list.NoDup_cons in Hnd as [Hmn Hnd]. apply list.NoDup_cons in Hnd as [Hrn Hnd]. pose proof Hnd as (_ & Hdis & _)%list.NoDup_app.
  rewrite up_ids_cons in Hi. apply Forall_app in Hi as [Hil Hi].
  assert (forall j, j ∈ lvN.*1 -> j = sid \/ j ∈ lv.*1) as HlvN.
  { intros j. rewrite !fmap_app, !elem_of_app. cbn. rewrite !elem_of_cons. naive_solver. }
  assert (forall x, x ∈ hs'.*1 -> x ∉ lvN.*1 ++ up_ids ups') as Hdj.
  { intros x Hx [[->|Hy]%HlvN|[Hy|Hy]%Hfr5]%elem_of_app.
    - specialize (Hpg _ Hx). rewrite (pt_fresh _ _ _ _ _ _ _ _ _ Hpt) in Hpg. by destruct Hpg.
    - apply Hmem in Hx as [->|Hx]; [apply Hrn, elem_of_app; right|apply (Hdis x Hx)]; rewrite up_ids_cons; apply elem_of_app; by left.
    - apply Hmem in Hx as [->|Hx]; [apply Hrn, elem_of_app; right|apply (Hdis x Hx)]; rewrite up_ids_cons; apply elem_of_app; by right.
    - apply Hnone4 in Hy. specialize (Hpg _ Hx). rewrite Hy in Hpg. by destruct Hpg. }
  assert (forall x, x ∈ hs'.*1 -> x <> metadata_page_id_ t) as Hxm.
  { intros x Hx ->. apply Hmn. apply Hmem in Hx as [->|Hx]; [left|]. right. apply elem_of_app. by left. }
  pose proof (ab_nodup _ _ _ _ Hab5) as Hnd5. rewrite inner_head_ids in Hnd5. pose proof Hnd5 as (HndlN & _)%list.NoDup_app. split; try done.
  - rewrite <- HccN. apply above_cons; [exact Hab5| |exact HgN| |..].
    + intros id g Hin. assert (nodes (config_ t) c4 id = Some (inner_node (if decide (id = sid) then par ups pid else par ups id) g)) as Hn4.
      { destruct (decide (id = sid)) as [->|Hne].
        - rewrite (same_group lvN sid g (hd :: GR)) by (done || (apply elem_of_app; right; right; left)). apply (pt_right _ _ _ _ _ _ _ _ _ Hpt).
        - destruct (decide (id = pid)) as [->|Hne'].
          + rewrite (same_group lvN pid g GL) by (done || (apply elem_of_app; right; left)). apply (pt_left _ _ _ _ _ _ _ _ _ Hpt).
          + assert ((id, g) ∈ lv) as Hin'. { apply elem_of_app in Hin as [?|[[= -> ->]|[[= -> ->]|?]%elem_of_cons]%elem_of_cons]; try done; apply elem_of_app; [by left|right; by right]. }
            rewrite (nodes_ext _ c); [by apply (proj1 (ab_rep _ _ _ _ Hab))|]. apply Hsame; [|done]. right. rewrite up_ids_cons. apply elem_of_app. left. by apply (list_elem_of_fmap_2 fst _ (id, g)). }
      apply (Hn5 id) in Hn4; [done|]. rewrite inner_head_ids. by apply (list_elem_of_fmap_2 fst _ (id, g)).
    + rewrite HccN. apply Forall_app in Hhs as [H1 H2]. apply list.Forall_cons in H2 as [H2 H3]. apply Forall_app_2; [done|]. by do 2 (apply list.Forall_cons; split; [done|]).
    + apply list.Forall_forall. intros j [->|Hj]%HlvN; [apply Hpt|]. rewrite list.Forall_forall in Hil. by apply Hil.
    + apply list.NoDup_app. split_and!; [done|by rewrite HccN|done].
  - rewrite <- (Hsame (metadata_page_id_ t)); [exact Hmeta5|left|]. intros E. apply Hmn. rewrite E. right. apply elem_of_app. by right.
  - intros x n Hx Hn. rewrite (nodes_ext _ c4); [by apply Hnodes|]. apply Hf5. rewrite inner_head_ids. apply not_elem_of_cons. split; [by apply Hxm|by apply Hdj].
  - intros j Hj. rewrite up_ids_cons, !not_elem_of_cons, !not_elem_of_app in Hj. destruct Hj as (Hjm & Hjh & Hjl & Hju).
    rewrite Hf5. 2:{ rewrite inner_head_ids, not_elem_of_cons, not_elem_of_app. done. }
    apply (pt_frame _ _ _ _ _ _ _ _ _ Hpt). rewrite fmap_app in Hjl. cbn in Hjl. rewrite not_elem_of_app, !not_elem_of_cons in Hjl.
    assert (j ∉ (hd :: GR).*1) as Hc. { intros Hx%split_children. by apply Hjh, Hmem. }
    rewrite !not_elem_of_cons. split_and!; naive_solver.
  - intros j. rewrite !up_ids_cons. intros [[->|Hj]%HlvN|[Hj|Hj]%Hfr5]%elem_of_app; [right; apply Hpt|left; apply elem_of_app; by left|left; apply elem_of_app; by right|right; by apply Hnone4].
  - cbn. lia.
  - cbn [length]. lia.
Qed.

End split.
Lemma insert_into_parent_spec t ups : forall c f h1 left kl h2 right sep fuel w,
  growing t c f h1 left kl h2 right sep ups -> store w c f -> (length ups < fuel)%nat ->
  wpo L (insert_into_parent fuel left sep right) (t, w) (fun _ s => exists t' w' c' f' ups', s = (t', w') /\ store w' c' f' /\
    lifted t t' c c' f f' (h1 ++ (left, kl) :: (right, sep) :: h2) ups ups').
Proof.
  induction ups as [|lv ups IH]; intros c f h1 left kl h2 right sep fuel w Hgr Hst Hf; (destruct fuel as [|fuel]; [lia|]); [by apply insert_root_spec|].
  pose proof Hgr as [Hab Hr Hnd Hbel (nr & Hnr & Hnrok) [Hm Hmc] Hroot Hfree].
  destruct (above_mid _ _ _ _ _ _ _ Hab) as (lv1 & pid & g1 & g2 & lv2 & -> & -> & -> & Hg1 & Hpin & Hpid & Hp1 & Hp2 & Hpu & Hnp & Hgok). cbn [fst] in *.
  destruct (Hbel left) as (nl & Hnl & Hnlok & Hpar); [rewrite fmap_app; apply elem_of_app; right; left|]. cbn [par] in Hpar. rewrite Hpin in Hpar.
  pose proof (ab_config _ _ _ _ Hab) as Hcfg. assert (id_ok left) as Hlid by (pose proof (ab_heads _ _ _ _ Hab) as [_ [[? _] _]%list.Forall_cons]%Forall_app; done).
  cbn [insert_into_parent]. apply wpo_bind, wpo_run. wpl_use read_node_spec; [exact Hst|exact Hlid|exact Hnl|]. intros n ? (-> & w1 & -> & Hst1).
  rewrite Hpar, (proj2 Hpid). cbn [negb]. apply wpo_bind, wpo_run. wpl_use read_node_spec; [exact Hst1|exact Hpid|exact Hnp|]. intros p ? (-> & w2 & -> & Hst2).
  cbn [inner_node children keys values leaf parent next]. rewrite fmap_app. cbn [fmap list_fmap fst]. rewrite find_at_app by done. rewrite length_fmap. apply wpo_bind, wpo_run.
  rewrite bool_decide_false by (rewrite length_app, length_fmap; cbn; lia). wpl_step; [done|].
  apply wpo_bind. eapply wpo_opt; [exact (seps_insert g1 (left, kl) (right, sep) g2)|].
  apply wpo_bind. eapply wpo_opt.
  { replace (g1.*1 ++ left :: g2.*1) with ((g1.*1 ++ [left]) ++ g2.*1) by (by rewrite <- app_assoc). apply insert_at_app. rewrite length_app, length_fmap. cbn. lia. }
  assert ((g1.*1 ++ [left]) ++ right :: g2.*1 = (g1 ++ (left, kl) :: (right, sep) :: g2).*1) as -> by (rewrite fmap_app, <- app_assoc; done).
  apply wpo_bind, wpo_run. wpl_use set_parent_spec; [exact Hst2|apply Hr|exact Hnr|done|apply set_parent_ok; [exact Hnrok|apply Hpid]|]. intros [] ? (w3 & -> & Hst3).
  unfold this. apply wpo_bind, wpo_run. wpl_step. cbn [fst]. rewrite seps_length.
  assert (zlen (g1 ++ (left, kl) :: (right, sep) :: g2) = zlen (g1 ++ (left, kl) :: g2) + 1) as HlG by (rewrite !length_app; cbn; lia).
  pose proof Hgok as [[_ Hmax] _]. destruct (Z.leb_spec (Z.of_nat (length (g1 ++ (left, kl) :: (right, sep) :: g2) - 1)) (internal_max_keys (config_ t))) as [Hle|Hgt].
  - destruct (insert_fit _ _ _ _ _ _ _ _ _ _ _ _ _ _ Hgr Hnr Hnrok Hpid ltac:(lia)) as (Hok & Hlift). apply wpo_run.
    wpl_use write_node_spec; [exact Hst3|exact Hpid| |done|exact Hok|].
    { unfold put. case_decide; [done|]. by eapply node_page. }
    intros [] ? (w4 & -> & Hst4). eexists t, w4, _, f, _. split_and!; [done|exact Hst4|exact Hlift].
  - rewrite <- seps_length. destruct (group_halves (config_ t) (g1 ++ (left, kl) :: (right, sep) :: g2) Hcfg ltac:(lia)) as (GL & hd & GR & HG & E1 & E2 & E3 & E4 & E5 & HGL & HGR).
    apply wpo_bind. eapply wpo_opt; [exact E1|]. rewrite E2, E3, E4, E5. cbn [children].
    pose proof (ab_ids _ _ _ _ Hab) as Hi. rewrite up_ids_cons in Hi. apply Forall_app in Hi as [_ Hi]. pose proof (par_u64 ups pid Hi) as Hpu'.
    assert (Forall head_ok (GL ++ hd :: GR)) as HF.
    { rewrite <- HG. pose proof (ab_heads _ _ _ _ Hab) as Hhs. apply Forall_app in Hhs as [Hh1 Hhs]. apply list.Forall_cons in Hhs as [Hhl Hh2]. apply Forall_app in Hh1 as [_ Hh1]. apply Forall_app in Hh2 as [Hh2 _].
      apply Forall_app_2; [done|]. by do 2 (apply list.Forall_cons; split; [done|]). }
    pose proof HF as [HFL HFR]%Forall_app. assert (node_ok (config_ t) (inner_node (par ups pid) GL)) as HokL by (by eapply group_node_ok).
    assert (node_ok (config_ t) (inner_node (par ups pid) (hd :: GR))) as HokR by (by eapply group_node_ok).
    apply wpo_bind, wpo_run. wpl_use allocate_node_spec; [exact Hst3|intros HL; specialize (Hfree HL); cbn in Hfree; lia|done|exact HokR|]. intros sid ? (Hsid & Hnone & w4 & -> & Hst4).
    apply list.NoDup_cons in Hnd as [Hmn Hnd]. apply list.NoDup_cons in Hnd as [Hrn Hnd]. pose proof Hnd as (_ & Hdis & _)%list.NoDup_app.
    assert (pid ∈ up_ids ((lv1 ++ (pid, g1 ++ (left, kl) :: g2) :: lv2) :: ups)) as Hpin' by (by apply split_pid).
    assert (pid <> right) as Hpr by (intros ->; apply Hrn, elem_of_app; by right).
    assert (pid <> sid) as Hps. { intros <-. unfold put in Hnone. rewrite decide_False in Hnone by done. apply node_page in Hnp. rewrite Hnone in Hnp. by destruct Hnp. }
    assert (forall x, x ∈ (hd :: GR).*1 -> x = right \/ x ∈ ((concat lv1.*2 ++ g1) ++ (left, kl) :: (g2 ++ concat lv2.*2)).*1) as Hch.
    { intros x Hx. assert (x ∈ (g1 ++ (left, kl) :: (right, sep) :: g2).*1) as Hx' by (rewrite HG, fmap_app; apply elem_of_app; by right).
      rewrite fmap_app in Hx'. rewrite !fmap_app. cbn in *. rewrite ?fmap_app, ?elem_of_app, ?elem_of_cons, ?elem_of_app in *. naive_solver. }
    assert (pid ∉ (hd :: GR).*1) as HpG. { intros [?|Hx]%Hch; [done|]. by apply (Hdis pid). }
    assert (forall x, x ∈ (hd :: GR).*1 -> exists n, nodes (config_ t) (put c right (node_bytes (set_parent_ pid nr))) x = Some n /\ node_ok (config_ t) n) as Hnc.
    { intros x Hx. assert (node_ok (config_ t) (set_parent_ pid nr)) by (apply set_parent_ok; [done|apply Hpid]). rewrite nodes_put by done. case_decide; [by eexists|].
      destruct (Hch x Hx) as [?|Hx']; [done|]. destruct (Hbel x Hx') as (n & ? & ? & _). by exists n. }
    assert (sid ∉ (hd :: GR).*1) as HsG. { intros (n & Hn%node_page & _)%Hnc. rewrite Hnone in Hn. by destruct Hn. }
    apply wpo_bind, wpo_run. wpl_use write_node_spec; [exact Hst4|exact Hpid| |done|exact HokL|].
    { unfold put. rewrite !decide_False by done. by eapply node_page. }
    intros [] ? (w5 & -> & Hst5). apply wpo_bind, wpo_run. wpl_use set_parents_spec; [exact Hst5|done|apply Hsid| | | |].
    + pose proof (split_nodup t c f lv1 pid g1 left kl g2 lv2 right sep ups sid hd GL GR Hgr HG) as HndN. rewrite concat_parts, !fmap_app in HndN.
      apply list.NoDup_app in HndN as (_ & _ & HndN). apply list.NoDup_app in HndN as (_ & _ & HndN). cbn [fmap list_fmap concat snd] in HndN. rewrite fmap_app in HndN. by apply list.NoDup_app in HndN as (? & _ & _).
    + apply Forall_fmap. eapply list.Forall_impl; [exact HFR|]. by intros ? [].
    + intros x Hx. destruct (Hnc x Hx) as (n & Hn & Hnok). exists n. split; [|done]. rewrite nodes_put, decide_False, nodes_put, decide_False by (done || congruence). done.
    + intros [] ? (w6 & c4 & -> & Hst6 & Hc4 & Hn4).
      assert (parted (config_ t) c c4 (par ups pid) right pid sid GL (hd :: GR)) as Hpt by (by apply (parted_writes _ _ _ _ _ nr); try done; apply Hpid).
      wpo_use IH; [exact (split_growing _ _ _ _ _ _ _ _ _ _ _ _ _ _ _ _ _ _ Hgr HG HGL HGR Hpt)|exact Hst6|cbn in Hf; lia|].
      intros [] ? (t' & w7 & c7 & f7 & ups' & -> & Hst7 & Hlift). eexists t', w7, c7, f7, _. split_and!; [done|exact Hst7|].
      by eapply split_lifted.
Qed.

End insert.
(** ** The leaves *)

Definition pages (t : Tree) (ls : list LeafG) (ups : list (list InnerG)) : list PageId := metadata_page_id_ t :: ls.*1 ++ up_ids ups.

(** A tree has become another: only pages of the two differ, and pages the tree did not have were free. *)
Record became (t : Tree) (c : PageId -> option bytes) (ls : list LeafG) (ups : list (list InnerG))
    (t' : Tree) (c' : PageId -> option bytes) (ls' : list LeafG) (ups' : list (list InnerG)) : Prop := {
  bc_tree : tree_ok t' c' ls' ups';
  bc_config : config_ t' = config_ t;
  bc_metadata : metadata_page_id_ t' = metadata_page_id_ t;
  bc_frame : forall j, j ∉ pages t ls ups -> j ∉ pages t' ls' ups' -> c' j = c j;
  bc_fresh : forall j, j ∈ ls'.*1 ++ up_ids ups' -> j ∈ ls.*1 ++ up_ids ups \/ c j = None;
}.

Lemma became_same t c ls ups : tree_ok t c ls ups -> became t c ls ups t c ls ups.
Proof. intros Hok. split; try done. by left. Qed.

Lemma tree_above t c ls ups : tree_ok t c ls ups -> above (config_ t) c (leaf_head <$> ls) ups.
Proof.
  intros [[Hcfg Ht Hlv Hs He Hnd Hids] _ _ _ _ Hups]. apply Forall_app in Hids as [Hi1 Hi2]. split; try done; [by apply leaf_heads_ok|]. by rewrite leaf_head_ids.
Qed.

Lemma tree_build t c ls ups :
  above (config_ t) c (leaf_head <$> ls) ups -> Forall (fun x => leaf_ok (config_ t) (many ls) x.2) ls -> increasing (entries ls).*1 -> Forall entry_ok (entries ls) ->
  root_page_id_ t = root (leaf_head <$> ls) ups -> (exists d, c (metadata_page_id_ t) = Some d /\ meta_page d (root_page_id_ t) (config_ t)) ->
  id_ok (metadata_page_id_ t) -> metadata_page_id_ t ∉ ls.*1 ++ up_ids ups -> rep_leaves (nodes (config_ t) c) (par ups) ls -> tree_ok t c ls ups.
Proof.
  intros [Hcfg Ht Hh Hi Hnd Hr] Hlv Hs He Hroot Hm Hmi Hmn Hrep. rewrite leaf_head_ids in Hnd. split; try done. split; try done.
  apply Forall_app_2; [|done]. rewrite <- leaf_head_ids. apply Forall_fmap. eapply list.Forall_impl; [exact Hh|]. by intros h [].
Qed.

Lemma rep_leaves_ext nd nd' p p' ls :
  rep_leaves nd p ls -> (forall x n, x ∈ ls.*1 -> nd x = Some n -> parent n = p x -> nd' x = Some (set_parent_ (p' x) n)) -> rep_leaves nd' p' ls.
Proof.
  induction ls as [|x ls IH]; [done|]. intros [Hx Hr] Hn. split; [by apply (Hn x.1) in Hx; [|left|]|]. apply IH; [done|]. intros y n Hy. apply Hn. by right.
Qed.

Lemma rep_leaves_tail nd nd' p p' ls1 id es ls2 es' ls2' :
  rep_leaves nd p (ls1 ++ (id, es) :: ls2) -> (forall x, x ∈ ls1.*1 -> nd' x = nd x /\ p' x = p x) -> rep_leaves nd' p' ((id, es') :: ls2') ->
  rep_leaves nd' p' (ls1 ++ (id, es') :: ls2').
Proof.
  induction ls1 as [|x ls1 IH]; [done|]. intros [Hx Hr] Hn Ht. split; [|apply IH; [done| |done]; intros y Hy; apply Hn; by right].
  destruct (Hn x.1) as [-> ->]; [left|]. rewrite Hx. by destruct ls1.
Qed.

Lemma rep_leaves_drop nd p ls1 ls2 : rep_leaves nd p (ls1 ++ ls2) -> rep_leaves nd p ls2.
Proof. induction ls1 as [|x ls1 IH]; [done|]. intros [_ Hr]. by apply IH. Qed.

Lemma rep_leaves_same nd nd' p p' ls : rep_leaves nd p ls -> (forall x, x ∈ ls.*1 -> nd' x = nd x /\ p' x = p x) -> rep_leaves nd' p' ls.
Proof.
  intros Hr Hn. eapply rep_leaves_ext; [exact Hr|]. intros x n Hx Hnx Hp. destruct (Hn x Hx) as [-> ->]. rewrite set_parent_same; done.
Qed.

Lemma increasing_insert (l1 l2 : list Z) k :
  increasing (l1 ++ l2) -> (forall x, x ∈ l1 -> x < k) -> (forall x, x ∈ l2 -> k < x) -> increasing (l1 ++ k :: l2).
Proof.
  intros (H1 & H2 & H3)%increasing_app Hl Hr. apply increasing_app. split_and!; [done|by apply increasing_cons|].
  intros x y Hx [->|Hy]%elem_of_cons; [by apply Hl|by apply H3].
Qed.

Lemma map_insert_mid (l1 l2 : list Entry) k v : increasing (l1 ++ (k, v) :: l2).*1 ->
  (list_to_map (l1 ++ (k, v) :: l2) : gmap Z TU.RecordId) = <[k := v]> (list_to_map (l1 ++ l2)).
Proof.
  intros Hs%increasing_nodup. rewrite (list_to_map_proper _ ((k, v) :: l1 ++ l2)); [done|done|]. symmetry. apply Permutation_middle.
Qed.

(** A leaf of the tree and its entries around a key. *)
Lemma tree_leaf t c ls1 id es ls2 ups :
  tree_ok t c (ls1 ++ (id, es) :: ls2) ups ->
  id_ok id /\ nodes (config_ t) c id = Some (leaf_node (par ups id) (next_id ls2) es) /\ Forall entry_ok es /\ is_u64 (next_id ls2) /\ is_u64 (par ups id) /\
  leaf_ok (config_ t) (many (ls1 ++ (id, es) :: ls2)) es /\ (id ∉ ls1.*1) /\ (id ∉ ls2.*1) /\ (id ∉ up_ids ups) /\ id <> metadata_page_id_ t.
Proof.
  intros [[Hcfg Ht Hlv Hs He Hnd Hids] _ _ [_ Hm] Hrep _]. rewrite entries_parts in He. rewrite fmap_app in Hids, Hnd, Hm. apply Forall_app in Hids as [Hids Hiu]. apply Forall_app in Hids as [_ Hids].
  apply list.Forall_cons in Hids as [Hid Hids]. apply Forall_app in Hlv as [_ Hlv]. apply list.Forall_cons in Hlv as [Hlv _]. apply Forall_app in He as [_ He]. apply Forall_app in He as [He _].
  apply list.NoDup_app in Hnd as (Hnd & Hnu & _). apply list.NoDup_app in Hnd as (_ & Hn1 & Hnd). apply list.NoDup_cons in Hnd as [Hn2 _]. split_and!; try done.
  - by eapply rep_leaves_mid.
  - destruct ls2 as [|x ls2]; [done|]. apply list.Forall_cons in Hids as [[] _]. done.
  - by apply par_u64.
  - intros Hx. apply (Hn1 id Hx). left.
  - apply Hnu. apply elem_of_app. right. left.
  - intros ->. apply Hm. apply elem_of_app. left. apply elem_of_app. right. left.
Qed.
(** Another content for one leaf. *)
Lemma became_leaf t c c1 c2 ls1 id es es' ls2 ups ups' :
  tree_ok t c (ls1 ++ (id, es) :: ls2) ups -> node_ok (config_ t) (leaf_node (par ups id) (next_id ls2) es') ->
  (forall j, c1 j = put c id (node_bytes (leaf_node (par ups id) (next_id ls2) es')) j) ->
  above (config_ t) c2 (leaf_head <$> (ls1 ++ (id, es') :: ls2)) ups' ->
  retagged (leaf_head <$> (ls1 ++ (id, es) :: ls2)) (leaf_head <$> (ls1 ++ (id, es') :: ls2)) ups ups' -> (forall j, j ∉ up_ids ups -> c2 j = c1 j) ->
  leaf_ok (config_ t) (many (ls1 ++ (id, es) :: ls2)) es' -> increasing (entries (ls1 ++ (id, es') :: ls2)).*1 -> Forall entry_ok es' ->
  became t c (ls1 ++ (id, es) :: ls2) ups t c2 (ls1 ++ (id, es') :: ls2) ups'.
Proof.
  intros Hok Hnok Hc1 Hab [R1 R2 R3 R4] Hc2 Hl Hs He. pose proof (tree_leaf _ _ _ _ _ _ _ Hok) as (Hid & Hn & _ & _ & _ & _ & Hi1 & Hi2 & Hiu & Him).
  pose proof Hok as [[Hcfg Ht Hlv _ Hent Hnd _] Hroot (d & Hd & Hmp) [Hmi Hmn] Hrep _]. assert ((ls1 ++ (id, es') :: ls2).*1 = (ls1 ++ (id, es) :: ls2).*1) as Hids by (by rewrite !fmap_app).
  assert (forall j, j ∉ up_ids ups -> j <> id -> c2 j = c j) as Hsame. { intros j Hj Hne. rewrite Hc2, Hc1 by done. unfold put. by rewrite decide_False. }
  assert (forall x, x ∈ (ls1 ++ (id, es) :: ls2).*1 -> x ∉ up_ids ups) as Hdis by (by apply list.NoDup_app in Hnd as (_ & ? & _)).
  split; try done; [|by (intros j Hj _; apply Hsame; intros Hx; apply Hj; right; apply elem_of_app; subst; [by right|left; rewrite fmap_app; apply elem_of_app; right; left])|by (rewrite Hids, R1; left)].
  apply tree_build; try done.
  - apply Forall_app in Hlv as [Hl1 Hlv]. apply list.Forall_cons in Hlv as [_ Hl2]. rewrite (many_replace ls1 _ (id, es) ls2). apply Forall_app_2; [done|]. by apply list.Forall_cons.
  - rewrite entries_parts in *. apply Forall_app in Hent as [H1 Hent]. apply Forall_app in Hent as [_ H2]. apply Forall_app_2; [done|]. by apply Forall_app_2.
  - by rewrite R3.
  - exists d. split; [|done]. rewrite Hsame; [done| |done]. intros Hx. apply Hmn, elem_of_app. by right.
  - by rewrite R1, Hids.
  - assert (forall x, x ∈ ls1.*1 \/ x ∈ ls2.*1 -> nodes (config_ t) c2 x = nodes (config_ t) c x /\ par ups' x = par ups x) as Hoth.
    { intros x Hx. split; [|by rewrite R2]. apply nodes_ext, Hsame; [|intros ->; by destruct Hx]. apply Hdis. rewrite fmap_app, elem_of_app. cbn. rewrite elem_of_cons. tauto. }
    eapply rep_leaves_tail; [exact Hrep|by intros; apply Hoth; left|]. split.
    + cbn [fst snd]. rewrite R2, (nodes_ext _ _ _ _ (Hc2 id Hiu)), (nodes_ext _ _ _ _ (Hc1 id)), nodes_put, decide_True by done. done.
    + eapply rep_leaves_same; [by apply rep_leaves_drop in Hrep as [_ Hr]|]. intros; apply Hoth; by right.
Qed.

Lemma retagged_refl hs hs' ups : (ups = [] -> hs'.*1 = hs.*1) -> retagged hs hs' ups ups.
Proof. intros Hh. split; try done. destruct ups; [|done]. specialize (Hh eq_refl). cbn. destruct hs, hs'; cbn in Hh; congruence. Qed.

Lemma leaf_heads_same ls1 id es es' ls2 : leaf_head (id, es') = leaf_head (id, es) -> leaf_head <$> (ls1 ++ (id, es') :: ls2) = leaf_head <$> (ls1 ++ (id, es) :: ls2).
Proof. intros E. rewrite !fmap_app. cbn. by rewrite E. Qed.
(** *** A leaf that is full *)

Lemma leaf_halves cfg (es : list Entry) :
  config_ok cfg = true -> zlen es = leaf_max_keys cfg + 1 ->
  exists EL e ER, es = EL ++ e :: ER /\ EL <> [] /\ take (length es.*1 / 2) es.*1 = EL.*1 /\ take (length es.*1 / 2) es.*2 = EL.*2 /\
    drop (length es.*1 / 2) es.*1 = (e :: ER).*1 /\ drop (length es.*1 / 2) es.*2 = (e :: ER).*2 /\ leaf_ok cfg true EL /\ leaf_ok cfg true (e :: ER).
Proof.
  intros Hcfg%config_bounds Hl. rewrite length_fmap. remember (length es / 2)%nat as mid eqn:Em.
  assert (Z.of_nat mid = (leaf_max_keys cfg + 1) / 2) as Hmid by (by rewrite Em, Nat2Z.inj_div, Hl).
  pose proof (Z.div_mod (leaf_max_keys cfg + 1) 2 ltac:(lia)) as Hd. pose proof (Z.mod_pos_bound (leaf_max_keys cfg + 1) 2 ltac:(lia)) as Hm.
  exists (take mid es). assert (length (drop mid es) = length es - mid)%nat as Hld by (by rewrite length_drop). destruct (drop mid es) as [|e ER] eqn:Ed; [cbn in Hld; lia|].
  exists e, ER. assert (length (take mid es) = mid) as Hlt by (rewrite length_take; lia).
  split_and!; try (by rewrite fmap_take); try (by rewrite <- Ed, fmap_drop).
  - by rewrite <- Ed, take_drop.
  - intros E. rewrite E in Hlt. cbn in Hlt. lia.
  - split; [|intros _]; unfold leaf_min; rewrite Hlt; lia.
  - split; [|intros _]; unfold leaf_min; rewrite Hld; lia.
Qed.

(** The levels above with the smallest key of a leaf adjusted, where that needs no write. *)
Lemma above_leaf_head t c ls1 id es ls2 ups k :
  tree_ok t c (ls1 ++ (id, es) :: ls2) ups -> is_s64 k -> ls1 = [] \/ (leaf_head (id, es)).2 = k ->
  exists ups0, above (config_ t) c ((leaf_head <$> ls1) ++ (id, k) :: (leaf_head <$> ls2)) ups0 /\
    up_ids ups0 = up_ids ups /\ (forall j, par ups0 j = par ups j) /\ root ((leaf_head <$> ls1) ++ (id, k) :: (leaf_head <$> ls2)) ups0 = root (leaf_head <$> (ls1 ++ (id, es) :: ls2)) ups /\
    length ups0 = length ups.
Proof.
  intros Hok Hk Hc. pose proof (tree_above _ _ _ _ Hok) as Hab. rewrite fmap_app in *. cbn [fmap list_fmap] in *. destruct Hc as [->|E].
  - destruct (retag_first (config_ t) c ups id (leaf_head (id, es)).2 k (leaf_head <$> ls2)) as (ups0 & Hab0 & [R1 R2 R3 R4]); [exact Hab|done|]. by exists ups0.
  - exists ups. assert (leaf_head (id, es) = (id, k)) as E' by (rewrite <- E; done). rewrite E' in *. by split_and!.
Qed.

Lemma leaf_below t c ls ups : tree_ok t c ls ups -> below (config_ t) c (leaf_head <$> ls) ups.
Proof.
  intros Hok x. rewrite leaf_head_ids. intros ([id es] & -> & (ls1 & ls2 & ->)%list_elem_of_split)%list_elem_of_fmap.
  destruct (tree_leaf _ _ _ _ _ _ _ Hok) as (_ & Hn & He & Hnx & Hp & Hl & _). eexists. split_and!; [exact Hn|by eapply leaf_node_ok|done].
Qed.

Section fork.
Variables (L : Prop) (t : Tree) (c : PageId -> option bytes) (f : Z) (ls1 : list LeafG) (id : PageId) (es : list Entry) (ls2 : list LeafG) (ups : list (list InnerG)).
Variables (rid : PageId) (EL : list Entry) (e : Entry) (ER : list Entry).
Hypothesis Hok : tree_ok t c (ls1 ++ (id, es) :: ls2) ups.
Hypothesis Hrid : id_ok rid.
Hypothesis Hfree : c rid = None.
Hypothesis HEL : leaf_ok (config_ t) true EL.
Hypothesis HER : leaf_ok (config_ t) true (e :: ER).
Hypothesis HELok : Forall entry_ok EL.
Hypothesis HERok : Forall entry_ok (e :: ER).
Hypothesis Hfirst : EL <> [] /\ (ls1 = [] \/ (leaf_head (id, es)).2 = (leaf_head (id, EL)).2).
Hypothesis Hroom : L -> Z.of_nat (length ups) + 2 <= f.
Abbreviation ls := (ls1 ++ (id, es) :: ls2).
Abbreviation lsN := (ls1 ++ (id, EL) :: (rid, e :: ER) :: ls2).
Abbreviation kl := ((leaf_head (id, EL)).2).
Abbreviation nR := (leaf_node (par ups id) (next_id ls2) (e :: ER)).
Abbreviation nL := (leaf_node (par ups id) rid EL).
Abbreviation c2 := (put (put c rid (node_bytes nR)) id (node_bytes nL)).

Lemma fork_nodes_ok : node_ok (config_ t) nR /\ node_ok (config_ t) nL.
Proof. destruct (tree_leaf _ _ _ _ _ _ _ Hok) as (_ & _ & _ & Hnx & Hp & _). split; eapply leaf_node_ok; try done. apply Hrid. Qed.

Lemma fork_pages x : x ∈ pages t ls ups -> is_Some (c x).
Proof.
  unfold pages. rewrite elem_of_cons, elem_of_app. intros [->|[Hx|Hx]]; [by destruct (to_meta _ _ _ _ Hok) as (d & -> & _)| |exact (above_pages _ _ _ _ _ (tree_above _ _ _ _ Hok) Hx)].
  destruct (leaf_below _ _ _ _ Hok x) as (n & Hn & _); [by rewrite leaf_head_ids|]. by eapply node_page.
Qed.

Lemma fork_rid : rid ∉ pages t ls ups.
Proof. intros Hx%fork_pages. rewrite Hfree in Hx. by destruct Hx. Qed.

Lemma fork_same j : j <> rid -> j <> id -> c2 j = c j.
Proof. intros H1 H2. unfold put. by rewrite !decide_False. Qed.

Lemma fork_leaves : rep_leaves (nodes (config_ t) c2) (fun x => if decide (x = rid) then par ups id else par ups x) lsN.
Proof.
  destruct (tree_leaf _ _ _ _ _ _ _ Hok) as (_ & _ & _ & _ & _ & _ & Hi1 & Hi2 & _). destruct fork_nodes_ok as [HR HL]. pose proof (sp_config _ _ _ (to_shape _ _ _ _ Hok)) as Hcfg.
  pose proof fork_rid as Hr. unfold pages in Hr. rewrite not_elem_of_cons, fmap_app, !not_elem_of_app in Hr. cbn in Hr. rewrite not_elem_of_cons in Hr. destruct Hr as (_ & (Hr1 & Hri & Hr2) & _).
  assert (forall x, x ∈ ls1.*1 \/ x ∈ ls2.*1 -> nodes (config_ t) c2 x = nodes (config_ t) c x /\ (if decide (x = rid) then par ups id else par ups x) = par ups x) as Hoth.
  { intros x Hx. rewrite decide_False by (intros ->; by destruct Hx). split; [|done]. apply nodes_ext, fork_same; intros ->; by destruct Hx. }
  pose proof (to_leaves _ _ _ _ Hok) as Hrep. eapply rep_leaves_tail; [exact Hrep|by intros; apply Hoth; left|]. split; [|split].
  - cbn [fst snd next_id]. rewrite nodes_put, decide_True, decide_False by (done || congruence). done.
  - cbn [fst snd]. rewrite decide_True by done. rewrite nodes_put, decide_False, nodes_put, decide_True by (done || congruence). done.
  - eapply rep_leaves_same; [by apply rep_leaves_drop in Hrep as [_ Hr]|]. intros; apply Hoth; by right.
Qed.

Lemma fork_growing : exists ups0, growing L t c2 (f - 1) (leaf_head <$> ls1) id kl (leaf_head <$> ls2) rid e.1 ups0 /\ up_ids ups0 = up_ids ups /\ length ups0 = length ups.
Proof.
  pose proof fork_rid as Hr. pose proof (tree_leaf _ _ _ _ _ _ _ Hok) as (Hid & _ & _ & _ & _ & _ & Hi1 & Hi2 & Hiu & Him). destruct fork_nodes_ok as [HR HL].
  assert (is_s64 kl) as Hkl. { destruct Hfirst as [Hne _]. destruct EL as [|x EL']; [done|]. by apply list.Forall_cons in HELok as [[? _] _]. }
  destruct (above_leaf_head _ _ _ _ _ _ _ kl Hok Hkl) as (ups0 & Hab & E1 & E2 & E3 & E4); [apply Hfirst|]. exists ups0. split; [|done].
  assert (forall x, x ∈ (leaf_head <$> ls1).*1 \/ x ∈ (leaf_head <$> ls2).*1 \/ x = id -> x ∈ ls.*1) as Hin.
  { intros x. rewrite !leaf_head_ids, fmap_app, elem_of_app. cbn. rewrite elem_of_cons. tauto. }
  pose proof Hok as [[Hcfg _ _ _ _ Hnd _] Hroot (d & Hd & _) [Hmi Hmn] _ _]. unfold pages in Hr. rewrite not_elem_of_cons, not_elem_of_app in Hr. destruct Hr as (Hrm & Hrl & Hru).
  split; try done.
  - eapply above_ext; [|exact Hab]. intros j Hj. rewrite E1 in Hj. apply fork_same; intros ->; done.
  - split; [done|]. cbn. by apply list.Forall_cons in HERok as [[? _] _].
  - rewrite E1, fmap_app. cbn [fmap list_fmap fst]. rewrite !leaf_head_ids. change (ls1.*1 ++ id :: ls2.*1) with (ls1.*1 ++ ((id, es) :: ls2).*1). rewrite <- fmap_app.
    apply list.NoDup_cons. split; [rewrite not_elem_of_cons; split; [congruence|done]|]. apply list.NoDup_cons. split; [by rewrite not_elem_of_app|done].
  - intros x Hx. rewrite E2. destruct (decide (x = id)) as [->|Hne].
    + exists nL. rewrite nodes_put, decide_True by done. by split_and!.
    + assert (x ∈ ls.*1) as Hx' by (apply Hin; rewrite fmap_app, elem_of_app in Hx; cbn in Hx; rewrite elem_of_cons in Hx; tauto).
      destruct (leaf_below _ _ _ _ Hok x) as (n & Hn & Hnok & Hp); [by rewrite leaf_head_ids|]. exists n. split_and!; [|done|done]. rewrite <- Hn. apply nodes_ext, fork_same; [|done]. by intros ->.
  - exists nR. rewrite nodes_put, decide_False, nodes_put, decide_True by (done || (intros ->; apply Hrl; apply Hin; tauto)). done.
  - split; [done|]. rewrite fork_same, Hd by done. done.
  - rewrite Hroot. done.
  - intros HL'. specialize (Hroom HL'). lia.
Qed.

Lemma fork_became t' c' f' ups0 ups' :
  up_ids ups0 = up_ids ups -> lifted t t' c2 c' (f - 1) f' ((leaf_head <$> ls1) ++ (id, kl) :: (rid, e.1) :: (leaf_head <$> ls2)) ups0 ups' ->
  increasing (entries lsN).*1 -> Forall entry_ok (entries lsN) -> became t c ls ups t' c' lsN ups'.
Proof.
  intros E1 [Hc1 Hc2 Hab Hroot Hmeta Hn Hframe Hfresh _ _] Hs He. pose proof fork_rid as Hr. pose proof (tree_leaf _ _ _ _ _ _ _ Hok) as (Hid & _ & _ & _ & _ & _ & _ & _ & Hiu & Him).
  assert ((leaf_head <$> ls1) ++ (id, kl) :: (rid, e.1) :: (leaf_head <$> ls2) = leaf_head <$> lsN) as E by (by rewrite fmap_app). rewrite E in *. rewrite leaf_head_ids in *.
  pose proof Hok as [[Hcfg _ Hlv _ _ Hnd _] Hroot0 (d & Hd & Hmp) [Hmi Hmn] _ _].
  assert (forall j, c2 j = None -> c j = None) as Hnone. { intros j. unfold put. do 2 (case_decide; [done|]). done. }
  assert (forall j, j ∈ lsN.*1 -> j = rid \/ j ∈ ls.*1) as Hmem. { intros j. rewrite !fmap_app, !elem_of_app. cbn. rewrite !elem_of_cons. naive_solver. }
  assert (metadata_page_id_ t <> rid) as Hmr by (intros <-; apply Hr; left).
  assert (forall j, j ∈ lsN.*1 ++ up_ids ups' -> j ∈ ls.*1 ++ up_ids ups \/ c j = None) as Hfr.
  { intros j [[->|Hj]%Hmem|[Hj|Hj]%Hfresh]%elem_of_app; rewrite elem_of_app; [by right|by left; left|by left; right; rewrite <- E1|by right; apply Hnone]. }
  split; try done.
  - apply tree_build; rewrite ?Hc1, ?Hc2; try done.
    + assert (many lsN = true) as -> by (apply many_true; rewrite length_app; cbn; lia). rewrite list.Forall_forall in Hlv.
      apply list.Forall_forall. intros x [Hx|[->|[->|Hx]%elem_of_cons]%elem_of_cons]%elem_of_app; try done.
      * specialize (Hlv x ltac:(apply elem_of_app; by left)). by rewrite (many_elem _ _ x) in Hlv by (by left).
      * specialize (Hlv x ltac:(apply elem_of_app; right; by right)). by rewrite (many_elem _ _ x) in Hlv by (by right).
    + destruct Hmeta as [Hm|[-> Hm]].
      * eexists. split; [exact Hm|]. apply meta_bytes_ok; [|done]. rewrite Hroot. by apply (above_root _ _ _ _ Hab).
      * exists d. split; [|done]. by rewrite Hm, fork_same by congruence.
    + intros [Hx|Hx]%Hfr; [done|congruence].
    + eapply rep_leaves_ext; [exact fork_leaves|]. intros x n Hx Hnx _. by apply Hn.
  - intros j Hj Hj'. unfold pages in *. rewrite Hc2, E1 in *. rewrite Hframe by done. apply fork_same; intros ->; [apply Hj'|apply Hj]; right; apply elem_of_app; left; rewrite fmap_app; apply elem_of_app; right; [right; left|left].
Qed.

End fork.

Section leaves.
Context {W : Type} `{PageAccessLaws W} (L : Prop) (held : PageId -> Z).
Implicit Types (w : W) (t : Tree) (c : PageId -> option bytes).
Abbreviation store := (store L held).

(** Writing a leaf and, if its smallest key is new, the keys above. *)
Lemma rewrite_leaf_spec t c f ls1 id es es' ls2 ups fuel w (sep : option Z) :
  tree_ok t c (ls1 ++ (id, es) :: ls2) ups -> store w c f -> (length ups < fuel)%nat ->
  leaf_ok (config_ t) (many (ls1 ++ (id, es) :: ls2)) es' -> increasing (entries (ls1 ++ (id, es') :: ls2)).*1 -> Forall entry_ok es' ->
  match sep with Some k => is_s64 k /\ leaf_head (id, es') = (id, k) | None => ups = [] \/ leaf_head (id, es') = leaf_head (id, es) end ->
  wpo L (run (write_node id (leaf_node (par ups id) (next_id ls2) es')) ;?
         match sep with Some k => update_parent_separator fuel id k | None => ret (Some tt) end) (t, w)
    (fun _ s => exists w' c' ups', s = (t, w') /\ store w' c' f /\ became t c (ls1 ++ (id, es) :: ls2) ups t c' (ls1 ++ (id, es') :: ls2) ups' /\ length ups' = length ups).
Proof.
  intros Hok Hst Hf Hl Hs He Hsep. pose proof (tree_leaf _ _ _ _ _ _ _ Hok) as (Hid & Hn & _ & Hnx & Hpar & _ & Hi1 & Hi2 & Hiu & Him). pose proof (tree_above _ _ _ _ Hok) as Hab.
  assert (node_ok (config_ t) (leaf_node (par ups id) (next_id ls2) es')) as Hnok by (by eapply leaf_node_ok). pose proof (ab_config _ _ _ _ Hab) as Hcfg.
  apply wpo_bind, wpo_run. wpl_use write_node_spec; [exact Hst|exact Hid|by eapply node_page|done|exact Hnok|]. intros [] ? (w1 & -> & Hst1).
  set (c1 := put c id (node_bytes (leaf_node (par ups id) (next_id ls2) es'))) in *.
  assert (above (config_ t) c1 (leaf_head <$> (ls1 ++ (id, es) :: ls2)) ups) as Hab1.
  { eapply above_ext; [|exact Hab]. intros j Hj. unfold c1, put. rewrite decide_False; [done|]. intros ->. done. }
  destruct sep as [k|].
  - destruct Hsep as [Hk Hhd]. assert (leaf_head <$> (ls1 ++ (id, es') :: ls2) = (leaf_head <$> ls1) ++ (id, k) :: (leaf_head <$> ls2)) as E by (rewrite fmap_app; cbn [fmap list_fmap]; by rewrite Hhd).
    pose proof Hab1 as Hab1'. rewrite fmap_app in Hab1'. cbn [fmap list_fmap] in Hab1'.
    wpo_use (update_parent_separator_spec (W := W)); [exact Hab1'|exact Hk|by unfold c1; rewrite nodes_put, decide_True|done|exact Hst1|exact Hf|].
    intros [] ? (w2 & c2 & ups2 & -> & Hst2 & Hab2 & Hrt & Hc2). exists w2, c2, ups2. split_and!; [done|done| |apply Hrt].
    eapply became_leaf; try done; [by rewrite E|]. rewrite E, fmap_app. exact Hrt.
  - apply wpo_ret. exists w1, c1, ups. split_and!; [done|done| |done]. eapply became_leaf; try done.
    + destruct Hsep as [->|E]; [|by rewrite (leaf_heads_same ls1 id es es' ls2 E)]. pose proof Hab1 as [_ Ht Hh Hi Hnd Hr]. split; try done.
      * cbn in *. rewrite length_fmap, length_app in *. done.
      * apply leaf_heads_ok; [|]. 
        -- pose proof (sp_entries _ _ _ (to_shape _ _ _ _ Hok)) as Hent. rewrite entries_parts in *. apply Forall_app in Hent as [H1 Hent]. apply Forall_app in Hent as [_ H2]. apply Forall_app_2; [done|]. by apply Forall_app_2.
        -- pose proof (sp_ids _ _ _ (to_shape _ _ _ _ Hok)) as [Hids _]%Forall_app. by rewrite fmap_app in *.
      * by rewrite leaf_head_ids, fmap_app in *.
    + apply retagged_refl. intros _. by rewrite !leaf_head_ids, !fmap_app.
Qed.
Lemma entries_insert ls1 id a b ls2 key v :
  increasing (entries (ls1 ++ (id, a ++ b) :: ls2)).*1 -> (forall e, e ∈ entries ls1 -> e.1 < key) -> (forall e, e ∈ entries ls2 -> key < e.1) ->
  (forall e, e ∈ a -> e.1 < key) -> (forall e, e ∈ b -> key < e.1) ->
  increasing (entries ls1 ++ (a ++ (key, v) :: b) ++ entries ls2).*1 /\
  (list_to_map (entries ls1 ++ (a ++ (key, v) :: b) ++ entries ls2) : gmap Z TU.RecordId) = <[key := v]> (to_map (ls1 ++ (id, a ++ b) :: ls2)) /\
  to_map (ls1 ++ (id, a ++ b) :: ls2) !! key = None.
Proof.
  intros Hs Hlt Hgt Ha Hb. unfold to_map. rewrite entries_parts in *.
  assert (entries ls1 ++ (a ++ (key, v) :: b) ++ entries ls2 = (entries ls1 ++ a) ++ (key, v) :: (b ++ entries ls2)) as -> by (by rewrite <- !app_assoc).
  assert (entries ls1 ++ (a ++ b) ++ entries ls2 = (entries ls1 ++ a) ++ (b ++ entries ls2)) as E by (by rewrite <- !app_assoc). rewrite E in *.
  assert (increasing ((entries ls1 ++ a) ++ (key, v) :: (b ++ entries ls2)).*1) as Hs'.
  { rewrite fmap_app in *. cbn. apply increasing_insert; [done|..]; intros x (e & -> & [He|He]%elem_of_app)%list_elem_of_fmap; auto. }
  split_and!; [done|by apply map_insert_mid|]. apply map_absent. intros e. rewrite !elem_of_app. intros [[He|He]|[He|He]];
    [specialize (Hlt e He)|specialize (Ha e He)|specialize (Hb e He)|specialize (Hgt e He)]; lia.
Qed.

(** [insert_impl] refuses a key that is there, and otherwise adds the entry. *)
Lemma insert_impl_spec t c f key v ls ups fuel w :
  tree_ok t c ls ups -> store w c f -> entry_ok (key, v) -> (length ups < fuel)%nat -> (L -> Z.of_nat (length ups) + 2 <= f) ->
  wpo L (insert_impl fuel key v) (t, w) (fun b s => exists t' w' c' f' ls' ups', s = (t', w') /\ store w' c' f' /\ became t c ls ups t' c' ls' ups' /\
    b = bool_decide (to_map ls !! key = None) /\ to_map ls' = (if b : bool then <[key := v]> (to_map ls) else to_map ls) /\
    (length ups' <= S (length ups))%nat /\ (length ls' <= S (length ls))%nat /\ f - (Z.of_nat (length ups) + 2) <= f').
Proof.
  intros Hok Hst Hkv Hf Hroom. unfold insert_impl. apply wpo_bind. wpo_use find_leaf_spec; [exact Hok|exact Hst|exact Hf|].
  intros id ? (w1 & -> & Hst1 & ls1 & es & ls2 & -> & Hr). pose proof Hok as [Hsh _ _ _ _ _]. pose proof (sp_sorted _ _ _ Hsh) as Hs.
  destruct (routed_entries _ _ _ _ _ _ _ Hsh Hr) as (Hlt & Hgt & Hes). destruct (tree_leaf _ _ _ _ _ _ _ Hok) as (Hid & Hn & He & Hnx & Hp & Hl & _).
  apply wpo_bind, wpo_run. wpl_use read_node_spec; [exact Hst1|exact Hid|exact Hn|]. intros n ? (-> & w2 & -> & Hst2).
  cbn [leaf_node keys values children parent next leaf]. destruct (leaf_split es key Hes) as (a & b & -> & -> & Ha & [[(v0 & b' & -> & Hb) Hl']|[Hb Hl']]).
  { rewrite decide_True by done. apply wpo_ret. eexists t, w2, c, f, _, ups.
    assert (to_map (ls1 ++ (id, a ++ (key, v0) :: b') :: ls2) !! key = Some v0) as E.
    { unfold to_map. rewrite entries_parts in *. apply map_elem; [done|]. rewrite !elem_of_app. right; left; right; left. }
    rewrite E. split_and!; try done; [by apply became_same|lia|lia|lia]. }
  rewrite decide_False by done. destruct (entries_insert _ _ _ _ _ _ v Hs Hlt Hgt Ha Hb) as (HsN & HmN & Hnone). apply Forall_app in He as [Hea Heb].
  assert (Forall entry_ok (a ++ (key, v) :: b)) as HeN by (apply Forall_app_2; [done|]; by apply list.Forall_cons).
  apply wpo_bind. eapply wpo_opt; [rewrite fmap_app; apply insert_at_app; by rewrite length_fmap|].
  apply wpo_bind. eapply wpo_opt; [rewrite fmap_app; apply insert_at_app; by rewrite length_fmap|].
  assert (a.*1 ++ key :: b.*1 = (a ++ (key, v) :: b).*1 /\ a.*2 ++ v :: b.*2 = (a ++ (key, v) :: b).*2) as [-> ->] by (by rewrite !fmap_app).
  set (es' := a ++ (key, v) :: b) in *. assert (zlen es' = zlen (a ++ b) + 1) as Hlen by (unfold es'; rewrite !length_app; cbn; lia). pose proof Hl as [Hmax Hmin].
  unfold this. apply wpo_bind, wpo_run. wpl_step. cbn [fst]. rewrite length_fmap. destruct (Z.leb_spec (zlen es') (leaf_max_keys (config_ t))) as [Hle|Hgt'].
  - apply wpo_assoc, wpo_bind.
    assert ((if decide (length a = 0)%nat then update_parent_separator fuel id key else ret (Some tt)) =
      match (if decide (length a = 0)%nat then Some key else None) with Some k => update_parent_separator fuel id k | None => ret (Some tt) end) as -> by (by case_decide).
    wpo_use (rewrite_leaf_spec t c f ls1 id (a ++ b) es'); [exact Hok|exact Hst2|exact Hf|split; [lia|intros Hm; specialize (Hmin Hm); lia]|by rewrite entries_parts|done| |].
    { unfold es'. destruct (decide (length a = 0)%nat) as [Hz|Hz]; [destruct a; [|done]|destruct a; [done|by right]]. split; [apply Hkv|done]. }
    intros [] ? (w3 & c3 & ups3 & -> & Hst3 & Hbc & Hlu). apply wpo_ret. eexists t, w3, c3, f, _, ups3. split_and!; [done|exact Hst3|exact Hbc|by rewrite bool_decide_true|..].
    + unfold to_map. by rewrite entries_parts.
    + lia.
    + rewrite !length_app. cbn. lia.
    + lia.
  - destruct (leaf_halves (config_ t) es' (sp_config _ _ _ Hsh) ltac:(lia)) as (EL & e & ER & HE & Hne & E1 & E2 & E3 & E4 & HEL & HER). rewrite length_fmap in E1, E2, E3, E4.
    rewrite E1, E2, E3, E4. rewrite HE in HeN, HsN, HmN. pose proof HeN as [HeL HeR]%Forall_app.
    apply wpo_bind, wpo_run. wpl_use allocate_node_spec; [exact Hst2|intros HL; specialize (Hroom HL); lia|apply Hsh| |].
    { change (node_ok (config_ t) (leaf_node (par ups id) (next_id ls2) (e :: ER))). by eapply leaf_node_ok. }
    intros rid ? (Hrid & Hnone' & w3 & -> & Hst3).
    assert (EL <> [] /\ (ls1 = [] \/ (leaf_head (id, a ++ b)).2 = (leaf_head (id, EL)).2)) as Hfirst.
    { split; [done|]. pose proof (config_bounds _ (sp_config _ _ _ Hsh)) as Hcb. assert (2 <= zlen (a ++ b)) as Htwo by lia. destruct a as [|x a].
      - left. destruct Hr as [[?|Hr] _]; [done|]. exfalso. cbn in Hr. destruct b as [|y b]; [cbn in Htwo; lia|]. specialize (Hb y ltac:(left)). lia.
      - right. unfold es' in HE. destruct EL as [|y EL]; [done|]. cbn in HE. by injection HE as <- _. }
    destruct (fork_nodes_ok t c ls1 id (a ++ b) ls2 ups rid EL e ER Hok Hrid HEL HER HeL HeR) as [_ HokL].
    apply wpo_bind, wpo_run. wpl_use write_node_spec; [exact Hst3|exact Hid| |apply Hsh|exact HokL|].
    { unfold put. case_decide; [done|]. by eapply node_page. }
    intros [] ? (w4 & -> & Hst4). apply wpo_bind. eapply wpo_opt; [done|].
    destruct (fork_growing L t c f ls1 id (a ++ b) ls2 ups rid EL e ER Hok Hrid Hnone' HEL HER HeL HeR Hfirst Hroom) as (ups0 & Hgr & Eu & El).
    apply wpo_bind. wpo_use insert_into_parent_spec; [exact Hgr|exact Hst4|lia|]. intros [] ? (t' & w5 & c5 & f5 & ups5 & -> & Hst5 & Hlift). apply wpo_ret.
    assert (entries ls1 ++ (EL ++ e :: ER) ++ entries ls2 = entries (ls1 ++ (id, EL) :: (rid, e :: ER) :: ls2)) as Een by (rewrite entries_parts; unfold entries; cbn; by rewrite <- app_assoc).
    rewrite Een in HsN, HmN. exists t', w5, c5, f5, (ls1 ++ (id, EL) :: (rid, e :: ER) :: ls2), ups5. split_and!; [done|exact Hst5| |by rewrite bool_decide_true|exact HmN|..].
    + eapply fork_became; try done. rewrite <- Een. pose proof (sp_entries _ _ _ Hsh) as Hent. rewrite entries_parts in Hent. apply Forall_app in Hent as [H1 Hent]. apply Forall_app in Hent as [_ H2].
      apply Forall_app_2; [done|]. by apply Forall_app_2.
    + pose proof (lf_length _ _ _ _ _ _ _ _ _ Hlift). lia.
    + rewrite !length_app. cbn. lia.
    + pose proof (lf_free _ _ _ _ _ _ _ _ _ Hlift). lia.
Qed.

End leaves.

End BI.
