(* ===== verification/TreeRemove.v ===== *)
(** * Removing from the B+ tree

    Two neighbours of a level share their children anew or become one; in the second case the
    level above loses a head and may have to be repaired in turn ([rebalance_internal]).  From
    that the correctness of [rebalance_leaf] and [remove_impl]. *)

From Stdlib Require Import Sorted.
From S2P Require Import Prelude Bytes Page Stream PageStore PageManager Wal LogManager BufferPool LockManager Mutation Transaction Payload Access Tuple TreeNode BPlusTree TreeShape TreeSearch TreeInsert.

Module BD.
Import OB BN BT BS BQ BI.

(** The levels above [hs] have been repaired, using pages of [old] only. *)
Record shrunk (t t' : Tree) (c c' : PageId -> option bytes) (hs : list Head) (old : list PageId) (ups' : list (list InnerG)) : Prop := {
  sk_config : config_ t' = config_ t;
  sk_metadata : metadata_page_id_ t' = metadata_page_id_ t;
  sk_above : above (config_ t) c' hs ups';
  sk_root : root_page_id_ t' = root hs ups';
  sk_meta : c' (metadata_page_id_ t) = Some (meta_bytes (root_page_id_ t') (config_ t)) \/
            t' = t /\ c' (metadata_page_id_ t) = c (metadata_page_id_ t);
  sk_nodes : forall x n, x ∈ hs.*1 -> nodes (config_ t) c x = Some n -> nodes (config_ t) c' x = Some (set_parent_ (par ups' x) n);
  sk_frame : forall j, j ∉ metadata_page_id_ t :: hs.*1 ++ old -> c' j = c j;
  sk_ids : forall j, j ∈ up_ids ups' -> j ∈ old;
}.

(** A level in which the group of one node may have lost a child. *)
Record sagging (t : Tree) (c : PageId -> option bytes) (hs : list Head) (lv1 : list InnerG) (pid : PageId) (g : list Head) (lv2 : list InnerG)
    (ups : list (list InnerG)) : Prop := {
  sg_concat : hs = concat (lv1 ++ (pid, g) :: lv2).*2;
  sg_heads : Forall head_ok hs;
  sg_ids : Forall id_ok (lv1 ++ (pid, g) :: lv2).*1;
  sg_nodup : NoDup (metadata_page_id_ t :: hs.*1 ++ up_ids ((lv1 ++ (pid, g) :: lv2) :: ups));
  sg_rep : forall id g', (id, g') ∈ lv1 ++ (pid, g) :: lv2 -> nodes (config_ t) c id = Some (inner_node (par ups id) g');
  sg_left : Forall (fun x => group_ok (config_ t) (many (lv1 ++ (pid, g) :: lv2)) x.2) lv1;
  sg_right : Forall (fun x => group_ok (config_ t) (many (lv1 ++ (pid, g) :: lv2)) x.2) lv2;
  sg_size : 1 <= zlen g <= internal_max_keys (config_ t) + 1;
  sg_many : many (lv1 ++ (pid, g) :: lv2) = true -> internal_min (config_ t) <= zlen g;
  sg_above : above (config_ t) c (heads (lv1 ++ (pid, g) :: lv2)) ups;
  sg_below : below (config_ t) c hs ((lv1 ++ (pid, g) :: lv2) :: ups);
  sg_meta : id_ok (metadata_page_id_ t) /\ is_Some (c (metadata_page_id_ t));
  sg_root : root_page_id_ t = root (heads (lv1 ++ (pid, g) :: lv2)) ups;
}.

(** Nothing is to be repaired above. *)
Lemma shrunk_same t c c' hs old ups :
  above (config_ t) c' hs ups -> root_page_id_ t = root hs ups -> below (config_ t) c hs ups -> (forall j, j ∈ up_ids ups -> j ∈ old) ->
  (forall j, j ∈ hs.*1 -> nodes (config_ t) c' j = nodes (config_ t) c j) -> (forall j, j ∉ hs.*1 ++ old -> c' j = c j) -> metadata_page_id_ t ∉ hs.*1 ++ old ->
  shrunk t t c c' hs old ups.
Proof.
  intros Hab Hroot Hbel Hold Hn Hc Hm. split; try done.
  - right. split; [done|]. by apply Hc.
  - intros x n Hx Hnx. rewrite Hn, Hnx by done. destruct (Hbel x Hx) as (n' & Hn' & _ & Hp). rewrite Hnx in Hn'. injection Hn' as <-. by rewrite set_parent_same.
  - intros j [_ Hj]%not_elem_of_cons. by apply Hc.
Qed.

(** Repairs above a level, seen from below the level. *)
Lemma shrunk_down t t' c c4 c5 hs lv old old' ups' :
  shrunk t t' c4 c5 (heads lv) old' ups' -> concat lv.*2 = hs -> Forall (fun x => group_ok (config_ t) (many lv) x.2) lv ->
  Forall head_ok hs -> Forall id_ok lv.*1 -> NoDup (metadata_page_id_ t :: hs.*1 ++ lv.*1 ++ old') ->
  (forall id g, (id, g) ∈ lv -> exists p, nodes (config_ t) c4 id = Some (inner_node p g)) ->
  (forall x n, x ∈ hs.*1 -> nodes (config_ t) c x = Some n -> nodes (config_ t) c4 x = Some (set_parent_ (parent_in lv x) n)) ->
  (forall j, j ∉ hs.*1 ++ old -> c4 j = c j) -> (forall j, j ∈ lv.*1 ++ old' -> j ∈ old) -> metadata_page_id_ t ∉ old ->
  shrunk t t' c c5 hs old (lv :: ups').
Proof.
  intros [Hc1 Hc2 Hab Hroot Hmeta Hn5 Hf5 Hids] <- Hg Hh Hi Hnd Hn4 Hch Hc4 Hold Hm. apply list.NoDup_cons in Hnd as [Hmn Hnd]. rewrite !not_elem_of_app in Hmn. destruct Hmn as (Hm1 & Hm2 & Hm3).
  apply list.NoDup_app in Hnd as (Hndh & Hd & _). pose proof (ab_nodup _ _ _ _ Hab) as Hnd5. rewrite inner_head_ids in *. split; try done.
  - apply above_cons; [exact Hab| |done|done|done|].
    + intros id g Hin. destruct (Hn4 id g Hin) as (p & Hp). by apply (Hn5 id) in Hp; [|by apply (list_elem_of_fmap_2 fst lv (id, g))].
    + apply list.NoDup_app. split_and!; [done| |done]. intros x Hx Hy. apply (Hd x Hx). rewrite elem_of_app in *. destruct Hy as [?|?%Hids]; tauto.
  - assert (c4 (metadata_page_id_ t) = c (metadata_page_id_ t)) as E by (apply Hc4; by rewrite not_elem_of_app). by rewrite <- E.
  - intros x n Hx Hnx. rewrite (nodes_ext _ c4); [by apply Hch|]. apply Hf5. rewrite not_elem_of_cons. split; [by intros ->|by apply Hd].
  - intros j. rewrite not_elem_of_cons, not_elem_of_app. intros (Hj1 & Hj2 & Hj3). rewrite Hf5; [apply Hc4; by rewrite not_elem_of_app|].
    rewrite not_elem_of_cons. split; [done|]. intros Hx. by apply Hj3, Hold.
  - intros j. rewrite up_ids_cons, elem_of_app. intros [Hj|Hj%Hids]; apply Hold; rewrite elem_of_app; tauto.
Qed.

(** Children that change their parent, and children that do not. *)
Lemma children_moved cfg (c c4 : PageId -> option bytes) lv lvN ups (mv : list PageId) target x n :
  below cfg c (concat lv.*2) (lv :: ups) -> NoDup (concat lv.*2).*1 -> concat lvN.*2 = concat lv.*2 ->
  (forall y, y ∈ mv -> exists g, (target, g) ∈ lvN /\ y ∈ g.*1) ->
  (forall i g y, (i, g) ∈ lv -> y ∈ g.*1 -> y ∉ mv -> exists g', (i, g') ∈ lvN /\ y ∈ g'.*1) ->
  (forall y m, y ∈ mv -> nodes cfg c y = Some m -> nodes cfg c4 y = Some (set_parent_ target m)) ->
  (forall y, y ∈ (concat lv.*2).*1 -> y ∉ mv -> nodes cfg c4 y = nodes cfg c y) ->
  x ∈ (concat lv.*2).*1 -> nodes cfg c x = Some n -> nodes cfg c4 x = Some (set_parent_ (parent_in lvN x) n).
Proof.
  intros Hbel Hnd Hcc Hmv Hst Hn1 Hn2 Hx Hn. destruct (decide (x ∈ mv)) as [Hin|Hin].
  - destruct (Hmv x Hin) as (g & Hg & Hxg). rewrite (parent_in_elem lvN (target, g)); [by apply Hn1|by rewrite Hcc|done|done].
  - rewrite Hn2, Hn by done. f_equal. symmetry. apply set_parent_same. destruct (Hbel x Hx) as (n' & Hn' & _ & Hp). rewrite Hn in Hn'. injection Hn' as <-. rewrite Hp. cbn [par].
    destruct (child_in_group _ _ Hx) as ([i g] & Hg & Hxg). cbn in Hxg. destruct (Hst i g x Hg Hxg Hin) as (g' & Hg' & Hxg').
    rewrite (parent_in_elem lv (i, g)), (parent_in_elem lvN (i, g')); [done|by rewrite Hcc|done|done|done|done|done].
Qed.

(** The root is a node of the highest level. *)
Lemma root_level cfg ups : forall hs lv, tower cfg hs (lv :: ups) -> root hs (lv :: ups) ∈ up_ids (lv :: ups).
Proof.
  induction ups as [|lv' ups IH]; intros hs lv (_ & _ & Ht).
  - cbn in Ht. destruct lv as [|x lv]; [done|]. left.
  - cbn [root]. rewrite up_ids_cons, elem_of_app. right. exact (IH _ _ Ht).
Qed.

(** Below another level a level has more than one node. *)
(** ** A head is dropped *)

Lemma above_delete t c c4 lv1 pid q1 aid ka bid kb q2 lv2 ups :
  above (config_ t) c ((concat lv1.*2 ++ q1) ++ (aid, ka) :: (bid, kb) :: (q2 ++ concat lv2.*2)) ((lv1 ++ (pid, q1 ++ (aid, ka) :: (bid, kb) :: q2) :: lv2) :: ups) ->
  below (config_ t) c4 ((concat lv1.*2 ++ q1) ++ (aid, ka) :: (q2 ++ concat lv2.*2)) ((lv1 ++ (pid, q1 ++ (aid, ka) :: (bid, kb) :: q2) :: lv2) :: ups) ->
  metadata_page_id_ t ∉ ((concat lv1.*2 ++ q1) ++ (aid, ka) :: (bid, kb) :: (q2 ++ concat lv2.*2)).*1 ++ up_ids ((lv1 ++ (pid, q1 ++ (aid, ka) :: (bid, kb) :: q2) :: lv2) :: ups) ->
  id_ok (metadata_page_id_ t) -> is_Some (c4 (metadata_page_id_ t)) ->
  root_page_id_ t = root ((concat lv1.*2 ++ q1) ++ (aid, ka) :: (bid, kb) :: (q2 ++ concat lv2.*2)) ((lv1 ++ (pid, q1 ++ (aid, ka) :: (bid, kb) :: q2) :: lv2) :: ups) ->
  nodes (config_ t) c4 pid = Some (inner_node (par ups pid) (q1 ++ (aid, ka) :: q2)) ->
  (forall j, j ∈ up_ids ((lv1 ++ (pid, q1 ++ (aid, ka) :: (bid, kb) :: q2) :: lv2) :: ups) -> j <> pid -> c4 j = c j) ->
  sagging t c4 ((concat lv1.*2 ++ q1) ++ (aid, ka) :: (q2 ++ concat lv2.*2)) lv1 pid (q1 ++ (aid, ka) :: q2) lv2 ups.
Proof.
  intros Hab Hbel Hmn Hmi Hmc Hroot Hn Hc. pose proof Hab as [Hcfg (_ & Hg & Ht) Hh Hi Hnd [Hrep Hr]].
  assert ((lv1 ++ (pid, q1 ++ (aid, ka) :: q2) :: lv2).*1 = (lv1 ++ (pid, q1 ++ (aid, ka) :: (bid, kb) :: q2) :: lv2).*1) as Hids by (by rewrite !fmap_app).
  assert (heads (lv1 ++ (pid, q1 ++ (aid, ka) :: q2) :: lv2) = heads (lv1 ++ (pid, q1 ++ (aid, ka) :: (bid, kb) :: q2) :: lv2)) as Hhd by (rewrite !fmap_app; cbn; by destruct q1).
  pose proof (many_replace lv1 (pid, q1 ++ (aid, ka) :: q2) (pid, q1 ++ (aid, ka) :: (bid, kb) :: q2) lv2) as Hmany.
  rewrite up_ids_cons in Hi, Hnd, Hc. pose proof Hi as [Hil _]%Forall_app. pose proof Hnd as (Hndh & Hdis & Hndu)%list.NoDup_app. pose proof Hndu as (Hndl & Hdl & _)%list.NoDup_app.
  assert (zlen (q1 ++ (aid, ka) :: (bid, kb) :: q2) = zlen (q1 ++ (aid, ka) :: q2) + 1) as Hlen by (rewrite !length_app; cbn; lia).
  assert (forall x, x ∈ ((concat lv1.*2 ++ q1) ++ (aid, ka) :: (q2 ++ concat lv2.*2)).*1 -> x ∈ ((concat lv1.*2 ++ q1) ++ (aid, ka) :: (bid, kb) :: (q2 ++ concat lv2.*2)).*1 /\ x <> bid) as Hsub.
  { intros x Hx. split; [rewrite !fmap_app, !elem_of_app in *; cbn in *; rewrite !elem_of_cons in *; naive_solver|]. intros ->.
    rewrite fmap_app in Hndh, Hx. cbn in Hndh, Hx. apply list.NoDup_app in Hndh as (_ & Hx1 & Hndh). apply list.NoDup_cons in Hndh as [Hx2 Hndh]. apply list.NoDup_cons in Hndh as [Hx3 _].
    rewrite elem_of_app, elem_of_cons in Hx. destruct Hx as [Hx|[->|Hx]]; [|apply Hx2; left|done]. apply (Hx1 bid Hx). right. left. }
  apply Forall_app in Hg as [Hg1 Hg]. apply list.Forall_cons in Hg as [[[Hs1 Hs2] Hs3] Hg2]. cbn [snd] in *. split; rewrite ?Hhd, ?Hmany; try done.
  - rewrite concat_parts. cbn. by rewrite <- !app_assoc.
  - apply Forall_app in Hh as [H1 Hh]. apply list.Forall_cons in Hh as [H2 Hh]. apply list.Forall_cons in Hh as [_ Hh]. apply Forall_app_2; [done|]. by apply list.Forall_cons.
  - by rewrite Hids.
  - rewrite up_ids_cons, Hids. apply list.NoDup_cons. split.
    + rewrite not_elem_of_app. split; [|intros Hx; apply Hmn, elem_of_app; by right]. intros [Hx _]%Hsub. apply Hmn, elem_of_app. by left.
    + apply list.NoDup_app. split_and!; [|by intros x [Hx _]%Hsub; apply Hdis|done]. rewrite fmap_app in *. cbn in *. apply list.NoDup_app in Hndh as (H1 & H2 & H3). apply list.NoDup_cons in H3 as [H3 H4].
      apply list.NoDup_cons in H4 as [_ H4]. rewrite not_elem_of_cons in H3. apply list.NoDup_app. split_and!; [done| |apply list.NoDup_cons; split; [tauto|done]].
      intros x Hx. specialize (H2 x Hx). rewrite !not_elem_of_cons in *. tauto.
  - intros id g' Hin. destruct (elem_replace lv1 pid (q1 ++ (aid, ka) :: (bid, kb) :: q2) _ lv2 id g' Hin) as [[-> ->]|[Hne Hin']]; [| |done|].
    + rewrite fmap_app in Hndl. cbn in Hndl. apply list.NoDup_app in Hndl as (_ & Hx & _). intros Hy. apply (Hx pid Hy). left.
    + rewrite fmap_app in Hndl. cbn in Hndl. apply list.NoDup_app in Hndl as (_ & _ & Hndl). by apply list.NoDup_cons in Hndl as [? _].
    + rewrite (nodes_ext _ c); [by apply Hrep|]. apply Hc; [|done]. apply elem_of_app. left. by apply (list_elem_of_fmap_2 fst _ (id, g')).
  - split; [rewrite length_app; cbn; lia|lia].
  - intros Hm. specialize (Hs3 Hm). lia.
  - eapply above_ext; [|exact (above_up _ _ _ _ _ Hab)]. intros j Hj. apply Hc; [apply elem_of_app; by right|]. intros ->. apply (Hdl pid); [|done]. rewrite fmap_app. apply elem_of_app. right. left.
  - intros x Hx. destruct (Hbel x Hx) as (n & Hnx & Hnok & Hp). exists n. split_and!; [done|done|]. rewrite Hp. cbn [par]. apply parent_in_insert. by apply Hsub.
Qed.
(** ** Two neighbours of a level under the same node *)

Abbreviation key_of x := ((inner_head x).2).

Record paired (t : Tree) (c : PageId -> option bytes) (hs : list Head) (lvA : list InnerG) (aid : PageId) (ga : list Head) (bid : PageId) (gb : list Head) (lvB : list InnerG)
    (lv1 : list InnerG) (pid : PageId) (q1 q2 : list Head) (lv2 : list InnerG) (ups : list (list InnerG)) : Prop := {
  pr_concat : hs = concat (lvA ++ (aid, ga) :: (bid, gb) :: lvB).*2;
  pr_heads : Forall head_ok hs;
  pr_ids : Forall id_ok (lvA ++ (aid, ga) :: (bid, gb) :: lvB).*1;
  pr_nodup : NoDup (metadata_page_id_ t :: hs.*1 ++ (lvA ++ (aid, ga) :: (bid, gb) :: lvB).*1 ++
    up_ids ((lv1 ++ (pid, q1 ++ (aid, key_of (aid, ga)) :: (bid, key_of (bid, gb)) :: q2) :: lv2) :: ups));
  pr_rep : forall id g', (id, g') ∈ lvA ++ (aid, ga) :: (bid, gb) :: lvB ->
    nodes (config_ t) c id = Some (inner_node (par ((lv1 ++ (pid, q1 ++ (aid, key_of (aid, ga)) :: (bid, key_of (bid, gb)) :: q2) :: lv2) :: ups) id) g');
  pr_left : Forall (fun x => group_ok (config_ t) true x.2) lvA;
  pr_right : Forall (fun x => group_ok (config_ t) true x.2) lvB;
  pr_size : ga <> [] /\ gb <> [];
  pr_headsA : heads lvA = concat lv1.*2 ++ q1;
  pr_headsB : heads lvB = q2 ++ concat lv2.*2;
  pr_above : above (config_ t) c ((concat lv1.*2 ++ q1) ++ (aid, key_of (aid, ga)) :: (bid, key_of (bid, gb)) :: (q2 ++ concat lv2.*2))
    ((lv1 ++ (pid, q1 ++ (aid, key_of (aid, ga)) :: (bid, key_of (bid, gb)) :: q2) :: lv2) :: ups);
  pr_below : below (config_ t) c hs ((lvA ++ (aid, ga) :: (bid, gb) :: lvB) :: (lv1 ++ (pid, q1 ++ (aid, key_of (aid, ga)) :: (bid, key_of (bid, gb)) :: q2) :: lv2) :: ups);
  pr_meta : id_ok (metadata_page_id_ t) /\ is_Some (c (metadata_page_id_ t));
  pr_root : root_page_id_ t = root ((concat lv1.*2 ++ q1) ++ (aid, key_of (aid, ga)) :: (bid, key_of (bid, gb)) :: (q2 ++ concat lv2.*2))
    ((lv1 ++ (pid, q1 ++ (aid, key_of (aid, ga)) :: (bid, key_of (bid, gb)) :: q2) :: lv2) :: ups);
}.

(** The two neighbours rewritten to [ga'] and [gb'], some children moved to [target]. *)
Record rewritten (cfg : BPlusTreeConfig) (c c4 : PageId -> option bytes) (aid bid pid : PageId) (np : Node) (mv : list PageId) (target : PageId) : Prop := {
  rw_parent : nodes cfg c4 pid = Some np;
  rw_moved : forall x n, x ∈ mv -> nodes cfg c x = Some n -> nodes cfg c4 x = Some (set_parent_ target n);
  rw_frame : forall j, j ∉ aid :: bid :: pid :: mv -> c4 j = c j;
}.

Section pair.
Variables (t : Tree) (c c4 : PageId -> option bytes) (hs : list Head) (lvA : list InnerG) (aid : PageId) (ga : list Head) (bid : PageId) (gb : list Head) (lvB : list InnerG).
Variables (lv1 : list InnerG) (pid : PageId) (q1 q2 : list Head) (lv2 : list InnerG) (ups : list (list InnerG)) (mv : list PageId) (target : PageId) (np : Node).
Abbreviation ka := (key_of (aid, ga)).
Abbreviation kb := (key_of (bid, gb)).
Abbreviation lv := (lvA ++ (aid, ga) :: (bid, gb) :: lvB).
Abbreviation up := (lv1 ++ (pid, q1 ++ (aid, ka) :: (bid, kb) :: q2) :: lv2).
Abbreviation h1 := (concat lv1.*2 ++ q1).
Abbreviation h2 := (q2 ++ concat lv2.*2).
Hypothesis Hpr : paired t c hs lvA aid ga bid gb lvB lv1 pid q1 q2 lv2 ups.
Hypothesis Hrw : rewritten (config_ t) c c4 aid bid pid np mv target.
Hypothesis Hmv : forall x, x ∈ mv -> x ∈ hs.*1.

Lemma pair_ids x : x ∈ lv.*1 <-> x ∈ lvA.*1 \/ x = aid \/ x = bid \/ x ∈ lvB.*1.
Proof. rewrite !fmap_app, !elem_of_app. cbn. rewrite !elem_of_cons. tauto. Qed.

Lemma pair_pid : pid ∈ up_ids (up :: ups).
Proof. rewrite up_ids_cons, elem_of_app. left. rewrite fmap_app. apply elem_of_app. right. left. Qed.

(** The parts of the tree do not overlap. *)
Lemma pair_apart :
  (metadata_page_id_ t ∉ hs.*1) /\ (metadata_page_id_ t ∉ lv.*1) /\ (metadata_page_id_ t ∉ up_ids (up :: ups)) /\
  (forall x, x ∈ hs.*1 -> (x ∉ lv.*1) /\ (x ∉ up_ids (up :: ups))) /\ (forall x, x ∈ lv.*1 -> x ∉ up_ids (up :: ups)) /\
  (aid ∉ lvA.*1) /\ (aid ∉ lvB.*1) /\ (bid ∉ lvA.*1) /\ (bid ∉ lvB.*1) /\ aid <> bid /\ NoDup hs.*1 /\ NoDup lv.*1 /\ NoDup (lv.*1 ++ up_ids (up :: ups)).
Proof.
  pose proof (pr_nodup _ _ _ _ _ _ _ _ _ _ _ _ _ _ _ Hpr) as Hnd. apply list.NoDup_cons in Hnd as [Hm Hnd]. rewrite !not_elem_of_app in Hm. destruct Hm as (Hm1 & Hm2 & Hm3).
  apply list.NoDup_app in Hnd as (Hndh & Hd & Hnd). pose proof Hnd as (Hndl & Hdl & _)%list.NoDup_app.
  assert (forall x, x ∈ hs.*1 -> (x ∉ lv.*1) /\ (x ∉ up_ids (up :: ups))) as Hd' by (intros x Hx; specialize (Hd x Hx); by rewrite not_elem_of_app in Hd).
  pose proof Hndl as Hndl'. rewrite fmap_app in Hndl'. cbn in Hndl'. apply list.NoDup_app in Hndl' as (_ & Hx & Hndl'). apply list.NoDup_cons in Hndl' as [Ha Hndl']. apply list.NoDup_cons in Hndl' as [Hb _].
  rewrite not_elem_of_cons in Ha. destruct Ha as [Hab Ha].
  split_and!; try done.
  - intros Hy. apply (Hx aid Hy). left.
  - intros Hy. apply (Hx bid Hy). right. left.
Qed.

Lemma pair_same j : j ∈ lv.*1 ++ up_ids (up :: ups) -> j <> aid -> j <> bid -> j <> pid -> c4 j = c j.
Proof.
  destruct pair_apart as (_ & _ & _ & Hd & _). intros Hj H1 H2 H3. apply (rw_frame _ _ _ _ _ _ _ _ _ Hrw). rewrite !not_elem_of_cons. split_and!; try done.
  intros Hx%Hmv%Hd. rewrite elem_of_app in Hj. tauto.
Qed.

Lemma pair_up_same j : j ∈ up_ids (up :: ups) -> j <> pid -> c4 j = c j.
Proof.
  intros Hj Hp. destruct pair_apart as (_ & _ & _ & _ & Hd & _). apply pair_same; [apply elem_of_app; by right| | |done]; intros ->; (eapply Hd; [|exact Hj]); apply pair_ids; tauto.
Qed.

Lemma pair_meta : c4 (metadata_page_id_ t) = c (metadata_page_id_ t).
Proof.
  destruct pair_apart as (Hm1 & Hm2 & Hm3 & _). apply (rw_frame _ _ _ _ _ _ _ _ _ Hrw). rewrite !not_elem_of_cons. rewrite pair_ids in Hm2. split_and!; [tauto|tauto| |by intros ?%Hmv]. intros E. apply Hm3. rewrite E. apply pair_pid.
Qed.

Lemma pair_outside j : j ∉ hs.*1 ++ lv.*1 ++ up_ids (up :: ups) -> c4 j = c j.
Proof.
  rewrite !not_elem_of_app, pair_ids. intros (Hj1 & Hj2 & Hj3). apply (rw_frame _ _ _ _ _ _ _ _ _ Hrw). rewrite !not_elem_of_cons. split_and!; [tauto|tauto| |by intros ?%Hmv]. intros ->. apply Hj3, pair_pid.
Qed.

Lemma pair_child x : x ∈ hs.*1 -> x ∉ mv -> nodes (config_ t) c4 x = nodes (config_ t) c x.
Proof.
  destruct pair_apart as (_ & _ & _ & Hd & _). intros Hx Hn. destruct (Hd x Hx) as [H1 H2]. rewrite pair_ids in H1. apply nodes_ext, (rw_frame _ _ _ _ _ _ _ _ _ Hrw).
  rewrite !not_elem_of_cons. split_and!; try tauto. intros ->. apply H2, pair_pid.
Qed.

(** The heads of the level after the change. *)
Lemma pair_heads x y : heads (lvA ++ x :: y :: lvB) = h1 ++ inner_head x :: inner_head y :: h2.
Proof. rewrite fmap_app. cbn. by rewrite (pr_headsA _ _ _ _ _ _ _ _ _ _ _ _ _ _ _ Hpr), (pr_headsB _ _ _ _ _ _ _ _ _ _ _ _ _ _ _ Hpr). Qed.
Lemma pair_heads1 x : heads (lvA ++ x :: lvB) = h1 ++ inner_head x :: h2.
Proof. rewrite fmap_app. cbn. by rewrite (pr_headsA _ _ _ _ _ _ _ _ _ _ _ _ _ _ _ Hpr), (pr_headsB _ _ _ _ _ _ _ _ _ _ _ _ _ _ _ Hpr). Qed.

Lemma pair_par x : x = aid \/ x = bid -> parent_in up x = pid.
Proof.
  intros Hx. pose proof (pr_above _ _ _ _ _ _ _ _ _ _ _ _ _ _ _ Hpr) as [_ (Hcc & _) _ _ Hnd _]. apply list.NoDup_app in Hnd as (Hnd & _). rewrite Hcc in Hnd.
  apply (parent_in_elem _ (pid, q1 ++ (aid, ka) :: (bid, kb) :: q2) x Hnd); [apply elem_of_app; right; left|]. cbn. rewrite fmap_app, elem_of_app. right. cbn. rewrite !elem_of_cons. tauto.
Qed.

(** The other nodes of the level are not touched. *)
Lemma pair_other x g : (x, g) ∈ lvA \/ (x, g) ∈ lvB ->
  nodes (config_ t) c4 x = Some (inner_node (parent_in up x) g) /\ node_ok (config_ t) (inner_node (parent_in up x) g).
Proof.
  destruct pair_apart as (_ & _ & _ & _ & Hdl & Ha1 & Ha2 & Hb1 & Hb2 & _). intros Hin.
  assert ((x, g) ∈ lv) as Hin' by (destruct Hin; apply elem_of_app; [by left|right; by do 2 right]). assert (x ∈ lv.*1) as Hx' by (by apply (list_elem_of_fmap_2 fst lv (x, g))).
  assert (x ∈ lvA.*1 \/ x ∈ lvB.*1) as Hx by (destruct Hin; [left; by apply (list_elem_of_fmap_2 fst lvA (x, g))|right; by apply (list_elem_of_fmap_2 fst lvB (x, g))]).
  pose proof (pr_heads _ _ _ _ _ _ _ _ _ _ _ _ _ _ _ Hpr) as Hh. rewrite (pr_concat _ _ _ _ _ _ _ _ _ _ _ _ _ _ _ Hpr) in Hh. pose proof (level_head_ok _ _ Hh Hin') as Hgh.
  assert (group_ok (config_ t) true g) as Hg.
  { pose proof (pr_left _ _ _ _ _ _ _ _ _ _ _ _ _ _ _ Hpr) as HL. pose proof (pr_right _ _ _ _ _ _ _ _ _ _ _ _ _ _ _ Hpr) as HR. rewrite list.Forall_forall in HL, HR.
    destruct Hin as [Hin|Hin]; [by apply (HL _ Hin)|by apply (HR _ Hin)]. }
  split.
  - rewrite (nodes_ext _ c); [exact (pr_rep _ _ _ _ _ _ _ _ _ _ _ _ _ _ _ Hpr x g Hin')|].
    apply pair_same; [apply elem_of_app; by left|intros ->; tauto|intros ->; tauto|]. intros ->. apply (Hdl pid Hx'), pair_pid.
  - eapply group_node_ok; [exact Hg|done|]. apply (par_u64 (up :: ups)). exact (ab_ids _ _ _ _ (pr_above _ _ _ _ _ _ _ _ _ _ _ _ _ _ _ Hpr)).
Qed.

Lemma pair_pid_u64 : is_u64 pid.
Proof.
  pose proof (ab_ids _ _ _ _ (pr_above _ _ _ _ _ _ _ _ _ _ _ _ _ _ _ Hpr)) as Hi. rewrite list.Forall_forall in Hi. by destruct (Hi pid pair_pid).
Qed.

(** *** Children shared anew *)

Section shift.
Variables (ga' gb' : list Head).
Hypothesis Hcat : ga' ++ gb' = ga ++ gb.
Hypothesis Hga : group_ok (config_ t) true ga'.
Hypothesis Hgb : group_ok (config_ t) true gb'.
Hypothesis Hna : nodes (config_ t) c4 aid = Some (inner_node pid ga').
Hypothesis Hnb : nodes (config_ t) c4 bid = Some (inner_node pid gb').
Hypothesis Hnp : np = inner_node (par ups pid) (q1 ++ (aid, ka) :: (bid, key_of (bid, gb')) :: q2).
Hypothesis Htarget : target = aid /\ (forall x, x ∈ mv -> x ∈ ga'.*1) /\ (forall x, x ∈ gb.*1 -> x ∉ mv -> x ∈ gb'.*1) /\ (forall x, x ∈ ga.*1 -> x ∈ ga'.*1) \/
  target = bid /\ (forall x, x ∈ mv -> x ∈ gb'.*1) /\ (forall x, x ∈ ga.*1 -> x ∉ mv -> x ∈ ga'.*1) /\ (forall x, x ∈ gb.*1 -> x ∈ gb'.*1).
Abbreviation lvN := (lvA ++ (aid, ga') :: (bid, gb') :: lvB).
Abbreviation upN := (lv1 ++ (pid, q1 ++ (aid, ka) :: (bid, key_of (bid, gb')) :: q2) :: lv2).

Lemma shift_key : key_of (aid, ga') = ka.
Proof.
  destruct (pr_size _ _ _ _ _ _ _ _ _ _ _ _ _ _ _ Hpr) as [Hne _]. destruct Hga as [[Hl _] _]. destruct ga' as [|x ga'']; [cbn in Hl; lia|]. destruct ga as [|y ga0]; [done|].
  cbn in Hcat. by injection Hcat as -> _.
Qed.

Lemma shift_concat : concat lvN.*2 = concat lv.*2.
Proof. rewrite !concat_parts. cbn [fmap list_fmap concat snd]. rewrite !(app_assoc _ _ (concat lvB.*2)). by rewrite Hcat. Qed.

Lemma shift_above : above (config_ t) c4 (heads lvN) (upN :: ups).
Proof.
  assert (is_s64 (key_of (bid, gb'))) as Hk.
  { pose proof (pr_heads _ _ _ _ _ _ _ _ _ _ _ _ _ _ _ Hpr) as Hh. rewrite (pr_concat _ _ _ _ _ _ _ _ _ _ _ _ _ _ _ Hpr), <- shift_concat in Hh.
    apply level_head_ok with (x := (bid, gb')) in Hh; [|apply elem_of_app; right; right; left]. destruct Hgb as [[Hl _] _]. cbn in *. destruct gb' as [|x gb'']; [cbn in Hl; lia|]. by apply list.Forall_cons in Hh as [[_ ?] _]. }
  pose proof (pr_above _ _ _ _ _ _ _ _ _ _ _ _ _ _ _ Hpr) as Hab.
  assert (h1 ++ (aid, ka) :: (bid, kb) :: h2 = (concat lv1.*2 ++ (q1 ++ [(aid, ka)])) ++ (bid, kb) :: q2 ++ concat lv2.*2) as E by (by rewrite <- !app_assoc).
  assert (q1 ++ (aid, ka) :: (bid, kb) :: q2 = (q1 ++ [(aid, ka)]) ++ (bid, kb) :: q2) as E2 by (by rewrite <- app_assoc). rewrite E, E2 in Hab.
  destruct (above_assign _ _ _ _ _ _ _ _ _ _ _ Hab Hk) as [_ Hnew]; [by destruct q1|].
  assert (inner_head (aid, ga') = (aid, ka)) as E1 by (rewrite <- shift_key; done). rewrite pair_heads, E1.
  assert (h1 ++ (aid, ka) :: inner_head (bid, gb') :: h2 = concat lv1.*2 ++ (q1 ++ [(aid, ka)]) ++ (bid, key_of (bid, gb')) :: q2 ++ concat lv2.*2) as -> by (rewrite <- !app_assoc; done).
  assert (q1 ++ (aid, ka) :: (bid, key_of (bid, gb')) :: q2 = (q1 ++ [(aid, ka)]) ++ (bid, key_of (bid, gb')) :: q2) as E3 by (by rewrite <- app_assoc). rewrite E3 in *.
  apply Hnew; [rewrite (rw_parent _ _ _ _ _ _ _ _ _ Hrw); by rewrite Hnp|]. intros j Hj Hne. rewrite <- E2 in Hj. by apply pair_up_same.
Qed.

(** The nodes of the level know their parents. *)
Lemma shift_below : below (config_ t) c4 (heads lvN) (upN :: ups).
Proof.
  assert (forall x, parent_in upN x = parent_in up x) as Hpar by (intros x; apply parent_in_same; by rewrite !fmap_app).
  pose proof (pr_concat _ _ _ _ _ _ _ _ _ _ _ _ _ _ _ Hpr) as Hcc. pose proof (pr_heads _ _ _ _ _ _ _ _ _ _ _ _ _ _ _ Hpr) as Hh. rewrite Hcc, <- shift_concat in Hh.
  pose proof pair_pid_u64 as Hpu.
  intros x. rewrite inner_head_ids. intros Hx. cbn [par]. rewrite Hpar. destruct (decide (x = aid)) as [->|Hna'].
  { eexists. split_and!; [exact Hna| |by rewrite pair_par by (by left)]. eapply group_node_ok; [exact Hga| |done]. apply (level_head_ok _ (aid, ga') Hh). apply elem_of_app. right. left. }
  destruct (decide (x = bid)) as [->|Hnb'].
  { eexists. split_and!; [exact Hnb| |by rewrite pair_par by (by right)]. eapply group_node_ok; [exact Hgb| |done]. apply (level_head_ok _ (bid, gb') Hh). apply elem_of_app. right. right. left. }
  apply list_elem_of_fmap in Hx as ([x' g] & -> & Hin). cbn in *. exists (inner_node (parent_in up x') g).
  destruct (pair_other x' g) as [Hn Hnok]; [|by split_and!]. apply elem_of_app in Hin as [Hin|[[= -> ->]|[[= -> ->]|Hin]%elem_of_cons]%elem_of_cons]; tauto.
Qed.

Lemma shift_children x n : x ∈ hs.*1 -> nodes (config_ t) c x = Some n -> nodes (config_ t) c4 x = Some (set_parent_ (parent_in lvN x) n).
Proof.
  pose proof (pr_concat _ _ _ _ _ _ _ _ _ _ _ _ _ _ _ Hpr) as Hcc. destruct pair_apart as (_ & _ & _ & _ & _ & _ & _ & _ & _ & _ & Hndh & Hndl & _).
  pose proof (pr_below _ _ _ _ _ _ _ _ _ _ _ _ _ _ _ Hpr) as Hbel. pose proof pair_child as Hch. rewrite Hcc in *. apply (children_moved _ c c4 lv lvN (up :: ups) mv target); [done|done|exact shift_concat|..].
  - intros y Hy. destruct Htarget as [(-> & Ht & _)|(-> & Ht & _)]; eexists; (split; [|by apply Ht]); apply elem_of_app; right; [left|right; left].
  - intros i g y Hin Hy Hn. apply elem_of_app in Hin as [Hin|[[= -> ->]|[[= -> ->]|Hin]%elem_of_cons]%elem_of_cons].
    + exists g. split; [apply elem_of_app; by left|done].
    + exists ga'. split; [apply elem_of_app; right; left|]. destruct Htarget as [(_ & _ & _ & Ht)|(_ & _ & Ht & _)]; by apply Ht.
    + exists gb'. split; [apply elem_of_app; right; right; left|]. destruct Htarget as [(_ & _ & Ht & _)|(_ & _ & _ & Ht)]; by apply Ht.
    + exists g. split; [apply elem_of_app; right; by do 2 right|done].
  - apply (rw_moved _ _ _ _ _ _ _ _ _ Hrw).
  - done.
Qed.

Lemma shift_shrunk : shrunk t t c c4 hs (lv.*1 ++ up_ids (up :: ups)) (lvN :: upN :: ups).
Proof.
  pose proof pair_apart as (Hm1 & Hm2 & Hm3 & Hd & Hdl & Ha1 & Ha2 & Hb1 & Hb2 & Hab & Hndh & Hndl & Hndu).
  assert (up_ids (upN :: ups) = up_ids (up :: ups)) as Eu by (by rewrite !up_ids_cons, !fmap_app). assert (lvN.*1 = lv.*1) as El by (by rewrite !fmap_app).
  pose proof (pr_concat _ _ _ _ _ _ _ _ _ _ _ _ _ _ _ Hpr) as Hcc.
  apply (shrunk_down t t c c4 c4 hs lvN _ (up_ids (up :: ups))).
  - apply shrunk_same; [exact shift_above| |exact shift_below|by rewrite Eu|done|done|by rewrite inner_head_ids, El, not_elem_of_app].
    rewrite (pr_root _ _ _ _ _ _ _ _ _ _ _ _ _ _ _ Hpr). cbn [root]. f_equal. rewrite !fmap_app. cbn. by destruct q1.
  - by rewrite shift_concat, Hcc.
  - assert (many lvN = true) as -> by (apply many_true; rewrite length_app; cbn; lia). apply Forall_app_2; [apply (pr_left _ _ _ _ _ _ _ _ _ _ _ _ _ _ _ Hpr)|].
    do 2 (apply list.Forall_cons; split; [done|]). apply (pr_right _ _ _ _ _ _ _ _ _ _ _ _ _ _ _ Hpr).
  - apply (pr_heads _ _ _ _ _ _ _ _ _ _ _ _ _ _ _ Hpr).
  - rewrite El. apply (pr_ids _ _ _ _ _ _ _ _ _ _ _ _ _ _ _ Hpr).
  - rewrite El. apply (pr_nodup _ _ _ _ _ _ _ _ _ _ _ _ _ _ _ Hpr).
  - intros id g Hin. destruct (decide (id = aid)) as [->|Hna']; [rewrite (same_group lvN aid g ga'); [by eexists|by rewrite El|done|apply elem_of_app; right; left]|].
    destruct (decide (id = bid)) as [->|Hnb']; [rewrite (same_group lvN bid g gb'); [by eexists|by rewrite El|done|apply elem_of_app; right; right; left]|].
    eexists. apply (pair_other id g). apply elem_of_app in Hin as [Hin|[[= -> ->]|[[= -> ->]|Hin]%elem_of_cons]%elem_of_cons]; tauto.
  - exact shift_children.
  - exact pair_outside.
  - by rewrite El.
  - by rewrite not_elem_of_app.
Qed.
End shift.

(** *** One node for both *)

Section merge.
Hypothesis Hgab : group_ok (config_ t) true (ga ++ gb).
Hypothesis Hna : nodes (config_ t) c4 aid = Some (inner_node pid (ga ++ gb)).
Hypothesis Hnp : np = inner_node (par ups pid) (q1 ++ (aid, ka) :: q2).
Hypothesis Hmoved : mv = gb.*1 /\ target = aid.
Abbreviation lvM := (lvA ++ (aid, ga ++ gb) :: lvB).

Lemma merge_heads : heads lvM = h1 ++ (aid, ka) :: h2.
Proof. rewrite pair_heads1. destruct (pr_size _ _ _ _ _ _ _ _ _ _ _ _ _ _ _ Hpr) as [Hne _]. by destruct ga. Qed.

Lemma merge_concat : concat lvM.*2 = concat lv.*2.
Proof. rewrite !concat_parts. cbn [fmap list_fmap concat snd]. by rewrite <- app_assoc. Qed.

Lemma merge_node x g : (x, g) ∈ lvM ->
  nodes (config_ t) c4 x = Some (inner_node (parent_in up x) g) /\ node_ok (config_ t) (inner_node (parent_in up x) g).
Proof.
  intros [Hin|[[= -> ->]|Hin]%elem_of_cons]%elem_of_app; [by apply pair_other; left| |by apply pair_other; right]. rewrite pair_par by (by left). split; [done|].
  eapply group_node_ok; [exact Hgab| |exact pair_pid_u64]. pose proof (pr_heads _ _ _ _ _ _ _ _ _ _ _ _ _ _ _ Hpr) as Hh.
  rewrite (pr_concat _ _ _ _ _ _ _ _ _ _ _ _ _ _ _ Hpr), <- merge_concat in Hh. apply (level_head_ok _ (aid, ga ++ gb) Hh). apply elem_of_app. right. left.
Qed.

Lemma merge_sagging : sagging t c4 (heads lvM) lv1 pid (q1 ++ (aid, ka) :: q2) lv2 ups.
Proof.
  pose proof pair_apart as (Hm1 & Hm2 & Hm3 & _). destruct (pr_meta _ _ _ _ _ _ _ _ _ _ _ _ _ _ _ Hpr) as [Hmi Hmc]. pose proof merge_heads as Hmh.
  pose proof (pr_above _ _ _ _ _ _ _ _ _ _ _ _ _ _ _ Hpr) as Hab. rewrite Hmh. apply (above_delete t c c4 _ _ _ _ _ bid kb); [exact Hab| | |done|by rewrite pair_meta|apply Hpr| |exact pair_up_same].
  - rewrite <- Hmh. intros x. rewrite inner_head_ids. intros ([x' g] & -> & Hin)%list_elem_of_fmap. destruct (merge_node x' g Hin) as [Hn Hok]. by eexists.
  - rewrite not_elem_of_app. split; [|done]. intros Hx. apply Hm2. rewrite <- inner_head_ids, pair_heads. done.
  - by rewrite (rw_parent _ _ _ _ _ _ _ _ _ Hrw), Hnp.
Qed.

Lemma merge_down t' c5 ups5 :
  shrunk t t' c4 c5 (heads lvM) (up_ids (up :: ups)) ups5 -> shrunk t t' c c5 hs (lv.*1 ++ up_ids (up :: ups)) (lvM :: ups5).
Proof.
  pose proof pair_apart as (Hm1 & Hm2 & Hm3 & Hd & Hdl & Ha1 & Ha2 & Hb1 & Hb2 & Hab & Hndh & Hndl & Hndu). pose proof (pr_concat _ _ _ _ _ _ _ _ _ _ _ _ _ _ _ Hpr) as Hcc. destruct Hmoved as [Emv Etg].
  assert (forall j, j ∈ lvM.*1 -> j ∈ lv.*1) as Hsub by (intros j; rewrite pair_ids, fmap_app, elem_of_app; cbn; rewrite elem_of_cons; tauto).
  intros Hsk. apply (shrunk_down t t' c c4 c5 hs lvM _ (up_ids (up :: ups)) ups5 Hsk).
  - by rewrite merge_concat, Hcc.
  - assert (forall g, group_ok (config_ t) true g -> group_ok (config_ t) (many lvM) g) as Hw by (intros g [? Hg]; split; [done|by intros _; apply Hg]).
    apply Forall_app_2; [|apply list.Forall_cons; split; [by apply Hw|]]; (eapply list.Forall_impl; [apply Hpr|]); intros; by apply Hw.
  - apply (pr_heads _ _ _ _ _ _ _ _ _ _ _ _ _ _ _ Hpr).
  - pose proof (pr_ids _ _ _ _ _ _ _ _ _ _ _ _ _ _ _ Hpr) as Hi. rewrite list.Forall_forall in *. intros x Hx. by apply Hi, Hsub.
  - pose proof (pr_nodup _ _ _ _ _ _ _ _ _ _ _ _ _ _ _ Hpr) as Hnd. apply list.NoDup_cons in Hnd as [Hm Hnd]. apply list.NoDup_cons. split; [rewrite !not_elem_of_app in *; split_and!; try tauto; by intros ?%Hsub|].
    apply list.NoDup_app in Hnd as (_ & Hx & _). apply list.NoDup_app. split_and!; [done|intros x Hx'; specialize (Hx x Hx'); rewrite !not_elem_of_app in *; split; [intros ?%Hsub|]; tauto|].
    apply list.NoDup_app in Hndu as (Hnd1 & Hnd2 & Hnd3). apply list.NoDup_app. split_and!; [|intros x Hx'; by apply Hnd2, Hsub|done].
    rewrite fmap_app in *. cbn in *. apply list.NoDup_app in Hnd1 as (Hn1 & Hn2 & Hn3). apply list.NoDup_cons in Hn3 as [Hn3 Hn4]. apply list.NoDup_cons in Hn4 as [_ Hn4].
    apply list.NoDup_app. split_and!; [done| |by apply list.NoDup_cons]. intros x Hx'. specialize (Hn2 x Hx'). rewrite !not_elem_of_cons in *. tauto.
  - intros id g Hin. destruct (merge_node id g Hin) as [Hn _]. by eexists.
  - pose proof (pr_below _ _ _ _ _ _ _ _ _ _ _ _ _ _ _ Hpr) as Hbel. pose proof pair_child as Hch. rewrite Hcc in *. intros x n.
    apply (children_moved _ c c4 lv lvM (up :: ups) mv target); [done|done|exact merge_concat|..].
    + rewrite Emv, Etg. intros y Hy. exists (ga ++ gb). split; [apply elem_of_app; right; left|]. rewrite fmap_app. apply elem_of_app. by right.
    + intros i g y Hin Hy Hn. apply elem_of_app in Hin as [Hin|[[= -> ->]|[[= -> ->]|Hin]%elem_of_cons]%elem_of_cons].
      * exists g. split; [apply elem_of_app; by left|done].
      * exists (ga ++ gb). split; [apply elem_of_app; right; left|]. rewrite fmap_app. apply elem_of_app. by left.
      * rewrite Emv in Hn. done.
      * exists g. split; [apply elem_of_app; right; by right|done].
    + apply (rw_moved _ _ _ _ _ _ _ _ _ Hrw).
    + done.
  - exact pair_outside.
  - intros j. rewrite !elem_of_app. intros [?%Hsub|?]; tauto.
  - by rewrite not_elem_of_app.
Qed.

End merge.

End pair.
(** ** Repairing a level *)

Lemma sagging_paired t c hs lv1 pid g lv2 lvA aid ga bid gb lvB u1 ppid q1 q2 u2 ups :
  sagging t c hs lv1 pid g lv2 ((u1 ++ (ppid, q1 ++ (aid, key_of (aid, ga)) :: (bid, key_of (bid, gb)) :: q2) :: u2) :: ups) ->
  lv1 ++ (pid, g) :: lv2 = lvA ++ (aid, ga) :: (bid, gb) :: lvB -> (forall x, x ∈ lvA \/ x ∈ lvB -> x ∈ lv1 \/ x ∈ lv2) -> ga <> [] -> gb <> [] ->
  heads lvA = concat u1.*2 ++ q1 -> heads lvB = q2 ++ concat u2.*2 ->
  paired t c hs lvA aid ga bid gb lvB u1 ppid q1 q2 u2 ups.
Proof.
  intros [Hcc Hh Hi Hnd Hrep HL HR Hs Hmany Hab Hbel Hm Hr] E Hsub Hga Hgb HA HB. rewrite E in *.
  assert (many (lvA ++ (aid, ga) :: (bid, gb) :: lvB) = true) as Hmt by (apply many_true; rewrite length_app; cbn; lia). rewrite Hmt in *.
  assert (heads (lvA ++ (aid, ga) :: (bid, gb) :: lvB) = (concat u1.*2 ++ q1) ++ (aid, key_of (aid, ga)) :: (bid, key_of (bid, gb)) :: (q2 ++ concat u2.*2)) as Ehd by (rewrite fmap_app; cbn [fmap list_fmap]; by rewrite HA, HB).
  rewrite Ehd in *. rewrite up_ids_cons in Hnd. rewrite list.Forall_forall in HL, HR. split; try done; apply list.Forall_forall; intros x Hx; (destruct (Hsub x); [tauto|by apply HL|by apply HR]).
Qed.

(** The level needs no repair. *)
Lemma sagging_level t c c' hs lv1 pid g lv2 ups :
  sagging t c hs lv1 pid g lv2 ups -> group_ok (config_ t) (many (lv1 ++ (pid, g) :: lv2)) g ->
  nodes (config_ t) c' pid = nodes (config_ t) c pid -> (forall j, j <> pid -> c' j = c j) ->
  shrunk t t c c' hs ((lv1 ++ (pid, g) :: lv2).*1 ++ up_ids ups) ((lv1 ++ (pid, g) :: lv2) :: ups).
Proof.
  intros [Hcc Hh Hi Hnd Hrep HL HR Hs Hmany Hab Hbel Hm Hr] Hg Hp Hc. rewrite up_ids_cons in Hnd. pose proof Hnd as [Hmn Hnd']%list.NoDup_cons. pose proof Hnd' as (_ & Hd & Hnd2)%list.NoDup_app.
  pose proof Hnd2 as (_ & Hdl & _)%list.NoDup_app.
  assert (forall j, nodes (config_ t) c' j = nodes (config_ t) c j) as Hn. { intros j. destruct (decide (j = pid)) as [->|Hne]; [done|]. by apply nodes_ext, Hc. }
  assert (pid ∈ (lv1 ++ (pid, g) :: lv2).*1) as Hpin by (rewrite fmap_app; apply elem_of_app; right; left).
  apply shrunk_same; try done.
  - rewrite Hcc. apply above_cons; try done.
    + eapply above_ext; [|exact Hab]. intros j Hj. apply Hc. intros ->. by apply (Hdl pid).
    + intros id g' Hin. rewrite Hn. by apply Hrep.
    + apply Forall_app_2; [done|]. by apply list.Forall_cons.
    + by rewrite <- Hcc.
    + by rewrite <- Hcc.
  - intros j Hj. apply Hc. intros ->. rewrite !not_elem_of_app in Hj. tauto.
Qed.

(** Four nodes written, and a loop followed by two. *)
Lemma four_writes cfg c m nm x nx y ny p np :
  config_ok cfg = true -> node_ok cfg nm -> node_ok cfg nx -> node_ok cfg ny -> node_ok cfg np -> NoDup [m; x; y; p] ->
  nodes cfg (put (put (put (put c m (node_bytes nm)) x (node_bytes nx)) y (node_bytes ny)) p (node_bytes np)) m = Some nm /\
  nodes cfg (put (put (put (put c m (node_bytes nm)) x (node_bytes nx)) y (node_bytes ny)) p (node_bytes np)) x = Some nx /\
  nodes cfg (put (put (put (put c m (node_bytes nm)) x (node_bytes nx)) y (node_bytes ny)) p (node_bytes np)) y = Some ny /\
  nodes cfg (put (put (put (put c m (node_bytes nm)) x (node_bytes nx)) y (node_bytes ny)) p (node_bytes np)) p = Some np /\
  forall j, j ∉ [m; x; y; p] -> put (put (put (put c m (node_bytes nm)) x (node_bytes nx)) y (node_bytes ny)) p (node_bytes np) j = c j.
Proof.
  intros Hc H1 H2 H3 H4 Hnd. repeat (apply list.NoDup_cons in Hnd as [? Hnd]). rewrite !not_elem_of_cons in *. rewrite !nodes_put by done.
  split_and!; try (intros j Hj; rewrite !not_elem_of_cons in Hj; unfold put; by rewrite !decide_False by tauto); repeat first [rewrite decide_True by done|rewrite decide_False by naive_solver]; done.
Qed.

Lemma paired_children t c hs lvA aid ga bid gb lvB u1 ppid q1 q2 u2 ups x :
  paired t c hs lvA aid ga bid gb lvB u1 ppid q1 q2 u2 ups -> x ∈ ga.*1 \/ x ∈ gb.*1 -> x ∈ hs.*1.
Proof.
  intros Hpr. rewrite (pr_concat _ _ _ _ _ _ _ _ _ _ _ _ _ _ _ Hpr), concat_parts, !fmap_app, !elem_of_app. cbn [fmap list_fmap concat snd]. rewrite fmap_app, elem_of_app. tauto.
Qed.

Lemma paired_distinct t c hs lvA aid ga bid gb lvB u1 ppid q1 q2 u2 ups x :
  paired t c hs lvA aid ga bid gb lvB u1 ppid q1 q2 u2 ups -> x ∈ hs.*1 -> NoDup [x; aid; bid; ppid].
Proof.
  intros Hpr Hx. pose proof (pair_apart _ _ _ _ _ _ _ _ _ _ _ _ _ _ _ Hpr) as (_ & _ & _ & Hd & Hdl & _ & _ & _ & _ & Hab & _). destruct (Hd x Hx) as [Hx1 Hx2]. rewrite pair_ids in Hx1.
  pose proof (pair_pid aid ga bid gb u1 ppid q1 q2 u2 ups) as Hp. pose proof (Hdl aid) as Ha. pose proof (Hdl bid) as Hb. rewrite pair_ids in Ha, Hb.
  assert (aid <> ppid /\ bid <> ppid /\ x <> ppid) as (H1 & H2 & H3) by (split_and!; intros ->; tauto).
  repeat (apply list.NoDup_cons; split; [rewrite !not_elem_of_cons; split_and!; try done; try tauto; by apply not_elem_of_nil|]). by apply list.NoDup_singleton.
Qed.

Record pair_view (t : Tree) (c : PageId -> option bytes) (aid : PageId) (ga : list Head) (bid : PageId) (gb : list Head) (pid : PageId) (q1 q2 : list Head) (p : PageId) : Prop := {
  pv_config : config_ok (config_ t) = true;
  pv_ids : id_ok aid /\ id_ok bid /\ id_ok pid;
  pv_a : nodes (config_ t) c aid = Some (inner_node pid ga);
  pv_b : nodes (config_ t) c bid = Some (inner_node pid gb);
  pv_p : nodes (config_ t) c pid = Some (inner_node p (q1 ++ (aid, key_of (aid, ga)) :: (bid, key_of (bid, gb)) :: q2));
  pv_par : is_u64 p;
  pv_heads : Forall head_ok ga /\ Forall head_ok gb;
  pv_pheads : Forall head_ok (q1 ++ (aid, key_of (aid, ga)) :: (bid, key_of (bid, gb)) :: q2);
  pv_psize : 2 <= zlen (q1 ++ (aid, key_of (aid, ga)) :: (bid, key_of (bid, gb)) :: q2) <= internal_max_keys (config_ t) + 1;
  pv_first : (aid ∉ q1.*1) /\ (bid ∉ (q1 ++ [(aid, key_of (aid, ga))]).*1);
}.

Lemma paired_view t c hs lvA aid ga bid gb lvB u1 pid q1 q2 u2 ups :
  paired t c hs lvA aid ga bid gb lvB u1 pid q1 q2 u2 ups -> pair_view t c aid ga bid gb pid q1 q2 (par ups pid).
Proof.
  intros Hpr. pose proof Hpr as [Hcc Hh Hi Hnd Hrep _ _ _ _ _ Hab _ _ _]. pose proof Hab as [Hcfg (Hcc' & Hg & _) Hh' Hi' Hnd' [Hrep' _]]. rewrite up_ids_cons in Hi'. apply Forall_app in Hi' as [Hil' Hiu].
  set (P := q1 ++ (aid, key_of (aid, ga)) :: (bid, key_of (bid, gb)) :: q2) in *.
  assert ((pid, P) ∈ u1 ++ (pid, P) :: u2) as HP by (apply elem_of_app; right; left).
  assert ((aid, ga) ∈ lvA ++ (aid, ga) :: (bid, gb) :: lvB) as HA by (apply elem_of_app; right; left).
  assert ((bid, gb) ∈ lvA ++ (aid, ga) :: (bid, gb) :: lvB) as HB by (apply elem_of_app; right; right; left).
  pose proof (proj1 (list.Forall_forall _ _) Hg _ HP) as HgP. rewrite list.Forall_forall in Hi, Hil'. rewrite Hcc in Hh. split; try done.
  - split_and!; [apply Hi; by apply (list_elem_of_fmap_2 fst _ (aid, ga))|apply Hi; by apply (list_elem_of_fmap_2 fst _ (bid, gb))|apply Hil'; by apply (list_elem_of_fmap_2 fst _ (pid, P))].
  - rewrite (Hrep _ _ HA). cbn [par]. by rewrite (pair_par _ _ _ _ _ _ _ _ _ _ _ _ _ _ _ Hpr) by (by left).
  - rewrite (Hrep _ _ HB). cbn [par]. by rewrite (pair_par _ _ _ _ _ _ _ _ _ _ _ _ _ _ _ Hpr) by (by right).
  - exact (Hrep' _ _ HP).
  - by apply par_u64.
  - split; [exact (level_head_ok _ _ Hh HA)|exact (level_head_ok _ _ Hh HB)].
  - rewrite Hcc' in Hh'. exact (level_head_ok _ _ Hh' HP).
  - apply HgP.
  - apply list.NoDup_app in Hnd' as (Hnd' & _). rewrite Hcc', concat_parts in Hnd'. rewrite !fmap_app in Hnd'. apply list.NoDup_app in Hnd' as (_ & _ & Hnd'). apply list.NoDup_app in Hnd' as (Hnd' & _).
    unfold P in Hnd'. cbn [snd] in Hnd'. rewrite fmap_app in Hnd'. cbn in Hnd'. apply list.NoDup_app in Hnd' as (_ & Hx & Hnd'). apply list.NoDup_cons in Hnd' as [Ha _]. rewrite not_elem_of_cons in Ha.
    split; [intros Hy; apply (Hx aid Hy); left|]. rewrite fmap_app, elem_of_app. intros [Hy|Hy]; [apply (Hx bid Hy); right; left|]. cbn in Hy. rewrite list_elem_of_singleton in Hy. naive_solver.
Qed.

Section rebalance.
Context {W : Type} `{PageAccessLaws W} (L : Prop) (held : PageId -> Z).
Implicit Types (w : W) (t : Tree) (c : PageId -> option bytes).
Abbreviation store := (store L held).

(** The root of the tree. *)
Lemma rebalance_root_spec t c f hs lv1 pid g lv2 fuel w :
  sagging t c hs lv1 pid g lv2 [] -> store w c f ->
  wpo L (rebalance_internal (S fuel) pid) (t, w) (fun _ s => exists t' w' c' ups', s = (t', w') /\ store w' c' f /\
    shrunk t t' c c' hs ((lv1 ++ (pid, g) :: lv2).*1 ++ up_ids []) ups' /\ (length ups' <= 1)%nat).
Proof.
  intros Hsg Hst. pose proof Hsg as [Hcc Hh Hi Hnd Hrep HL HR Hs Hmany Hab Hbel [Hm Hmc] Hr]. pose proof (ab_tower _ _ _ _ Hab) as Ht. cbn in Ht. rewrite length_fmap, length_app in Ht. cbn in Ht.
  destruct lv1; [|cbn in Ht; lia]. destruct lv2; [|cbn in Ht; lia]. cbn in Hr, Hi. apply list.Forall_cons in Hi as [Hid _]. cbn in Hid.
  pose proof (ab_config _ _ _ _ Hab) as Hcfg. assert (nodes (config_ t) c pid = Some (inner_node kInvalidValue g)) as Hn by (apply Hrep; left).
  cbn [rebalance_internal]. apply wpo_bind, wpo_run. wpl_use read_node_spec; [exact Hst|exact Hid|exact Hn|]. intros n ? (-> & w1 & -> & Hst1). unfold this. apply wpo_bind, wpo_run. wpl_step. cbn [fst].
  rewrite decide_True by done. cbn [inner_node keys children]. cbn in Hcc. rewrite app_nil_r in Hcc. subst g. destruct hs as [|h [|h' hs]]; [cbn in Hs; lia| |].
  - cbn [seps fmap list_fmap tail head]. rewrite decide_True by done. apply wpo_bind. eapply wpo_opt; [done|]. apply list.Forall_singleton in Hh as [Hhid Hhk].
    destruct (Hbel h.1) as (n & Hnh & Hnok & Hp); [left|]. cbn in Hnd. apply list.NoDup_cons in Hnd as [Hmn Hnd]. rewrite !not_elem_of_cons in Hmn.
    apply wpo_bind, wpo_run. wpl_use set_parent_spec; [exact Hst1|exact Hhid|exact Hnh|done|by apply set_parent_ok|]. intros [] ? (w2 & -> & Hst2).
    unfold upd. apply wpo_bind, wpo_run. wpl_step. cbn [fst snd]. apply wpo_run.
    wpl_use tree_metadata_spec; [exact Hst2|exact Hm|cbn; unfold put; rewrite decide_False by naive_solver; done|done|apply Hhid|]. intros [] ? (w3 & -> & Hst3).
    eexists _, w3, _, []. split_and!; [done|exact Hst3| |cbn; lia].
    assert (forall j, nodes (config_ t) (put (put c h.1 (node_bytes (set_parent_ kInvalidValue n))) (metadata_page_id_ t) (meta_bytes h.1 (config_ t))) j =
      if decide (j = metadata_page_id_ t) then nodes (config_ t) (fun _ => Some (meta_bytes h.1 (config_ t))) j else nodes (config_ t) (put c h.1 (node_bytes (set_parent_ kInvalidValue n))) j) as Hnodes.
    { intros j. unfold nodes, put. by destruct (decide (j = metadata_page_id_ t)). }
    split; cbn [set_root metadata_page_id_ root_page_id_ config_]; try done.
    + split; try done; [by apply list.Forall_singleton|by apply list.NoDup_singleton].
    + left. unfold put. by rewrite decide_True.
    + intros x n' Hx Hnx. cbn in Hx. apply list_elem_of_singleton in Hx as ->. rewrite Hnodes, decide_False by naive_solver. rewrite nodes_put, decide_True by (done || by apply set_parent_ok). cbn [par]. congruence.
    + intros j Hj. cbn in Hj. rewrite !not_elem_of_cons in Hj. unfold put. rewrite !decide_False by naive_solver. done.
    + intros j ?%not_elem_of_nil. done.
  - rewrite decide_False by done. apply wpo_run. assert (node_ok (config_ t) (inner_node kInvalidValue (h :: h' :: hs))) as Hok by (by apply inner_node_ok).
    wpl_use write_node_spec; [exact Hst1|exact Hid|by eapply node_page|done|exact Hok|]. intros [] ? (w2 & -> & Hst2). eexists t, w2, _, _. split_and!; [done|exact Hst2| |].
    + eapply sagging_level; [exact Hsg| | |].
      * split; [|done]. cbn [length] in *. lia.
      * by rewrite nodes_put, decide_True by done.
      * intros j Hj. unfold put. by rewrite decide_False.
    + done.
Qed.
(** *** A node with too few children and its neighbour on the left *)

Definition repaired t c hs (old : list PageId) (n : nat) (f : Z) (s : Tree * W) : Prop :=
  exists t' w' c' ups', s = (t', w') /\ store w' c' f /\ shrunk t t' c c' hs old ups' /\ (length ups' <= n)%nat.

Section case.
Variables (t : Tree) (c : PageId -> option bytes) (f : Z) (hs : list Head) (lvA : list InnerG) (aid : PageId) (ga : list Head) (bid : PageId) (gb : list Head) (lvB : list InnerG).
Variables (u1 : list InnerG) (pid : PageId) (q1 q2 : list Head) (u2 : list InnerG) (ups : list (list InnerG)).
Abbreviation ka := (key_of (aid, ga)).
Abbreviation kb := (key_of (bid, gb)).
Abbreviation P := (q1 ++ (aid, ka) :: (bid, kb) :: q2).
Abbreviation lv := (lvA ++ (aid, ga) :: (bid, gb) :: lvB).
Abbreviation up := (u1 ++ (pid, P) :: u2).
Abbreviation old := (lv.*1 ++ up_ids (up :: ups)).
Hypothesis Hpr : paired t c hs lvA aid ga bid gb lvB u1 pid q1 q2 u2 ups.

(** One child moved. *)
Lemma case_shift w4 c4 m nm ga' gb' target :
  m ∈ hs.*1 -> nodes (config_ t) c m = Some nm -> ga' ++ gb' = ga ++ gb -> group_ok (config_ t) true ga' -> group_ok (config_ t) true gb' ->
  nodes (config_ t) c4 m = Some (set_parent_ target nm) -> nodes (config_ t) c4 aid = Some (inner_node pid ga') -> nodes (config_ t) c4 bid = Some (inner_node pid gb') ->
  nodes (config_ t) c4 pid = Some (inner_node (par ups pid) (q1 ++ (aid, ka) :: (bid, key_of (bid, gb')) :: q2)) ->
  (forall j, j ∉ [m; aid; bid; pid] -> c4 j = c j) ->
  target = aid /\ m ∈ ga'.*1 /\ (forall x, x ∈ gb.*1 -> x <> m -> x ∈ gb'.*1) /\ (forall x, x ∈ ga.*1 -> x ∈ ga'.*1) \/
  target = bid /\ m ∈ gb'.*1 /\ (forall x, x ∈ ga.*1 -> x <> m -> x ∈ ga'.*1) /\ (forall x, x ∈ gb.*1 -> x ∈ gb'.*1) ->
  store w4 c4 f -> repaired t c hs old (S (S (length ups))) f (t, w4).
Proof.
  intros Hm Hnm Hcat Hga Hgb H1 H2 H3 H4 Hfr Htg Hst. eexists t, w4, c4, _. split_and!; [done|exact Hst| |].
  - eapply (shift_shrunk t c c4 hs lvA aid ga bid gb lvB u1 pid q1 q2 u2 ups [m] target); [exact Hpr| |by intros x ->%list_elem_of_singleton|exact Hcat|exact Hga|exact Hgb|exact H2|exact H3|reflexivity|].
    + split; [exact H4| |].
      * intros x n ->%list_elem_of_singleton Hn. rewrite Hnm in Hn. by injection Hn as <-.
      * intros j Hj. apply Hfr. rewrite !not_elem_of_cons in *. tauto.
    + destruct Htg as [(-> & T1 & T2 & T3)|(-> & T1 & T2 & T3)]; [left|right]; (split; [done|]); (split; [by intros x ->%list_elem_of_singleton|]); (split; [|done]); intros x Hx Hn; apply T2; [done|set_solver|done|set_solver].
  - done.
Qed.

(** Both in one node. *)
Lemma case_merge w4 c4 fuel :
  group_ok (config_ t) true (ga ++ gb) -> nodes (config_ t) c4 aid = Some (inner_node pid (ga ++ gb)) ->
  nodes (config_ t) c4 pid = Some (inner_node (par ups pid) (q1 ++ (aid, ka) :: q2)) ->
  (forall x n, x ∈ gb.*1 -> nodes (config_ t) c x = Some n -> nodes (config_ t) c4 x = Some (set_parent_ aid n)) ->
  (forall j, j ∉ aid :: pid :: gb.*1 -> c4 j = c j) -> store w4 c4 f ->
  (forall c' w' hs' g', sagging t c' hs' u1 pid g' u2 ups -> store w' c' f ->
    wpo L (rebalance_internal fuel pid) (t, w') (fun _ => repaired t c' hs' ((u1 ++ (pid, g') :: u2).*1 ++ up_ids ups) (S (length ups)) f)) ->
  wpo L (rebalance_internal fuel pid) (t, w4) (fun _ => repaired t c hs old (S (S (length ups))) f).
Proof.
  intros Hg H1 H2 H3 Hfr Hst IH.
  assert (rewritten (config_ t) c c4 aid bid pid (inner_node (par ups pid) (q1 ++ (aid, ka) :: q2)) gb.*1 aid) as Hrw.
  { split; [done|done|]. intros j Hj. apply Hfr. rewrite !not_elem_of_cons in *. tauto. }
  assert (forall x, x ∈ gb.*1 -> x ∈ hs.*1) as Hmv by (intros x Hx; eapply paired_children; [exact Hpr|by right]).
  wpo_use IH; [exact (merge_sagging _ _ _ _ _ _ _ _ _ _ _ _ _ _ _ _ _ _ _ Hpr Hrw Hmv Hg H1 eq_refl)|exact Hst|].
  intros [] ? (t' & w5 & c5 & ups5 & -> & Hst5 & Hsk & Hl). eexists t', w5, c5, _. split_and!; [done|exact Hst5| |].
  - eapply (merge_down t c c4 hs lvA aid ga bid gb lvB u1 pid q1 q2 u2 ups gb.*1 aid); [exact Hpr|exact Hrw|exact Hmv|exact Hg|exact H1|done|].
    assert (up_ids (up :: ups) = (u1 ++ (pid, q1 ++ (aid, ka) :: q2) :: u2).*1 ++ up_ids ups) as -> by (by rewrite up_ids_cons, !fmap_app). exact Hsk.
  - cbn. lia.
Qed.

End case.
Lemma child_node t c hs ups x : below (config_ t) c hs ups -> x ∈ hs.*1 -> exists n, nodes (config_ t) c x = Some n /\ node_ok (config_ t) n.
Proof. intros Hb Hx. destruct (Hb x Hx) as (n & ? & ? & _). by exists n. Qed.

Lemma child_id hs x : Forall head_ok hs -> x ∈ hs.*1 -> id_ok x.
Proof. intros Hh (h & -> & Hx)%list_elem_of_fmap. rewrite list.Forall_forall in Hh. by apply (Hh h Hx). Qed.

(** A merge of two minimal groups fits. *)
Lemma merged_ok cfg (ga gb : list Head) : config_ok cfg = true -> zlen ga + zlen gb = 2 * internal_min cfg + 1 -> group_ok cfg true (ga ++ gb).
Proof.
  intros Hc%config_bounds Hl. unfold group_ok, internal_min in *. rewrite length_app. pose proof (Z.div_mod (internal_max_keys cfg) 2 ltac:(lia)). pose proof (Z.mod_pos_bound (internal_max_keys cfg) 2 ltac:(lia)).
  split; [|intros _]; lia.
Qed.

Lemma seps_key id g : g <> [] -> (key_of (id, g)) :: seps g = g.*2.
Proof. by destruct g. Qed.

(** The writes of a merge. *)
Lemma merge_steps_spec t c f hs lvA aid ga bid gb lvB u1 pid q1 q2 u2 ups fuel w :
  paired t c hs lvA aid ga bid gb lvB u1 pid q1 q2 u2 ups -> store w c f -> group_ok (config_ t) true (ga ++ gb) ->
  (forall c' w' hs' g', sagging t c' hs' u1 pid g' u2 ups -> store w' c' f ->
    wpo L (rebalance_internal fuel pid) (t, w') (fun _ => repaired t c' hs' ((u1 ++ (pid, g') :: u2).*1 ++ up_ids ups) (S (length ups)) f)) ->
  wpo L (run (for_each gb.*1 (fun x => set_parent x aid)) ;?
         let? pks := opt (erase_at (length q1) (seps (q1 ++ (aid, key_of (aid, ga)) :: (bid, key_of (bid, gb)) :: q2))) in
         let? pcs := opt (erase_at (S (length q1)) (q1 ++ (aid, key_of (aid, ga)) :: (bid, key_of (bid, gb)) :: q2).*1) in
         run (write_node aid (inner_node pid (ga ++ gb))) ;?
         run (write_node pid (mkNode false (par ups pid) kInvalidValue pks [] pcs)) ;?
         rebalance_internal fuel pid) (t, w) (fun _ => repaired t c hs
    ((lvA ++ (aid, ga) :: (bid, gb) :: lvB).*1 ++ up_ids ((u1 ++ (pid, q1 ++ (aid, key_of (aid, ga)) :: (bid, key_of (bid, gb)) :: q2) :: u2) :: ups)) (S (S (length ups))) f).
Proof.
  intros Hpr Hst Hg IH. destruct (paired_view _ _ _ _ _ _ _ _ _ _ _ _ _ _ _ Hpr) as [Hcfg (Hia & Hib & Hip) Hna Hnb Hnp Hpu [Hha Hhb] HhP HsP _].
  pose proof (pr_heads _ _ _ _ _ _ _ _ _ _ _ _ _ _ _ Hpr) as Hhs. pose proof (pair_apart _ _ _ _ _ _ _ _ _ _ _ _ _ _ _ Hpr) as (_ & _ & _ & Hd & Hdl & _ & _ & _ & _ & _ & Hndh & _).
  set (ka := key_of (aid, ga)) in *. set (kb := key_of (bid, gb)) in *.
  assert (forall x, x ∈ gb.*1 -> x ∈ hs.*1) as Hch by (intros x Hx; eapply paired_children; [exact Hpr|by right]).
  assert ((aid ∉ gb.*1) /\ (pid ∉ gb.*1) /\ aid <> pid) as (Hagb & Hpgb & Hap).
  { split_and!; [intros [Hx _]%Hch%Hd|intros [_ Hx]%Hch%Hd|intros ->].
    - apply Hx, pair_ids. tauto.
    - apply Hx, pair_pid.
    - apply (Hdl pid); [apply pair_ids; tauto|apply pair_pid]. }
  assert (q1 ++ (aid, ka) :: (bid, kb) :: q2 = (q1 ++ [(aid, ka)]) ++ (bid, kb) :: q2) as EP by (by rewrite <- app_assoc).
  assert (node_ok (config_ t) (inner_node pid (ga ++ gb))) as Hok1 by (eapply group_node_ok; [exact Hg|by apply Forall_app_2|apply Hip]).
  assert (node_ok (config_ t) (inner_node (par ups pid) (q1 ++ (aid, ka) :: q2))) as Hok2.
  { apply inner_node_ok; [rewrite length_app in *; cbn in *; lia| |done]. apply Forall_app in HhP as [HP1 HP2]. apply list.Forall_cons in HP2 as [HP2 HP3]. apply list.Forall_cons in HP3 as [_ HP3].
    apply Forall_app_2; [done|]. by apply list.Forall_cons. }
  apply wpo_bind, wpo_run. wpl_use set_parents_spec; [exact Hst|done|apply Hia| | | |].
  { pose proof (pr_concat _ _ _ _ _ _ _ _ _ _ _ _ _ _ _ Hpr) as Hcc. rewrite Hcc, concat_parts, !fmap_app in Hndh. apply list.NoDup_app in Hndh as (_ & _ & Hndh). apply list.NoDup_app in Hndh as (_ & _ & Hndh).
    cbn [fmap list_fmap concat snd] in Hndh. rewrite fmap_app in Hndh. by apply list.NoDup_app in Hndh as (? & _ & _). }
  { apply Forall_fmap. eapply list.Forall_impl; [exact Hhb|]. by intros ? []. }
  { intros x Hx%Hch. eapply child_node; [apply (pr_below _ _ _ _ _ _ _ _ _ _ _ _ _ _ _ Hpr)|done]. }
  intros [] ? (w1 & c1 & -> & Hst1 & Hc1 & Hn1).
  apply wpo_bind. eapply wpo_opt.
  { pose proof (seps_erase (q1 ++ [(aid, ka)]) (bid, kb) q2 ltac:(by destruct q1)) as Hx. rewrite <- EP, length_app, <- app_assoc in Hx. cbn in Hx. replace (length q1 + 1 - 1)%nat with (length q1) in Hx by lia. exact Hx. }
  assert (erase_at (S (length q1)) (q1 ++ (aid, ka) :: (bid, kb) :: q2).*1 = Some (q1 ++ (aid, ka) :: q2).*1) as Ecs.
  { rewrite EP, fmap_app. cbn [fmap list_fmap fst]. rewrite erase_at_app by (rewrite length_fmap, length_app; cbn; lia). by rewrite !fmap_app, <- app_assoc. }
  apply wpo_bind. eapply wpo_opt; [exact Ecs|].
  apply wpo_bind, wpo_run. wpl_use write_node_spec; [exact Hst1|exact Hia|rewrite Hc1 by done; by eapply node_page|done|exact Hok1|]. intros [] ? (w2 & -> & Hst2).
  apply wpo_bind, wpo_run. wpl_use (write_node_spec L held t w2 _ f pid (inner_node (par ups pid) (q1 ++ (aid, ka) :: q2))); [exact Hst2|exact Hip| |done|exact Hok2|].
  { unfold put. rewrite decide_False by done. rewrite Hc1 by done. by eapply node_page. }
  intros [] ? (w3 & -> & Hst3). eapply (case_merge t c f hs lvA aid ga bid gb lvB u1 pid q1 q2 u2 ups Hpr); [exact Hg| | | | |exact Hst3|exact IH].
  - by rewrite nodes_put, decide_False, nodes_put, decide_True by done.
  - by rewrite nodes_put, decide_True by done.
  - intros x n Hx Hn. rewrite nodes_put, decide_False, nodes_put, decide_False by (done || congruence). by apply Hn1.
  - intros j Hj. rewrite !not_elem_of_cons in Hj. unfold put. rewrite !decide_False by tauto. apply Hc1. tauto.
Qed.

Lemma rebalance_left_spec t c f hs lvA aid ga bid gb lvB u1 pid q1 q2 u2 ups fuel w :
  paired t c hs lvA aid ga bid gb lvB u1 pid q1 q2 u2 ups -> store w c f -> zlen gb = internal_min (config_ t) -> group_ok (config_ t) true ga -> bid <> root_page_id_ t ->
  (forall c' w' hs' g', sagging t c' hs' u1 pid g' u2 ups -> store w' c' f ->
    wpo L (rebalance_internal fuel pid) (t, w') (fun _ => repaired t c' hs' ((u1 ++ (pid, g') :: u2).*1 ++ up_ids ups) (S (length ups)) f)) ->
  wpo L (rebalance_internal (S fuel) bid) (t, w) (fun _ => repaired t c hs
    ((lvA ++ (aid, ga) :: (bid, gb) :: lvB).*1 ++ up_ids ((u1 ++ (pid, q1 ++ (aid, key_of (aid, ga)) :: (bid, key_of (bid, gb)) :: q2) :: u2) :: ups)) (S (S (length ups))) f).
Proof.
  intros Hpr Hst Hgb [[Hga1 Hga2] Hga3] Hroot IH. destruct (paired_view _ _ _ _ _ _ _ _ _ _ _ _ _ _ _ Hpr) as [Hcfg (Hia & Hib & Hip) Hna Hnb Hnp Hpu [Hha Hhb] HhP HsP [Hf1 Hf2]]. specialize (Hga3 eq_refl).
  destruct (pr_size _ _ _ _ _ _ _ _ _ _ _ _ _ _ _ Hpr) as [Hane Hbne]. pose proof (pr_heads _ _ _ _ _ _ _ _ _ _ _ _ _ _ _ Hpr) as Hhs. pose proof (config_bounds _ Hcfg) as Hcb.
  assert (1 <= zlen gb) as Hgb1 by (destruct gb; [done|cbn; lia]). set (ka := key_of (aid, ga)) in *. set (kb := key_of (bid, gb)) in *. cbn [rebalance_internal].
  apply wpo_bind, wpo_run. wpl_use read_node_spec; [exact Hst|exact Hib|exact Hnb|]. intros n ? (-> & w1 & -> & Hst1). unfold this. apply wpo_bind, wpo_run. wpl_step. cbn [fst].
  rewrite decide_False by done. cbn [inner_node keys children parent values]. rewrite seps_length. rewrite (proj2 (Z.leb_gt _ _)) by lia.
  apply wpo_bind, wpo_run. wpl_use read_node_spec; [exact Hst1|exact Hip|exact Hnp|]. intros n ? (-> & w2 & -> & Hst2). cbn [inner_node keys children parent values].
  assert (q1 ++ (aid, ka) :: (bid, kb) :: q2 = (q1 ++ [(aid, ka)]) ++ (bid, kb) :: q2) as EP by (by rewrite <- app_assoc).
  assert (q1 ++ [(aid, ka)] <> []) as Hne by (by destruct q1). assert (length (q1 ++ [(aid, ka)]) = S (length q1)) as Elen by (rewrite length_app; cbn; lia).
  assert (find_at (q1 ++ (aid, ka) :: (bid, kb) :: q2).*1 bid = S (length q1)) as -> by (rewrite EP, fmap_app; cbn [fmap list_fmap fst]; rewrite find_at_app by done; by rewrite length_fmap, Elen).
  rewrite decide_True by lia. replace (S (length q1) - 1)%nat with (length q1) by lia.
  apply wpo_bind. eapply wpo_opt; [rewrite fmap_app; apply lookup_mid; by rewrite length_fmap|].
  apply wpo_bind, wpo_run. wpl_use read_node_spec; [exact Hst2|exact Hia|exact Hna|]. intros n ? (-> & w3 & -> & Hst3). cbn [inner_node keys children parent values].
  pose proof (seps_lookup _ (bid, kb) q2 Hne) as Hsep. rewrite <- EP, Elen in Hsep. replace (S (length q1) - 1)%nat with (length q1) in Hsep by lia. apply wpo_bind. eapply wpo_opt; [exact Hsep|]. cbn [snd].
  rewrite seps_length. destruct (Z.ltb_spec (internal_min (config_ t)) (Z.of_nat (length ga - 1))) as [Hlt|Hge].
  - destruct ga as [|m ga' _] using rev_ind; [done|]. rewrite length_app in Hlt, Hga1, Hga2, Hga3. cbn in Hlt, Hga1, Hga2, Hga3.
    assert (ga' <> []) as Hne' by (intros ->; cbn in Hlt; unfold internal_min in Hlt; pose proof (Z.div_pos (internal_max_keys (config_ t)) 2); lia).
    apply wpo_bind. eapply wpo_opt; [rewrite fmap_app; apply last_snoc|]. apply wpo_bind. eapply wpo_opt; [rewrite seps_app by done; apply last_snoc|].
    assert (assign_at (length q1) m.2 (seps (q1 ++ (aid, ka) :: (bid, kb) :: q2)) = Some (seps (q1 ++ (aid, ka) :: (bid, m.2) :: q2))) as Has.
    { pose proof (seps_assign _ (bid, kb) (bid, m.2) q2 Hne) as Hx. rewrite Elen in Hx. replace (S (length q1) - 1)%nat with (length q1) in Hx by lia. by rewrite <- !app_assoc in Hx. }
    apply wpo_bind. eapply wpo_opt; [exact Has|]. apply wpo_bind. eapply wpo_opt; [rewrite seps_app by done; apply pop_back_snoc|]. apply wpo_bind. eapply wpo_opt; [rewrite fmap_app; apply pop_back_snoc|].
    assert (m.1 ∈ hs.*1) as Hm by (eapply paired_children; [exact Hpr|]; left; rewrite fmap_app; apply elem_of_app; right; left).
    destruct (child_node _ _ _ _ _ (pr_below _ _ _ _ _ _ _ _ _ _ _ _ _ _ _ Hpr) Hm) as (nm & Hnm & Hnmok). assert (NoDup [m.1; aid; bid; pid]) as Hdist by (eapply paired_distinct; [exact Hpr|exact Hm]).
    apply Forall_app in Hha as [Hha Hhm]. apply list.Forall_cons in Hhm as [Hhm _].
    assert (group_ok (config_ t) true ga') as HgA by (split; [|intros _]; lia).
    assert (group_ok (config_ t) true (m :: gb)) as HgB by (unfold group_ok, internal_min in *; cbn [length]; pose proof (Z.div_mod (internal_max_keys (config_ t)) 2 ltac:(lia)); pose proof (Z.mod_pos_bound (internal_max_keys (config_ t)) 2 ltac:(lia)); split; [|intros _]; lia).
    assert (node_ok (config_ t) (set_parent_ bid nm)) as Hok1 by (apply set_parent_ok; [done|apply Hib]).
    assert (node_ok (config_ t) (inner_node pid ga')) as Hok2 by (eapply group_node_ok; [exact HgA|done|apply Hip]).
    assert (node_ok (config_ t) (inner_node pid (m :: gb))) as Hok3 by (eapply group_node_ok; [exact HgB|apply list.Forall_cons; split; [exact Hhm|exact Hhb]|apply Hip]).
    assert (node_ok (config_ t) (inner_node (par ups pid) (q1 ++ (aid, ka) :: (bid, m.2) :: q2))) as Hok4.
    { apply inner_node_ok; [rewrite length_app in *; cbn in *; lia| |done]. rewrite EP in HhP. replace (q1 ++ (aid, ka) :: (bid, m.2) :: q2) with ((q1 ++ [(aid, ka)]) ++ (bid, m.2) :: q2) by (by rewrite <- app_assoc).
      eapply heads_ok_replace; [exact HhP|apply Hhm]. }
    destruct (four_writes (config_ t) c _ _ _ _ _ _ _ _ Hcfg Hok1 Hok2 Hok3 Hok4 Hdist) as (N1 & N2 & N3 & N4 & Nfr).
    apply wpo_bind, wpo_run. wpl_use set_parent_spec; [exact Hst3|exact (child_id _ _ Hhs Hm)|exact Hnm|done|exact Hok1|]. intros [] ? (w4 & -> & Hst4).
    apply wpo_bind, wpo_run. wpl_use (write_node_spec (W := W) L held t w4 _ f aid (inner_node pid ga')); [exact Hst4|exact Hia| |done|exact Hok2|].
    { unfold put. case_decide; [done|by eapply node_page]. }
    intros [] ? (w5 & -> & Hst5). apply wpo_bind, wpo_run.
    assert (mkNode false pid kInvalidValue (kb :: seps gb) [] (m.1 :: gb.*1) = inner_node pid (m :: gb)) as E3 by (unfold inner_node, kb; by rewrite seps_key).
    unfold with_entries. cbn [inner_node leaf parent next]. rewrite E3.
    wpl_use write_node_spec; [exact Hst5|exact Hib| |done|exact Hok3|].
    { unfold put. do 2 (case_decide; [done|]). by eapply node_page. }
    intros [] ? (w6 & -> & Hst6). apply wpo_run. rewrite fmap_app. cbn [fmap list_fmap fst].
    assert (mkNode false (par ups pid) kInvalidValue (seps (q1 ++ (aid, ka) :: (bid, m.2) :: q2)) [] (q1.*1 ++ aid :: bid :: q2.*1) = inner_node (par ups pid) (q1 ++ (aid, ka) :: (bid, m.2) :: q2)) as E4 by (unfold inner_node; by rewrite fmap_app).
    rewrite E4. wpl_use write_node_spec; [exact Hst6|exact Hip| |done|exact Hok4|].
    { unfold put. do 3 (case_decide; [done|]). by eapply node_page. }
    intros [] ? (w7 & -> & Hst7). eapply (case_shift t c f hs lvA aid (ga' ++ [m]) bid gb lvB u1 pid q1 q2 u2 ups Hpr w7 _ m.1 nm ga' (m :: gb) bid); [exact Hm|exact Hnm|by rewrite <- app_assoc|done|done|exact N1|exact N2|exact N3|exact N4|exact Nfr| |exact Hst7].
    right. split_and!; [done|left| |by intros x Hx; right]. intros x Hx Hn. rewrite fmap_app, elem_of_app in Hx. cbn in Hx. rewrite list_elem_of_singleton in Hx. tauto.
  - assert (zlen ga = internal_min (config_ t) + 1) as Hgl by lia.
    assert (seps ga ++ [kb] ++ seps gb = seps (ga ++ gb)) as Ekeys by (rewrite seps_app by done; unfold kb; by rewrite <- (seps_key bid gb Hbne)).
    unfold with_entries. cbn [inner_node leaf parent next]. rewrite Ekeys, <- fmap_app.
    apply (merge_steps_spec t c f hs lvA aid ga bid gb lvB u1 pid q1 q2 u2 ups fuel w3 Hpr Hst3); [|exact IH]. apply merged_ok; [done|lia].
Qed.
(** *** The neighbour on the right *)

Lemma rebalance_right_spec t c f hs lvA aid ga bid gb lvB u1 pid q2 u2 ups fuel w :
  paired t c hs lvA aid ga bid gb lvB u1 pid [] q2 u2 ups -> store w c f -> zlen ga = internal_min (config_ t) -> group_ok (config_ t) true gb -> aid <> root_page_id_ t ->
  (forall c' w' hs' g', sagging t c' hs' u1 pid g' u2 ups -> store w' c' f ->
    wpo L (rebalance_internal fuel pid) (t, w') (fun _ => repaired t c' hs' ((u1 ++ (pid, g') :: u2).*1 ++ up_ids ups) (S (length ups)) f)) ->
  wpo L (rebalance_internal (S fuel) aid) (t, w) (fun _ => repaired t c hs
    ((lvA ++ (aid, ga) :: (bid, gb) :: lvB).*1 ++ up_ids ((u1 ++ (pid, (aid, key_of (aid, ga)) :: (bid, key_of (bid, gb)) :: q2) :: u2) :: ups)) (S (S (length ups))) f).
Proof.
  intros Hpr Hst Hga [[Hgb1 Hgb2] Hgb3] Hroot IH. destruct (paired_view _ _ _ _ _ _ _ _ _ _ _ _ _ _ _ Hpr) as [Hcfg (Hia & Hib & Hip) Hna Hnb Hnp Hpu [Hha Hhb] HhP HsP _]. specialize (Hgb3 eq_refl).
  destruct (pr_size _ _ _ _ _ _ _ _ _ _ _ _ _ _ _ Hpr) as [Hane Hbne]. pose proof (pr_heads _ _ _ _ _ _ _ _ _ _ _ _ _ _ _ Hpr) as Hhs. pose proof (config_bounds _ Hcfg) as Hcb.
  assert (1 <= zlen ga) as Hga1 by (destruct ga; [done|cbn; lia]). set (ka := key_of (aid, ga)) in *. set (kb := key_of (bid, gb)) in *. cbn [app] in *. cbn [rebalance_internal].
  apply wpo_bind, wpo_run. wpl_use read_node_spec; [exact Hst|exact Hia|exact Hna|]. intros n ? (-> & w1 & -> & Hst1). unfold this. apply wpo_bind, wpo_run. wpl_step. cbn [fst].
  rewrite decide_False by done. cbn [inner_node keys children parent values]. rewrite seps_length. rewrite (proj2 (Z.leb_gt _ _)) by lia.
  apply wpo_bind, wpo_run. wpl_use read_node_spec; [exact Hst1|exact Hip|exact Hnp|]. intros n ? (-> & w2 & -> & Hst2). cbn [inner_node keys children parent values].
  cbn [fmap list_fmap fst find_at]. rewrite (decide_True (P := aid = aid)) by done. rewrite (decide_False (P := (0 < 0)%nat)) by lia. cbn [Nat.add].
  apply wpo_bind. eapply wpo_opt; [done|].
  apply wpo_bind, wpo_run. wpl_use read_node_spec; [exact Hst2|exact Hib|exact Hnb|]. intros n ? (-> & w3 & -> & Hst3). cbn [inner_node keys children parent values].
  apply wpo_bind. eapply wpo_opt; [done|]. rewrite seps_length. cbn [snd]. destruct (Z.ltb_spec (internal_min (config_ t)) (Z.of_nat (length gb - 1))) as [Hlt|Hge].
  - destruct gb as [|m gb']; [done|]. cbn [length] in Hlt, Hgb1, Hgb2, Hgb3. apply list.Forall_cons in Hhb as [Hhm Hhb].
    assert (0 <= internal_min (config_ t)) as Hmin by (unfold internal_min; apply Z.div_pos; lia).
    destruct gb' as [|y gb'']; [cbn in Hlt; lia|]. set (gb' := y :: gb'') in *. assert (y.2 = key_of (bid, gb')) as Ey by done.
    apply wpo_bind. eapply wpo_opt; [done|]. apply wpo_bind. eapply wpo_opt; [done|]. apply wpo_bind. eapply wpo_opt; [done|]. apply wpo_bind. eapply wpo_opt; [done|]. apply wpo_bind. eapply wpo_opt; [done|].
    assert (m.1 ∈ hs.*1) as Hm by (eapply paired_children; [exact Hpr|]; right; left).
    destruct (child_node _ _ _ _ _ (pr_below _ _ _ _ _ _ _ _ _ _ _ _ _ _ _ Hpr) Hm) as (nm & Hnm & Hnmok). assert (NoDup [m.1; aid; bid; pid]) as Hdist by (eapply paired_distinct; [exact Hpr|exact Hm]).
    assert (group_ok (config_ t) true gb') as HgB by (split; [|intros _]; lia).
    assert (group_ok (config_ t) true (ga ++ [m])) as HgA.
    { unfold group_ok, internal_min in *. rewrite length_app. cbn [length]. pose proof (Z.div_mod (internal_max_keys (config_ t)) 2 ltac:(lia)). pose proof (Z.mod_pos_bound (internal_max_keys (config_ t)) 2 ltac:(lia)). split; [|intros _]; lia. }
    assert (node_ok (config_ t) (set_parent_ aid nm)) as Hok1 by (apply set_parent_ok; [done|apply Hia]).
    assert (node_ok (config_ t) (inner_node pid (ga ++ [m]))) as Hok2 by (eapply group_node_ok; [exact HgA|apply Forall_app_2; [done|by apply list.Forall_cons]|apply Hip]).
    assert (node_ok (config_ t) (inner_node pid gb')) as Hok3 by (eapply group_node_ok; [exact HgB|exact Hhb|apply Hip]).
    assert (node_ok (config_ t) (inner_node (par ups pid) ((aid, ka) :: (bid, y.2) :: q2))) as Hok4.
    { apply inner_node_ok; [cbn [length] in *; lia| |done]. eapply (heads_ok_replace [(aid, ka)]); [exact HhP|]. by apply list.Forall_cons in Hhb as [[_ ?] _]. }
    destruct (four_writes (config_ t) c _ _ _ _ _ _ _ _ Hcfg Hok1 Hok2 Hok3 Hok4 Hdist) as (N1 & N2 & N3 & N4 & Nfr).
    apply wpo_bind, wpo_run. wpl_use set_parent_spec; [exact Hst3|exact (child_id _ _ Hhs Hm)|exact Hnm|done|exact Hok1|]. intros [] ? (w4 & -> & Hst4).
    apply wpo_bind, wpo_run. unfold with_entries. cbn [inner_node leaf parent next].
    assert (mkNode false pid kInvalidValue (seps ga ++ [kb]) [] (ga.*1 ++ [m.1]) = inner_node pid (ga ++ [m])) as E2 by (unfold inner_node; by rewrite seps_app, fmap_app by done).
    rewrite E2. wpl_use write_node_spec; [exact Hst4|exact Hia| |done|exact Hok2|].
    { unfold put. case_decide; [done|by eapply node_page]. }
    intros [] ? (w5 & -> & Hst5). apply wpo_bind, wpo_run. wpl_use (write_node_spec L held t w5 _ f bid (inner_node pid gb')); [exact Hst5|exact Hib| |done|exact Hok3|].
    { unfold put. do 2 (case_decide; [done|]). by eapply node_page. }
    intros [] ? (w6 & -> & Hst6). apply wpo_run. wpl_use (write_node_spec L held t w6 _ f pid (inner_node (par ups pid) ((aid, ka) :: (bid, y.2) :: q2))); [exact Hst6|exact Hip| |done|exact Hok4|].
    { unfold put. do 3 (case_decide; [done|]). by eapply node_page. }
    intros [] ? (w7 & -> & Hst7). eapply (case_shift t c f hs lvA aid ga bid (m :: gb') lvB u1 pid [] q2 u2 ups Hpr w7 _ m.1 nm (ga ++ [m]) gb' aid); [exact Hm|exact Hnm|by rewrite <- app_assoc|exact HgA|exact HgB|exact N1|exact N2|exact N3|exact N4|exact Nfr| |exact Hst7].
    left. split_and!; [done|rewrite fmap_app; apply elem_of_app; right; left| |intros x Hx; rewrite fmap_app; apply elem_of_app; by left]. intros x [->|Hx]%elem_of_cons Hn; done.
  - assert (zlen gb = internal_min (config_ t) + 1) as Hgl by lia.
    assert (seps ga ++ [kb] ++ seps gb = seps (ga ++ gb)) as Ekeys by (rewrite seps_app by done; unfold kb; by rewrite <- (seps_key bid gb Hbne)).
    unfold with_entries. cbn [inner_node leaf parent next]. rewrite Ekeys, <- fmap_app.
    apply (merge_steps_spec t c f hs lvA aid ga bid gb lvB u1 pid [] q2 u2 ups fuel w3 Hpr Hst3); [|exact IH]. apply merged_ok; [done|lia].
Qed.
(** *** Any level *)

Lemma rebalance_internal_spec t ups : forall c f hs lv1 pid g lv2 fuel w,
  sagging t c hs lv1 pid g lv2 ups -> store w c f -> (length ups < fuel)%nat ->
  wpo L (rebalance_internal fuel pid) (t, w) (fun _ => repaired t c hs ((lv1 ++ (pid, g) :: lv2).*1 ++ up_ids ups) (S (length ups)) f).
Proof.
  induction ups as [|up ups IH]; intros c f hs lv1 pid g lv2 fuel w Hsg Hst Hf; (destruct fuel as [|fuel]; [lia|]); [by apply rebalance_root_spec|].
  pose proof Hsg as [Hcc Hh Hi Hnd Hrep HL HR Hs Hmany Hab Hbel Hm Hr]. pose proof (ab_config _ _ _ _ Hab) as Hcfg. pose proof (config_bounds _ Hcfg) as Hcb.
  assert (pid ∈ (lv1 ++ (pid, g) :: lv2).*1) as Hpin by (rewrite fmap_app; apply elem_of_app; right; left).
  assert (pid <> root_page_id_ t) as Hroot.
  { rewrite Hr. intros E. apply list.NoDup_cons in Hnd as [_ Hnd]. apply list.NoDup_app in Hnd as (_ & _ & Hnd). rewrite up_ids_cons in Hnd. apply list.NoDup_app in Hnd as (_ & Hd & _).
    pose proof (root_level _ _ _ _ (ab_tower _ _ _ _ Hab)) as Hrl. rewrite <- E in Hrl. by apply (Hd pid). }
  assert (many (lv1 ++ (pid, g) :: lv2) = true) as Hmt.
  { rewrite <- (level_many _ _ _ _ (ab_tower _ _ _ _ Hab)) by (rewrite fmap_app; by destruct lv1). apply many_length. by rewrite length_fmap. }
  specialize (Hmany Hmt). rewrite Hmt in HL, HR. assert (g <> []) as Hgne by (intros ->; cbn in Hs; lia).
  assert (forall c' w' hs' u1 pid' g' u2, sagging t c' hs' u1 pid' g' u2 ups -> store w' c' f ->
    wpo L (rebalance_internal fuel pid') (t, w') (fun _ => repaired t c' hs' ((u1 ++ (pid', g') :: u2).*1 ++ up_ids ups) (S (length ups)) f)) as Hrec.
  { intros. eapply IH; [done|done|cbn in Hf; lia]. }
  destruct (decide (internal_min (config_ t) + 1 <= zlen g)) as [Henough|Hfew].
  - assert (nodes (config_ t) c pid = Some (inner_node (par (up :: ups) pid) g)) as Hn by (apply Hrep, elem_of_app; right; left).
    assert (id_ok pid) as Hid by (rewrite list.Forall_forall in Hi; by apply Hi). cbn [rebalance_internal].
    apply wpo_bind, wpo_run. wpl_use read_node_spec; [exact Hst|exact Hid|exact Hn|]. intros n ? (-> & w1 & -> & Hst1). unfold this. apply wpo_bind, wpo_run. wpl_step. cbn [fst].
    rewrite decide_False by done. cbn [inner_node keys]. rewrite seps_length. rewrite (proj2 (Z.leb_le _ _)) by lia. apply wpo_run.
    assert (node_ok (config_ t) (inner_node (par (up :: ups) pid) g)) as Hok.
    { apply inner_node_ok; [done| |apply par_u64; exact (ab_ids _ _ _ _ Hab)]. rewrite Hcc in Hh. apply (level_head_ok _ (pid, g) Hh). apply elem_of_app. right. left. }
    wpl_use write_node_spec; [exact Hst1|exact Hid|by eapply node_page|done|exact Hok|]. intros [] ? (w2 & -> & Hst2). eexists t, w2, _, ((lv1 ++ (pid, g) :: lv2) :: up :: ups). split_and!; [done|exact Hst2| |done].
    eapply sagging_level; [exact Hsg| |by rewrite nodes_put, decide_True by done|intros j Hj; unfold put; by rewrite decide_False]. split; [|done].
    assert (1 <= internal_min (config_ t)) by (unfold internal_min; apply Z.div_le_lower_bound; lia). lia.
  - assert (zlen g = internal_min (config_ t)) as Hg by lia. pose proof Hab as Hab'. rewrite fmap_app in Hab'. cbn [fmap list_fmap] in Hab'.
    destruct (above_mid _ _ _ _ _ _ _ Hab') as (u1 & ppid & p1 & p2 & u2 & -> & E1 & E2 & _ & _ & _ & _ & _ & _ & _ & [[Hp _] _]). destruct p1 as [|[lid kl] q1 _] using rev_ind.
    + destruct p2 as [|[rid kr] q2]; [cbn in Hp; lia|]. destruct lv2 as [|[rid' gr] lvB]; [done|]. cbn in E2. injection E2 as -> <- E2. apply list.Forall_cons in HR as [Hgr HR].
      assert (paired t c hs lv1 pid g rid gr lvB u1 ppid [] q2 u2 ups) as Hpr.
      { eapply (sagging_paired _ _ _ lv1 pid g ((rid, gr) :: lvB)); [exact Hsg|done| |done| |exact E1|exact E2]; [intros x [?|?]; [by left|right; by right]|]. intros ->. destruct Hgr as [[Hx _] _]. cbn in Hx. lia. }
      wpo_use rebalance_right_spec; [exact Hpr|exact Hst|exact Hg|exact Hgr|done|intros; by apply Hrec|]. done.
    + assert (exists lvA gl, lv1 = lvA ++ [(lid, gl)] /\ heads lvA = concat u1.*2 ++ q1 /\ kl = key_of (lid, gl)) as (lvA & gl & -> & EA & ->).
      { rewrite app_assoc in E1. destruct lv1 as [|[lid' gl] lvA _] using rev_ind; [by destruct (concat u1.*2 ++ q1)|]. rewrite fmap_app in E1. cbn in E1. apply app_inj_tail in E1 as [E1 [= -> <-]]. by exists lvA, gl. }
      apply Forall_app in HL as [HL Hgl]. apply list.Forall_cons in Hgl as [Hgl _]. cbn [snd] in Hgl. rewrite <- app_assoc in *. cbn [app] in *.
      assert (paired t c hs lvA lid gl pid g lv2 u1 ppid q1 p2 u2 ups) as Hpr.
      { eapply (sagging_paired _ _ _ (lvA ++ [(lid, gl)]) pid g lv2); [exact Hsg|by rewrite <- app_assoc| | |done|exact EA|exact E2]; [intros x [?|?]; [left; apply elem_of_app; by left|by right]|]. intros ->. destruct Hgl as [[Hx _] _]. cbn in Hx. lia. }
      wpo_use rebalance_left_spec; [exact Hpr|exact Hst|exact Hg|exact Hgl|done|intros; by apply Hrec|]. intros _ s Hs'. by rewrite <- app_assoc.
Qed.

End rebalance.
(** ** Leaves *)

(** Two neighbouring leaves under the same node. *)
Record leaf_paired (t : Tree) (c : PageId -> option bytes) (lsA : list LeafG) (aid : PageId) (ea : list Entry) (bid : PageId) (eb : list Entry) (lsB : list LeafG)
    (u1 : list InnerG) (pid : PageId) (q1 q2 : list Head) (u2 : list InnerG) (ups : list (list InnerG)) : Prop := {
  lp_tree : tree_ok t c (lsA ++ (aid, ea) :: (bid, eb) :: lsB) ((u1 ++ (pid, q1 ++ leaf_head (aid, ea) :: leaf_head (bid, eb) :: q2) :: u2) :: ups);
  lp_headsA : leaf_head <$> lsA = concat u1.*2 ++ q1;
  lp_headsB : leaf_head <$> lsB = q2 ++ concat u2.*2;
}.

Lemma rep_below cfg c p ls :
  rep_leaves (nodes cfg c) p ls -> Forall (fun x => zlen x.2 <= leaf_max_keys cfg) ls -> Forall entry_ok (entries ls) -> Forall id_ok ls.*1 -> (forall x, is_u64 (p x)) ->
  forall x, x ∈ ls.*1 -> exists n, nodes cfg c x = Some n /\ node_ok cfg n /\ parent n = p x.
Proof.
  induction ls as [|[id es] ls IH]; intros Hr Hl He Hi Hp x Hx; [by apply not_elem_of_nil in Hx|]. destruct Hr as [Hn Hr]. apply list.Forall_cons in Hl as [Hl0 Hl]. apply list.Forall_cons in Hi as [Hi0 Hi].
  unfold entries in He. cbn in He. apply Forall_app in He as [He0 He]. apply elem_of_cons in Hx as [->|Hx]; [|by apply IH].
  eexists. split_and!; [exact Hn| |done]. eapply (leaf_node_ok _ false); [by split|done|done|]. destruct ls as [|y ls]; [done|]. by apply list.Forall_cons in Hi as [[? _] _].
Qed.

(** The tree after the leaves and the levels above have been rewritten. *)
Lemma leaves_became t c ls ups t' c4 c5 lsN p4 ups5 :
  tree_ok t c ls ups -> shrunk t t' c4 c5 (leaf_head <$> lsN) (up_ids ups) ups5 -> rep_leaves (nodes (config_ t) c4) p4 lsN ->
  Forall (fun x => leaf_ok (config_ t) (many lsN) x.2) lsN -> increasing (entries lsN).*1 -> Forall entry_ok (entries lsN) ->
  (forall j, j ∈ lsN.*1 -> j ∈ ls.*1) -> (forall j, j ∉ ls.*1 ++ up_ids ups -> c4 j = c j) ->
  became t c ls ups t' c5 lsN ups5.
Proof.
  intros [Hsh Hroot0 (d & Hd & Hmp) [Hmi Hmn] _ _] [Hc1 Hc2 Hab Hroot Hmeta Hn Hframe Hids] Hrep Hl Hs He Hsub Hc4. rewrite leaf_head_ids in *.
  assert (forall j, j ∈ lsN.*1 ++ up_ids ups5 -> j ∈ ls.*1 ++ up_ids ups) as Hin by (intros j; rewrite !elem_of_app; intros [?%Hsub|?%Hids]; tauto).
  split; try done.
  - apply tree_build; rewrite ?Hc1, ?Hc2; try done.
    + destruct Hmeta as [Hm|[-> Hm]]; [|exists d; split; [|done]; by rewrite Hm, Hc4]. eexists. split; [exact Hm|]. apply meta_bytes_ok; [|apply Hsh]. rewrite Hroot. by apply (above_root _ _ _ _ Hab).
    + intros Hx. by apply Hmn, Hin.
    + eapply rep_leaves_ext; [exact Hrep|]. intros x n Hx Hnx _. by apply Hn.
  - intros j. unfold pages. rewrite !not_elem_of_cons. intros [Hj1 Hj2] _. rewrite Hframe; [by apply Hc4|]. rewrite not_elem_of_cons, not_elem_of_app in *. split_and!; [done|by intros ?%Hsub; tauto|tauto].
  - intros j Hj. left. by apply Hin.
Qed.

Section leafpair.
Variables (t : Tree) (c c4 : PageId -> option bytes) (lsA : list LeafG) (aid : PageId) (ea : list Entry) (bid : PageId) (eb : list Entry) (lsB : list LeafG).
Variables (u1 : list InnerG) (pid : PageId) (q1 q2 : list Head) (u2 : list InnerG) (ups : list (list InnerG)).
Abbreviation ka := ((leaf_head (aid, ea)).2).
Abbreviation kb := ((leaf_head (bid, eb)).2).
Abbreviation ls := (lsA ++ (aid, ea) :: (bid, eb) :: lsB).
Abbreviation up := (u1 ++ (pid, q1 ++ (aid, ka) :: (bid, kb) :: q2) :: u2).
Abbreviation h1 := (concat u1.*2 ++ q1).
Abbreviation h2 := (q2 ++ concat u2.*2).
Hypothesis Hlp : leaf_paired t c lsA aid ea bid eb lsB u1 pid q1 q2 u2 ups.
Hypothesis Hc4 : forall j, j ∉ [aid; bid; pid] -> c4 j = c j.

Lemma lpair_heads : leaf_head <$> ls = h1 ++ (aid, ka) :: (bid, kb) :: h2.
Proof. rewrite fmap_app. cbn [fmap list_fmap]. by rewrite (lp_headsA _ _ _ _ _ _ _ _ _ _ _ _ _ _ Hlp), (lp_headsB _ _ _ _ _ _ _ _ _ _ _ _ _ _ Hlp). Qed.

Lemma lpair_ids x : x ∈ ls.*1 <-> x ∈ lsA.*1 \/ x = aid \/ x = bid \/ x ∈ lsB.*1.
Proof. rewrite !fmap_app, !elem_of_app. cbn. rewrite !elem_of_cons. tauto. Qed.

Lemma lpair_pid : pid ∈ up_ids (up :: ups).
Proof. rewrite up_ids_cons, elem_of_app. left. rewrite fmap_app. apply elem_of_app. right. left. Qed.

Lemma lpair_above : above (config_ t) c (h1 ++ (aid, ka) :: (bid, kb) :: h2) (up :: ups).
Proof. rewrite <- lpair_heads. exact (tree_above _ _ _ _ (lp_tree _ _ _ _ _ _ _ _ _ _ _ _ _ _ Hlp)). Qed.

Lemma lpair_apart :
  (forall x, x ∈ ls.*1 -> x ∉ up_ids (up :: ups)) /\ (aid ∉ lsA.*1) /\ (aid ∉ lsB.*1) /\ (bid ∉ lsA.*1) /\ (bid ∉ lsB.*1) /\ aid <> bid /\
  aid <> pid /\ bid <> pid /\ (metadata_page_id_ t ∉ ls.*1 ++ up_ids (up :: ups)).
Proof.
  pose proof (lp_tree _ _ _ _ _ _ _ _ _ _ _ _ _ _ Hlp) as [[_ _ _ _ _ Hnd _] _ _ [_ Hm] _ _]. apply list.NoDup_app in Hnd as (Hndl & Hd & _). pose proof Hndl as Hndl'. rewrite fmap_app in Hndl'. cbn in Hndl'.
  apply list.NoDup_app in Hndl' as (_ & Hx & Hndl'). apply list.NoDup_cons in Hndl' as [Ha Hndl']. apply list.NoDup_cons in Hndl' as [Hb _]. rewrite not_elem_of_cons in Ha. destruct Ha as [Hab Ha].
  assert (pid ∉ ls.*1) as Hp by (intros Hp; apply (Hd pid Hp), lpair_pid). split_and!; try done.
  - intros Hy. apply (Hx aid Hy). left.
  - intros Hy. apply (Hx bid Hy). right. left.
  - intros E. apply Hp. rewrite <- E. apply lpair_ids. tauto.
  - intros E. apply Hp. rewrite <- E. apply lpair_ids. tauto.
Qed.

Lemma lpair_up_same j : j ∈ up_ids (up :: ups) -> j <> pid -> c4 j = c j.
Proof.
  intros Hj Hp. destruct lpair_apart as (Hd & _). apply Hc4. rewrite !not_elem_of_cons. split_and!; [| |done|by apply not_elem_of_nil]; intros ->; (eapply Hd; [|exact Hj]); apply lpair_ids; tauto.
Qed.

Lemma lpair_outside j : j ∉ ls.*1 ++ up_ids (up :: ups) -> c4 j = c j.
Proof.
  rewrite not_elem_of_app, lpair_ids. intros [Hj1 Hj2]. apply Hc4. rewrite !not_elem_of_cons. split_and!; [tauto|tauto| |by apply not_elem_of_nil]. intros ->. apply Hj2, lpair_pid.
Qed.

Lemma lpair_other x : x ∈ lsA.*1 \/ x ∈ lsB.*1 -> nodes (config_ t) c4 x = nodes (config_ t) c x.
Proof.
  intros Hx. destruct lpair_apart as (Hd & Ha1 & Ha2 & Hb1 & Hb2 & _). apply nodes_ext, Hc4. rewrite !not_elem_of_cons. split_and!; [intros ->; tauto|intros ->; tauto| |by apply not_elem_of_nil].
  intros ->. apply (Hd pid); [apply lpair_ids; tauto|apply lpair_pid].
Qed.

Lemma lpair_par x : x = aid \/ x = bid -> parent_in up x = pid.
Proof.
  intros Hx. pose proof lpair_above as [_ (Hcc & _) _ _ Hnd _]. apply list.NoDup_app in Hnd as (Hnd & _). rewrite Hcc in Hnd.
  apply (parent_in_elem _ (pid, q1 ++ (aid, ka) :: (bid, kb) :: q2) x Hnd); [apply elem_of_app; right; left|]. cbn. rewrite fmap_app, elem_of_app. right. cbn. rewrite !elem_of_cons. tauto.
Qed.

Lemma lpair_par_u64 x : is_u64 (parent_in up x).
Proof. apply (par_u64 (up :: ups)). exact (ab_ids _ _ _ _ lpair_above). Qed.

(** The leaves behind the two, and the leaves before them. *)
Lemma lpair_leaves x l : x.1 = aid -> rep_leaves (nodes (config_ t) c4) (parent_in up) (x :: l) -> rep_leaves (nodes (config_ t) c4) (parent_in up) (lsA ++ x :: l).
Proof.
  destruct x as [i e]. cbn. intros -> Hr. eapply rep_leaves_tail; [exact (to_leaves _ _ _ _ (lp_tree _ _ _ _ _ _ _ _ _ _ _ _ _ _ Hlp))| |exact Hr].
  intros x Hx. split; [|done]. apply lpair_other. by left.
Qed.

Lemma lpair_tail : rep_leaves (nodes (config_ t) c4) (parent_in up) lsB.
Proof.
  pose proof (to_leaves _ _ _ _ (lp_tree _ _ _ _ _ _ _ _ _ _ _ _ _ _ Hlp)) as Hr. apply rep_leaves_drop in Hr as (_ & _ & Hr). eapply rep_leaves_same; [exact Hr|].
  intros x Hx. split; [|done]. apply lpair_other. by right.
Qed.
Lemma lpair_sizes l : (forall x, x ∈ l -> leaf_ok (config_ t) true x.2) -> Forall (fun x => leaf_ok (config_ t) (many (lsA ++ l ++ lsB)) x.2) (lsA ++ l ++ lsB).
Proof.
  intros Hl. pose proof (sp_leaves _ _ _ (to_shape _ _ _ _ (lp_tree _ _ _ _ _ _ _ _ _ _ _ _ _ _ Hlp))) as Hlv.
  assert (many ls = true) as Hm by (apply many_true; rewrite length_app; cbn; lia). rewrite Hm in Hlv. rewrite list.Forall_forall in Hlv.
  apply list.Forall_forall. intros x Hx. assert (leaf_ok (config_ t) true x.2) as [Hx1 Hx2]; [|by split; [|intros _; apply Hx2]].
  rewrite !elem_of_app in Hx. destruct Hx as [Hx|[Hx|Hx]]; [apply Hlv, elem_of_app; by left|by apply Hl|apply Hlv, elem_of_app; right; by do 2 right].
Qed.

Lemma lpair_ids_ok l : (forall x, x ∈ l.*1 -> x = aid \/ x = bid) -> Forall id_ok (lsA ++ l ++ lsB).*1 /\ forall j, j ∈ (lsA ++ l ++ lsB).*1 -> j ∈ ls.*1.
Proof.
  intros Hl. pose proof (sp_ids _ _ _ (to_shape _ _ _ _ (lp_tree _ _ _ _ _ _ _ _ _ _ _ _ _ _ Hlp))) as [Hi _]%Forall_app.
  assert (forall j, j ∈ (lsA ++ l ++ lsB).*1 -> j ∈ ls.*1) as Hsub. { intros j. rewrite lpair_ids, !fmap_app, !elem_of_app. intros [?|[?%Hl|?]]; tauto. }
  split; [|exact Hsub]. rewrite list.Forall_forall in *. intros x Hx. by apply Hi, Hsub.
Qed.

(** The leaves know their parents. *)
Lemma lpair_below l :
  rep_leaves (nodes (config_ t) c4) (parent_in up) (lsA ++ l ++ lsB) -> (forall x, x ∈ l -> leaf_ok (config_ t) true x.2) -> (forall x, x ∈ l.*1 -> x = aid \/ x = bid) ->
  Forall entry_ok (entries (lsA ++ l ++ lsB)) -> below (config_ t) c4 (leaf_head <$> (lsA ++ l ++ lsB)) (up :: ups).
Proof.
  intros Hr Hl Hid He x. rewrite leaf_head_ids. apply (rep_below _ _ (parent_in up)); [done| |done|by apply lpair_ids_ok|exact lpair_par_u64].
  eapply list.Forall_impl; [by apply lpair_sizes|]. by intros y [].
Qed.

(** *** Entries shared anew *)

Lemma lshift_rep ea' eb' :
  nodes (config_ t) c4 aid = Some (leaf_node pid bid ea') -> nodes (config_ t) c4 bid = Some (leaf_node pid (next_id lsB) eb') ->
  rep_leaves (nodes (config_ t) c4) (parent_in up) (lsA ++ [(aid, ea'); (bid, eb')] ++ lsB).
Proof.
  intros Ha Hb. apply (lpair_leaves (aid, ea')); [done|]. split; [|split; [|exact lpair_tail]]; cbn [fst snd next_id]; rewrite lpair_par by tauto; done.
Qed.

Lemma lshift_above kb' :
  is_s64 kb' -> nodes (config_ t) c4 pid = Some (inner_node (par ups pid) (q1 ++ (aid, ka) :: (bid, kb') :: q2)) ->
  above (config_ t) c4 (h1 ++ (aid, ka) :: (bid, kb') :: h2) ((u1 ++ (pid, q1 ++ (aid, ka) :: (bid, kb') :: q2) :: u2) :: ups).
Proof.
  intros Hk Hn. pose proof lpair_above as Hab.
  assert (h1 ++ (aid, ka) :: (bid, kb) :: h2 = (concat u1.*2 ++ (q1 ++ [(aid, ka)])) ++ (bid, kb) :: q2 ++ concat u2.*2) as E by (by rewrite <- !app_assoc).
  assert (q1 ++ (aid, ka) :: (bid, kb) :: q2 = (q1 ++ [(aid, ka)]) ++ (bid, kb) :: q2) as E2 by (by rewrite <- app_assoc). rewrite E, E2 in Hab.
  destruct (above_assign _ _ _ _ _ _ _ _ _ _ _ Hab Hk) as [_ Hnew]; [by destruct q1|].
  assert (h1 ++ (aid, ka) :: (bid, kb') :: h2 = concat u1.*2 ++ (q1 ++ [(aid, ka)]) ++ (bid, kb') :: q2 ++ concat u2.*2) as -> by (rewrite <- !app_assoc; done).
  assert (q1 ++ (aid, ka) :: (bid, kb') :: q2 = (q1 ++ [(aid, ka)]) ++ (bid, kb') :: q2) as E3 by (by rewrite <- app_assoc). rewrite E3 in *.
  apply Hnew; [done|]. intros j Hj Hne. rewrite <- E2 in Hj. by apply lpair_up_same.
Qed.

Lemma lshift_shrunk c5 ka' kb' ups' ups5 ea' eb' :
  leaf_head (aid, ea') = (aid, ka') -> leaf_head (bid, eb') = (bid, kb') ->
  below (config_ t) c4 (leaf_head <$> (lsA ++ [(aid, ea'); (bid, eb')] ++ lsB)) (up :: ups) ->
  above (config_ t) c5 (h1 ++ (aid, ka') :: (bid, kb') :: h2) ((u1 ++ (pid, q1 ++ (aid, ka') :: (bid, kb') :: q2) :: u2) :: ups5) ->
  up_ids ups5 = up_ids ups' -> up_ids ups' = up_ids ups -> root (heads (u1 ++ (pid, q1 ++ (aid, ka') :: (bid, kb') :: q2) :: u2)) ups5 = root (heads up) ups ->
  (forall j, j ∉ up_ids ups -> c5 j = c4 j) ->
  shrunk t t c4 c5 (leaf_head <$> (lsA ++ [(aid, ea'); (bid, eb')] ++ lsB)) (up_ids (up :: ups)) ((u1 ++ (pid, q1 ++ (aid, ka') :: (bid, kb') :: q2) :: u2) :: ups5).
Proof.
  intros Ea Eb Hbel Hab E1 E2 Er Hc5. pose proof lpair_apart as (Hd & _ & _ & _ & _ & _ & _ & _ & Hm).
  assert (leaf_head <$> (lsA ++ [(aid, ea'); (bid, eb')] ++ lsB) = h1 ++ (aid, ka') :: (bid, kb') :: h2) as Eh.
  { rewrite fmap_app. cbn [app fmap list_fmap]. by rewrite Ea, Eb, (lp_headsA _ _ _ _ _ _ _ _ _ _ _ _ _ _ Hlp), (lp_headsB _ _ _ _ _ _ _ _ _ _ _ _ _ _ Hlp). }
  assert ((leaf_head <$> (lsA ++ [(aid, ea'); (bid, eb')] ++ lsB)).*1 = ls.*1) as Ei by (rewrite leaf_head_ids, !fmap_app; done).
  apply shrunk_same.
  - by rewrite Eh.
  - rewrite (to_root _ _ _ _ (lp_tree _ _ _ _ _ _ _ _ _ _ _ _ _ _ Hlp)). cbn [root]. by rewrite Er.
  - intros x Hx. destruct (Hbel x Hx) as (n & Hn & Hok & Hp). exists n. split_and!; [done|done|]. rewrite Hp. cbn [par]. symmetry. apply parent_in_same. by rewrite !fmap_app.
  - intros j. rewrite !up_ids_cons, E1, E2, !fmap_app. done.
  - intros j Hj. apply nodes_ext, Hc5. rewrite Ei in Hj. intros Hx. apply (Hd j Hj). rewrite up_ids_cons. apply elem_of_app. by right.
  - intros j. rewrite up_ids_cons, !not_elem_of_app. intros (_ & _ & Hj). by apply Hc5.
  - by rewrite Ei.
Qed.

(** *** One leaf for both *)

Lemma lmerge_rep eab : nodes (config_ t) c4 aid = Some (leaf_node pid (next_id lsB) eab) -> rep_leaves (nodes (config_ t) c4) (parent_in up) (lsA ++ [(aid, eab)] ++ lsB).
Proof. intros Ha. apply (lpair_leaves (aid, eab)); [done|]. split; [|exact lpair_tail]. cbn [fst snd]. rewrite lpair_par by tauto. done. Qed.

Lemma lmerge_sagging :
  below (config_ t) c4 (h1 ++ (aid, ka) :: h2) (up :: ups) ->
  nodes (config_ t) c4 pid = Some (inner_node (par ups pid) (q1 ++ (aid, ka) :: q2)) ->
  sagging t c4 (h1 ++ (aid, ka) :: h2) u1 pid (q1 ++ (aid, ka) :: q2) u2 ups.
Proof.
  intros Hbel Hn. pose proof lpair_apart as (_ & _ & _ & _ & _ & _ & _ & _ & Hm). pose proof (lp_tree _ _ _ _ _ _ _ _ _ _ _ _ _ _ Hlp) as [_ Hroot (d & Hd & _) [Hmi Hmn] _ _].
  apply (above_delete t c c4 _ _ _ _ _ bid kb); [exact lpair_above|exact Hbel| |done|by rewrite lpair_outside, Hd|by rewrite <- lpair_heads|exact Hn|exact lpair_up_same].
  by rewrite <- lpair_heads, leaf_head_ids.
Qed.

End leafpair.
(** The smallest key of the group changes together with the levels above. *)
Lemma sagging_retag t c c' u1 pid id k k' q2 u2 ups ups' :
  sagging t c (concat u1.*2 ++ (id, k) :: q2 ++ concat u2.*2) u1 pid ((id, k) :: q2) u2 ups -> is_s64 k' ->
  above (config_ t) c' (heads u1 ++ (pid, k') :: heads u2) ups' ->
  retagged (heads u1 ++ (pid, k) :: heads u2) (heads u1 ++ (pid, k') :: heads u2) ups ups' -> (forall j, j ∉ up_ids ups -> c' j = c j) ->
  sagging t c' (concat u1.*2 ++ (id, k') :: q2 ++ concat u2.*2) u1 pid ((id, k') :: q2) u2 ups'.
Proof.
  intros [Hcc Hh Hi Hnd Hrep HL HR Hs Hmany Hab Hbel [Hm Hmc] Hr] Hk Hab' [R1 R2 R3 R4] Hc.
  assert ((u1 ++ (pid, (id, k') :: q2) :: u2).*1 = (u1 ++ (pid, (id, k) :: q2) :: u2).*1) as Ei by (by rewrite !fmap_app).
  assert ((concat u1.*2 ++ (id, k') :: q2 ++ concat u2.*2).*1 = (concat u1.*2 ++ (id, k) :: q2 ++ concat u2.*2).*1) as Eh by (by rewrite !fmap_app).
  pose proof (many_replace u1 (pid, (id, k') :: q2) (pid, (id, k) :: q2) u2) as Em. pose proof Hnd as [Hmn Hnd']%list.NoDup_cons. rewrite up_ids_cons in Hnd', Hmn. apply list.NoDup_app in Hnd' as (_ & Hd & Hnd').
  pose proof Hnd' as (Hndl & Hdl & _)%list.NoDup_app. split; rewrite ?Em; try done.
  - by rewrite concat_parts.
  - by eapply heads_ok_replace.
  - by rewrite Ei.
  - rewrite up_ids_cons, Ei, Eh, R1. by rewrite up_ids_cons in Hnd.
  - intros i g Hin. assert (i ∈ (u1 ++ (pid, (id, k) :: q2) :: u2).*1) as Hin' by (rewrite <- Ei; by apply (list_elem_of_fmap_2 fst _ (i, g))).
    rewrite (nodes_ext _ c) by (apply Hc; by apply Hdl). rewrite R2. rewrite fmap_app in Hndl. cbn in Hndl. apply list.NoDup_app in Hndl as (_ & Hx & Hndl). apply list.NoDup_cons in Hndl as [Hx2 _].
    destruct (elem_replace u1 pid ((id, k) :: q2) _ u2 i g Hin) as [[-> ->]|[_ Hin2]]; [intros Hy; apply (Hx pid Hy); left|done| |by apply Hrep].
    rewrite (Hrep pid ((id, k) :: q2)); [done|apply elem_of_app; right; left].
  - by rewrite fmap_app.
  - intros x Hx. rewrite Eh in Hx. destruct (Hbel x Hx) as (n & Hn & Hok & Hp). exists n. split_and!; [|done|].
    + rewrite (nodes_ext _ c); [done|]. apply Hc. specialize (Hd x Hx). rewrite not_elem_of_app in Hd. tauto.
    + rewrite Hp. cbn [par]. symmetry. by apply parent_in_same.
  - split; [done|]. rewrite Hc; [done|]. rewrite !not_elem_of_app in Hmn. tauto.
  - rewrite Hr, !fmap_app. symmetry. exact R3.
Qed.

Lemma entries_two lsA aid x bid y lsB : entries (lsA ++ [(aid, x); (bid, y)] ++ lsB) = entries lsA ++ (x ++ y) ++ entries lsB.
Proof. unfold entries. rewrite fmap_app, concat_app. cbn. by rewrite <- app_assoc. Qed.
Lemma entries_one lsA aid x lsB : entries (lsA ++ [(aid, x)] ++ lsB) = entries lsA ++ x ++ entries lsB.
Proof. unfold entries. by rewrite fmap_app, concat_app. Qed.

Lemma leaf_view t c lsA aid ea bid eb lsB u1 pid q1 q2 u2 ups :
  leaf_paired t c lsA aid ea bid eb lsB u1 pid q1 q2 u2 ups ->
  config_ok (config_ t) = true /\ id_ok aid /\ id_ok bid /\ id_ok pid /\ is_u64 (next_id lsB) /\ is_u64 (par ups pid) /\
  nodes (config_ t) c aid = Some (leaf_node pid bid ea) /\ nodes (config_ t) c bid = Some (leaf_node pid (next_id lsB) eb) /\
  nodes (config_ t) c pid = Some (inner_node (par ups pid) (q1 ++ (aid, (leaf_head (aid, ea)).2) :: (bid, (leaf_head (bid, eb)).2) :: q2)) /\
  Forall head_ok (q1 ++ (aid, (leaf_head (aid, ea)).2) :: (bid, (leaf_head (bid, eb)).2) :: q2) /\ 2 <= zlen (q1 ++ (aid, (leaf_head (aid, ea)).2) :: (bid, (leaf_head (bid, eb)).2) :: q2) <= internal_max_keys (config_ t) + 1 /\
  (aid ∉ q1.*1) /\ (bid ∉ (q1 ++ [(aid, (leaf_head (aid, ea)).2)]).*1) /\ leaf_ok (config_ t) true ea /\ leaf_ok (config_ t) true eb.
Proof.
  intros Hlp. pose proof (lp_tree _ _ _ _ _ _ _ _ _ _ _ _ _ _ Hlp) as Hok. pose proof (lpair_above _ _ _ _ _ _ _ _ _ _ _ _ _ _ Hlp) as [Hcfg (Hcc' & Hg & _) Hh' Hi' Hnd' [Hrep' _]]. rewrite up_ids_cons in Hi'. apply Forall_app in Hi' as [Hil' Hiu].
  assert ((pid, q1 ++ (aid, (leaf_head (aid, ea)).2) :: (bid, (leaf_head (bid, eb)).2) :: q2) ∈ u1 ++ (pid, q1 ++ (aid, (leaf_head (aid, ea)).2) :: (bid, (leaf_head (bid, eb)).2) :: q2) :: u2) as HP by (apply elem_of_app; right; left). pose proof (proj1 (list.Forall_forall _ _) Hg _ HP) as HgP. rewrite list.Forall_forall in Hil'.
  destruct (tree_leaf _ _ _ _ _ _ _ Hok) as (Hia & Hna & _ & _ & _ & Hla & _). cbn [par] in Hna. rewrite (lpair_par _ _ _ _ _ _ _ _ _ _ _ _ _ _ Hlp) in Hna by tauto.
  pose proof Hok as Hok'. assert (lsA ++ (aid, ea) :: (bid, eb) :: lsB = (lsA ++ [(aid, ea)]) ++ (bid, eb) :: lsB) as E by (by rewrite <- app_assoc). rewrite E in Hok'.
  destruct (tree_leaf _ _ _ _ _ _ _ Hok') as (Hib & Hnb & _ & Hnx & _ & Hlb & _). cbn [par] in Hnb. rewrite (lpair_par _ _ _ _ _ _ _ _ _ _ _ _ _ _ Hlp) in Hnb by tauto. rewrite <- E in Hlb.
  assert (many (lsA ++ (aid, ea) :: (bid, eb) :: lsB) = true) as Hm by (apply many_true; rewrite length_app; cbn; lia). rewrite Hm in Hla, Hlb. rewrite Hcc' in Hh', Hnd'. split_and!; try done.
  - apply Hil'. by apply (list_elem_of_fmap_2 fst (u1 ++ (pid, q1 ++ (aid, (leaf_head (aid, ea)).2) :: (bid, (leaf_head (bid, eb)).2) :: q2) :: u2) (pid, q1 ++ (aid, (leaf_head (aid, ea)).2) :: (bid, (leaf_head (bid, eb)).2) :: q2)).
  - by apply par_u64.
  - exact (Hrep' _ _ HP).
  - exact (level_head_ok _ _ Hh' HP).
  - apply HgP.
  - apply HgP.
  - apply list.NoDup_app in Hnd' as (Hnd' & _). rewrite concat_parts, !fmap_app in Hnd'. apply list.NoDup_app in Hnd' as (_ & _ & Hnd'). apply list.NoDup_app in Hnd' as (Hnd' & _).
    cbn [snd] in Hnd'. rewrite fmap_app in Hnd'. cbn in Hnd'. apply list.NoDup_app in Hnd' as (_ & Hx & _). intros Hy. apply (Hx aid Hy). left.
  - apply list.NoDup_app in Hnd' as (Hnd' & _). rewrite concat_parts, !fmap_app in Hnd'. apply list.NoDup_app in Hnd' as (_ & _ & Hnd'). apply list.NoDup_app in Hnd' as (Hnd' & _).
    cbn [snd] in Hnd'. rewrite fmap_app in Hnd'. cbn in Hnd'. apply list.NoDup_app in Hnd' as (_ & Hx & Hnd'). apply list.NoDup_cons in Hnd' as [Ha _]. rewrite not_elem_of_cons in Ha.
    rewrite fmap_app, elem_of_app. intros [Hy|Hy]; [apply (Hx bid Hy); right; left|]. cbn in Hy. rewrite list_elem_of_singleton in Hy. naive_solver.
Qed.

Section rebalance_leaf.
Context {W : Type} `{PageAccessLaws W} (L : Prop) (held : PageId -> Z).
Implicit Types (w : W) (t : Tree) (c : PageId -> option bytes).
Abbreviation store := (store L held).

(** What removing promises. *)
Definition reduced t c ls ups (es : list Entry) (f : Z) (s : Tree * W) : Prop :=
  exists t' w' c' ls' ups', s = (t', w') /\ store w' c' f /\ became t c ls ups t' c' ls' ups' /\ entries ls' = es /\ (length ups' <= length ups)%nat /\ (length ls' <= length ls)%nat.
(** Three nodes written after a leaf. *)
Lemma three_writes cfg c x nx y ny p np :
  config_ok cfg = true -> node_ok cfg nx -> node_ok cfg ny -> node_ok cfg np -> x <> y -> x <> p -> y <> p ->
  nodes cfg (put (put (put c x (node_bytes nx)) y (node_bytes ny)) p (node_bytes np)) x = Some nx /\
  nodes cfg (put (put (put c x (node_bytes nx)) y (node_bytes ny)) p (node_bytes np)) y = Some ny /\
  nodes cfg (put (put (put c x (node_bytes nx)) y (node_bytes ny)) p (node_bytes np)) p = Some np /\
  forall j, j ∉ [x; y; p] -> put (put (put c x (node_bytes nx)) y (node_bytes ny)) p (node_bytes np) j = c j.
Proof.
  intros Hc H1 H2 H3 Hxy Hxp Hyp. rewrite !nodes_put by done.
  split_and!; try (intros j Hj; rewrite !not_elem_of_cons in Hj; unfold put; by rewrite !decide_False by tauto); repeat first [rewrite decide_True by done|rewrite decide_False by congruence]; done.
Qed.

Lemma leaf_sizes cfg : config_ok cfg = true -> 1 <= leaf_min cfg /\ 2 * leaf_min cfg - 1 <= leaf_max_keys cfg.
Proof.
  intros Hc. split; [by apply leaf_min_pos|]. apply config_bounds in Hc. unfold leaf_min. pose proof (Z.div_mod (leaf_max_keys cfg + 1) 2 ltac:(lia)).
  pose proof (Z.mod_pos_bound (leaf_max_keys cfg + 1) 2 ltac:(lia)). lia.
Qed.

Lemma two_members (x : PageId) (a b : PageId) (ea eb : list Entry) : x ∈ [(a, ea); (b, eb)].*1 -> x = a \/ x = b.
Proof. cbn. rewrite !elem_of_cons. intros [?|[?|?%not_elem_of_nil]]; tauto. Qed.
Lemma one_member (x : PageId) (a b : PageId) (ea : list Entry) : x ∈ [(a, ea)].*1 -> x = a \/ x = b.
Proof. cbn. rewrite !elem_of_cons. intros [?|?%not_elem_of_nil]; tauto. Qed.

(** The level above after a merge. *)
Lemma leaf_merge_spec t c c4 c5 f lsA aid ea bid eb lsB u1 pid q1 q2 u2 ups ups5 eab g fuel w :
  leaf_paired t c lsA aid ea bid eb lsB u1 pid q1 q2 u2 ups -> (forall j, j ∉ [aid; bid; pid] -> c4 j = c j) ->
  nodes (config_ t) c4 aid = Some (leaf_node pid (next_id lsB) eab) -> leaf_ok (config_ t) true eab ->
  increasing (entries (lsA ++ [(aid, eab)] ++ lsB)).*1 -> Forall entry_ok (entries (lsA ++ [(aid, eab)] ++ lsB)) ->
  sagging t c5 (leaf_head <$> (lsA ++ [(aid, eab)] ++ lsB)) u1 pid g u2 ups5 -> up_ids ups5 = up_ids ups -> length ups5 = length ups -> (forall j, j ∉ up_ids ups -> c5 j = c4 j) ->
  store w c5 f -> (S (length ups) < fuel)%nat ->
  wpo L (rebalance_internal fuel pid) (t, w) (fun _ => reduced t c (lsA ++ (aid, ea) :: (bid, eb) :: lsB)
    ((u1 ++ (pid, q1 ++ leaf_head (aid, ea) :: leaf_head (bid, eb) :: q2) :: u2) :: ups) (entries (lsA ++ [(aid, eab)] ++ lsB)) f).
Proof.
  intros Hlp Hc4 Hna Hl Hs He Hsg Eu El Hc5 Hst Hf. wpo_use rebalance_internal_spec; [exact Hsg|exact Hst|lia|]. intros [] ? (t' & w6 & c6 & ups6 & -> & Hst6 & Hsk & Hl6).
  assert (forall x, x ∈ [(aid, eab)] -> leaf_ok (config_ t) true x.2) as Hsz by (intros x ->%list_elem_of_singleton; done).
  destruct (lpair_ids_ok t c lsA aid ea bid eb lsB u1 pid q1 q2 u2 ups Hlp [(aid, eab)]) as [_ Hsub]; [intros x; apply one_member|].
  destruct (lpair_apart _ _ _ _ _ _ _ _ _ _ _ _ _ _ Hlp) as (Hd & _).
  exists t', w6, c6, (lsA ++ [(aid, eab)] ++ lsB), ups6. split_and!; [done|exact Hst6| |done|cbn [length]; lia|rewrite !length_app; cbn; lia].
  eapply (leaves_became _ _ _ _ _ c5); [exact (lp_tree _ _ _ _ _ _ _ _ _ _ _ _ _ _ Hlp)| | |by eapply lpair_sizes|exact Hs|exact He|exact Hsub|].
  - assert (up_ids ((u1 ++ (pid, q1 ++ leaf_head (aid, ea) :: leaf_head (bid, eb) :: q2) :: u2) :: ups) = (u1 ++ (pid, g) :: u2).*1 ++ up_ids ups5) as -> by (by rewrite up_ids_cons, Eu, !fmap_app). exact Hsk.
  - eapply rep_leaves_same; [exact (lmerge_rep _ _ _ _ _ _ _ _ _ _ _ _ _ _ _ Hlp Hc4 eab Hna)|]. intros x Hx%Hsub. split; [|reflexivity]. apply nodes_ext, Hc5. intros Hy. apply (Hd x Hx). rewrite up_ids_cons. apply elem_of_app. by right.
  - intros j Hj. rewrite Hc5; [eapply lpair_outside; [exact Hc4|exact Hj]|]. rewrite up_ids_cons, !not_elem_of_app in Hj. tauto.
Qed.

Lemma lmerge_below t c c4 lsA aid ea bid eb lsB u1 pid q1 q2 u2 ups eab :
  leaf_paired t c lsA aid ea bid eb lsB u1 pid q1 q2 u2 ups -> (forall j, j ∉ [aid; bid; pid] -> c4 j = c j) ->
  nodes (config_ t) c4 aid = Some (leaf_node pid (next_id lsB) eab) -> leaf_ok (config_ t) true eab -> Forall entry_ok (entries (lsA ++ [(aid, eab)] ++ lsB)) ->
  below (config_ t) c4 ((concat u1.*2 ++ q1) ++ (aid, (leaf_head (aid, ea)).2) :: (q2 ++ concat u2.*2))
    ((u1 ++ (pid, q1 ++ (aid, (leaf_head (aid, ea)).2) :: (bid, (leaf_head (bid, eb)).2) :: q2) :: u2) :: ups).
Proof.
  intros Hlp Hc4 Hna Hl He. pose proof (lpair_below _ _ _ _ _ _ _ _ _ _ _ _ _ _ _ Hlp _ (lmerge_rep _ _ _ _ _ _ _ _ _ _ _ _ _ _ _ Hlp Hc4 eab Hna)
    ltac:(intros x Hx; apply list_elem_of_singleton in Hx as ->; exact Hl) ltac:(intros x; apply one_member) He) as Hbel.
  intros x Hx. apply Hbel. rewrite leaf_head_ids. rewrite <- (lp_headsA _ _ _ _ _ _ _ _ _ _ _ _ _ _ Hlp), <- (lp_headsB _ _ _ _ _ _ _ _ _ _ _ _ _ _ Hlp) in Hx.
  rewrite !fmap_app in *. cbn in *. by rewrite !leaf_head_ids in Hx.
Qed.

(** The deficient leaf takes an entry from the left, or is merged into it. *)
Lemma rebalance_leaf_left_spec t c c1 f lsA aid ea bid eb lsB u1 pid q1 q2 u2 ups fuel w es :
  leaf_paired t c lsA aid ea bid eb lsB u1 pid q1 q2 u2 ups -> store w c1 f -> (S (length ups) < fuel)%nat ->
  (forall j, j <> bid -> c1 j = c j) -> nodes (config_ t) c1 bid = Some (leaf_node pid (next_id lsB) es) -> zlen es = leaf_min (config_ t) - 1 ->
  increasing (entries (lsA ++ [(aid, ea); (bid, es)] ++ lsB)).*1 -> Forall entry_ok (entries (lsA ++ [(aid, ea); (bid, es)] ++ lsB)) ->
  wpo L (rebalance_leaf fuel bid) (t, w) (fun _ => reduced t c (lsA ++ (aid, ea) :: (bid, eb) :: lsB)
    ((u1 ++ (pid, q1 ++ leaf_head (aid, ea) :: leaf_head (bid, eb) :: q2) :: u2) :: ups) (entries (lsA ++ [(aid, ea); (bid, es)] ++ lsB)) f).
Proof.
  intros Hlp Hst Hf Hc1 Hnb1 Hles Hs He. destruct (leaf_view _ _ _ _ _ _ _ _ _ _ _ _ _ _ Hlp) as (Hcfg & Hia & Hib & Hip & Hnx & Hpu & Hna & Hnb & Hnp & HhP & HsP & Hq1 & Hq2 & [Hea1 Hea2] & Heb). specialize (Hea2 eq_refl).
  destruct (lpair_apart _ _ _ _ _ _ _ _ _ _ _ _ _ _ Hlp) as (Hd & Ha1 & Ha2 & Hb1 & Hb2 & Hab & Hap & Hbp & _). destruct (leaf_sizes _ Hcfg) as [Hmin1 Hmin2].
  set (ka := (leaf_head (aid, ea)).2) in *. set (kb := (leaf_head (bid, eb)).2) in *.
  assert (nodes (config_ t) c1 aid = Some (leaf_node pid bid ea)) as Hna1 by (rewrite (nodes_ext _ c); [done|by apply Hc1]).
  assert (nodes (config_ t) c1 pid = Some (inner_node (par ups pid) (q1 ++ (aid, ka) :: (bid, kb) :: q2))) as Hnp1 by (rewrite (nodes_ext _ c); [done|by apply Hc1, not_eq_sym]).
  assert (Forall entry_ok ea /\ Forall entry_ok es) as [Heaok Hesok] by (rewrite entries_two in He; apply Forall_app in He as [_ He]; apply Forall_app in He as [He _]; by apply Forall_app in He).
  unfold rebalance_leaf. apply wpo_bind, wpo_run. wpl_use read_node_spec; [exact Hst|exact Hib|exact Hnb1|]. intros n ? (-> & w1 & -> & Hst1). cbn [leaf_node parent keys values next children leaf].
  apply wpo_bind, wpo_run. wpl_use read_node_spec; [exact Hst1|exact Hip|exact Hnp1|]. intros n ? (-> & w2 & -> & Hst2). unfold this. apply wpo_bind, wpo_run. wpl_step. cbn [fst]. cbn [inner_node keys children values].
  assert (q1 ++ (aid, ka) :: (bid, kb) :: q2 = (q1 ++ [(aid, ka)]) ++ (bid, kb) :: q2) as EP by (by rewrite <- app_assoc).
  assert (q1 ++ [(aid, ka)] <> []) as Hne by (by destruct q1). assert (length (q1 ++ [(aid, ka)]) = S (length q1)) as Elen by (rewrite length_app; cbn; lia).
  assert (find_at (q1 ++ (aid, ka) :: (bid, kb) :: q2).*1 bid = S (length q1)) as -> by (rewrite EP, fmap_app; cbn [fmap list_fmap fst]; rewrite find_at_app by done; by rewrite length_fmap, Elen).
  rewrite decide_True by lia. replace (S (length q1) - 1)%nat with (length q1) by lia.
  apply wpo_bind. eapply wpo_opt; [rewrite fmap_app; apply lookup_mid; by rewrite length_fmap|].
  apply wpo_bind, wpo_run. wpl_use read_node_spec; [exact Hst2|exact Hia|exact Hna1|]. intros n ? (-> & w3 & -> & Hst3). cbn [leaf_node parent keys values next children leaf]. rewrite length_fmap.
  destruct (Z.ltb_spec (leaf_min (config_ t)) (zlen ea)) as [Hlt|Hge].
  - destruct ea as [|e ea' _] using rev_ind; [cbn in Hlt; lia|]. rewrite length_app in Hlt, Hea1. cbn in Hlt, Hea1. apply Forall_app in Heaok as [Hea'ok Heok]. apply list.Forall_cons in Heok as [Heok _].
    assert (ea' <> []) as Hne' by (intros ->; cbn in Hlt; lia).
    apply wpo_bind. eapply wpo_opt; [rewrite fmap_app; apply last_snoc|]. apply wpo_bind. eapply wpo_opt; [rewrite fmap_app; apply last_snoc|].
    apply wpo_bind. eapply wpo_opt; [rewrite fmap_app; apply pop_back_snoc|]. apply wpo_bind. eapply wpo_opt; [rewrite fmap_app; apply pop_back_snoc|].
    assert (assign_at (length q1) e.1 (seps (q1 ++ (aid, ka) :: (bid, kb) :: q2)) = Some (seps (q1 ++ (aid, ka) :: (bid, e.1) :: q2))) as Has.
    { pose proof (seps_assign _ (bid, kb) (bid, e.1) q2 Hne) as Hx. rewrite Elen in Hx. replace (S (length q1) - 1)%nat with (length q1) in Hx by lia. by rewrite <- !app_assoc in Hx. }
    apply wpo_bind. eapply wpo_opt; [exact Has|].
    assert (leaf_ok (config_ t) true ea') as HlA by (split; [|intros _]; lia). assert (leaf_ok (config_ t) true (e :: es)) as HlB by (split; [|intros _]; cbn [length]; lia).
    assert (node_ok (config_ t) (leaf_node pid bid ea')) as Hok1 by (eapply leaf_node_ok; [exact HlA|done|apply Hip|apply Hib]).
    assert (node_ok (config_ t) (leaf_node pid (next_id lsB) (e :: es))) as Hok2 by (eapply leaf_node_ok; [exact HlB|by apply list.Forall_cons|apply Hip|done]).
    assert (node_ok (config_ t) (inner_node (par ups pid) (q1 ++ (aid, ka) :: (bid, e.1) :: q2))) as Hok3.
    { apply inner_node_ok; [rewrite length_app in *; cbn in *; lia| |done]. rewrite EP in HhP. replace (q1 ++ (aid, ka) :: (bid, e.1) :: q2) with ((q1 ++ [(aid, ka)]) ++ (bid, e.1) :: q2) by (by rewrite <- app_assoc).
      eapply heads_ok_replace; [exact HhP|apply Heok]. }
    destruct (three_writes (config_ t) c1 _ _ _ _ _ _ Hcfg Hok1 Hok2 Hok3 Hab Hap Hbp) as (N1 & N2 & N3 & Nfr).
    apply wpo_bind, wpo_run. wpl_use (write_node_spec L held t w3 _ f aid (leaf_node pid bid ea')); [exact Hst3|exact Hia|by eapply node_page|done|exact Hok1|]. intros [] ? (w4 & -> & Hst4).
    apply wpo_bind, wpo_run. wpl_use (write_node_spec L held t w4 _ f bid (leaf_node pid (next_id lsB) (e :: es))); [exact Hst4|exact Hib| |done|exact Hok2|].
    { unfold put. case_decide; [done|by eapply node_page]. }
    intros [] ? (w5 & -> & Hst5). apply wpo_run. unfold with_entries. cbn [inner_node leaf parent next].
    assert (mkNode false (par ups pid) kInvalidValue (seps (q1 ++ (aid, ka) :: (bid, e.1) :: q2)) [] (q1 ++ (aid, ka) :: (bid, kb) :: q2).*1 = inner_node (par ups pid) (q1 ++ (aid, ka) :: (bid, e.1) :: q2)) as E4 by (unfold inner_node; by rewrite !fmap_app).
    rewrite E4. wpl_use write_node_spec; [exact Hst5|exact Hip| |done|exact Hok3|].
    { unfold put. do 2 (case_decide; [done|]). by eapply node_page. }
    intros [] ? (w6 & -> & Hst6). set (c4 := put (put (put c1 aid _) bid _) pid _) in *.
    assert (forall j, j ∉ [aid; bid; pid] -> c4 j = c j) as Hc4. { intros j Hj. rewrite Nfr by done. apply Hc1. rewrite !not_elem_of_cons in Hj. tauto. }
    assert (entries (lsA ++ [(aid, ea'); (bid, e :: es)] ++ lsB) = entries (lsA ++ [(aid, ea' ++ [e]); (bid, es)] ++ lsB)) as Een by (rewrite !entries_two, <- !app_assoc; done). rewrite <- Een in *.
    assert (forall x, x ∈ [(aid, ea'); (bid, e :: es)] -> leaf_ok (config_ t) true x.2) as Hsz by (intros x [->|[->|?%not_elem_of_nil]%elem_of_cons]%elem_of_cons; done).
    pose proof (lshift_rep _ _ _ _ _ _ _ _ _ _ _ _ _ _ _ Hlp Hc4 ea' (e :: es) N1 N2) as Hrep.
    pose proof (lpair_below _ _ _ _ _ _ _ _ _ _ _ _ _ _ _ Hlp _ Hrep Hsz ltac:(intros x; apply two_members) He) as Hbel.
    eexists t, w6, c4, (lsA ++ [(aid, ea'); (bid, e :: es)] ++ lsB), _. split_and!; [done|exact Hst6| |done| |by rewrite !length_app].
    + eapply leaves_became; [exact (lp_tree _ _ _ _ _ _ _ _ _ _ _ _ _ _ Hlp)| |exact Hrep|by eapply lpair_sizes|exact Hs|exact He|eapply lpair_ids_ok; [exact Hlp|intros x; apply two_members]|eapply lpair_outside; [exact Hc4]].
      eapply (lshift_shrunk t c c4 lsA aid (ea' ++ [e]) bid eb lsB u1 pid q1 q2 u2 ups Hlp c4 ka e.1 ups ups); [unfold ka; by destruct ea'|done|exact Hbel| |done|done| |done].
      * eapply lshift_above; [exact Hlp|exact Hc4|apply Heok|exact N3].
      * f_equal. rewrite !fmap_app. cbn. by destruct q1.
    + done.
  - assert (zlen ea = leaf_min (config_ t)) as Hlea by lia. assert (ea <> []) as Hne' by (intros ->; cbn in Hlea; lia).
    assert (leaf_ok (config_ t) true (ea ++ es)) as HlM by (split; [|intros _]; rewrite length_app; lia).
    assert (entries (lsA ++ [(aid, ea ++ es)] ++ lsB) = entries (lsA ++ [(aid, ea); (bid, es)] ++ lsB)) as Een by (by rewrite entries_two, entries_one). rewrite <- Een in *.
    assert (node_ok (config_ t) (leaf_node pid (next_id lsB) (ea ++ es))) as Hok1 by (eapply leaf_node_ok; [exact HlM|by apply Forall_app_2|apply Hip|done]).
    assert (node_ok (config_ t) (inner_node (par ups pid) (q1 ++ (aid, ka) :: q2))) as Hok2.
    { apply inner_node_ok; [rewrite length_app in *; cbn in *; lia| |done]. apply Forall_app in HhP as [HP1 HP2]. apply list.Forall_cons in HP2 as [HP2 HP3]. apply list.Forall_cons in HP3 as [_ HP3].
      apply Forall_app_2; [done|]. by apply list.Forall_cons. }
    apply wpo_bind. eapply wpo_opt.
    { pose proof (seps_erase (q1 ++ [(aid, ka)]) (bid, kb) q2 ltac:(by destruct q1)) as Hx. rewrite <- EP, length_app, <- app_assoc in Hx. cbn in Hx. replace (length q1 + 1 - 1)%nat with (length q1) in Hx by lia. exact Hx. }
    assert (erase_at (S (length q1)) (q1 ++ (aid, ka) :: (bid, kb) :: q2).*1 = Some (q1 ++ (aid, ka) :: q2).*1) as Ecs.
    { rewrite EP, fmap_app. cbn [fmap list_fmap fst]. rewrite erase_at_app by (rewrite length_fmap, length_app; cbn; lia). by rewrite !fmap_app, <- app_assoc. }
    apply wpo_bind. eapply wpo_opt; [exact Ecs|]. unfold set_next, with_entries. cbn [leaf_node leaf parent next keys values children]. rewrite <- !fmap_app.
    apply wpo_bind, wpo_run. wpl_use (write_node_spec L held t w3 _ f aid (leaf_node pid (next_id lsB) (ea ++ es))); [exact Hst3|exact Hia|by eapply node_page|done|exact Hok1|]. intros [] ? (w4 & -> & Hst4).
    apply wpo_bind, wpo_run. wpl_use (write_node_spec L held t w4 _ f pid (inner_node (par ups pid) (q1 ++ (aid, ka) :: q2))); [exact Hst4|exact Hip| |done|exact Hok2|].
    { unfold put. rewrite decide_False by congruence. by eapply node_page. }
    intros [] ? (w5 & -> & Hst5). set (c4 := put (put c1 aid _) pid _) in *.
    assert (forall j, j ∉ [aid; bid; pid] -> c4 j = c j) as Hc4. { intros j Hj. rewrite !not_elem_of_cons in Hj. unfold c4, put. rewrite !decide_False by tauto. apply Hc1. tauto. }
    assert (nodes (config_ t) c4 aid = Some (leaf_node pid (next_id lsB) (ea ++ es))) as N1 by (unfold c4; by rewrite nodes_put, decide_False, nodes_put, decide_True by done).
    assert (nodes (config_ t) c4 pid = Some (inner_node (par ups pid) (q1 ++ (aid, ka) :: q2))) as N2 by (unfold c4; by rewrite nodes_put, decide_True by done).
    eapply (leaf_merge_spec t c c4 c4 f lsA aid ea bid eb lsB u1 pid q1 q2 u2 ups ups (ea ++ es)); [exact Hlp|exact Hc4|exact N1|exact HlM|exact Hs|exact He| |done|done|done|exact Hst5|exact Hf].
    assert (leaf_head <$> (lsA ++ [(aid, ea ++ es)] ++ lsB) = (concat u1.*2 ++ q1) ++ (aid, ka) :: (q2 ++ concat u2.*2)) as ->.
    { rewrite !fmap_app. cbn [fmap list_fmap app]. rewrite (lp_headsA _ _ _ _ _ _ _ _ _ _ _ _ _ _ Hlp), (lp_headsB _ _ _ _ _ _ _ _ _ _ _ _ _ _ Hlp). unfold ka, leaf_head. by destruct ea. }
    eapply lmerge_sagging; [exact Hlp|exact Hc4| |exact N2]. eapply lmerge_below; [exact Hlp|exact Hc4|exact N1|exact HlM|exact He].
Qed.
(** The deficient leaf is the first of its group: it takes an entry from the right, or is merged
    with it. *)
Lemma rebalance_leaf_right_spec t c c1 f lsA aid ea bid eb lsB u1 pid q2 u2 ups fuel w es :
  leaf_paired t c lsA aid ea bid eb lsB u1 pid [] q2 u2 ups -> store w c1 f -> (S (length ups) < fuel)%nat ->
  (forall j, j <> aid -> c1 j = c j) -> nodes (config_ t) c1 aid = Some (leaf_node pid bid es) -> zlen es = leaf_min (config_ t) - 1 ->
  increasing (entries (lsA ++ [(aid, es); (bid, eb)] ++ lsB)).*1 -> Forall entry_ok (entries (lsA ++ [(aid, es); (bid, eb)] ++ lsB)) ->
  wpo L (rebalance_leaf fuel aid) (t, w) (fun _ => reduced t c (lsA ++ (aid, ea) :: (bid, eb) :: lsB)
    ((u1 ++ (pid, leaf_head (aid, ea) :: leaf_head (bid, eb) :: q2) :: u2) :: ups) (entries (lsA ++ [(aid, es); (bid, eb)] ++ lsB)) f).
Proof.
  intros Hlp Hst Hf Hc1 Hna1 Hles Hs He. destruct (leaf_view _ _ _ _ _ _ _ _ _ _ _ _ _ _ Hlp) as (Hcfg & Hia & Hib & Hip & Hnx & Hpu & Hna & Hnb & Hnp & HhP & HsP & _ & _ & Hea & [Heb1 Heb2]). specialize (Heb2 eq_refl).
  destruct (lpair_apart _ _ _ _ _ _ _ _ _ _ _ _ _ _ Hlp) as (Hd & Ha1 & Ha2 & Hb1 & Hb2 & Hab & Hap & Hbp & _). destruct (leaf_sizes _ Hcfg) as [Hmin1 Hmin2]. cbn [app] in Hnp, HhP, HsP, Hd.
  set (ka := (leaf_head (aid, ea)).2) in *. set (kb := (leaf_head (bid, eb)).2) in *.
  assert (nodes (config_ t) c1 bid = Some (leaf_node pid (next_id lsB) eb)) as Hnb1 by (rewrite (nodes_ext _ c); [done|by apply Hc1, not_eq_sym]).
  assert (nodes (config_ t) c1 pid = Some (inner_node (par ups pid) ((aid, ka) :: (bid, kb) :: q2))) as Hnp1 by (rewrite (nodes_ext _ c); [done|by apply Hc1, not_eq_sym]).
  assert (Forall entry_ok es /\ Forall entry_ok eb) as [Hesok Hebok] by (rewrite entries_two in He; apply Forall_app in He as [_ He]; apply Forall_app in He as [He _]; by apply Forall_app in He).
  unfold rebalance_leaf. apply wpo_bind, wpo_run. wpl_use read_node_spec; [exact Hst|exact Hia|exact Hna1|]. intros n ? (-> & w1 & -> & Hst1). cbn [leaf_node parent keys values next children leaf].
  apply wpo_bind, wpo_run. wpl_use read_node_spec; [exact Hst1|exact Hip|exact Hnp1|]. intros n ? (-> & w2 & -> & Hst2). unfold this. apply wpo_bind, wpo_run. wpl_step. cbn [fst]. cbn [inner_node keys children values].
  cbn [fmap list_fmap fst find_at]. rewrite (decide_True (P := aid = aid)) by done. rewrite (decide_False (P := (0 < 0)%nat)) by lia. cbn [Nat.add].
  apply wpo_bind. eapply wpo_opt; [done|].
  apply wpo_bind, wpo_run. wpl_use read_node_spec; [exact Hst2|exact Hib|exact Hnb1|]. intros n ? (-> & w3 & -> & Hst3). cbn [leaf_node parent keys values next children leaf]. rewrite length_fmap.
  assert (forall k' kb', heads (u1 ++ (pid, (aid, k') :: (bid, kb') :: q2) :: u2) = heads u1 ++ (pid, k') :: heads u2) as up_heads by (intros; by rewrite fmap_app).
  destruct (Z.ltb_spec (leaf_min (config_ t)) (zlen eb)) as [Hlt|Hge].
  - destruct eb as [|e [|e2 eb']]; [cbn in Hlt; lia|cbn in Hlt; lia|]. cbn [length] in Hlt, Heb1. apply list.Forall_cons in Hebok as [Heok Hebok].
    do 5 (apply wpo_bind; eapply wpo_opt; [done|]).
    apply wpo_bind. eapply wpo_opt; [done|]. cbn [fmap list_fmap]. set (eb2 := e2 :: eb') in *.
    assert (leaf_ok (config_ t) true (es ++ [e])) as HlA by (split; [|intros _]; rewrite length_app; cbn [length]; lia). assert (leaf_ok (config_ t) true eb2) as HlB by (split; [|intros _]; unfold eb2; cbn [length]; lia).
    assert (node_ok (config_ t) (leaf_node pid bid (es ++ [e]))) as Hok1 by (eapply leaf_node_ok; [exact HlA|apply Forall_app_2; [done|by apply list.Forall_singleton]|apply Hip|apply Hib]).
    assert (node_ok (config_ t) (leaf_node pid (next_id lsB) eb2)) as Hok2 by (eapply leaf_node_ok; [exact HlB|done|apply Hip|done]).
    assert (node_ok (config_ t) (inner_node (par ups pid) ((aid, ka) :: (bid, e2.1) :: q2))) as Hok3.
    { apply inner_node_ok; [cbn [length] in *; lia| |done]. eapply (heads_ok_replace [(aid, ka)]); [exact HhP|]. by apply list.Forall_cons in Hebok as [[? _] _]. }
    destruct (three_writes (config_ t) c1 _ _ _ _ _ _ Hcfg Hok1 Hok2 Hok3 Hab Hap Hbp) as (N1 & N2 & N3 & Nfr).
    unfold with_entries. cbn [leaf_node inner_node leaf parent next keys values children]. change [e.1] with [e].*1. change [e.2] with [e].*2. rewrite <- !fmap_app.
    apply wpo_bind, wpo_run. wpl_use (write_node_spec L held t w3 _ f aid (leaf_node pid bid (es ++ [e]))); [exact Hst3|exact Hia|by eapply node_page|done|exact Hok1|]. intros [] ? (w4 & -> & Hst4).
    apply wpo_bind, wpo_run. wpl_use (write_node_spec L held t w4 _ f bid (leaf_node pid (next_id lsB) eb2)); [exact Hst4|exact Hib| |done|exact Hok2|].
    { unfold put. case_decide; [done|by eapply node_page]. }
    intros [] ? (w5 & -> & Hst5). apply wpo_bind, wpo_run. wpl_use (write_node_spec L held t w5 _ f pid (inner_node (par ups pid) ((aid, ka) :: (bid, e2.1) :: q2))); [exact Hst5|exact Hip| |done|exact Hok3|].
    { unfold put. do 2 (case_decide; [done|]). by eapply node_page. }
    intros [] ? (w6 & -> & Hst6). set (c4 := put (put (put c1 aid _) bid _) pid _) in *.
    assert (forall j, j ∉ [aid; bid; pid] -> c4 j = c j) as Hc4. { intros j Hj. rewrite Nfr by done. apply Hc1. rewrite !not_elem_of_cons in Hj. tauto. }
    assert (entries (lsA ++ [(aid, es ++ [e]); (bid, eb2)] ++ lsB) = entries (lsA ++ [(aid, es); (bid, e :: eb2)] ++ lsB)) as Een by (rewrite !entries_two, <- !app_assoc; done).
    rewrite <- Een in *.
    assert (forall x, x ∈ [(aid, es ++ [e]); (bid, eb2)] -> leaf_ok (config_ t) true x.2) as Hsz by (intros x [->|[->|?%not_elem_of_nil]%elem_of_cons]%elem_of_cons; done).
    pose proof (lshift_rep _ _ _ _ _ _ _ _ _ _ _ _ _ _ _ Hlp Hc4 (es ++ [e]) eb2 N1 N2) as Hrep.
    pose proof (lpair_below _ _ _ _ _ _ _ _ _ _ _ _ _ _ _ Hlp _ Hrep Hsz ltac:(intros x; apply two_members) He) as Hbel.
    assert (is_s64 e2.1) as Hk2 by (by apply list.Forall_cons in Hebok as [[? _] _]).
    pose proof (lshift_above _ _ _ _ _ _ _ _ _ _ _ _ _ _ _ Hlp Hc4 e2.1 Hk2 N3) as Hab4. cbn [app] in Hab4. rewrite app_nil_r in Hab4.
    pose proof (above_up _ _ _ _ _ Hab4) as Hup4. rewrite up_heads in Hup4.
    assert (exists k', head (es ++ [e]).*1 = Some k' /\ leaf_head (aid, es ++ [e]) = (aid, k') /\ is_s64 k') as (k' & Ehd & Elh & Hk').
    { destruct es as [|x es']; cbn; eexists; (split_and!; [done|done|]); [apply Heok|]. by apply list.Forall_cons in Hesok as [[? _] _]. }
    apply wpo_bind. eapply wpo_opt; [exact Ehd|].
    wpo_use update_parent_separator_spec; [exact Hup4|exact Hk'|exact N3|done|exact Hst6|lia|]. intros [] ? (w7 & c5 & ups5 & -> & Hst7 & Hab5 & Hrt & Hc5).
    eexists t, w7, c5, (lsA ++ [(aid, es ++ [e]); (bid, eb2)] ++ lsB), _. split_and!; [done|exact Hst7| |done| |by rewrite !length_app].
    + eapply (leaves_became _ _ _ _ _ c4); [exact (lp_tree _ _ _ _ _ _ _ _ _ _ _ _ _ _ Hlp)| |exact Hrep|by eapply lpair_sizes|exact Hs|exact He|eapply lpair_ids_ok; [exact Hlp|intros x; apply two_members]|eapply (lpair_outside c c4 lsA aid ea bid (e :: eb2) lsB u1 pid [] q2 u2 ups); exact Hc4].
      eapply (lshift_shrunk t c c4 lsA aid ea bid (e :: eb2) lsB u1 pid [] q2 u2 ups Hlp c5 k' e2.1 ups ups5); [exact Elh|done|exact Hbel| |apply Hrt|done| |exact Hc5].
      * cbn [app]. rewrite app_nil_r.
        assert (concat u1.*2 ++ (aid, k') :: (bid, e2.1) :: q2 ++ concat u2.*2 = concat (u1 ++ (pid, (aid, k') :: (bid, e2.1) :: q2) :: u2).*2) as -> by (by rewrite concat_parts).
        eapply (above_first _ c4 u1 pid aid ka k'); [|exact Hk'|exact Hab5|exact Hrt|].
        -- rewrite concat_parts. exact Hab4.
        -- intros j Hj. apply Hc5. pose proof (ab_nodup _ _ _ _ Hab4) as (_ & _ & Hnd)%list.NoDup_app. rewrite up_ids_cons in Hnd. apply list.NoDup_app in Hnd as (_ & Hnd & _). by apply Hnd.
      * cbn [app]. rewrite !up_heads. apply Hrt.
    + cbn [length]. by rewrite (rt_length _ _ _ _ Hrt).
  - assert (zlen eb = leaf_min (config_ t)) as Hleb by lia. assert (eb <> []) as Hne' by (intros ->; cbn in Hleb; lia).
    assert (leaf_ok (config_ t) true (es ++ eb)) as HlM by (split; [|intros _]; rewrite length_app; lia).
    assert (entries (lsA ++ [(aid, es ++ eb)] ++ lsB) = entries (lsA ++ [(aid, es); (bid, eb)] ++ lsB)) as Een by (by rewrite entries_two, entries_one). rewrite <- Een in *.
    assert (Forall entry_ok (es ++ eb)) as HokM by (by apply Forall_app_2).
    assert (node_ok (config_ t) (leaf_node pid (next_id lsB) (es ++ eb))) as Hok1 by (eapply leaf_node_ok; [exact HlM|done|apply Hip|done]).
    assert (node_ok (config_ t) (inner_node (par ups pid) ((aid, ka) :: q2))) as Hok2.
    { apply inner_node_ok; [cbn [length] in *; lia| |done]. apply list.Forall_cons in HhP as [HP1 HP2]. apply list.Forall_cons in HP2 as [_ HP2]. by apply list.Forall_cons. }
    do 2 (apply wpo_bind; eapply wpo_opt; [done|]). unfold set_next, with_entries. cbn [leaf_node leaf parent next keys values children]. rewrite <- !fmap_app.
    apply wpo_bind, wpo_run. wpl_use (write_node_spec L held t w3 _ f aid (leaf_node pid (next_id lsB) (es ++ eb))); [exact Hst3|exact Hia|by eapply node_page|done|exact Hok1|]. intros [] ? (w4 & -> & Hst4).
    apply wpo_bind, wpo_run. wpl_use (write_node_spec L held t w4 _ f pid (inner_node (par ups pid) ((aid, ka) :: q2))); [exact Hst4|exact Hip| |done|exact Hok2|].
    { unfold put. rewrite decide_False by congruence. by eapply node_page. }
    intros [] ? (w5 & -> & Hst5). set (c4 := put (put c1 aid _) pid _) in *.
    assert (forall j, j ∉ [aid; bid; pid] -> c4 j = c j) as Hc4. { intros j Hj. rewrite !not_elem_of_cons in Hj. unfold c4, put. rewrite !decide_False by tauto. apply Hc1. tauto. }
    assert (nodes (config_ t) c4 aid = Some (leaf_node pid (next_id lsB) (es ++ eb))) as N1 by (unfold c4; by rewrite nodes_put, decide_False, nodes_put, decide_True by done).
    assert (nodes (config_ t) c4 pid = Some (inner_node (par ups pid) ((aid, ka) :: q2))) as N2 by (unfold c4; by rewrite nodes_put, decide_True by done).
    assert (sagging t c4 (concat u1.*2 ++ (aid, ka) :: q2 ++ concat u2.*2) u1 pid ((aid, ka) :: q2) u2 ups) as Hsg.
    { pose proof (lmerge_below _ _ _ _ _ _ _ _ _ _ _ _ _ _ _ _ Hlp Hc4 N1 HlM He) as Hbel. pose proof (lmerge_sagging _ _ _ _ _ _ _ _ _ _ _ _ _ _ _ Hlp Hc4 Hbel N2) as Hsg. cbn [app] in Hsg. by rewrite app_nil_r in Hsg. }
    pose proof (sg_above _ _ _ _ _ _ _ _ Hsg) as Hup4. rewrite fmap_app in Hup4. cbn [fmap list_fmap] in Hup4.
    assert (exists k', head (es ++ eb).*1 = Some k' /\ leaf_head (aid, es ++ eb) = (aid, k') /\ is_s64 k') as (k' & Ehd & Elh & Hk').
    { destruct (es ++ eb) as [|x l] eqn:El; [by apply app_eq_nil in El as [_ ?]|]. eexists. split_and!; [done|done|]. by apply list.Forall_cons in HokM as [[? _] _]. }
    apply wpo_bind. eapply wpo_opt; [exact Ehd|]. apply wpo_bind.
    wpo_use update_parent_separator_spec; [exact Hup4|exact Hk'|exact N2|done|exact Hst5|lia|]. intros [] ? (w6 & c5 & ups5 & -> & Hst6 & Hab5 & Hrt & Hc5).
    eapply (leaf_merge_spec t c c4 c5 f lsA aid ea bid eb lsB u1 pid [] q2 u2 ups ups5 (es ++ eb)); [exact Hlp|exact Hc4|exact N1|exact HlM|exact Hs|exact He| |apply Hrt|apply Hrt|exact Hc5|exact Hst6|exact Hf].
    assert (leaf_head <$> (lsA ++ [(aid, es ++ eb)] ++ lsB) = concat u1.*2 ++ (aid, k') :: q2 ++ concat u2.*2) as ->.
    { rewrite !fmap_app. cbn [fmap list_fmap app]. rewrite Elh, (lp_headsA _ _ _ _ _ _ _ _ _ _ _ _ _ _ Hlp), (lp_headsB _ _ _ _ _ _ _ _ _ _ _ _ _ _ Hlp), app_nil_r. done. }
    eapply sagging_retag; [exact Hsg|exact Hk'|exact Hab5|exact Hrt|exact Hc5].
Qed.
(** ** Removing an entry *)

Lemma map_delete_mid (l1 l2 : list Entry) k v : increasing (l1 ++ (k, v) :: l2).*1 ->
  increasing (l1 ++ l2).*1 /\ (list_to_map (l1 ++ l2) : gmap Z TU.RecordId) = delete k (list_to_map (l1 ++ (k, v) :: l2)).
Proof.
  intros Hs. rewrite map_insert_mid by done. rewrite fmap_app in *. cbn in Hs. apply increasing_app in Hs as (H1 & H2 & H3). apply increasing_cons in H2 as [H2 H4]. split.
  - apply increasing_app. split_and!; [done|done|]. intros x y Hx Hy. apply H3; [done|by right].
  - rewrite delete_insert_id; [done|]. apply map_absent. intros e [He|He]%elem_of_app.
    + specialize (H3 e.1 k ltac:(by apply list_elem_of_fmap_2) ltac:(left)). lia.
    + specialize (H4 e.1 ltac:(by apply list_elem_of_fmap_2)). lia.
Qed.

(** A leaf that is not the root and its neighbour. *)
Lemma leaf_neighbour t c ls1 id es ls2 up ups :
  tree_ok t c (ls1 ++ (id, es) :: ls2) (up :: ups) ->
  (exists lsA aid ea u1 pid q1 q2 u2, ls1 = lsA ++ [(aid, ea)] /\ up = u1 ++ (pid, q1 ++ leaf_head (aid, ea) :: leaf_head (id, es) :: q2) :: u2 /\
    leaf_paired t c lsA aid ea id es ls2 u1 pid q1 q2 u2 ups) \/
  (exists bid eb lsB u1 pid q2 u2, ls2 = (bid, eb) :: lsB /\ up = u1 ++ (pid, leaf_head (id, es) :: leaf_head (bid, eb) :: q2) :: u2 /\
    leaf_paired t c ls1 id es bid eb lsB u1 pid [] q2 u2 ups).
Proof.
  intros Hok. pose proof (tree_above _ _ _ _ Hok) as Hab. rewrite fmap_app in Hab. cbn [fmap list_fmap] in Hab.
  destruct (above_mid _ _ _ _ _ _ _ Hab) as (u1 & pid & p1 & p2 & u2 & -> & E1 & E2 & _ & _ & _ & _ & _ & _ & _ & [[Hp _] _]). destruct p1 as [|h q1 _] using rev_ind.
  - right. destruct p2 as [|h q2]; [cbn in Hp; lia|]. destruct ls2 as [|[bid eb] lsB]; [done|]. cbn [fmap list_fmap app] in E2. injection E2 as <- E2.
    exists bid, eb, lsB, u1, pid, q2, u2. split_and!; [done|done|]. split; [exact Hok|exact E1|exact E2].
  - left. rewrite app_assoc in E1. destruct ls1 as [|[aid ea] lsA _] using rev_ind; [by destruct (concat u1.*2 ++ q1)|]. rewrite fmap_app in E1. cbn [fmap list_fmap] in E1. apply app_inj_tail in E1 as [E1 <-].
    exists lsA, aid, ea, u1, pid, q1, p2, u2. rewrite <- !app_assoc in *. split_and!; [done|done|]. split; [exact Hok|exact E1|exact E2].
Qed.

Lemma leaf_root t c ls1 id es ls2 ups :
  tree_ok t c (ls1 ++ (id, es) :: ls2) ups -> id = root_page_id_ t <-> ups = [].
Proof.
  intros Hok. pose proof (tree_leaf _ _ _ _ _ _ _ Hok) as (_ & _ & _ & _ & _ & _ & _ & _ & Hiu & _). pose proof Hok as [[_ Ht _ _ _ _ _] Hroot _ _ _ _]. destruct ups as [|up ups].
  - split; [done|intros _]. rewrite Hroot. cbn in *. rewrite length_fmap, length_app in Ht. cbn in Ht. destruct ls1; [done|cbn in Ht; lia].
  - split; [|done]. intros E. exfalso. apply Hiu. rewrite E, Hroot. by eapply root_level.
Qed.

(** [rebalance_leaf] after the write of the deficient leaf. *)
Lemma rebalance_leaf_spec t c c1 f ls1 id es ls2 up ups fuel w es' :
  tree_ok t c (ls1 ++ (id, es) :: ls2) (up :: ups) -> store w c1 f -> (S (length ups) < fuel)%nat -> (forall j, j <> id -> c1 j = c j) ->
  nodes (config_ t) c1 id = Some (leaf_node (par (up :: ups) id) (next_id ls2) es') -> zlen es' = leaf_min (config_ t) - 1 ->
  increasing (entries (ls1 ++ (id, es') :: ls2)).*1 -> Forall entry_ok (entries (ls1 ++ (id, es') :: ls2)) ->
  wpo L (rebalance_leaf fuel id) (t, w) (fun _ => reduced t c (ls1 ++ (id, es) :: ls2) (up :: ups) (entries (ls1 ++ (id, es') :: ls2)) f).
Proof.
  intros Hok Hst Hf Hc1 Hn Hl Hs He. destruct (leaf_neighbour _ _ _ _ _ _ _ _ Hok) as [(lsA & aid & ea & u1 & pid & q1 & q2 & u2 & -> & -> & Hlp)|(bid & eb & lsB & u1 & pid & q2 & u2 & -> & -> & Hlp)].
  - rewrite <- !app_assoc in *. cbn [app par] in *. rewrite (lpair_par _ _ _ _ _ _ _ _ _ _ _ _ _ _ Hlp) in Hn by tauto. eapply rebalance_leaf_left_spec; try done.
  - cbn [par next_id fst] in Hn. rewrite (lpair_par _ _ _ _ _ _ _ _ _ _ _ _ _ _ Hlp) in Hn by tauto. eapply (rebalance_leaf_right_spec t c c1 f ls1 id es bid eb lsB u1 pid q2 u2 ups fuel w es'); try done.
Qed.

Lemma wpo_unit {S} (M : Prop) (m : MO S unit) s Q : wpo M (m ;? ret (Some tt)) s Q -> wpo M m s Q.
Proof. unfold wpo, wpl, wp, bindo, bind, ret. destruct (m s) as [[[[]|]|e] s']; done. Qed.

Lemma became_reduced t c ls ups f s (es : list Entry) ls' :
  (exists w' c' ups', s = (t, w') /\ store w' c' f /\ became t c ls ups t c' ls' ups' /\ length ups' = length ups) -> entries ls' = es -> length ls' = length ls -> reduced t c ls ups es f s.
Proof. intros (w' & c' & ups' & -> & Hst & Hbc & Hl) E El. exists t, w', c', ls', ups'. split_and!; try done; lia. Qed.

Lemma remove_impl_spec t c f key ls ups fuel w :
  tree_ok t c ls ups -> store w c f -> (length ups < fuel)%nat ->
  wpo L (remove_impl fuel key) (t, w) (fun b s => b = bool_decide (is_Some (to_map ls !! key)) /\ exists t' w' c' ls' ups', s = (t', w') /\ store w' c' f /\
    became t c ls ups t' c' ls' ups' /\ to_map ls' = delete key (to_map ls) /\ (length ups' <= length ups)%nat /\ (length ls' <= length ls)%nat).
Proof.
  intros Hok Hst Hf. unfold remove_impl. apply wpo_bind. wpo_use find_leaf_spec; [exact Hok|exact Hst|exact Hf|].
  intros id ? (w1 & -> & Hst1 & ls1 & es & ls2 & -> & Hr). pose proof Hok as [Hsh _ _ _ _ _]. pose proof (sp_sorted _ _ _ Hsh) as Hs. pose proof (sp_config _ _ _ Hsh) as Hcfg.
  destruct (routed_entries _ _ _ _ _ _ _ Hsh Hr) as (Hlt & Hgt & Hes). destruct (tree_leaf _ _ _ _ _ _ _ Hok) as (Hid & Hn & He & Hnx & Hp & [Hmax Hmin] & _).
  apply wpo_bind, wpo_run. wpl_use read_node_spec; [exact Hst1|exact Hid|exact Hn|]. intros n ? (-> & w2 & -> & Hst2).
  cbn [leaf_node keys values children parent next leaf]. destruct (leaf_split es key Hes) as (a & b & -> & -> & Ha & [[(v & b' & -> & Hb) Hl']|[Hb Hl']]).
  2:{ rewrite decide_True by done. apply wpo_ret.
    assert (to_map (ls1 ++ (id, a ++ b) :: ls2) !! key = None) as E.
    { apply map_absent. rewrite entries_parts. intros e. rewrite !elem_of_app. intros [He'|[[He'|He']|He']]; [specialize (Hlt e He')|specialize (Ha e He')|specialize (Hb e He')|specialize (Hgt e He')]; lia. }
    rewrite E. split; [by rewrite bool_decide_false by (by intros [])|]. eexists t, w2, c, _, ups. split_and!; try done; [by apply became_same|]. by rewrite delete_id. }
  rewrite decide_False by (by intros Hx; apply Hx).
  assert (to_map (ls1 ++ (id, a ++ (key, v) :: b') :: ls2) !! key = Some v) as Ekey.
  { unfold to_map. rewrite entries_parts in *. apply map_elem; [done|]. rewrite !elem_of_app. right; left; right; left. }
  assert (increasing (entries (ls1 ++ (id, a ++ b') :: ls2)).*1 /\ to_map (ls1 ++ (id, a ++ b') :: ls2) = delete key (to_map (ls1 ++ (id, a ++ (key, v) :: b') :: ls2))) as [HsN HmN].
  { unfold to_map. rewrite !entries_parts in *. replace (entries ls1 ++ (a ++ b') ++ entries ls2) with ((entries ls1 ++ a) ++ b' ++ entries ls2) by (by rewrite <- !app_assoc).
    replace (entries ls1 ++ (a ++ (key, v) :: b') ++ entries ls2) with ((entries ls1 ++ a) ++ (key, v) :: b' ++ entries ls2) in * by (by rewrite <- !app_assoc). by apply map_delete_mid. }
  assert (Forall entry_ok (a ++ b')) as HeN by (apply Forall_app in He as [He1 He2]; apply list.Forall_cons in He2 as [_ He2]; by apply Forall_app_2).
  assert (Forall entry_ok (entries (ls1 ++ (id, a ++ b') :: ls2))) as HeA.
  { pose proof (sp_entries _ _ _ Hsh) as Hent. rewrite entries_parts in *. apply Forall_app in Hent as [He1 Hent]. apply Forall_app in Hent as [_ He2]. apply Forall_app_2; [done|]. by apply Forall_app_2. }
  assert (zlen (a ++ (key, v) :: b') = zlen (a ++ b') + 1) as Hlen by (rewrite !length_app; cbn; lia).
  apply wpo_bind. eapply wpo_opt; [by apply erase_at_fmap|]. apply wpo_bind. eapply wpo_opt; [by apply erase_at_fmap|].
  unfold this. apply wpo_bind, wpo_run. wpl_step. cbn [fst]. rewrite length_fmap. unfold with_entries. cbn [leaf parent next children].
  change (mkNode true (par ups id) (next_id ls2) (a ++ b').*1 (a ++ b').*2 []) with (leaf_node (par ups id) (next_id ls2) (a ++ b')).
  assert (forall m : MO (Tree * W) unit, wpo L m (t, w2) (fun _ => reduced t c (ls1 ++ (id, a ++ (key, v) :: b') :: ls2) ups (entries (ls1 ++ (id, a ++ b') :: ls2)) f) ->
    wpo L (m ;? ret (Some true)) (t, w2) (fun r s => r = bool_decide (is_Some (to_map (ls1 ++ (id, a ++ (key, v) :: b') :: ls2) !! key)) /\
      exists t' w' c' ls' ups', s = (t', w') /\ store w' c' f /\ became t c (ls1 ++ (id, a ++ (key, v) :: b') :: ls2) ups t' c' ls' ups' /\
        to_map ls' = delete key (to_map (ls1 ++ (id, a ++ (key, v) :: b') :: ls2)) /\ (length ups' <= length ups)%nat /\ (length ls' <= length (ls1 ++ (id, a ++ (key, v) :: b') :: ls2))%nat)) as Hfin.
  { intros m Hm. apply wpo_bind. eapply wpo_mono; [exact Hm|]. intros [] s (t' & w' & c' & ls' & ups' & -> & Hst' & Hbc & Een & Hl1 & Hl2). apply wpo_ret. rewrite Ekey. split; [by rewrite bool_decide_true by done|].
    exists t', w', c', ls', ups'. split_and!; try done. unfold to_map at 1. rewrite Een. exact HmN. }
  destruct (decide (id = root_page_id_ t)) as [Hroot|Hroot].
  - apply Hfin. apply (leaf_root _ _ _ _ _ _ _ Hok) in Hroot. subst ups. apply wpo_unit.
    assert (many (ls1 ++ (id, a ++ (key, v) :: b') :: ls2) = false) as Hm1 by (pose proof (sp_tower _ _ _ Hsh) as Ht; cbn in Ht; rewrite length_fmap in Ht; destruct (ls1 ++ (id, a ++ (key, v) :: b') :: ls2) as [|? [|]]; done).
    wpo_use (rewrite_leaf_spec L held t c f ls1 id (a ++ (key, v) :: b') (a ++ b') ls2 [] fuel w2 None); [exact Hok|exact Hst2|exact Hf|rewrite Hm1; split; [lia|done]|exact HsN|exact HeN|by left|].
    intros [] s Hs'. eapply became_reduced; [exact Hs'|done|by rewrite !length_app].
  - destruct (Z.leb_spec (leaf_min (config_ t)) (zlen (a ++ b'))) as [Hge|Hfew].
    + apply wpo_assoc, Hfin. pose proof (leaf_min_pos _ Hcfg) as Hpos.
      assert (match (a ++ b').*1 with k :: _ => if decide (length a = 0)%nat then update_parent_separator fuel id k else ret (Some tt) | [] => ret (Some tt) end =
        match (if decide (length a = 0)%nat then head (a ++ b').*1 else None) with Some k => update_parent_separator fuel id k | None => ret (Some tt) end) as -> by (destruct (a ++ b'); cbn; by case_decide).
      wpo_use (rewrite_leaf_spec L held t c f ls1 id (a ++ (key, v) :: b') (a ++ b') ls2 ups fuel w2); [exact Hok|exact Hst2|exact Hf|split; [lia|done]|exact HsN|exact HeN| |].
      { destruct a as [|x a].
        - cbn. destruct b' as [|y b']; [cbn in Hge; lia|]. cbn. split; [|done]. by apply list.Forall_cons in HeN as [[? _] _].
        - cbn. by right. }
      intros [] s Hs'. eapply became_reduced; [exact Hs'|done|by rewrite !length_app].
    + apply wpo_assoc, Hfin. destruct ups as [|up ups]; [exfalso; by apply Hroot, (leaf_root _ _ _ _ _ _ _ Hok)|].
      assert (many (ls1 ++ (id, a ++ (key, v) :: b') :: ls2) = true) as Hm1.
      { pose proof (level_many _ _ _ _ (sp_tower _ _ _ Hsh)) as Hm1. rewrite <- Hm1 by (rewrite fmap_app; by destruct ls1). apply many_length. by rewrite length_fmap. }
      specialize (Hmin Hm1). assert (node_ok (config_ t) (leaf_node (par (up :: ups) id) (next_id ls2) (a ++ b'))) as Hnok by (eapply (leaf_node_ok _ false); [split; [lia|done]|done|done|done]).
      apply wpo_bind, wpo_run. wpl_use write_node_spec; [exact Hst2|exact Hid|by eapply node_page|done|exact Hnok|]. intros [] ? (w3 & -> & Hst3).
      eapply (rebalance_leaf_spec t c); [exact Hok|exact Hst3|cbn in Hf; lia|intros j Hj; unfold put; by rewrite decide_False|by rewrite nodes_put, decide_True|lia|exact HsN|exact HeA].
Qed.

End rebalance_leaf.

End BD.
