(* ===== verification/TreeCheck.v ===== *)
(** * The consistency check of the B+ tree

    [validate_invariants] of [src/src/index/bplus_tree.cpp] against the tree of [TreeShape].
    [covers] describes the subtrees [walk] goes through, level by level; it asks for less than a
    well-formed tree, so that the theorems show both what the check accepts and what it misses. *)

From Stdlib Require Import Sorted.
From S2P Require Import Prelude Bytes Page Stream PageStore PageManager Wal LogManager BufferPool LockManager Mutation Transaction Payload Access Tuple TreeNode BPlusTree TreeShape TreeSearch.

Module BV.
Import OB BN BT BS BQ.

(** ** Subtrees *)

(** The nodes with the heads [hs], [n] levels above the leaves; [p] gives their parents, [s] their
    leaves and [ns] all their nodes in the order of a walk. *)
Inductive covers (nd : PageId -> option Node) : nat -> (PageId -> PageId) -> list Head -> list LeafG -> list PageId -> Prop :=
  | covers_nil n p : covers nd n p [] [] []
  | covers_leaf p id nx es hs s ns :
      nd id = Some (leaf_node (p id) nx es) -> id_ok id -> covers nd 0 p hs s ns ->
      covers nd 0 p (leaf_head (id, es) :: hs) ((id, es) :: s) (id :: ns)
  | covers_inner n p id g hs s ns s' ns' :
      nd id = Some (inner_node (p id) g) -> id_ok id -> g <> [] -> increasing g.*2 ->
      covers nd n (fun _ => id) g s ns -> covers nd (S n) p hs s' ns' ->
      covers nd (S n) p (inner_head (id, g) :: hs) (s ++ s') (id :: ns ++ ns').

Lemma covers_app nd n p h1 h2 s ns :
  covers nd n p (h1 ++ h2) s ns ->
  exists s1 s2 i1 i2, s = s1 ++ s2 /\ ns = i1 ++ i2 /\ covers nd n p h1 s1 i1 /\ covers nd n p h2 s2 i2.
Proof.
  revert s ns. induction h1 as [|h h1 IH]; intros s ns Hc; [exists [], s, [], ns; split_and!; [done|done|constructor|done]|].
  cbn in Hc. inversion Hc as [|? id nx es ? s' ns' Hn Hid Hc'|? ? id g ? sg ng s' ns' Hn Hid Hne Hg Hcg Hc']; subst; destruct (IH _ _ Hc') as (s1 & s2 & i1 & i2 & -> & -> & Hc1 & Hc2).
  - exists ((id, es) :: s1), s2, (id :: i1), i2. split_and!; [done|done|by econstructor|done].
  - exists (sg ++ s1), s2, (id :: ng ++ i1), i2. split_and!; [by rewrite app_assoc|cbn; by rewrite app_assoc|by econstructor|done].
Qed.

Lemma covers_parents nd n p q hs s ns :
  covers nd n p hs s ns -> (forall h, h ∈ hs -> q h.1 = p h.1) -> covers nd n q hs s ns.
Proof.
  induction 1 as [n p|p id nx es hs s ns Hn Hid Hc IH|n p id g hs s ns s' ns' Hn Hid Hne Hg Hc1 _ Hc2 IH]; intros Hq; [constructor|..].
  - pose proof (Hq (leaf_head (id, es)) ltac:(left)) as E. cbn in E. econstructor; [rewrite E; exact Hn|done|]. apply IH. intros h Hh. apply Hq. by right.
  - pose proof (Hq (inner_head (id, g)) ltac:(left)) as E. cbn in E. econstructor; [rewrite E; exact Hn|done|done|done|done|]. apply IH. intros h Hh. apply Hq. by right.
Qed.

Lemma covers_row nd p ls : rep_leaves nd p ls -> Forall id_ok ls.*1 -> covers nd 0 p (leaf_head <$> ls) ls ls.*1.
Proof.
  induction ls as [|[id es] ls IH]; [constructor|]. intros [Hn Hr] [Hid Hids]%list.Forall_cons. econstructor; [exact Hn|exact Hid|by apply IH].
Qed.

(** One level up. *)
Lemma covers_level nd n ups lv s ns :
  covers nd n (parent_in lv) (concat lv.*2) s ns -> NoDup (concat lv.*2).*1 ->
  (forall id g, (id, g) ∈ lv -> nd id = Some (inner_node (par ups id) g)) -> Forall id_ok lv.*1 ->
  Forall (fun x => x.2 <> []) lv -> increasing (concat lv.*2).*2 ->
  exists ns', covers nd (S n) (par ups) (inner_head <$> lv) s ns' /\ ns' ≡ₚ ns ++ lv.*1.
Proof.
  intros Hc Hnd Hlv. assert (forall x c, x ∈ lv -> c ∈ x.2.*1 -> parent_in lv c = x.1) as Hpar by (intros; by eapply parent_in_elem). revert Hpar Hc.
  generalize (parent_in lv) as q. clear Hnd. revert s ns. induction lv as [|[id g] lv IH]; intros s ns q Hpar Hc Hids Hne Hs.
  { inversion Hc; subst. exists []. by split; [constructor|]. }
  cbn in Hc, Hs. rewrite fmap_app in Hs. apply increasing_app in Hs as (Hg & Hs & _). apply list.Forall_cons in Hids as [Hid Hids]. apply list.Forall_cons in Hne as [Hgn Hne].
  apply covers_app in Hc as (s1 & s2 & i1 & i2 & -> & -> & H1 & H2).
  destruct (IH ltac:(intros; apply Hlv; by right) s2 i2 q) as (ns' & Hc' & Hp); [|done|done|done|done|].
  { intros x c Hx. apply Hpar. by right. }
  exists (id :: i1 ++ ns'). split.
  - cbn. econstructor; [apply Hlv; left|done|done|done| |done]. eapply covers_parents; [exact H1|]. intros h Hh. symmetry. apply (Hpar (id, g)); [left|]. by apply list_elem_of_fmap_2.
  - rewrite Hp. cbn [fmap list_fmap fst]. by rewrite app_assoc, <- (Permutation_middle (i1 ++ i2)).
Qed.

(** From a level to the root. *)
Lemma covers_tower nd cfg ups : forall n hs s ns,
  tower cfg hs ups -> covers nd n (par ups) hs s ns -> rep_up nd ups -> NoDup (hs.*1 ++ up_ids ups) -> Forall id_ok (up_ids ups) -> increasing hs.*2 ->
  exists k ns', covers nd (n + length ups) (fun _ => kInvalidValue) [(root hs ups, k)] s ns' /\ ns' ≡ₚ ns ++ up_ids ups.
Proof.
  induction ups as [|lv ups IH]; intros n hs s ns Ht Hc Hrep Hnd Hids Hs.
  { cbn in Ht. destruct hs as [|[id k] [|]]; try done. exists k, ns. cbn. rewrite Nat.add_0_r, app_nil_r. done. }
  destruct Ht as (-> & Hg & Ht). destruct Hrep as [Hlv Hrep]. rewrite up_ids_cons in *. apply Forall_app in Hids as [Hidl Hids]. pose proof (group_nonempty _ _ _ Hg) as Hne.
  pose proof (proj1 (proj1 (list.NoDup_app _ _) Hnd)) as Hnd1. apply list.NoDup_app in Hnd as (_ & _ & Hnd2).
  destruct (covers_level nd n ups lv s ns Hc Hnd1 Hlv Hidl Hne Hs) as (ns1 & Hc1 & Hp1).
  destruct (IH (S n) (inner_head <$> lv) s ns1 Ht Hc1 Hrep) as (k & ns2 & Hc2 & Hp2); [by rewrite inner_head_ids|done|by apply heads_increasing|].
  exists k, ns2. cbn [root length]. rewrite Nat.add_succ_r. split; [exact Hc2|]. by rewrite Hp2, Hp1, app_assoc.
Qed.

(** ** Lists and sets *)

Lemma is_sorted_increasing l : increasing l -> is_sorted l = true.
Proof.
  induction l as [|x [|y l] IH]; [done|done|]. intros [Hl Hx]%increasing_cons. cbn [is_sorted]. apply andb_true_iff. split; [|by apply IH].
  specialize (Hx y ltac:(left)). apply negb_true_iff, Z.ltb_ge. lia.
Qed.

Lemma insert_all_spec ks u : NoDup ks -> (forall k, k ∈ ks -> k ∉ u) -> insert_all ks u = Some (list_to_set ks ∪ u).
Proof.
  revert u. induction ks as [|k ks IH]; intros u Hnd Hu; cbn; [f_equal; set_solver|]. apply list.NoDup_cons in Hnd as [Hk Hnd].
  rewrite decide_False by (apply Hu; left). rewrite IH; [f_equal; set_solver|done|]. intros x Hx. specialize (Hu x ltac:(by right)). set_solver.
Qed.

Lemma union_swap (a b u : gset Z) : b ∪ (a ∪ u) = a ∪ b ∪ u.
Proof. set_solver. Qed.

(** ** The check *)

Section check.
Context {W : Type} `{PageAccessLaws W} (L : Prop) (held : PageId -> Z).
Implicit Types (w : W) (t : Tree) (c : PageId -> option bytes).
Abbreviation store := (store L held).

Lemma visit_one {A} (x : PageId) (f : PageId -> A -> MO (Tree * W) (option A)) v s : visit [x] f v s = f x v s.
Proof. cbn. unfold bindo, bind, ret. destruct (f x v s) as [[[[a|]|]|e] s']; done. Qed.

Lemma visit_one_spec {A} (x : PageId) (f : PageId -> A -> MO (Tree * W) (option A)) v s Q : wpo L (visit [x] f v) s Q -> wpo L (f x v) s Q.
Proof. unfold wpo, wpl, wp. by rewrite visit_one. Qed.

Lemma first_key_spec t c f n p h hs s ns fuel w :
  covers (nodes (config_ t) c) n p (h :: hs) s ns -> Forall (fun x => x.2 <> []) s -> (n <= fuel)%nat -> store w c f ->
  wpo L (first_key fuel h.1) (t, w) (fun k st => k = h.2 /\ exists w', st = (t, w') /\ store w' c f).
Proof.
  revert p h hs s ns fuel w. induction n as [|n IH]; intros p h hs s ns fuel w Hc Hs Hf Hst.
  - inversion Hc as [|? id nx es ? s' ns' Hn Hid Hc'|]; subst. apply list.Forall_cons in Hs as [Hes _]. unfold first_key. apply wpo_bind, wpo_run.
    wpl_use read_node_spec; [exact Hst|exact Hid|exact Hn|]. intros m ? (-> & w1 & -> & Hst1). destruct es as [|e es]; [done|].
    destruct fuel; cbn [first_key_from leaf_node leaf keys fmap list_fmap]; apply wpo_ret; (split; [done|by exists w1]).
  - inversion Hc as [| |? ? id g ? sg ng s' ns' Hn Hid Hne Hg Hcg Hc']; subst. destruct fuel as [|fuel]; [lia|]. destruct g as [|h g]; [done|].
    apply Forall_app in Hs as [Hs _]. unfold first_key at 1. apply wpo_bind, wpo_run.
    wpl_use read_node_spec; [exact Hst|exact Hid|exact Hn|]. intros m ? (-> & w1 & -> & Hst1). cbn [first_key_from inner_node leaf children fmap list_fmap head].
    apply wpo_bind. eapply wpo_opt; [done|]. apply (IH _ _ _ _ _ fuel w1 Hcg Hs); [lia|done].
Qed.

Lemma separators_ok_spec t c f n p hs s ns fuel w :
  covers (nodes (config_ t) c) n p hs s ns -> Forall (fun x => x.2 <> []) s -> (n <= fuel)%nat -> store w c f ->
  wpo L (separators_ok fuel (zip hs.*2 hs.*1)) (t, w) (fun b st => b = true /\ exists w', st = (t, w') /\ store w' c f).
Proof.
  revert s ns w. induction hs as [|h hs IH]; intros s ns w Hc Hs Hf Hst; cbn [fmap list_fmap zip_with separators_ok]; [apply wpo_ret; by split; [|exists w]|].
  apply wpo_bind. wpo_use first_key_spec; [exact Hc|exact Hs|exact Hf|exact Hst|]. intros k ? (-> & w1 & -> & Hst1). rewrite decide_False by (by intros []).
  destruct (covers_app _ _ _ [h] hs s ns Hc) as (s1 & s2 & i1 & i2 & -> & -> & _ & Hc2). apply Forall_app in Hs as [_ Hs]. by eapply IH.
Qed.

(** What [walk] leaves in its variables. *)
Definition visited (s : list LeafG) (ns : list PageId) (v v' : Visited) : Prop :=
  seen v' = list_to_set ns ∪ seen v /\ leaves v' = leaves v ++ s.*1 /\ unique v' = list_to_set (entries s).*1 ∪ unique v.

Lemma visited_trans s1 n1 s2 n2 v v1 v2 : visited s1 n1 v v1 -> visited s2 n2 v1 v2 -> visited (s1 ++ s2) (n1 ++ n2) v v2.
Proof.
  intros (E1 & E2 & E3) (F1 & F2 & F3). unfold visited, entries. rewrite F1, F2, F3, E1, E2, E3, !fmap_app, concat_app, fmap_app, !list_to_set_app_L, <- app_assoc.
  split_and!; [apply union_swap|done|apply union_swap].
Qed.

Definition walkable (n : nat) (s : list LeafG) (ns : list PageId) (v : Visited) : Prop :=
  NoDup ns /\ (forall x, x ∈ ns -> x ∉ seen v) /\ Forall (fun x => increasing x.2.*1) s /\
  NoDup (entries s).*1 /\ (forall k, k ∈ (entries s).*1 -> k ∉ unique v) /\ (n = 0%nat \/ Forall (fun x => x.2 <> []) s).

Lemma entries_app s1 s2 : entries (s1 ++ s2) = entries s1 ++ entries s2.
Proof. unfold entries. by rewrite fmap_app, concat_app. Qed.

Lemma walkable_split n s1 s2 n1 n2 v :
  walkable n (s1 ++ s2) (n1 ++ n2) v -> walkable n s1 n1 v /\ forall v1, visited s1 n1 v v1 -> walkable n s2 n2 v1.
Proof.
  intros (Hnd & Hseen & Hin & Hk & Hu & Hne). rewrite entries_app, fmap_app in Hk, Hu. apply list.NoDup_app in Hnd as (Hnd1 & Hd & Hnd2). apply list.NoDup_app in Hk as (Hk1 & Hkd & Hk2).
  apply Forall_app in Hin as [Hi1 Hi2]. rewrite Forall_app in Hne. split.
  - split_and!; try done; [intros x Hx; apply Hseen; apply elem_of_app; by left|intros k Hx; apply Hu; apply elem_of_app; by left|]. destruct Hne as [?|[? _]]; [by left|by right].
  - intros v1 (E1 & _ & E3). split_and!; try done; [intros x Hx; rewrite E1|intros k Hx; rewrite E3|].
    + pose proof (Hseen x ltac:(apply elem_of_app; by right)). rewrite elem_of_union, elem_of_list_to_set. intros [Hx'|?]; [|done]. by apply (Hd x).
    + pose proof (Hu k ltac:(apply elem_of_app; by right)). rewrite elem_of_union, elem_of_list_to_set. intros [Hx'|?]; [|done]. by apply (Hkd k).
    + destruct Hne as [?|[_ ?]]; [by left|by right].
Qed.

Lemma walk_spec t c f n p hs s ns fuel w v :
  covers (nodes (config_ t) c) n p hs s ns -> walkable n s ns v -> (n < fuel)%nat -> store w c f ->
  wpo L (visit hs.*1 (fun x v => walk fuel x (p x) v) v) (t, w) (fun r st => exists v' w', r = Some v' /\ visited s ns v v' /\ st = (t, w') /\ store w' c f).
Proof.
  intros Hc. revert fuel w v. induction Hc as [n p|p id nx es hs s ns Hn Hid Hc IH|n p id g hs s ns s' ns' Hn Hid Hne Hg Hc1 IH1 Hc2 IH2]; intros fuel w v Hw Hf Hst.
  - apply wpo_ret. exists v, w. split_and!; [done| |done|done]. unfold visited. cbn. split_and!; [set_solver|by rewrite app_nil_r|set_solver].
  - change ((id, es) :: s) with ([(id, es)] ++ s) in *. change (id :: ns) with ([id] ++ ns) in *. apply walkable_split in Hw as [(_ & Hseen & Hin & Hk & Hu & _) Hw].
    destruct fuel as [|fuel]; [lia|]. cbn [fmap list_fmap visit leaf_head fst]. cbn [walk]. rewrite (proj2 Hid). cbn [negb orb]. rewrite bool_decide_false by (apply Hseen; left).
    apply wpo_bind, wpo_bind, wpo_run. wpl_use read_node_spec; [exact Hst|exact Hid|exact Hn|]. intros m ? (-> & w1 & -> & Hst1). cbn [leaf_node parent keys leaf].
    rewrite bool_decide_true by done. apply list.Forall_cons in Hin as [Hin _]. rewrite is_sorted_increasing by exact Hin. cbn [negb orb seen leaves unique].
    assert (entries [(id, es)] = es) as Ees by (unfold entries; cbn; by rewrite app_nil_r). rewrite Ees in Hk, Hu.
    rewrite insert_all_spec by done. apply wpo_ret.
    assert (visited [(id, es)] [id] v (mkVisited ({[id]} ∪ seen v) (leaves v ++ [id]) (list_to_set es.*1 ∪ unique v))) as Hv.
    { unfold visited. rewrite Ees. cbn. split_and!; [set_solver|done|done]. }
    wpo_use (IH (S fuel)); [by apply Hw|lia|exact Hst1|]. intros r st (v' & w2 & -> & Hv' & -> & Hst2). exists v', w2. split_and!; [done|by eapply visited_trans|done|done].
  - change (id :: ns ++ ns') with ((id :: ns) ++ ns') in *. apply walkable_split in Hw as [Hw1 Hw2]. destruct Hw1 as (Hnd & Hseen & Hin & Hk & Hu & [?|Hnes]); [done|].
    apply list.NoDup_cons in Hnd as [Hid' Hnd]. destruct fuel as [|fuel]; [lia|]. destruct g as [|h g]; [done|]. cbn [fmap list_fmap visit inner_head fst]. cbn [walk]. rewrite (proj2 Hid). cbn [negb orb].
    rewrite bool_decide_false by (apply Hseen; left). apply wpo_bind, wpo_bind, wpo_run. wpl_use read_node_spec; [exact Hst|exact Hid|exact Hn|]. intros m ? (-> & w1 & -> & Hst1).
    cbn [inner_node parent keys leaf children]. rewrite bool_decide_true by done. rewrite seps_cons, is_sorted_increasing.
    2:{ change (increasing (h.2 :: g.*2)) in Hg. by apply increasing_cons in Hg as [Hg _]. }
    cbn [negb orb fmap list_fmap length tail]. rewrite bool_decide_true by (rewrite !length_fmap; lia). cbn [negb].
    destruct (covers_app _ _ _ [h] g s ns Hc1) as (sa & sb & na & nb & Es & En & _ & Hcg).
    apply wpo_bind. wpo_use separators_ok_spec; [exact Hcg|rewrite Es in Hnes; by apply Forall_app in Hnes as [_ ?]|lia|exact Hst1|].
    intros b ? (-> & w2 & -> & Hst2). cbn [negb]. wpo_use (IH1 fuel); [|lia|exact Hst2|].
    { split_and!; [done| |done|done|done|by right]. intros x Hx. cbn. rewrite elem_of_union, elem_of_singleton. intros [->|Hs]; [done|]. by apply (Hseen x); [right|]. }
    intros r st (v1 & w3 & -> & (E1 & E2 & E3) & -> & Hst3). cbn [seen leaves unique] in *.
    assert (visited s (id :: ns) v v1) as Hv1 by (split_and!; [rewrite E1; cbn; set_solver|done|done]).
    wpo_use (IH2 (S fuel)); [by apply Hw2|done|exact Hst3|]. intros r st (v' & w4 & -> & Hv' & -> & Hst4). exists v', w4. split_and!; [done|by eapply visited_trans|done|done].
Qed.

Lemma follow_spec t c f ls : forall p w,
  rep_leaves (nodes (config_ t) c) p ls -> Forall id_ok ls.*1 -> store w c f ->
  wpo L (follow (next_id ls) ls.*1) (t, w) (fun o st => o = Some kInvalidValue /\ exists w', st = (t, w') /\ store w' c f).
Proof.
  induction ls as [|[id es] ls IH]; intros p w Hr Hids Hst; cbn [fmap list_fmap follow next_id fst]; [apply wpo_ret; by split; [|exists w]|].
  destruct Hr as [Hn Hr]. apply list.Forall_cons in Hids as [Hid Hids]. rewrite decide_False by (by intros []). apply wpo_bind, wpo_run.
  wpl_use read_node_spec; [exact Hst|exact Hid|exact Hn|]. intros m ? (-> & w1 & -> & Hst1). cbn [leaf_node next snd]. by apply (IH p).
Qed.

(** What the check accepts. *)
Lemma validate_body_spec t c f n k ls ns fuel w p :
  covers (nodes (config_ t) c) n (fun _ => kInvalidValue) [(root_page_id_ t, k)] ls ns -> walkable n ls ns (mkVisited ∅ [] ∅) ->
  rep_leaves (nodes (config_ t) c) p ls -> Forall id_ok ls.*1 -> (n < fuel)%nat -> store w c f ->
  wpo L (validate_body fuel) (t, w) (fun b st => b = true /\ exists w', st = (t, w') /\ store w' c f).
Proof.
  intros Hc Hw Hr Hids Hf Hst. unfold validate_body, this. apply wpo_bind, wpo_run. wpl_step. cbn [fst].
  apply wpo_bind. pose proof (walk_spec t c f n _ _ ls ns fuel w (mkVisited ∅ [] ∅) Hc Hw Hf Hst) as Hwalk. cbn [fmap list_fmap fst] in Hwalk.
  apply visit_one_spec in Hwalk. eapply wpo_mono; [exact Hwalk|cbn beta]. intros r st (v & w1 & -> & (_ & El & _) & -> & Hst1). cbn [leaves app] in El. rewrite El.
  replace (default kInvalidValue (head ls.*1)) with (next_id ls) by (by destruct ls as [|[]]). apply wpo_bind. wpo_use follow_spec; [exact Hr|exact Hids|exact Hst1|].
  intros o ? (-> & w2 & -> & Hst2). apply wpo_bind, wpo_run. wpl_step. cbn [snd]. apply wpo_ret. rewrite (pa_valid_ok L w2 (st_ok _ _ _ _ _ Hst2)). split; [done|by exists w2].
Qed.

(** Every tree is accepted. *)
Lemma tree_validate_spec t c f ls ups fuel w :
  tree_ok t c ls ups -> store w c f -> (length ups < fuel)%nat ->
  wpo L (validate_body fuel) (t, w) (fun b st => b = true /\ exists w', st = (t, w') /\ store w' c f).
Proof.
  intros [[Hcfg Ht Hlv Hs He Hnd Hids] Hroot _ _ Hleaves Hups] Hst Hf. apply Forall_app in Hids as [Hidl Hidu].
  destruct (covers_tower (nodes (config_ t) c) (config_ t) ups 0 (leaf_head <$> ls) ls ls.*1) as (k & ns & Hc & Hp); [done|by apply covers_row|done|by rewrite leaf_head_ids|done|by eapply leaf_heads_increasing|].
  rewrite <- Hroot in Hc. eapply validate_body_spec; [exact Hc| |exact Hleaves|exact Hidl|exact Hf|exact Hst]. split_and!.
  - by rewrite Hp.
  - intros x _. cbn. set_solver.
  - apply list.Forall_forall. intros [id es] (l1 & l2 & ->)%list_elem_of_split. rewrite entries_parts, !fmap_app in Hs. apply increasing_app in Hs as (_ & Hs & _). by apply increasing_app in Hs as (? & _ & _).
  - by apply increasing_nodup.
  - intros x _. cbn. set_solver.
  - destruct ups as [|lv ups]; [by left|right]. destruct ls as [|x ls]; [constructor|]. pose proof (level_many _ _ _ _ Ht ltac:(done)) as Hm.
    rewrite (many_length _ (x :: ls)) in Hm by apply length_fmap.
    eapply list.Forall_impl; [exact Hlv|]. intros [id es] [_ Hmin] E. cbn in *. subst es. specialize (Hmin Hm). pose proof (leaf_min_pos _ Hcfg). cbn in Hmin. lia.
Qed.

(** What it misses: the keys of a leaf may reach beyond the separator of the next one.  Then a key
    of the tree is not found. *)
Record crossed (t : Tree) c (r a b : PageId) (v : TU.RecordId) : Prop := {
  cr_root : root_page_id_ t = r;
  cr_distinct : NoDup [r; a; b];
  cr_ids : id_ok r /\ id_ok a /\ id_ok b;
  cr_top : nodes (config_ t) c r = Some (inner_node kInvalidValue [(a, 1); (b, 5)]);
  cr_left : nodes (config_ t) c a = Some (leaf_node r b [(1, v); (10, v)]);
  cr_right : nodes (config_ t) c b = Some (leaf_node r kInvalidValue [(5, v)]);
}.

Lemma increasing_pair x y : x < y -> increasing [x; y].
Proof. intros Hx. by repeat constructor. Qed.

Lemma crossed_validate t c f r a b v w :
  crossed t c r a b v -> store w c f ->
  wpo L (validate_body 2) (t, w) (fun o st => o = true /\ exists w', st = (t, w') /\ store w' c f).
Proof.
  intros [Hr Hnd (Hi1 & Hi2 & Hi3) Hn1 Hn2 Hn3] Hst.
  eapply (validate_body_spec t c f 1 1 [(a, [(1, v); (10, v)]); (b, [(5, v)])] [r; a; b] 2 w (fun _ => r)); [| |done| |lia|exact Hst].
  3:{ by apply list.Forall_cons; split; [|apply list.Forall_singleton]. }
  - rewrite Hr. apply (covers_inner _ 0 (fun _ => kInvalidValue) r [(a, 1); (b, 5)] [] [(a, [(1, v); (10, v)]); (b, [(5, v)])] [a; b] [] []); [exact Hn1|exact Hi1|done|by apply increasing_pair| |constructor].
    eapply (covers_leaf _ (fun _ => r) a b [(1, v); (10, v)] [(b, 5)]); [exact Hn2|exact Hi2|].
    eapply (covers_leaf _ (fun _ => r) b kInvalidValue [(5, v)] []); [exact Hn3|exact Hi3|constructor].
  - split_and!; [done|intros x _; cbn; set_solver| | |intros x _; cbn; set_solver|right; by repeat constructor].
    + repeat constructor.
    + cbn. repeat constructor; set_solver.
Qed.

Lemma crossed_get t c f r a b v w :
  crossed t c r a b v -> store w c f ->
  wpo L (get_value 2 10) (t, w) (fun o st => o = None /\ exists w', st = (t, w') /\ store w' c f).
Proof.
  intros [Hr Hnd (Hi1 & Hi2 & Hi3) Hn1 Hn2 Hn3] Hst. unfold get_value, find_leaf, this. apply wpo_bind, wpo_bind, wpo_run. wpl_step. cbn [fst]. rewrite Hr. cbn [descend].
  apply wpo_bind, wpo_run. wpl_use read_node_spec; [exact Hst|exact Hi1|exact Hn1|]. intros m ? (-> & w1 & -> & Hst1). cbn [inner_node leaf children keys]. apply wpo_bind. eapply wpo_opt; [reflexivity|].
  cbn [descend]. apply wpo_bind, wpo_run. wpl_use read_node_spec; [exact Hst1|exact Hi3|exact Hn3|]. intros m ? (-> & w2 & -> & Hst2). cbn [leaf_node leaf]. apply wpo_ret.
  apply wpo_bind, wpo_run. wpl_use read_node_spec; [exact Hst2|exact Hi3|exact Hn3|]. intros m ? (-> & w3 & -> & Hst3). cbn [leaf_node keys values].
  rewrite decide_False by done. apply wpo_ret. split; [done|by exists w3].
Qed.

(** Such a tree can be written. *)
Definition cross (r : PageId) (v : TU.RecordId) : M (Tree * W) (PageId * PageId) :=
  let! b := allocate_node (leaf_node r kInvalidValue [(5, v)]) in
  let! a := allocate_node (leaf_node r b [(1, v); (10, v)]) in
  write_node r (inner_node kInvalidValue [(a, 1); (b, 5)]) ;;
  ret (a, b).

Lemma cross_spec t c f r v w :
  store w c f -> root_page_id_ t = r -> id_ok r -> is_Some (c r) -> config_ok (config_ t) = true -> rid_ok v -> (L -> 2 <= f) ->
  wpl L (cross r v) (t, w) (fun ab st => exists w' c', st = (t, w') /\ store w' c' (f - 2) /\ crossed t c' r ab.1 ab.2 v).
Proof.
  intros Hst Hr Hid [d Hd] Hcfg Hv HL. pose proof (config_bounds _ Hcfg) as Hb.
  assert (forall p nx es, is_u64 p -> is_u64 nx -> (length es <= 2)%nat -> Forall entry_ok es -> node_ok (config_ t) (leaf_node p nx es)) as Hok.
  { intros p nx es Hp Hnx Hl Hes. eapply (leaf_node_ok _ false); [|done|done|done]. split; [lia|done]. }
  assert (forall k, -1 <= k <= 10 -> entry_ok (k, v)) as He by (intros k Hk; split; [unfold is_s64; cbn; lia|done]).
  assert (node_ok (config_ t) (leaf_node r kInvalidValue [(5, v)])) as Hok1 by (apply Hok; [apply Hid|done|cbn; lia|]; apply list.Forall_singleton, He; lia).
  assert (forall b, is_u64 b -> node_ok (config_ t) (leaf_node r b [(1, v); (10, v)])) as Hok2.
  { intros b Hb'. apply Hok; [apply Hid|done|cbn; lia|]. apply list.Forall_cons. split; [apply He; lia|]. apply list.Forall_singleton, He. lia. }
  unfold cross. wpl_step. wpl_use allocate_node_spec; [exact Hst|intros HL1; specialize (HL HL1); lia|done|exact Hok1|].
  intros b ? (Hb1 & Hnb & w1 & -> & Hst1). wpl_step. wpl_use allocate_node_spec; [exact Hst1|intros HL1; specialize (HL HL1); lia|done|apply Hok2, Hb1|].
  intros a ? (Ha1 & Hna & w2 & -> & Hst2). specialize (Hok2 b (proj1 Hb1)). assert (a <> b /\ c a = None) as [Hab Hna'] by (unfold put in Hna; by case_decide).
  assert (r <> a /\ r <> b) as [Hra Hrb] by (split; intros ->; congruence).
  assert (node_ok (config_ t) (inner_node kInvalidValue [(a, 1); (b, 5)])) as Hno.
  { apply inner_node_ok; [cbn; lia| |done]. apply list.Forall_cons. split; [by split|]. by apply list.Forall_singleton. }
  wpl_step. wpl_use write_node_spec; [exact Hst2|done| |done|exact Hno|]. { unfold put. by rewrite !decide_False. }
  intros [] ? (w3 & -> & Hst3). wpl_step. eexists w3, _. split_and!; [done|by replace (f - 2) with (f - 1 - 1) by lia|]. cbn [fst snd]. split; try done.
  - repeat constructor; set_solver.
  - by rewrite nodes_put, decide_True.
  - rewrite nodes_put, decide_False by done. by rewrite nodes_put, decide_True.
  - rewrite nodes_put, decide_False by done. rewrite nodes_put, decide_False by done. by rewrite nodes_put, decide_True.
Qed.

End check.

End BV.
