(* ===== verification/TreeMap.v ===== *)
(** * The B+ tree as a map

    The tree seen by its clients: the entry points of [src/src/index/bplus_tree.cpp] for the three
    ways of reaching pages, creating and opening a tree, and the refinement of a finite map from
    keys to record identifiers. *)

From Stdlib Require Import Sorted.
From S2P Require Import Prelude Bytes Page Stream PageStore PageManager Wal LogManager BufferPool LockManager Mutation Transaction Payload Access Tuple TreeNode BPlusTree TreeShape TreeSearch TreeInsert TreeRemove TreeCheck.

Module BM.
Import OB BN BT BS BQ BI BD BV.

(** ** Creating and opening *)

Section create.
Context {W : Type} `{PageAccessLaws W} (L : Prop) (held : PageId -> Z).
Implicit Types (w : W) (c : PageId -> option bytes).
Abbreviation store := (store L held).

Lemma open_tree_spec w c f id d root cfg :
  store w c f -> id_ok id -> c id = Some d -> meta_page d root cfg -> is_valid root = true -> config_ok cfg = true ->
  wpl L (open id) w (fun t w' => t = mkTree id root cfg /\ store w' c f).
Proof.
  intros [Hok Hc Hf Hh Hi] [Hu Hv] Hd [_ Hmagic Hroot Hleaf Hint] Hr Hcfg. unfold open. wpl_step. wpl_use pa_fetch_spec; [done|done| |].
  { intros HL _. split; [by rewrite Hc, Hd|]. intros j. by rewrite Hh, Hi. }
  intros [i|] w1 (Hok1 & Hc1 & Hf1 & Ho).
  2:{ wpl_step. intros HL. destruct Ho as [_ Ho]. rewrite (Ho HL) in Hv. done. }
  destruct Ho as (_ & Hat & Hcl & Hh1). pose proof (pa_at_data _ _ _ _ Hok1 Hat) as Hd1. rewrite Hc1, Hc, Hd in Hd1. injection Hd1 as Hd1.
  do 2 wpl_step. rewrite <- Hd1, Hmagic, Hroot, Hleaf, Hint, bool_decide_true by done. wpl_step. wpl_use tree_unpin_spec; [done|exact Hat|done|].
  intros [] w2 (Hok2 & Hc2 & Hf2 & Hh2). pose proof (config_bounds _ Hcfg) as Hb. cbn [leaf_max_keys internal_max_keys]. rewrite Hr. cbn [negb orb].
  rewrite (proj2 (Z.ltb_ge _ _)), (proj2 (Z.ltb_ge _ _)) by lia. wpl_step. wpl_step; [done|]. wpl_step. split; [by destruct cfg|]. split; try done.
  - intros j. by rewrite Hc2, Hc1.
  - congruence.
  - intros j. rewrite (held_back _ _ _ _ Hh1 Hh2). done.
Qed.

Lemma new_page_spec w c f :
  store w c f -> (L -> 0 < f) ->
  wpl L pa_allocate w (fun id w' => id_ok id /\ c id = None /\ store w' (put c id (zeros kPagePayloadSize)) (f - 1)).
Proof.
  intros [Hok Hc Hf Hh Hi] HL. wpl_use pa_allocate_spec; [done|by rewrite Hf|].
  intros id w1 (Hok1 & Hu & Hv & Hnone & Hf1 & Hc1 & Hh1). rewrite Hc in Hnone. split_and!; [done|done|]. split; try done.
  - intros j. rewrite Hc1. unfold put. case_decide; [done|by rewrite Hc].
  - lia.
  - intros j. by rewrite Hh1.
Qed.

(** The tree with one empty leaf. *)
Abbreviation bare id root cfg := (mkTree id root cfg).
Lemma bare_ok c id root cfg d :
  config_ok cfg = true -> id_ok id -> id_ok root -> id <> root -> c id = Some d -> meta_page d root cfg ->
  nodes cfg c root = Some (leaf_node kInvalidValue kInvalidValue []) -> tree_ok (bare id root cfg) c [(root, [])] [].
Proof.
  intros Hcfg Hid Hroot Hne Hd Hm Hn. pose proof (config_bounds _ Hcfg) as Hb. split; cbn; try done; [|by exists d|by split; [|rewrite not_elem_of_cons; split; [|by apply not_elem_of_nil]]].
  split; cbn; try done; [|constructor|by apply list.NoDup_singleton|by apply list.Forall_singleton].
  apply list.Forall_singleton. split; cbn; [lia|done].
Qed.

Lemma empty_node_ok cfg : config_ok cfg = true -> node_ok cfg (leaf_node kInvalidValue kInvalidValue []).
Proof. intros Hb%config_bounds. eapply (leaf_node_ok _ false); [|constructor|done|done]. split; cbn; [lia|done]. Qed.

Lemma create_nodes_spec w c f cfg :
  store w c f -> config_ok cfg = true -> (L -> 2 <= f) ->
  wpl L (create_nodes (ret tt) cfg) w (fun r w' => exists id root c', r = (id, mkTree id root cfg) /\ store w' c' (f - 2) /\
    tree_ok (mkTree id root cfg) c' [(root, [])] [] /\ c id = None /\ c root = None /\ forall j, j <> id -> j <> root -> c' j = c j).
Proof.
  intros Hst Hcfg Hroom. unfold create_nodes. wpl_step. rewrite Hcfg. wpl_step; [done|]. wpl_step. wpl_use new_page_spec; [exact Hst|intros HL; specialize (Hroom HL); lia|].
  intros id w1 (Hid & Hnone & Hst1). wpl_step. wpl_use new_page_spec; [exact Hst1|intros HL; specialize (Hroom HL); lia|]. intros root w2 (Hroot & Hnone2 & Hst2).
  assert (root <> id /\ c root = None) as [Hri Hnr]. { unfold put in Hnone2. case_decide; [done|by split]. }
  do 2 wpl_step. pose proof Hst2 as [Hok Hc Hf Hh Hi]. wpl_step. wpl_use pa_fetch_spec; [done|apply Hid| |].
  { intros HL _. split; [rewrite Hc; unfold put; rewrite decide_False, decide_True by done; done|]. intros j. by rewrite Hh, Hi. }
  intros [i|] w3 (Hok3 & Hc3 & Hf3 & Ho).
  2:{ wpl_step. intros HL. destruct Ho as [_ Ho]. destruct Hid as [_ Hv]. rewrite (Ho HL) in Hv. done. }
  destruct Ho as (_ & Hat & Hcl & Hh3). pose proof (meta_bytes_ok root cfg (proj1 Hroot) Hcfg) as Hmp. wpl_step.
  wpl_use pa_update_spec; [done|apply Hid|apply Hid|exact Hat| |exact (mp_payload _ _ _ Hmp)|].
  { intros HL. rewrite Hh3, decide_True, Hh, Hi by done. done. }
  intros [] w4 (_ & Hok4 & Hat4 & Hf4 & Hc4 & Hh4). wpl_step. wpl_use tree_unpin_spec; [done|exact Hat4|done|]. intros [] w5 (Hok5 & Hc5 & Hf5 & Hh5).
  set (c5 := put (put (put c id (zeros kPagePayloadSize)) root (zeros kPagePayloadSize)) id (meta_bytes root cfg)).
  assert (store w5 c5 (f - 2)) as Hst5.
  { split; try done.
    - intros j. rewrite Hc5, Hc4. unfold c5, put at 1. cbn. case_decide; [done|]. by rewrite Hc3, Hc.
    - lia.
    - intros j. rewrite Hh5, Hh4, Hh3. case_decide; rewrite Hh; lia. }
  wpl_step. wpl_use open_tree_spec; [exact Hst5|exact Hid|unfold c5, put; by rewrite decide_True|exact Hmp|apply Hroot|exact Hcfg|]. intros t w6 (-> & Hst6).
  wpl_step. apply wpl_on_local. wpl_use write_node_spec; [exact Hst6|exact Hroot| |exact Hcfg|exact (empty_node_ok _ Hcfg)|].
  { unfold c5, put. rewrite decide_False, decide_True by done. done. }
  intros [] ? (w7 & -> & Hst7). cbn [fst snd]. wpl_step. eexists id, root, _. split_and!; [done|exact Hst7| |done|done|].
  - eapply bare_ok; try done; [|by rewrite nodes_put, decide_True by (done || by apply empty_node_ok)].
    unfold put at 1. rewrite decide_False by congruence. unfold c5, put. by rewrite decide_True.
  - intros j Hj1 Hj2. unfold c5, put. by rewrite !decide_False.
Qed.

Lemma create_tree_spec w c f cfg :
  store w c f -> config_ok cfg = true -> (L -> 2 <= f) ->
  wpl L (create cfg) w (fun id w' => exists root c', store w' c' (f - 2) /\
    tree_ok (mkTree id root cfg) c' [(root, [])] [] /\ c id = None /\ c root = None /\ forall j, j <> id -> j <> root -> c' j = c j).
Proof.
  intros Hst Hcfg Hroom. unfold create. wpl_step. wpl_use create_nodes_spec; [exact Hst|exact Hcfg|exact Hroom|].
  intros r w1 (id & root & c1 & -> & Hst1 & Hok & Hn1 & Hn2 & Hc1). cbn [fst snd]. wpl_step. apply wpl_on_local. wpl_step.
  pose proof Hok as [Hsh _ (d & Hd & _) [Hmi Hmn] Hrep _]. pose proof (sp_ids _ _ _ Hsh) as [Hrid _]%list.Forall_cons. cbn in Hrid.
  assert (id <> root) as Hne by (intros ->; apply Hmn; left).
  wpl_use tree_metadata_spec; [exact Hst1|exact Hmi|by rewrite Hd|exact Hcfg|apply Hrid|]. intros [] ? (w2 & -> & [Hok2 Hc2 Hf2 Hh2 Hi2]).
  unfold flush. apply wpl_on_pages. wpl_use pa_flush_spec; [exact Hok2|]. intros [] w3 (Hok3 & Hc3 & Hf3 & Hh3). cbn [fst snd]. wpl_step. eexists root, _. split_and!; [|eapply bare_ok|done|done|].
  - split; [exact Hok3| |by rewrite Hf3| |exact Hi2]; [intros j; rewrite Hc3; apply Hc2|intros j; by rewrite Hh3].
  - exact Hcfg.
  - exact Hmi.
  - exact Hrid.
  - exact Hne.
  - unfold put. by rewrite decide_True.
  - by apply meta_bytes_ok; [apply Hrid|].
  - rewrite (nodes_ext _ c1); [apply Hrep|]. unfold put. by rewrite decide_False.
  - intros j Hj1 Hj2. unfold put. rewrite decide_False by done. by apply Hc1.
Qed.

End create.
(** ** The entry points *)

(** [insert(key, value, mutations)] without and with a context, and [insert(transaction, key, value)] *)
Definition insert (fuel : nat) (key : Z) (v : TU.RecordId) : MO (Tree * AC.Plain) bool := insert_impl fuel key v.
Definition insert_captured (fuel : nat) (key : Z) (v : TU.RecordId) : MO (Tree * AC.Captured) bool := insert_impl fuel key v.
Definition insert_in (provider : bool) (pool : Z) (fuel : nat) (key : Z) (v : TU.RecordId) : MO (Tree * AC.Session provider) bool :=
  run (on_pages (W := AC.Session provider) (TX.mutation_context pool)) ;?
  insert_impl (W := AC.Session provider) fuel key v.

(** [remove(key, mutations)] and [remove(transaction, key)] *)
Definition remove (fuel : nat) (key : Z) : MO (Tree * AC.Plain) bool := remove_impl fuel key.
Definition remove_captured (fuel : nat) (key : Z) : MO (Tree * AC.Captured) bool := remove_impl fuel key.
Definition remove_in (provider : bool) (pool : Z) (fuel : nat) (key : Z) : MO (Tree * AC.Session provider) bool :=
  run (on_pages (W := AC.Session provider) (TX.mutation_context pool)) ;?
  remove_impl (W := AC.Session provider) fuel key.

(** [create(transaction, pm, bp, config)] *)
Definition create_in_session (provider : bool) (pool : Z) (cfg : BPlusTreeConfig) : M (AC.Session provider) PageId :=
  create_in (W := AC.Session provider) (TX.mutation_context pool) cfg.

(** ** The map *)

Inductive Op : Type :=
  | OpInsert (key : Z) (v : TU.RecordId)
  | OpRemove (key : Z)
  | OpGet (key : Z)
  | OpScan (low high : Z).
Inductive Res : Type :=
  | ResBool (b : bool)
  | ResValue (v : option TU.RecordId)
  | ResEntries (l : list Entry).

Definition run_op {W} `{PageAccess W} (fuel : nat) (o : Op) : MO (Tree * W) Res :=
  match o with
  | OpInsert key v => let? b := insert_impl fuel key v in ret (Some (ResBool b))
  | OpRemove key => let? b := remove_impl fuel key in ret (Some (ResBool b))
  | OpGet key => let? v := get_value fuel key in ret (Some (ResValue v))
  | OpScan low high => let? l := scan fuel low high in ret (Some (ResEntries l))
  end.

(** What a client may rely on: a finite map. *)
Inductive abs_step : Op -> Res -> gmap Z TU.RecordId -> gmap Z TU.RecordId -> Prop :=
  | abs_insert key v m : m !! key = None -> abs_step (OpInsert key v) (ResBool true) m (<[key := v]> m)
  | abs_present key v m : is_Some (m !! key) -> abs_step (OpInsert key v) (ResBool false) m m
  | abs_remove key m : is_Some (m !! key) -> abs_step (OpRemove key) (ResBool true) m (delete key m)
  | abs_missing key m : m !! key = None -> abs_step (OpRemove key) (ResBool false) m m
  | abs_get key m : abs_step (OpGet key) (ResValue (m !! key)) m m
  | abs_scan low high l m :
      increasing l.*1 -> (forall k v, (k, v) ∈ l <-> low <= k <= high /\ m !! k = Some v) ->
      abs_step (OpScan low high) (ResEntries l) m m.

Definition allowed (o : Op) : Prop := match o with OpInsert key v => entry_ok (key, v) | _ => True end.
(** The pages an operation may allocate. *)
Definition cost (o : Op) (ups : list (list InnerG)) : Z := match o with OpInsert _ _ => Z.of_nat (length ups) + 2 | _ => 0 end.

(** The tree in a world where nothing fails and nobody else holds a page. *)
Record shows {W} `{PageAccessLaws W} (t : Tree) (w : W) (ls : list LeafG) (ups : list (list InnerG)) : Prop := {
  sh_ok : pa_ok True w;
  sh_idle : idle w;
  sh_tree : tree_ok t (pa_content w) ls ups;
}.

Lemma tree_ok_ext t c c' ls ups : (forall j, c' j = c j) -> tree_ok t c ls ups -> tree_ok t c' ls ups.
Proof.
  intros Hc [Hsh Hr (d & Hd & Hm) Hmi Hrep Hup]. split; try done.
  - exists d. by rewrite Hc.
  - eapply rep_leaves_same; [exact Hrep|]. intros x _. split; [|done]. apply nodes_ext, Hc.
  - eapply rep_up_ext; [|exact Hup]. intros. apply Hc.
Qed.

Lemma became_ext t c c' ls ups t' d d' ls' ups' :
  (forall j, c' j = c j) -> (forall j, d' j = d j) -> became t c ls ups t' d ls' ups' -> became t c' ls ups t' d' ls' ups'.
Proof.
  intros Hc Hd [H1 H2 H3 H4 H5]. split; try done; [by eapply tree_ok_ext| |].
  - intros j Hj Hj'. rewrite Hc, Hd. by apply H4.
  - intros j Hj. rewrite Hc. by apply H5.
Qed.

Lemma filter_increasing low high (l : list Entry) : increasing l.*1 -> increasing (filter (in_range low high) l).*1.
Proof.
  induction l as [|e l IH]; [done|]. intros Hs. cbn in Hs. apply increasing_cons in Hs as [Hl He]. rewrite filter_cons. case_decide; [|by apply IH].
  change (increasing (e.1 :: (filter (in_range low high) l).*1)). apply increasing_cons. split; [by apply IH|]. intros y (x & -> & [_ Hx]%list_elem_of_filter)%list_elem_of_fmap. apply He. by apply list_elem_of_fmap_2.
Qed.

Section map.
Context {W : Type} `{PageAccessLaws W}.
Implicit Types (w : W) (t : Tree).
Abbreviation store0 := (store True (fun _ => 0)).

Lemma shows_store t w ls ups : shows t w ls ups -> store0 w (pa_content w) (pa_free w).
Proof. intros [Hok Hi _]. by split. Qed.

Lemma store_shows t w c f ls ups : store0 w c f -> tree_ok t c ls ups -> shows t w ls ups.
Proof. intros [Hok Hc Hf Hh Hi] Ht. split; [done|intros j; by rewrite Hh|]. by eapply tree_ok_ext. Qed.

Lemma run_insert_spec fuel t w ls ups key v :
  shows t w ls ups -> entry_ok (key, v) -> Z.of_nat (length ups) + 2 <= pa_free w -> (length ups < fuel)%nat ->
  exists x t' w' ls' ups', run_op fuel (OpInsert key v) (t, w) = (Ok (Some x), (t', w')) /\ abs_step (OpInsert key v) x (to_map ls) (to_map ls') /\
    shows t' w' ls' ups' /\ (length ups' <= S (length ups))%nat /\ (length ls' <= S (length ls))%nat /\ pa_free w - (Z.of_nat (length ups) + 2) <= pa_free w'.
Proof.
  intros Hsh Hkv Hroom Hf. destruct (wpo_total (insert_impl fuel key v) (t, w) _ (insert_impl_spec True _ _ _ _ _ _ _ _ _ _ (sh_tree _ _ _ _ Hsh) (shows_store _ _ _ _ Hsh) Hkv Hf (fun _ => Hroom)))
    as (b & s & E & t' & w' & c' & f' & ls' & ups' & -> & Hst & Hbc & -> & Hm & Hl1 & Hl2 & Hfree).
  eexists _, t', w', ls', ups'. unfold run_op, bindo, bind. rewrite E. split_and!; [done| |by eapply store_shows, Hbc|done|done|by rewrite (st_free _ _ _ _ _ Hst)].
  rewrite Hm. destruct (to_map ls !! key) eqn:Ek.
  - rewrite bool_decide_false by done. by constructor.
  - rewrite bool_decide_true by done. by constructor.
Qed.

Lemma run_remove_spec fuel t w ls ups key :
  shows t w ls ups -> (length ups < fuel)%nat ->
  exists x t' w' ls' ups', run_op fuel (OpRemove key) (t, w) = (Ok (Some x), (t', w')) /\ abs_step (OpRemove key) x (to_map ls) (to_map ls') /\
    shows t' w' ls' ups' /\ (length ups' <= length ups)%nat /\ (length ls' <= length ls)%nat /\ pa_free w' = pa_free w.
Proof.
  intros Hsh Hf. destruct (wpo_total (remove_impl fuel key) (t, w) _ (remove_impl_spec True _ _ _ _ key _ _ _ _ (sh_tree _ _ _ _ Hsh) (shows_store _ _ _ _ Hsh) Hf))
    as (b & s & E & -> & t' & w' & c' & ls' & ups' & -> & Hst & Hbc & Hm & Hl1 & Hl2).
  eexists _, t', w', ls', ups'. unfold run_op, bindo, bind. rewrite E. split_and!; [done| |by eapply store_shows, Hbc|done|done|apply Hst].
  rewrite Hm. destruct (to_map ls !! key) eqn:Ek.
  - rewrite bool_decide_true by done. by constructor.
  - rewrite bool_decide_false by (by intros []). rewrite delete_id by done. by constructor.
Qed.

Lemma run_get_spec fuel t w ls ups key :
  shows t w ls ups -> (length ups < fuel)%nat ->
  exists x w', run_op fuel (OpGet key) (t, w) = (Ok (Some x), (t, w')) /\ abs_step (OpGet key) x (to_map ls) (to_map ls) /\ shows t w' ls ups /\ pa_free w' = pa_free w.
Proof.
  intros Hsh Hf. destruct (wpo_total (get_value fuel key) (t, w) _ (get_value_spec True _ _ _ _ _ _ _ _ _ (sh_tree _ _ _ _ Hsh) (shows_store _ _ _ _ Hsh) Hf))
    as (v & s & E & -> & w' & -> & Hst). eexists _, w'. unfold run_op, bindo, bind. rewrite E. split_and!; [done|constructor| |apply Hst].
  eapply store_shows; [exact Hst|apply Hsh].
Qed.

Lemma run_scan_spec fuel t w ls ups low high :
  shows t w ls ups -> (length ups < fuel)%nat -> (length ls <= fuel)%nat ->
  exists x w', run_op fuel (OpScan low high) (t, w) = (Ok (Some x), (t, w')) /\ abs_step (OpScan low high) x (to_map ls) (to_map ls) /\ shows t w' ls ups /\ pa_free w' = pa_free w.
Proof.
  intros Hsh Hf Hf'. destruct (wpo_total (scan fuel low high) (t, w) _ (tree_scan_spec True _ _ _ _ low high _ _ _ _ (sh_tree _ _ _ _ Hsh) (shows_store _ _ _ _ Hsh) Hf Hf'))
    as (l & s & E & -> & w' & -> & Hst). pose proof (sp_sorted _ _ _ (to_shape _ _ _ _ (sh_tree _ _ _ _ Hsh))) as Hs.
  eexists _, w'. unfold run_op, bindo, bind. rewrite E. split_and!; [done| |eapply store_shows; [exact Hst|apply Hsh]|apply Hst]. constructor.
  - by apply filter_increasing.
  - intros k v. rewrite list_elem_of_filter. unfold in_range, to_map. cbn. by rewrite map_elem.
Qed.

End map.
(** ** The claims *)

(** Creating a tree and opening it: [create] returns the page of the metadata, and the object the
    constructor builds from that page is an empty tree with the node capacities asked for; every
    page of the database is as before. *)
Theorem tree_create_then_open {W} `{PageAccessLaws W} (cfg : BPlusTreeConfig) (w : W) :
  pa_ok True w -> idle w -> config_ok cfg = true -> 2 <= pa_free w ->
  exists id root w1 w2, create cfg w = (Ok id, w1) /\ open id w1 = (Ok (mkTree id root cfg), w2) /\
    shows (mkTree id root cfg) w2 [(root, [])] [] /\ to_map [(root, [])] = ∅ /\ pa_free w2 = pa_free w - 2 /\
    pa_content w id = None /\ pa_content w root = None /\ forall j, j <> id -> j <> root -> pa_content w2 j = pa_content w j.
Proof.
  intros Hok Hi Hcfg Hf. assert (store True (fun _ => 0) w (pa_content w) (pa_free w)) as Hst by (by split).
  destruct (wpl_total True _ w _ I (create_tree_spec True _ w _ _ cfg Hst Hcfg (fun _ => Hf))) as (id & w1 & E1 & root & c1 & Hst1 & Ht & Hn1 & Hn2 & Hc1).
  pose proof Ht as [Hsh _ (d & Hd & Hm) [Hid _] _ _]. pose proof (sp_ids _ _ _ Hsh) as [[_ Hrv] _]%list.Forall_cons.
  destruct (wpl_total True _ w1 _ I (open_tree_spec True _ w1 _ _ id d root cfg Hst1 Hid Hd Hm Hrv Hcfg)) as (t & w2 & E2 & -> & Hst2).
  exists id, root, w1, w2. split_and!; [done|exact E2|by eapply store_shows|done|apply Hst2|done|done|].
  intros j Hj1 Hj2. rewrite (st_content _ _ _ _ _ Hst2). by apply Hc1.
Qed.

(** C12: [insert_impl], however the pages are reached and whatever fails: it returns normally only
    with the answer whether the key was absent, and then the pages hold a well-formed tree of the
    old map with the entry added, or of the old map if the key was there.  Pages of neither tree are
    unchanged, new nodes are in pages that were free, nothing stays pinned.  It does not fail if
    nothing of the environment does and two pages more than the height can be allocated. *)
Theorem tree_insert_correct {W} `{PageAccessLaws W} L fuel t (w : W) ls ups key v r t' w' :
  pa_ok L w -> tree_ok t (pa_content w) ls ups -> entry_ok (key, v) -> (length ups < fuel)%nat ->
  (L -> Z.of_nat (length ups) + 2 <= pa_free w /\ idle w) ->
  insert_impl fuel key v (t, w) = (r, (t', w')) ->
  match r with
  | Ok o => o = Some (bool_decide (to_map ls !! key = None)) /\ pa_ok L w' /\ (forall j, pa_held w' j = pa_held w j) /\
      exists ls' ups', became t (pa_content w) ls ups t' (pa_content w') ls' ups' /\
        to_map ls' = (match to_map ls !! key with Some _ => to_map ls | None => <[key := v]> (to_map ls) end) /\
        (length ups' <= S (length ups))%nat
  | Throw _ => ~ L
  end.
Proof.
  intros Hok Ht Hkv Hf HL E. assert (store L (pa_held w) w (pa_content w) (pa_free w)) as Hst by (split; try done; intros HL'; apply HL, HL').
  pose proof (wpl_run _ _ _ _ _ _ (insert_impl_spec L _ _ _ _ key v _ _ _ _ Ht Hst Hkv Hf (fun HL' => proj1 (HL HL'))) E) as Hx. cbn beta in Hx.
  destruct r as [[b|]|e]; [|done|done]. destruct Hx as (t1 & w1 & c1 & f1 & ls1 & ups1 & [= -> ->] & Hst1 & Hbc & -> & Hm & Hl1 & _). split_and!; [done|apply Hst1|apply Hst1|].
  exists ls1, ups1. split_and!; [eapply became_ext; [done|apply Hst1|exact Hbc]| |done]. rewrite Hm. by destruct (to_map ls !! key).
Qed.

(** C13: [remove_impl], however the pages are reached and whatever fails: it returns normally only
    with the answer whether the key was present, and then the pages hold a well-formed tree of the
    old map without the key, no higher and with no more leaves than before.  Pages that were not of
    the tree are unchanged, nothing stays pinned, and no page is allocated.  It does not fail if
    nothing of the environment does. *)
Theorem tree_remove_correct {W} `{PageAccessLaws W} L fuel t (w : W) ls ups key r t' w' :
  pa_ok L w -> tree_ok t (pa_content w) ls ups -> (length ups < fuel)%nat -> (L -> idle w) ->
  remove_impl fuel key (t, w) = (r, (t', w')) ->
  match r with
  | Ok o => o = Some (bool_decide (is_Some (to_map ls !! key))) /\ pa_ok L w' /\ (forall j, pa_held w' j = pa_held w j) /\ pa_free w' = pa_free w /\
      exists ls' ups', became t (pa_content w) ls ups t' (pa_content w') ls' ups' /\
        to_map ls' = delete key (to_map ls) /\ (length ups' <= length ups)%nat /\ (length ls' <= length ls)%nat
  | Throw _ => ~ L
  end.
Proof.
  intros Hok Ht Hf HL E. assert (store L (pa_held w) w (pa_content w) (pa_free w)) as Hst by (by split).
  pose proof (wpl_run _ _ _ _ _ _ (remove_impl_spec L _ _ _ _ key _ _ _ _ Ht Hst Hf) E) as Hx. cbn beta in Hx.
  destruct r as [[b|]|e]; [|done|done]. destruct Hx as (-> & t1 & w1 & c1 & ls1 & ups1 & [= -> ->] & Hst1 & Hbc & Hm & Hl1 & Hl2). split_and!; [done|apply Hst1|apply Hst1|apply Hst1|].
  exists ls1, ups1. split_and!; [eapply became_ext; [done|apply Hst1|exact Hbc]|done|done|done].
Qed.

(** C11: The tree refines the finite map: where nothing of the environment fails, every operation
    on a well-formed tree ends normally with an answer the abstract map gives, in a state that again
    shows a well-formed tree of the map after the step; the height grows by at most one level and
    the row of leaves by at most one leaf, so that the fuel stays enough along a run. *)
Theorem tree_simulates_map {W} `{PageAccessLaws W} fuel o t (w : W) ls ups :
  shows t w ls ups -> allowed o -> cost o ups <= pa_free w -> (length ups < fuel)%nat -> (length ls <= fuel)%nat ->
  exists x t' w' ls' ups', run_op fuel o (t, w) = (Ok (Some x), (t', w')) /\ abs_step o x (to_map ls) (to_map ls') /\ shows t' w' ls' ups' /\
    (length ups' <= S (length ups))%nat /\ (length ls' <= S (length ls))%nat /\ pa_free w - cost o ups <= pa_free w'.
Proof.
  intros Hsh Ha Hc Hf Hf'. destruct o as [key v|key|key|low high]; cbn [allowed cost] in *.
  - by apply run_insert_spec.
  - destruct (run_remove_spec fuel t w ls ups key Hsh Hf) as (x & t' & w' & ls' & ups' & E & Hs & Hsh' & Hl1 & Hl2 & Hfr).
    exists x, t', w', ls', ups'. split_and!; try done; lia.
  - destruct (run_get_spec fuel t w ls ups key Hsh Hf) as (x & w' & E & Hs & Hsh' & Hfr). exists x, t, w', ls, ups. split_and!; try done; lia.
  - destruct (run_scan_spec fuel t w ls ups low high Hsh Hf Hf') as (x & w' & E & Hs & Hsh' & Hfr). exists x, t, w', ls, ups. split_and!; try done; lia.
Qed.

(** C14: [validate_invariants] accepts every well-formed tree where nothing of the environment
    fails, and leaves it as it is; the height of the tree is fuel enough. *)
Theorem tree_validates {W} `{PageAccessLaws W} fuel t (w : W) ls ups :
  shows t w ls ups -> (length ups < fuel)%nat ->
  exists w', validate_invariants fuel (t, w) = (Ok (Some true), (t, w')) /\ shows t w' ls ups.
Proof.
  intros Hsh Hf. destruct (wpo_total (validate_body fuel) (t, w) _ (tree_validate_spec True _ _ _ _ _ _ _ _ (sh_tree _ _ _ _ Hsh) (shows_store _ _ _ _ Hsh) Hf))
    as (b & s & E & -> & w' & -> & Hst). exists w'. unfold validate_invariants. rewrite E. split; [done|]. eapply store_shows; [exact Hst|apply Hsh].
Qed.

(** ** Witnesses *)

#[local] Opaque AC.fresh.

Definition small : BPlusTreeConfig := mkConfig 2 2.

(** A new tree. *)
Definition made : Tree * AC.Plain :=
  match create_nodes (ret tt) small (AC.fresh 3) with
  | (Ok r, w) => (r.2, w)
  | (Throw _, w) => (mkTree 0 0 small, w)
  end.

Lemma made_tree_shows : exists root, shows made.1 made.2 [(root, [])] [] /\ 50 < pa_free made.2.
Proof.
  destruct (AC.fresh_ok 3) as (Hok & Hi & Hf). assert (store True (fun _ => 0) (AC.fresh 3) (pa_content (AC.fresh 3)) (pa_free (AC.fresh 3))) as Hst by (split; [exact Hok|reflexivity|reflexivity|exact Hi|reflexivity]).
  destruct (wpl_total True _ _ _ I (create_nodes_spec True _ _ _ _ small Hst eq_refl ltac:(intros _; lia))) as (r & w1 & E1 & id & root & c1 & -> & Hst1 & Ht & _).
  unfold made. rewrite E1. cbn [fst snd]. exists root. split; [exact (store_shows _ _ _ _ _ _ Hst1 Ht)|]. rewrite (st_free _ _ _ _ _ Hst1). lia.
Qed.
#[local] Opaque made.

Definition rid7 : TU.RecordId := TU.mkRid 7 0.

Lemma entry_5 : entry_ok (5, rid7).
Proof. split; [unfold is_s64; cbn; lia|]. vm_compute. split; split; discriminate || reflexivity. Qed.

(** What [validate_invariants] misses: it compares a separator with the first key to its right
    only, so it accepts a tree in which a leaf holds a larger key, here 10 left of the separator 5;
    [get_value] does not find that key. *)
Theorem validate_misses_order :
  exists (t : Tree) (w w1 w2 : AC.Plain) a b,
    nodes (config_ t) (pa_content w) (root_page_id_ t) = Some (inner_node kInvalidValue [(a, 1); (b, 5)]) /\
    nodes (config_ t) (pa_content w) a = Some (leaf_node (root_page_id_ t) b [(1, rid7); (10, rid7)]) /\
    validate_invariants 2 (t, w) = (Ok (Some true), (t, w1)) /\
    get_value 2 10 (t, w) = (Ok (Some None), (t, w2)).
Proof.
  destruct made_tree_shows as (root & Hsh & Hf). pose proof (shows_store _ _ _ _ Hsh) as Hst. pose proof (sh_tree _ _ _ _ Hsh) as Ht. pose proof (to_shape _ _ _ _ Ht) as Hs.
  pose proof (to_root _ _ _ _ Ht) as Hr. cbn in Hr. pose proof (sp_ids _ _ _ Hs) as [Hid _]%list.Forall_cons. destruct (to_leaves _ _ _ _ Ht) as [Hn _].
  destruct (wpl_total True _ _ _ I (cross_spec True _ made.1 _ _ root rid7 made.2 Hst Hr Hid (node_page _ _ _ _ Hn) (sp_config _ _ _ Hs) (proj2 entry_5) ltac:(intros _; lia)))
    as ([a b] & s & _ & w & c & -> & Hstw & Hcr). cbn [fst snd] in Hcr.
  destruct (wpo_total _ _ _ (crossed_validate True _ _ _ _ _ _ _ _ w Hcr Hstw)) as (x & s1 & E1 & -> & w1 & -> & _).
  destruct (wpo_total _ _ _ (crossed_get True _ _ _ _ _ _ _ _ w Hcr Hstw)) as (x & s2 & E2 & -> & w2 & -> & _).
  exists made.1, w, w1, w2, a, b. rewrite (cr_root _ _ _ _ _ _ Hcr). split_and!.
  - rewrite (nodes_ext _ _ _ _ (st_content _ _ _ _ _ Hstw root)). exact (cr_top _ _ _ _ _ _ Hcr).
  - rewrite (nodes_ext _ _ _ _ (st_content _ _ _ _ _ Hstw a)). exact (cr_left _ _ _ _ _ _ Hcr).
  - unfold validate_invariants. rewrite E1. reflexivity.
  - exact E2.
Qed.

Lemma tree_create_then_open_witness :
  exists id root w1 w2, create small (AC.fresh 3) = (Ok id, w1) /\ open id w1 = (Ok (mkTree id root small), w2) /\
    shows (mkTree id root small) w2 [(root, [])] [] /\ to_map [(root, [])] = ∅ /\ pa_free w2 = pa_free (AC.fresh 3) - 2 /\
    pa_content (AC.fresh 3) id = None /\ pa_content (AC.fresh 3) root = None /\
    (forall j, j <> id -> j <> root -> pa_content w2 j = pa_content (AC.fresh 3) j).
Proof. destruct (AC.fresh_ok 3) as (Hok & Hi & Hf). apply (tree_create_then_open small (AC.fresh 3) Hok Hi); [reflexivity|lia]. Defined.

(** One entry inserted. *)
Definition filled : outcome (option bool) * (Tree * AC.Plain) := insert_impl 2 5 rid7 (made.1, made.2).

Lemma tree_insert_correct_witness :
  exists root, match filled.1 with
  | Ok o => o = Some (bool_decide (to_map [(root, [])] !! 5 = None)) /\ pa_ok True filled.2.2 /\ (forall j, pa_held filled.2.2 j = pa_held made.2 j) /\
      exists ls' ups', became made.1 (pa_content made.2) [(root, [])] [] filled.2.1 (pa_content filled.2.2) ls' ups' /\
        to_map ls' = (match to_map [(root, [])] !! 5 with Some _ => to_map [(root, [])] | None => <[5 := rid7]> (to_map [(root, [])]) end) /\
        (length ups' <= S (length (@nil (list InnerG))))%nat
  | Throw _ => ~ True
  end.
Proof.
  destruct made_tree_shows as (root & [Hok Hi Ht] & Hf). exists root.
  apply (tree_insert_correct True 2 made.1 made.2 [(root, [])] [] 5 rid7 filled.1 filled.2.1 filled.2.2 Hok Ht entry_5).
  - cbn [length]. lia.
  - intros _. split; [cbn [length]; lia|exact Hi].
  - exact (run_eta filled).
Defined.
Lemma filled_shows : exists ls ups, shows filled.2.1 filled.2.2 ls ups /\ to_map ls = {[5 := rid7]} /\ (length ups <= 1)%nat.
Proof.
  destruct made_tree_shows as (root & Hsh & Hf). assert (True -> 0 + 2 <= pa_free made.2) as Hroom by (intros _; lia).
  destruct (wpo_total (insert_impl 2 5 rid7) (made.1, made.2) _ (insert_impl_spec True _ _ _ _ 5 rid7 _ [] 2%nat _ (sh_tree _ _ _ _ Hsh) (shows_store _ _ _ _ Hsh) entry_5 Nat.lt_0_2 Hroom))
    as (b & s & E & t' & w' & c' & f' & ls' & ups' & -> & Hst & Hbc & Eb & Hm & Hl1 & _).
  unfold filled. rewrite E. clear E Hsh Hroom. cbn [fst snd]. exists ls', ups'. split; [|split; [|exact Hl1]].
  - exact (store_shows _ _ _ _ _ _ Hst (bc_tree _ _ _ _ _ _ _ _ Hbc)).
  - rewrite Hm, Eb. reflexivity.
Qed.
#[local] Opaque filled.

Definition emptied : outcome (option bool) * (Tree * AC.Plain) := remove_impl 2 5 (filled.2.1, filled.2.2).
Lemma tree_remove_correct_witness :
  exists ls ups, to_map ls = {[5 := rid7]} /\ match emptied.1 with
  | Ok o => o = Some (bool_decide (is_Some (to_map ls !! 5))) /\ pa_ok True emptied.2.2 /\ (forall j, pa_held emptied.2.2 j = pa_held filled.2.2 j) /\ pa_free emptied.2.2 = pa_free filled.2.2 /\
      exists ls' ups', became filled.2.1 (pa_content filled.2.2) ls ups emptied.2.1 (pa_content emptied.2.2) ls' ups' /\
        to_map ls' = delete 5 (to_map ls) /\ (length ups' <= length ups)%nat /\ (length ls' <= length ls)%nat
  | Throw _ => ~ True
  end.
Proof.
  destruct filled_shows as (ls & ups & [Hok Hi Ht] & Hm & Hl). exists ls, ups. split; [exact Hm|].
  apply (tree_remove_correct True 2 filled.2.1 filled.2.2 ls ups 5 emptied.1 emptied.2.1 emptied.2.2 Hok Ht).
  - lia.
  - intros _. exact Hi.
  - exact (run_eta emptied).
Defined.
#[local] Opaque emptied.

Lemma tree_simulates_map_witness :
  exists root x t' w' ls' ups', run_op 2 (OpInsert 5 rid7) (made.1, made.2) = (Ok (Some x), (t', w')) /\ abs_step (OpInsert 5 rid7) x (to_map [(root, [])]) (to_map ls') /\ shows t' w' ls' ups' /\
    (length ups' <= S (length (@nil (list InnerG))))%nat /\ (length ls' <= 2)%nat /\ pa_free made.2 - cost (OpInsert 5 rid7) [] <= pa_free w'.
Proof.
  destruct made_tree_shows as (root & Hsh & Hf). exists root.
  apply (tree_simulates_map 2 (OpInsert 5 rid7) made.1 made.2 [(root, [])] [] Hsh entry_5).
  - cbn [cost length]. lia.
  - cbn [length]. lia.
  - cbn [length]. lia.
Defined.


Lemma tree_validates_witness : exists root w', validate_invariants 1 (made.1, made.2) = (Ok (Some true), (made.1, w')) /\ shows made.1 w' [(root, [])] [].
Proof. destruct made_tree_shows as (root & Hsh & Hf). exists root. apply (tree_validates 1 made.1 made.2 [(root, [])] [] Hsh). cbn [length]. lia. Defined.

End BM.
