(* ===== verification/Executor.v ===== *)
(** * Plans and executors

    Models [src/include/ddb/execution/executor.h].  A plan refers to the tables and indexes of
    [Db] by their number, as the source holds references to them.  An executor is its members and
    its children; [init] and [next] return the executor they leave behind (one that has thrown is
    not used any more).  An unchecked access outside a vector, an empty [std::optional]
    dereferenced, and a loop that does not end within [fuel] rounds give [None] (see [MO] in the
    prelude). *)

From Stdlib Require Import SpecFloat.
From stdpp Require Import pretty.
From S2P Require Import Prelude Bytes Page Stream PageStore PageManager Wal LogManager BufferPool LockManager Mutation Transaction Payload Access Tuple SlottedPage TableHeap TreeNode BPlusTree.

Module EX.
Import TU.

(** ** The database a query runs on *)

Record Db (W : Type) : Type := mkDb { tables : list TH.Heap; indexes : list BT.Tree; pages : W }.
Arguments mkDb {W} tables indexes pages.
Arguments tables {W} d.
Arguments indexes {W} d.
Arguments pages {W} d.

(** A method of the table or index with that number. *)
Definition on_table {W A} (i : nat) (m : MO (TH.Heap * W) A) : MO (Db W) A :=
  fun s => match tables s !! i with
           | None => (Ok None, s)
           | Some h => let '(r, (h', w')) := m (h, pages s) in (r, mkDb (<[i := h']> (tables s)) (indexes s) w')
           end.
Definition on_index {W A} (i : nat) (m : MO (BT.Tree * W) A) : MO (Db W) A :=
  fun s => match indexes s !! i with
           | None => (Ok None, s)
           | Some t => let '(r, (t', w')) := m (t, pages s) in (r, mkDb (tables s) (<[i := t']> (indexes s)) w')
           end.

(** A computation that uses no state. *)
Definition pure {S A} (m : MO unit A) : MO S A := fun s => ((m tt).1, s).

(** ** Values *)

(** [t.values.at(i)] and [t.values[i]] *)
Definition at_ (t : Tuple) (i : nat) : MO unit Value :=
  match t !! i with Some v => ret (Some v) | None => throw (OutOfRange "vector::at") end.
Definition elem (t : Tuple) (i : nat) : MO unit Value := opt (t !! i).

Definition compare (a b : Value) : MO unit Z := run (lift (compare_values a b)).

(** [operator==] of [std::variant]; doubles are compared as numbers *)
Definition value_eq (a b : Value) : bool :=
  match a, b with
  | VInt x, VInt y => x =? y
  | VDouble x, VDouble y => SFeqb (double_of_bits x) (double_of_bits y)
  | VBool x, VBool y => eqb x y
  | VString x, VString y => bool_decide (x = y)
  | _, _ => false
  end.

(** Arithmetic on [double].  [nan] is the pattern of the NaN the platform's arithmetic gives. *)
Definition double_of_int (z : Z) : spec_float := binary_normalize 53 1024 z 0 false.
Definition bits_of_double (nan : Z) (f : spec_float) : Z :=
  let sign (s : bool) := if s then 2 ^ 63 else 0 in
  match f with
  | S754_zero s => sign s
  | S754_infinity s => sign s + 2047 * 2 ^ 52
  | S754_nan => nan
  | S754_finite s m e => if Zpos m <? 2 ^ 52 then sign s + Zpos m else sign s + (e + 1075) * 2 ^ 52 + (Zpos m - 2 ^ 52)
  end.

(** ** Plans *)

Inductive Op : Type := OpEq | OpNe | OpLt | OpLe | OpGt | OpGe.
Record Predicate : Type := mkPredicate { column : nat; op : Op; value : Value }.

Definition matches (p : Predicate) (t : Tuple) : MO unit bool :=
  let? v := at_ t (column p) in
  let? c := compare v (value p) in
  ret (Some (match op p with
             | OpEq => c =? 0
             | OpNe => negb (c =? 0)
             | OpLt => c <? 0
             | OpLe => c <=? 0
             | OpGt => 0 <? c
             | OpGe => 0 <=? c
             end)).

Record SortKey : Type := mkSortKey { sk_column : nat; ascending : bool }.
Inductive AggregateKind : Type := Count | Sum | Min | Max | Avg.
#[global] Instance AggregateKind_eq_dec : EqDecision AggregateKind.
Proof. solve_decision. Defined.
Record AggregateSpec : Type := mkAggregate { kind : AggregateKind; ag_column : option nat }.

(** The subclasses of [Plan]; [OtherPlan] is one the engine does not know. *)
Inductive Plan : Type :=
  | SeqScanPlan (table : nat) (label : string)
  | IndexScanPlan (table : nat) (tree : nat) (key : Z)
  | FilterPlan (child : Plan) (predicate : Predicate)
  | ProjectionPlan (child : Plan) (columns : list nat)
  | SortPlan (child : Plan) (keys : list SortKey)
  | AggregatePlan (child : Plan) (aggregates : list AggregateSpec) (groups : list nat)
  | JoinPlan (left right : Plan) (left_column right_column : nat)
  | OtherPlan (explanation : nat -> string).

(** *** [explain] *)

Definition newline : string := String (Ascii.ascii_of_nat 10) EmptyString.
Fixpoint pad (n : nat) : string := match n with O => EmptyString | S n => String (Ascii.ascii_of_nat 32) (pad n) end.
Definition opname (o : Op) : string :=
  match o with OpEq => "=" | OpNe => "!=" | OpLt => "<" | OpLe => "<=" | OpGt => ">" | OpGe => ">=" end%string.

Fixpoint explain (i : nat) (p : Plan) : string :=
  match p with
  | SeqScanPlan _ label => pad i +:+ "SeqScan[" +:+ label +:+ "]"
  | IndexScanPlan _ _ key => pad i +:+ "IndexScan[key = " +:+ pretty key +:+ "]"
  | FilterPlan child pr => pad i +:+ "Filter[column " +:+ pretty (column pr) +:+ " " +:+ opname (op pr) +:+ "]" +:+ newline +:+ explain (i + 2) child
  | ProjectionPlan child cs => pad i +:+ "Projection[" +:+ String.concat EmptyString ((fun c => pretty c +:+ " ") <$> cs) +:+ "]" +:+ newline +:+ explain (i + 2) child
  | SortPlan child _ => pad i +:+ "Sort" +:+ newline +:+ explain (i + 2) child
  | AggregatePlan child _ _ => pad i +:+ "Aggregate" +:+ newline +:+ explain (i + 2) child
  | JoinPlan l r _ _ => pad i +:+ "NestedLoopJoin" +:+ newline +:+ explain (i + 2) l +:+ newline +:+ explain (i + 2) r
  | OtherPlan f => f i
  end.

(** ** What the executors compute on rows *)

(** The loop of [ProjectionExecutor::next]. *)
Fixpoint project (cols : list nat) (t : Tuple) : MO unit Tuple :=
  match cols with
  | [] => ret (Some [])
  | c :: cols => let? v := at_ t c in let? vs := project cols t in ret (Some (v :: vs))
  end.

(** The comparison [SortExecutor] sorts by. *)
Fixpoint less (keys : list SortKey) (a b : Tuple) : MO unit bool :=
  match keys with
  | [] => ret (Some false)
  | k :: keys =>
      let? x := at_ a (sk_column k) in
      let? y := at_ b (sk_column k) in
      let? c := compare x y in
      if negb (c =? 0) then ret (Some (if ascending k then c <? 0 else 0 <? c)) else less keys a b
  end.

(** [std::stable_sort]: where the comparison is a strict weak order that does not throw, there is
    one stable order; which comparison throws first is the library's choice. *)
Fixpoint place {A} (lt : A -> A -> MO unit bool) (x : A) (l : list A) : MO unit (list A) :=
  match l with
  | [] => ret (Some [x])
  | y :: l => let? b := lt x y in if b : bool then ret (Some (x :: y :: l)) else let? l' := place lt x l in ret (Some (y :: l'))
  end.
Fixpoint stable_sort_onto {A} (lt : A -> A -> MO unit bool) (l acc : list A) : MO unit (list A) :=
  match l with
  | [] => ret (Some acc)
  | x :: l => let? acc := place lt x acc in stable_sort_onto lt l acc
  end.
Definition stable_sort {A} (lt : A -> A -> MO unit bool) (l : list A) : MO unit (list A) := stable_sort_onto lt l [].

(** *** Aggregation *)

(** [std::all_of(groups_, b[0].values[c] == x.values[c])] *)
Fixpoint same_group (groups : list nat) (a x : Tuple) : MO unit bool :=
  match groups with
  | [] => ret (Some true)
  | c :: groups =>
      let? u := elem a c in
      let? v := elem x c in
      if value_eq u v then same_group groups a x else ret (Some false)
  end.

(** The row goes to the first bucket of its group, or to a new one. *)
Fixpoint add_row (groups : list nat) (x : Tuple) (buckets : list (list Tuple)) : MO unit (list (list Tuple)) :=
  match buckets with
  | [] => ret (Some [[x]])
  | b :: bs =>
      let? hit := (match b with [] => ret (Some false) | a :: _ => same_group groups a x end) in
      if hit : bool then ret (Some ((b ++ [x]) :: bs))
      else let? bs := add_row groups x bs in ret (Some (b :: bs))
  end.
Fixpoint add_rows (groups : list nat) (l : list Tuple) (buckets : list (list Tuple)) : MO unit (list (list Tuple)) :=
  match l with
  | [] => ret (Some buckets)
  | x :: l => let? buckets := add_row groups x buckets in add_rows groups l buckets
  end.
Definition make_buckets (groups : list nat) (l : list Tuple) : MO unit (list (list Tuple)) :=
  match groups with [] => ret (Some [l]) | _ :: _ => add_rows groups l [] end.

(** The loop of MIN and MAX over the rows of a bucket. *)
Fixpoint extremum (k : AggregateKind) (col : nat) (l : list Tuple) (v : Value) : MO unit Value :=
  match l with
  | [] => ret (Some v)
  | r :: l =>
      let? x := elem r col in
      let? c := compare x v in
      extremum k col l (if (bool_decide (k = Min) && (c <? 0)) || (bool_decide (k = Max) && (0 <? c)) then x else v)
  end.

(** The loop of SUM and AVG. *)
Fixpoint sum_from (col : nat) (l : list Tuple) (sum : spec_float) : MO unit spec_float :=
  match l with
  | [] => ret (Some sum)
  | r :: l =>
      let? x := elem r col in
      match x with
      | VInt z => sum_from col l (SFadd 53 1024 sum (double_of_int z))
      | VDouble d => sum_from col l (SFadd 53 1024 sum (double_of_bits d))
      | _ => throw (InvalidArgument "SUM/AVG requires numeric column")
      end
  end.

(** One aggregate of a bucket; [None] where the loop goes on without a value. *)
Definition aggregate_value (nan : Z) (b : list Tuple) (a : AggregateSpec) : MO unit (option Value) :=
  if decide (kind a = Count) then ret (Some (Some (VInt (zlen b))))
  else match b with
  | [] => ret (Some None)
  | first :: _ =>
      let? col := opt (ag_column a) in
      let? v := elem first col in
      match kind a with
      | Min | Max => let? v := extremum (kind a) col b v in ret (Some (Some v))
      | _ =>
          let? sum := sum_from col b (S754_zero false) in
          ret (Some (Some (VDouble (bits_of_double nan
            (if decide (kind a = Avg) then SFdiv 53 1024 sum (double_of_int (zlen b)) else sum)))))
      end
  end.

Fixpoint aggregate_values (nan : Z) (b : list Tuple) (aggs : list AggregateSpec) : MO unit Tuple :=
  match aggs with
  | [] => ret (Some [])
  | a :: aggs =>
      let? o := aggregate_value nan b a in
      let? vs := aggregate_values nan b aggs in
      ret (Some (match o with Some v => v :: vs | None => vs end))
  end.

(** [if (!b.empty()) for (g : groups_) out.values.push_back(b[0].values[g])] *)
Fixpoint group_values (groups : list nat) (b : list Tuple) : MO unit Tuple :=
  match b, groups with
  | a :: _, g :: groups => let? v := elem a g in let? vs := group_values groups b in ret (Some (v :: vs))
  | _, _ => ret (Some [])
  end.

Fixpoint aggregate_buckets (nan : Z) (aggs : list AggregateSpec) (groups : list nat) (bs : list (list Tuple)) : MO unit (list Tuple) :=
  match bs with
  | [] => ret (Some [])
  | b :: bs =>
      let? gs := group_values groups b in
      let? vs := aggregate_values nan b aggs in
      let? out := aggregate_buckets nan aggs groups bs in
      ret (Some ((gs ++ vs) :: out))
  end.
Definition aggregate (nan : Z) (aggs : list AggregateSpec) (groups : list nat) (l : list Tuple) : MO unit (list Tuple) :=
  let? bs := make_buckets groups l in aggregate_buckets nan aggs groups bs.

(** *** Joining *)

(** The inner loop: one row of the left side against all of the right side. *)
Fixpoint join_row (a b : nat) (t : Tuple) (rs : list Tuple) : MO unit (list Tuple) :=
  match rs with
  | [] => ret (Some [])
  | r :: rs =>
      let? x := at_ t a in
      let? y := at_ r b in
      let? out := join_row a b t rs in
      ret (Some (if value_eq x y then (t ++ r) :: out else out))
  end.

(** ** Executors *)

Inductive Executor : Type :=
  | SeqScanExecutor (table : nat) (rows : list (RecordId * Tuple)) (pos : nat)
  | IndexScanExecutor (table tree : nat) (key : Z) (done_ : bool)
  | FilterExecutor (child : Executor) (p : Predicate)
  | ProjectionExecutor (child : Executor) (cols : list nat)
  | SortExecutor (child : Executor) (keys : list SortKey) (rows : list Tuple) (pos : nat)
  | AggregateExecutor (child : Executor) (aggs : list AggregateSpec) (groups : list nat) (rows : list Tuple) (pos : nat)
  | NestedLoopJoinExecutor (left right : Executor) (a b : nat) (rows : list Tuple) (pos : nat).

Fixpoint make_executor (p : Plan) : outcome Executor :=
  match p with
  | SeqScanPlan table _ => Ok (SeqScanExecutor table [] 0)
  | IndexScanPlan table tree key => Ok (IndexScanExecutor table tree key false)
  | FilterPlan child pr => match make_executor child with Ok c => Ok (FilterExecutor c pr) | Throw e => Throw e end
  | ProjectionPlan child cs => match make_executor child with Ok c => Ok (ProjectionExecutor c cs) | Throw e => Throw e end
  | SortPlan child ks => match make_executor child with Ok c => Ok (SortExecutor c ks [] 0) | Throw e => Throw e end
  | AggregatePlan child aggs gs => match make_executor child with Ok c => Ok (AggregateExecutor c aggs gs [] 0) | Throw e => Throw e end
  | JoinPlan l r a b =>
      match make_executor l, make_executor r with
      | Ok l, Ok r => Ok (NestedLoopJoinExecutor l r a b [] 0)
      | Throw e, _ | _, Throw e => Throw e
      end
  | OtherPlan _ => Throw (InvalidArgument "unknown execution plan")
  end.

Section run.
Context {W : Type} `{PageAccess W} (nan : Z).

(** [next(o)]: the row, or [None] where it returns false. *)
Fixpoint next (fuel : nat) (e : Executor) : MO (Db W) (option Tuple * Executor) :=
  match fuel with
  | O => ret None
  | S fuel =>
      match e with
      | SeqScanExecutor t rows pos =>
          if decide (pos = length rows) then ret (Some (None, e))
          else let? r := opt (rows !! pos) in ret (Some (Some r.2, SeqScanExecutor t rows (pos + 1)))
      | IndexScanExecutor t x key done_ =>
          if done_ then ret (Some (None, e))
          else
            let e := IndexScanExecutor t x key true in
            let? r := on_index x (BT.get_value fuel key) in
            match r with
            | None => ret (Some (None, e))
            | Some r => let? o := on_table t (run (TH.get_tuple r)) in ret (Some (o, e))
            end
      | FilterExecutor child p =>
          let? r := next fuel child in
          match r with
          | (None, child) => ret (Some (None, FilterExecutor child p))
          | (Some o, child) =>
              let? b := pure (matches p o) in
              if b : bool then ret (Some (Some o, FilterExecutor child p)) else next fuel (FilterExecutor child p)
          end
      | ProjectionExecutor child cols =>
          let? r := next fuel child in
          match r with
          | (None, child) => ret (Some (None, ProjectionExecutor child cols))
          | (Some o, child) => let? out := pure (project cols o) in ret (Some (Some out, ProjectionExecutor child cols))
          end
      | SortExecutor child keys rows pos =>
          if decide (pos = length rows) then ret (Some (None, e))
          else let? o := opt (rows !! pos) in ret (Some (Some o, SortExecutor child keys rows (pos + 1)))
      | AggregateExecutor child aggs groups rows pos =>
          if decide (pos = length rows) then ret (Some (None, e))
          else let? o := opt (rows !! pos) in ret (Some (Some o, AggregateExecutor child aggs groups rows (pos + 1)))
      | NestedLoopJoinExecutor l r a b rows pos =>
          if decide (pos = length rows) then ret (Some (None, e))
          else let? o := opt (rows !! pos) in ret (Some (Some o, NestedLoopJoinExecutor l r a b rows (pos + 1)))
      end
  end.

(** [while (e.next(t)) rows.push_back(t);] *)
Fixpoint drain (fuel : nat) (e : Executor) (rows : list Tuple) : MO (Db W) (list Tuple * Executor) :=
  match fuel with
  | O => ret None
  | S fuel =>
      let? r := next fuel e in
      match r with
      | (None, e) => ret (Some (rows, e))
      | (Some t, e) => drain fuel e (rows ++ [t])
      end
  end.

(** The outer loop of [NestedLoopJoinExecutor::init]. *)
Fixpoint join_loop (fuel : nat) (a b : nat) (e : Executor) (rs rows : list Tuple) : MO (Db W) (list Tuple * Executor) :=
  match fuel with
  | O => ret None
  | S fuel =>
      let? r := next fuel e in
      match r with
      | (None, e) => ret (Some (rows, e))
      | (Some t, e) => let? out := pure (join_row a b t rs) in join_loop fuel a b e rs (rows ++ out)
      end
  end.

Fixpoint init (fuel : nat) (e : Executor) : MO (Db W) Executor :=
  match e with
  | SeqScanExecutor t _ _ => let? rows := on_table t (TH.scan fuel) in ret (Some (SeqScanExecutor t rows 0))
  | IndexScanExecutor t x key _ => ret (Some (IndexScanExecutor t x key false))
  | FilterExecutor child p => let? child := init fuel child in ret (Some (FilterExecutor child p))
  | ProjectionExecutor child cols => let? child := init fuel child in ret (Some (ProjectionExecutor child cols))
  | SortExecutor child keys _ _ =>
      let? child := init fuel child in
      let? r := drain fuel child [] in
      let? rows := pure (stable_sort (less keys) r.1) in
      ret (Some (SortExecutor r.2 keys rows 0))
  | AggregateExecutor child aggs groups _ _ =>
      let? child := init fuel child in
      let? r := drain fuel child [] in
      let? rows := pure (aggregate nan aggs groups r.1) in
      ret (Some (AggregateExecutor r.2 aggs groups rows 0))
  | NestedLoopJoinExecutor l r a b _ _ =>
      let? r := init fuel r in
      let? rs := drain fuel r [] in
      let? l := init fuel l in
      let? rows := join_loop fuel a b l rs.1 [] in
      ret (Some (NestedLoopJoinExecutor rows.2 rs.2 a b rows.1 0))
  end.

(** What a client does with an executor. *)
Definition collect (fuel : nat) (e : Executor) : MO (Db W) (list Tuple * Executor) :=
  let? e := init fuel e in drain fuel e [].

End run.

End EX.
