(* ===== verification/Sorting.v ===== *)
(** * Sorting and grouping rows

    The order [SortExecutor] sorts by, and what [std::stable_sort] gives for it; the groups
    [AggregateExecutor] collects its rows in.  Values of a type are ordered like their [rank], a
    list of integers compared lexicographically; only NaN has no place in the order. *)

From Stdlib Require Import Sorted SpecFloat.
From S2P Require Import Prelude Bytes Page Stream PageStore PageManager Wal LogManager BufferPool LockManager Mutation Transaction Payload Access Tuple SlottedPage TableHeap TreeNode BPlusTree Executor.

Module SO.
Import TU EX.

(** A computation on rows that returns. *)
Definition gives {A} (m : MO unit A) (a : A) : Prop := m tt = (Ok (Some a), tt).

Lemma gives_bind {A B} (m : MO unit A) (k : A -> MO unit B) b : gives (bindo m k) b <-> exists a, gives m a /\ gives (k a) b.
Proof.
  unfold gives, bindo, bind, ret. split.
  - destruct (m tt) as [[[a|]|e] []] eqn:E; [|done|done]. intros Hk. by exists a.
  - intros (a & -> & Hk). done.
Qed.
Lemma gives_ret {A} (a b : A) : gives (ret (Some a)) b <-> a = b.
Proof. unfold gives, ret. split; [congruence|by intros ->]. Qed.
Lemma gives_opt {A} (o : option A) b : gives (opt o) b <-> o = Some b.
Proof. unfold gives, opt, ret. split; [congruence|by intros ->]. Qed.
Lemma gives_at t i v : gives (at_ t i) v <-> t !! i = Some v.
Proof. unfold gives, at_, ret, throw. destruct (t !! i); split; congruence. Qed.
Lemma gives_fun {A} (m : MO unit A) a b : gives m a -> gives m b -> a = b.
Proof. unfold gives. congruence. Qed.

(** ** The order of values *)

Lemma string_lt_irrefl a : string_lt a a = false.
Proof. induction a as [|x a IH]; [done|]. cbn. rewrite IH, Z.ltb_irrefl, andb_false_r. done. Qed.

Lemma string_lt_cons x a y b : string_lt (x :: a) (y :: b) = true <-> x < y \/ x = y /\ string_lt a b = true.
Proof. cbn. rewrite orb_true_iff, andb_true_iff, Z.ltb_lt, Z.eqb_eq. done. Qed.

Lemma string_lt_trans a b c : string_lt a b = true -> string_lt b c = true -> string_lt a c = true.
Proof.
  revert b c. induction a as [|x a IH]; intros [|y b] [|z c]; try done. rewrite !string_lt_cons. intros [H1|[-> H1]] [H2|[-> H2]]; [left; lia|by left|by left|]. right. split; [done|by eapply IH].
Qed.

Lemma string_lt_total a b : string_lt a b = true \/ a = b \/ string_lt b a = true.
Proof.
  revert b. induction a as [|x a IH]; intros [|y b]; try by auto. rewrite !string_lt_cons. destruct (Z.lt_total x y) as [?|[->|?]]; [by left; left| |by right; right; left].
  destruct (IH b) as [?|[->|?]]; [left; right|right; left|right; right; right]; done.
Qed.

(** [a] is before [b], at the same place, or behind. *)
Definition order (a b : bytes) : Z := three_way (string_lt a b) (string_lt b a).

Lemma order_cases a b : (order a b = -1 /\ order b a = 1 /\ string_lt a b = true) \/ (order a b = 0 /\ a = b) \/ (order a b = 1 /\ order b a = -1 /\ string_lt b a = true).
Proof.
  unfold order, three_way. destruct (string_lt a b) eqn:E1, (string_lt b a) eqn:E2.
  - pose proof (string_lt_trans _ _ _ E1 E2) as E. by rewrite string_lt_irrefl in E.
  - by left.
  - by right; right.
  - right; left. split; [done|]. destruct (string_lt_total a b) as [?|[?|?]]; congruence.
Qed.

Definition sf_rank (f : spec_float) : bytes :=
  match f with
  | S754_infinity true => [-2; 0; 0]
  | S754_finite true m e => [-1; - e; - Zpos m]
  | S754_zero _ | S754_nan => [0; 0; 0]
  | S754_finite false m e => [1; e; Zpos m]
  | S754_infinity false => [2; 0; 0]
  end.
Definition rank (v : Value) : bytes :=
  match v with
  | VInt x => [x]
  | VDouble d => sf_rank (double_of_bits d)
  | VBool b => [if b then 1 else 0]
  | VString s => s
  end.
Definition is_nan (v : Value) : bool := match v with VDouble d => match double_of_bits d with S754_nan => true | _ => false end | _ => false end.

Lemma lt3 a b c x y z : string_lt [a; b; c] [x; y; z] = (a <? x) || ((a =? x) && ((b <? y) || ((b =? y) && (c <? z)))).
Proof. cbn. by rewrite andb_false_r, orb_false_r. Qed.

Lemma sf_order f g : f <> S754_nan -> g <> S754_nan ->
  let c := SFcompare f g in three_way (bool_decide (c = Some Lt)) (bool_decide (c = Some Gt)) = order (sf_rank f) (sf_rank g).
Proof.
  intros Hf Hg. destruct f as [s|s| |s m e]; [..|done|]; destruct g as [s'|s'| |s' m' e']; try done; cbn; try (by destruct s); try (by destruct s'); try (by destruct s, s').
  change (Pos.compare_cont Eq m m') with (Pos.compare m m').
  destruct s, s'; cbn [sf_rank]; unfold order; rewrite ?lt3; try done; destruct (Z.compare_spec e e') as [->|He|He]; try destruct (Pos.compare_spec m m') as [->|Hm|Hm];
    cbn [CompOpp]; unfold three_way; rewrite ?Z.ltb_irrefl, ?Z.eqb_refl; cbn [orb andb]; zbool.
Qed.

Lemma compare_order a b : index a = index b -> is_nan a = false -> is_nan b = false -> gives (compare a b) (order (rank a) (rank b)).
Proof.
  intros Hi Ha Hb. unfold compare, gives, run, lift, bind, ret. destruct a as [x|x|x|x], b as [y|y|y|y]; try done; cbn [compare_values rank].
  - do 3 f_equal. unfold order. cbn. by rewrite !andb_false_r, !orb_false_r.
  - do 3 f_equal. cbn in Ha, Hb. apply sf_order; intros E; [by rewrite E in Ha|by rewrite E in Hb].
  - by destruct x, y.
Qed.

(** ** The order of rows *)

(** A comparison that orders all elements. *)
Record ranks {A} (c : A -> A -> Z) : Prop := {
  rk_flip : forall a b, c b a = - c a b;
  rk_trans : forall a b d, c a b <= 0 -> c b d <= 0 -> c a d <= 0;
}.

Lemma order_ranks : ranks order.
Proof.
  split.
  - intros a b. destruct (order_cases a b) as [Ho|[Ho|Ho]]; try lia. destruct Ho as [-> <-]. unfold order. by rewrite string_lt_irrefl.
  - intros a b d H1 H2. destruct (order_cases a b) as [Ho|[Ho|Ho]]; [|destruct Ho as [_ ->]; done|lia]. destruct (order_cases b d) as [Ho'|[Ho'|Ho']]; [|destruct Ho' as [_ <-]; lia|lia].
    destruct Ho as (_ & _ & E1), Ho' as (_ & _ & E2). unfold order. by rewrite (string_lt_trans _ _ _ E1 E2).
Qed.

(** The rows by their ranks in one column, and by all columns of the keys. *)
Definition rank_at (k : SortKey) (t : Tuple) : bytes := match t !! sk_column k with Some v => rank v | None => [] end.
Definition by_key (k : SortKey) (a b : Tuple) : Z :=
  if ascending k then order (rank_at k a) (rank_at k b) else order (rank_at k b) (rank_at k a).
Fixpoint by_keys (keys : list SortKey) (a b : Tuple) : Z :=
  match keys with [] => 0 | k :: keys => if decide (by_key k a b = 0) then by_keys keys a b else by_key k a b end.

Lemma by_key_ranks k : ranks (by_key k).
Proof.
  destruct order_ranks as [Hf Ht]. unfold by_key. destruct (ascending k); split; [intros; apply Hf|intros; by eapply Ht|intros; apply Hf|].
  intros a b d H1 H2. eapply (Ht _ (rank_at k b)); done.
Qed.

Lemma by_keys_ranks keys : ranks (by_keys keys).
Proof.
  induction keys as [|k keys [IHf IHt]]; [by split|]. destruct (by_key_ranks k) as [Hf Ht]. split; cbn [by_keys].
  - intros a b. pose proof (Hf a b). do 2 case_decide; try lia. apply IHf.
  - intros a b d H1 H2. pose proof (Hf a b). pose proof (Hf b d). pose proof (Hf a d). pose proof (Ht a b d). pose proof (Ht d a b). pose proof (Ht b d a). repeat case_decide; try lia. by eapply IHt.
Qed.

(** The columns of the keys are there, of one type in all rows, and hold no NaN. *)
Definition column_ok (rows : list Tuple) (i : nat) : Prop :=
  exists ty, forall t, t ∈ rows -> exists v, t !! i = Some v /\ index v = ty /\ is_nan v = false.
Definition sortable (keys : list SortKey) (rows : list Tuple) : Prop := forall k, k ∈ keys -> column_ok rows (sk_column k).

Lemma less_gives keys rows a b : sortable keys rows -> a ∈ rows -> b ∈ rows -> gives (less keys a b) (by_keys keys a b <? 0).
Proof.
  intros Hs Ha Hb. induction keys as [|k keys IH]; [by apply gives_ret|]. destruct (Hs k ltac:(left)) as (ty & Hk). destruct (Hk a Ha) as (x & Hx & Hxi & Hxn), (Hk b Hb) as (y & Hy & Hyi & Hyn).
  cbn [less]. apply gives_bind. exists x. split; [by apply gives_at|]. apply gives_bind. exists y. split; [by apply gives_at|]. apply gives_bind. eexists. split; [apply compare_order; congruence|].
  cbn [by_keys]. unfold by_key, rank_at. rewrite Hx, Hy. pose proof (rk_flip _ order_ranks (rank x) (rank y)) as Hf. destruct (Z.eqb_spec (order (rank x) (rank y)) 0) as [E0|E0]; cbn [negb].
  - rewrite decide_True by (destruct (ascending k); lia). apply IH. intros k' Hk'. apply Hs. by right.
  - apply gives_ret. rewrite decide_False by (destruct (ascending k); lia). destruct (ascending k); zbool.
Qed.

(** ** [std::stable_sort] *)

Section sort.
Context {A : Type} (lt : A -> A -> MO unit bool) (c : A -> A -> Z) (Hc : ranks c).

Definition sorted (l : list A) : Prop := StronglySorted (fun a b => c a b <= 0) l.
(** The elements [c] does not tell from [x]. *)
Abbreviation ties x l := (filter (fun y => c x y = 0) l).

Lemma place_spec x l :
  (forall y, y ∈ l -> gives (lt x y) (c x y <? 0)) -> sorted l ->
  exists l1 l2, l = l1 ++ l2 /\ gives (place lt x l) (l1 ++ x :: l2) /\ (forall y, y ∈ l1 -> c y x <= 0) /\ (forall y, y ∈ l2 -> c x y < 0).
Proof.
  destruct Hc as [Hf Ht]. induction l as [|y l IH]; intros Hl Hs; cbn [place].
  { exists [], []. split_and!; [done|by apply gives_ret|by intros y ?%not_elem_of_nil|by intros y ?%not_elem_of_nil]. }
  inversion Hs as [|? ? Hs' Hy]; subst. pose proof (Hf x y). destruct (c x y <? 0) eqn:E.
  - apply Z.ltb_lt in E. exists [], (y :: l). split_and!; [done| |by intros z ?%not_elem_of_nil|].
    + apply gives_bind. exists true. split; [|by apply gives_ret]. specialize (Hl y ltac:(left)). by replace (c x y <? 0) with true in Hl by lia.
    + intros z [->|Hz]%elem_of_cons; [done|]. rewrite list.Forall_forall in Hy. specialize (Hy z Hz). pose proof (Ht x y z). pose proof (Ht y z x). pose proof (Hf x z). lia.
  - apply Z.ltb_ge in E. destruct IH as (l1 & l2 & -> & Hg & H1 & H2); [intros z Hz; apply Hl; by right|done|].
    exists (y :: l1), l2. split_and!; [done| | |done].
    + apply gives_bind. exists false. split; [specialize (Hl y ltac:(left)); by replace (c x y <? 0) with false in Hl by lia|]. apply gives_bind. eexists. split; [exact Hg|by apply gives_ret].
    + intros z [->|Hz]%elem_of_cons; [lia|by apply H1].
Qed.

Lemma sorted_place x l1 l2 : sorted (l1 ++ l2) -> (forall y, y ∈ l1 -> c y x <= 0) -> (forall y, y ∈ l2 -> c x y < 0) -> sorted (l1 ++ x :: l2).
Proof.
  unfold sorted. induction l1 as [|y l1 IH]; cbn; intros Hs H1 H2.
  - constructor; [done|]. apply list.Forall_forall. intros z Hz. specialize (H2 z Hz). lia.
  - inversion Hs as [|? ? Hs' Hy]; subst. apply Forall_app in Hy as [Hy1 Hy2]. constructor; [apply IH; [done| |done]; intros z Hz; apply H1; by right|].
    apply Forall_app_2; [done|]. constructor; [apply H1; left|done].
Qed.

Lemma ties_place u x l1 l2 : (forall y, y ∈ l2 -> c x y < 0) -> ties u (l1 ++ x :: l2) = ties u (l1 ++ l2) ++ ties u [x].
Proof.
  destruct Hc as [Hf Ht]. intros H2. rewrite !list.filter_app, !filter_cons. change (ties u []) with (@nil A). destruct (decide (c u x = 0)) as [E|E]; [|by rewrite app_nil_r].
  rewrite (filter_none _ l2); [by rewrite app_nil_r|]. intros z Hz E'. specialize (H2 z Hz). pose proof (Hf u z). pose proof (Hf x z). pose proof (Ht z u x). lia.
Qed.

Lemma sort_onto_spec l : forall acc done_,
  (forall a b, a ∈ l ++ acc -> b ∈ l ++ acc -> gives (lt a b) (c a b <? 0)) -> sorted acc -> acc ≡ₚ done_ -> (forall u, ties u acc = ties u done_) ->
  exists out, gives (stable_sort_onto lt l acc) out /\ sorted out /\ out ≡ₚ done_ ++ l /\ forall u, ties u out = ties u (done_ ++ l).
Proof.
  induction l as [|x l IH]; intros acc done_ Hlt Hs Hp Ht; cbn [stable_sort_onto].
  { exists acc. rewrite app_nil_r. split_and!; [by apply gives_ret|done|done|done]. }
  destruct (place_spec x acc) as (l1 & l2 & -> & Hg & H1 & H2); [intros y Hy; apply Hlt; [left|right; apply elem_of_app; by right]|done|].
  destruct (IH (l1 ++ x :: l2) (done_ ++ [x])) as (out & Ho & Hso & Hpo & Hto).
  - intros a b Ha Hb. apply Hlt; set_solver.
  - by apply sorted_place.
  - by rewrite <- Permutation_middle, Hp, Permutation_cons_append.
  - intros u. rewrite ties_place, Ht, list.filter_app by done. done.
  - exists out. rewrite <- app_assoc in Hpo. split_and!; [apply gives_bind; by eexists|done|exact Hpo|]. intros u. by rewrite Hto, <- app_assoc.
Qed.

(** A list sorted, up to ties that stay in their order, is determined. *)
Lemma sorted_unique l1 : forall l2, sorted l1 -> sorted l2 -> l1 ≡ₚ l2 -> (forall u, ties u l1 = ties u l2) -> l1 = l2.
Proof.
  destruct Hc as [Hf Ht]. assert (forall a, c a a = 0) as Hrefl by (intros a; specialize (Hf a a); lia).
  induction l1 as [|x l1 IH]; intros [|y l2] H1 H2 Hp Hties; [done|by apply Permutation_nil_cons in Hp|symmetry in Hp; by apply Permutation_nil_cons in Hp|].
  inversion H1 as [|? ? Hs1 Hx]; subst. inversion H2 as [|? ? Hs2 Hy]; subst. rewrite list.Forall_forall in Hx, Hy.
  assert (c x y = 0) as Hxy.
  { assert (c x y <= 0) as Ha.
    { assert (y ∈ x :: l1) as [->|Hin]%elem_of_cons by (rewrite Hp; left); [by rewrite Hrefl|by apply Hx]. }
    assert (c y x <= 0) as Hb.
    { assert (x ∈ y :: l2) as [->|Hin]%elem_of_cons by (rewrite <- Hp; left); [by rewrite Hrefl|by apply Hy]. }
    specialize (Hf x y). lia. }
  assert (x = y) as <-.
  { pose proof (Hties x) as E. rewrite !filter_cons, !decide_True in E by (done || apply Hrefl). by injection E. }
  f_equal. apply IH; [done|done|by apply Permutation_cons_inv in Hp|]. intros u. pose proof (Hties u) as E. rewrite !filter_cons in E.
  case_decide; [by injection E|exact E].
Qed.

End sort.

Lemma sort_gives keys rows :
  sortable keys rows ->
  exists out, gives (stable_sort (less keys) rows) out /\ out ≡ₚ rows /\ StronglySorted (fun a b => by_keys keys a b <= 0) out /\
    forall u, filter (fun t => by_keys keys u t = 0) out = filter (fun t => by_keys keys u t = 0) rows.
Proof.
  intros Hs. destruct (sort_onto_spec (less keys) (by_keys keys) (by_keys_ranks keys) rows [] []) as (out & Hg & Hso & Hp & Ht); [|constructor|done|done|by exists out].
  rewrite app_nil_r. intros a b. by apply less_gives.
Qed.

(** C16: Sorting: when the key columns are there, each of one type and without NaN, the sort of
    [SortExecutor] returns a permutation of the rows, ascending or descending in the first key,
    equal ones in the second and so on, and rows equal in all keys stay in their order. *)
Theorem sort_rows_correct keys rows :
  sortable keys rows ->
  exists out, gives (stable_sort (less keys) rows) out /\ out ≡ₚ rows /\ StronglySorted (fun a b => by_keys keys a b <= 0) out /\
    forall u, filter (fun t => by_keys keys u t = 0) out = filter (fun t => by_keys keys u t = 0) rows.
Proof. apply sort_gives. Qed.

Lemma sort_rows_correct_witness :
  exists out, gives (stable_sort (less [mkSortKey 0 false]) [[VInt 3; VInt 1]; [VInt 4; VInt 2]; [VInt 3; VInt 0]]) out /\ out ≡ₚ [[VInt 3; VInt 1]; [VInt 4; VInt 2]; [VInt 3; VInt 0]] /\
    StronglySorted (fun a b => by_keys [mkSortKey 0 false] a b <= 0) out /\
    (forall u, filter (fun t => by_keys [mkSortKey 0 false] u t = 0) out = filter (fun t => by_keys [mkSortKey 0 false] u t = 0) [[VInt 3; VInt 1]; [VInt 4; VInt 2]; [VInt 3; VInt 0]]).
Proof.
  apply (sort_rows_correct [mkSortKey 0 false] [[VInt 3; VInt 1]; [VInt 4; VInt 2]; [VInt 3; VInt 0]]). intros k Hk. apply list_elem_of_singleton in Hk as ->. exists Int64. intros t Ht.
  apply elem_of_cons in Ht as [->|Ht]; [by eexists|]. apply elem_of_cons in Ht as [->|Ht]; [by eexists|]. apply list_elem_of_singleton in Ht as ->. by eexists.
Defined.

(** ** Groups *)

Lemma value_eq_rank a b : index a = index b -> is_nan a = false -> is_nan b = false -> value_eq a b = bool_decide (rank a = rank b).
Proof.
  intros Hi Ha Hb. destruct a as [x|x|x|x], b as [y|y|y|y]; try done; cbn [value_eq rank].
  - destruct (Z.eqb_spec x y) as [->|Hne]; [by rewrite bool_decide_true|]. rewrite bool_decide_false; [done|congruence].
  - cbn in Ha, Hb. assert (double_of_bits x <> S754_nan) as Hx by (intros E; by rewrite E in Ha). assert (double_of_bits y <> S754_nan) as Hy by (intros E; by rewrite E in Hb).
    pose proof (sf_order _ _ Hx Hy) as Ho. cbn in Ho. unfold SFeqb. destruct (order_cases (sf_rank (double_of_bits x)) (sf_rank (double_of_bits y))) as [(E & _ & Hl)|[[E Eq]|(E & _ & Hl)]]; rewrite E in Ho.
    + rewrite bool_decide_false by (intros Er; rewrite Er, string_lt_irrefl in Hl; done). destruct (SFcompare _ _) as [[]|]; done.
    + rewrite (bool_decide_true _ Eq). destruct (SFcompare _ _) as [[]|] eqn:Ec; try done. exfalso. clear -Hx Hy Ec. by destruct (double_of_bits x) as [| | |[]], (double_of_bits y) as [| | |[]].
    + rewrite bool_decide_false by (intros Er; rewrite Er, string_lt_irrefl in Hl; done). destruct (SFcompare _ _) as [[]|]; done.
  - by destruct x, y.
Qed.

(** What the rows of a group have in common. *)
Definition group_key (groups : list nat) (t : Tuple) : list bytes := (fun g => match t !! g with Some v => rank v | None => [] end) <$> groups.
Definition groupable (groups : list nat) (rows : list Tuple) : Prop := forall g, g ∈ groups -> column_ok rows g.

Lemma same_group_gives groups rows a x :
  groupable groups rows -> a ∈ rows -> x ∈ rows -> gives (same_group groups a x) (bool_decide (group_key groups a = group_key groups x)).
Proof.
  intros Hg Ha Hx. induction groups as [|g groups IH]; cbn [same_group]; [by apply gives_ret|]. destruct (Hg g ltac:(left)) as (ty & Hk). destruct (Hk a Ha) as (u & Hu & Hui & Hun), (Hk x Hx) as (v & Hv & Hvi & Hvn).
  apply gives_bind. exists u. split; [by apply gives_opt|]. apply gives_bind. exists v. split; [by apply gives_opt|]. rewrite value_eq_rank by congruence. unfold group_key. csimpl. rewrite Hu, Hv.
  destruct (decide (rank u = rank v)) as [E|E]; [rewrite (bool_decide_true (rank u = rank v)) by done|rewrite (bool_decide_false (rank u = rank v)) by done; apply gives_ret; symmetry; apply bool_decide_false; intros [=]; congruence]. specialize (IH ltac:(intros g' Hg'; apply Hg; by right)). unfold group_key in IH.
  case_bool_decide as E'; [rewrite bool_decide_true by congruence|rewrite bool_decide_false by (intros [=]; congruence)]; exact IH.
Qed.

(** The rows with a key, and the buckets of a list of keys. *)
Definition bucket (groups : list nat) (rows : list Tuple) (k : list bytes) : list Tuple := filter (fun t => group_key groups t = k) rows.
Record partitions (groups : list nat) (rows : list Tuple) (ks : list (list bytes)) : Prop := {
  pt_nodup : NoDup ks;
  pt_keys : forall k, k ∈ ks <-> exists t, t ∈ rows /\ group_key groups t = k;
}.

(** The first occurrences of the elements of a list, in their order. *)
Fixpoint firsts {K} `{EqDecision K} (l : list K) : list K :=
  match l with [] => [] | k :: l => k :: filter (fun k' => k' <> k) (firsts l) end.

Lemma firsts_elem {K} `{EqDecision K} (l : list K) k : k ∈ firsts l <-> k ∈ l.
Proof.
  induction l as [|k' l IH]; [done|]. cbn. rewrite !elem_of_cons, list_elem_of_filter, IH. destruct (decide (k = k')); naive_solver.
Qed.
Lemma firsts_nodup {K} `{EqDecision K} (l : list K) : NoDup (firsts l).
Proof.
  induction l as [|k l IH]; cbn; [constructor|]. apply list.NoDup_cons. split; [by intros [Hk _]%list_elem_of_filter|by apply list.NoDup_filter].
Qed.
Lemma firsts_snoc {K} `{EqDecision K} (l : list K) k :
  firsts (l ++ [k]) = if decide (k ∈ firsts l) then firsts l else firsts l ++ [k].
Proof.
  induction l as [|k' l IH]; [done|]. cbn. rewrite IH. destruct (decide (k = k')) as [->|Hne].
  - rewrite (decide_True (P := k' ∈ k' :: _)) by left. f_equal. case_decide; [done|]. rewrite list.filter_app, (filter_cons_False _ k' []) by naive_solver. by rewrite app_nil_r.
  - assert (k ∈ k' :: filter (fun x => x <> k') (firsts l) <-> k ∈ firsts l) as Hiff by (rewrite elem_of_cons, list_elem_of_filter; naive_solver).
    destruct (decide (k ∈ firsts l)) as [Hi|Hi]; [by rewrite decide_True by by apply Hiff|]. rewrite decide_False by (by rewrite Hiff).
    cbn [app]. f_equal.
    by rewrite list.filter_app, (filter_cons_True _ k []).
Qed.

Lemma bucket_snoc groups rows x k : bucket groups (rows ++ [x]) k = bucket groups rows k ++ (if decide (group_key groups x = k) then [x] else []).
Proof. unfold bucket. rewrite list.filter_app, filter_cons. by case_decide. Qed.

Lemma add_row_gives groups all rows x ks :
  groupable groups all -> x ∈ all -> (forall t, t ∈ rows -> t ∈ all) -> NoDup ks -> (forall k, k ∈ ks -> exists t, t ∈ rows /\ group_key groups t = k) ->
  (group_key groups x ∈ ks \/ bucket groups rows (group_key groups x) = []) ->
  gives (add_row groups x (bucket groups rows <$> ks)) (bucket groups (rows ++ [x]) <$> (if decide (group_key groups x ∈ ks) then ks else ks ++ [group_key groups x])).
Proof.
  intros Hg Hx Hall. induction ks as [|k ks IH]; intros Hnd Hks Hin.
  { rewrite decide_False by apply not_elem_of_nil. destruct Hin as [?%not_elem_of_nil|E]; [done|]. cbn. rewrite bucket_snoc, decide_True, E by done. by apply gives_ret. }
  apply list.NoDup_cons in Hnd as [Hk Hnd]. cbn [fmap list_fmap add_row].
  destruct (bucket groups rows k) as [|a b] eqn:Eb.
  { exfalso. destruct (Hks k ltac:(left)) as (t & Ht & Et). assert (t ∈ bucket groups rows k) as Hin' by (apply list_elem_of_filter; done). rewrite Eb in Hin'. by apply not_elem_of_nil in Hin'. }
  assert (a ∈ bucket groups rows k) as Ha by (rewrite Eb; left). apply list_elem_of_filter in Ha as [Eak Ha]. apply gives_bind. eexists. split; [apply (same_group_gives groups all); [done|by apply Hall|done]|].
  rewrite Eak. case_bool_decide as E.
  - apply gives_ret. rewrite decide_True by (rewrite <- E; left). cbn [fmap list_fmap]. f_equal; [by rewrite bucket_snoc, decide_True, Eb by done|].
    apply list_fmap_ext. intros i k' Hk'. rewrite bucket_snoc, decide_False, app_nil_r; [done|]. intros E'. apply Hk. rewrite E, E'. by eapply list_elem_of_lookup_2.
  - apply gives_bind. eexists. split; [apply IH; [done|intros; apply Hks; by right|]|].
    + destruct Hin as [[E'|?]%elem_of_cons|?]; [congruence|by left|by right].
    + apply gives_ret. assert (a :: b = bucket groups (rows ++ [x]) k) as -> by (rewrite bucket_snoc, decide_False, app_nil_r by congruence; done).
      destruct (decide (group_key groups x ∈ ks)) as [Hi|Hi]; [rewrite decide_True by (by right)|rewrite decide_False by (intros [?|?]%elem_of_cons; congruence)]; done.
Qed.

Lemma add_rows_gives groups all l : forall rows,
  groupable groups all -> (forall t, t ∈ rows ++ l -> t ∈ all) ->
  gives (add_rows groups l (bucket groups rows <$> firsts (group_key groups <$> rows)))
    (bucket groups (rows ++ l) <$> firsts (group_key groups <$> (rows ++ l))).
Proof.
  induction l as [|x l IH]; intros rows Hg Hall; cbn [add_rows]; [rewrite app_nil_r; by apply gives_ret|].
  set (ks := firsts (group_key groups <$> rows)) in *.
  assert (forall k, k ∈ ks <-> exists t, t ∈ rows /\ group_key groups t = k) as Hks.
  { intros k. unfold ks. rewrite firsts_elem, list_elem_of_fmap. naive_solver. }
  assert (group_key groups x ∈ ks \/ bucket groups rows (group_key groups x) = []) as Hin.
  { destruct (bucket groups rows (group_key groups x)) as [|y b] eqn:E; [by right|left]. apply Hks. exists y. assert (y ∈ bucket groups rows (group_key groups x)) as Hy by (rewrite E; left).
    apply list_elem_of_filter in Hy as [? ?]. done. }
  apply gives_bind. eexists. split.
  - apply (add_row_gives groups all); [done|apply Hall; apply elem_of_app; right; left|intros t Ht; apply Hall; apply elem_of_app; by left|apply firsts_nodup|intros k Hk; by apply Hks|done].
  - specialize (IH (rows ++ [x]) Hg). rewrite <- app_assoc in IH. cbn [app] in IH. rewrite fmap_app in IH at 1. cbn [fmap list_fmap] in IH. rewrite firsts_snoc in IH. by apply IH.
Qed.

Lemma make_buckets_gives groups rows :
  groups <> [] -> groupable groups rows -> gives (make_buckets groups rows) (bucket groups rows <$> firsts (group_key groups <$> rows)).
Proof. intros Hne Hg. destruct groups as [|g groups]; [done|]. by apply (add_rows_gives (g :: groups) rows rows []). Qed.

(** C17: Grouping: when the group columns are there, each of one type and without NaN, the buckets
    of [AggregateExecutor] are the groups in the order in which their first rows come: one for each
    combination of values that occurs, holding exactly the rows with that combination in their
    order. *)
Theorem group_rows_correct groups rows :
  groups <> [] -> groupable groups rows ->
  let ks := firsts (group_key groups <$> rows) in
  gives (make_buckets groups rows) (bucket groups rows <$> ks) /\ partitions groups rows ks.
Proof.
  intros Hne Hg ks. split; [by apply make_buckets_gives|]. split; [apply firsts_nodup|]. intros k. unfold ks. rewrite firsts_elem, list_elem_of_fmap. naive_solver.
Qed.

Lemma group_rows_correct_witness :
  let rows := [[VInt 3; VInt 1]; [VInt 4; VInt 2]; [VInt 5; VInt 1]] in
  let ks := firsts (group_key [1%nat] <$> rows) in
  ks = [[[1]]; [[2]]] /\ gives (make_buckets [1%nat] rows) (bucket [1%nat] rows <$> ks) /\ partitions [1%nat] rows ks.
Proof.
  split; [reflexivity|]. apply (group_rows_correct [1%nat] [[VInt 3; VInt 1]; [VInt 4; VInt 2]; [VInt 5; VInt 1]]); [discriminate|]. intros g Hg. apply list_elem_of_singleton in Hg as ->. exists Int64. intros t Ht.
  apply elem_of_cons in Ht as [->|Ht]; [by eexists|]. apply elem_of_cons in Ht as [->|Ht]; [by eexists|]. apply list_elem_of_singleton in Ht as ->. by eexists.
Defined.

(** *** Aggregates *)

(** C38: Without groups an empty input gives one row, but of the aggregates only COUNT puts a value
    into it: the values of SUM, MIN, MAX and AVG are left out, so the row has fewer columns than the
    plan has aggregates. *)
Theorem aggregate_empty_drops_columns nan aggs :
  gives (aggregate nan aggs [] []) [(fun _ => VInt 0) <$> filter (fun a => kind a = Count) aggs].
Proof.
  unfold aggregate. cbn [make_buckets]. apply gives_bind. eexists. split; [by apply gives_ret|]. cbn [aggregate_buckets group_values]. apply gives_bind. eexists. split; [by apply gives_ret|].
  apply gives_bind. exists ((fun _ => VInt 0) <$> filter (fun a => kind a = Count) aggs). split; [|apply gives_bind; eexists; split; by apply gives_ret].
  induction aggs as [|a aggs IH]; cbn [aggregate_values]; [by apply gives_ret|]. apply gives_bind. unfold aggregate_value. rewrite filter_cons. case_decide.
  - eexists. split; [by apply gives_ret|]. apply gives_bind. eexists. split; [exact IH|]. by apply gives_ret.
  - eexists. split; [by apply gives_ret|]. apply gives_bind. eexists. split; [exact IH|]. by apply gives_ret.
Qed.

End SO.
