(* ===== verification/Relation.v ===== *)
(** * The relational meaning of the operators

    What a filter, a join and an aggregation mean, in terms of the ranks of [Sorting] alone and
    without the executors' own comparisons and loops; and that the loops of [Executor] compute it. *)

From Stdlib Require Import SpecFloat.
From S2P Require Import Prelude Bytes Page Stream PageStore PageManager Wal LogManager BufferPool LockManager Mutation Transaction Payload Access Tuple SlottedPage TableHeap TreeNode BPlusTree Executor Sorting.

Module RL.
Import TU EX SO.

(** ** Comparisons *)

(** The lexicographic order of ranks. *)
Inductive below : bytes -> bytes -> Prop :=
  | below_nil y b : below [] (y :: b)
  | below_head x y a b : x < y -> below (x :: a) (y :: b)
  | below_tail x a b : below a b -> below (x :: a) (x :: b).

Lemma below_lt a b : below a b <-> string_lt a b = true.
Proof.
  split.
  - induction 1 as [y b|x y a b Hxy|x a b _ IH]; [done| |]; apply string_lt_cons; [by left|by right].
  - revert b. induction a as [|x a IH]; intros [|y b] H; try done; [constructor|]. apply string_lt_cons in H as [H|[-> H]]; [by apply below_head|by apply below_tail, IH].
Qed.
#[global] Instance below_dec a b : Decision (below a b).
Proof. refine (cast_if (decide (string_lt a b = true))); by rewrite below_lt. Defined.

Lemma below_irrefl a : ~ below a a.
Proof. by rewrite below_lt, string_lt_irrefl. Qed.

(** The sign of [order]. *)
Lemma order_below a b : (order a b < 0 <-> below a b) /\ (order a b = 0 <-> a = b) /\ (0 < order a b <-> below b a).
Proof.
  assert (below a b -> below b a -> False) as Hasym.
  { rewrite !below_lt. intros H1 H2. pose proof (string_lt_trans _ _ _ H1 H2) as H. by rewrite string_lt_irrefl in H. }
  destruct (order_cases a b) as [(E & _ & H%below_lt)|[[E H]|(E & _ & H%below_lt)]]; rewrite E.
  - split_and!; split; try lia; try done; [intros ->; by apply below_irrefl in H|intros H'; by destruct Hasym].
  - subst. pose proof (below_irrefl b). split_and!; split; (lia || done).
  - split_and!; split; try lia; try done; [intros H'; by destruct Hasym|intros ->; by apply below_irrefl in H].
Qed.

#[global] Instance Op_eq_dec : EqDecision Op.
Proof. solve_decision. Defined.

(** The comparison an operator asks for. *)
Definition holds (o : Op) (a b : bytes) : Prop :=
  match o with
  | OpEq => a = b
  | OpNe => a <> b
  | OpLt => below a b
  | OpLe => ~ below b a
  | OpGt => below b a
  | OpGe => ~ below a b
  end.
#[global] Instance holds_dec o a b : Decision (holds o a b).
Proof. destruct o; apply _. Defined.

(** The rows a predicate selects.  The engine compares a NaN as equal to every number. *)
Definition selects (p : Predicate) (t : Tuple) : Prop :=
  match t !! column p with
  | Some v => if is_nan v || is_nan (value p) then op p = OpEq \/ op p = OpLe \/ op p = OpGe
              else holds (op p) (rank v) (rank (value p))
  | None => False
  end.
#[global] Instance selects_dec p t : Decision (selects p t).
Proof. unfold selects. destruct (t !! column p) as [v|]; [destruct (is_nan v || _)|]; apply _. Defined.

Lemma compare_gives a b :
  index a = index b -> gives (compare a b) (if is_nan a || is_nan b then 0 else order (rank a) (rank b)).
Proof.
  intros Hi. destruct (is_nan a) eqn:Ha; [|destruct (is_nan b) eqn:Hb; [|by apply compare_order]].
  - destruct a as [x|x|x|x], b as [y|y|y|y]; try done. unfold compare, gives, run, lift, bind, ret. cbn [compare_values].
    cbn in Ha. destruct (double_of_bits x); done.
  - destruct a as [x|x|x|x], b as [y|y|y|y]; try done. unfold compare, gives, run, lift, bind, ret. cbn [compare_values].
    cbn in Hb. destruct (double_of_bits y); try done. by destruct (double_of_bits x) as [[]| | |[]].
Qed.

Lemma matches_gives p t v :
  t !! column p = Some v -> index v = index (value p) -> gives (matches p t) (bool_decide (selects p t)).
Proof.
  intros Hv Hi. unfold matches. apply gives_bind. exists v. split; [by apply gives_at|]. apply gives_bind. eexists.
  split; [by apply compare_gives|]. apply gives_ret. apply eq_bool_prop_intro. rewrite bool_decide_spec. unfold selects. rewrite Hv. destruct (is_nan v || _).
  - destruct (op p); cbn; naive_solver.
  - destruct (order_below (rank v) (rank (value p))) as (H1 & H2 & H3). set (o := order _ _) in *. destruct (op p); cbn [holds];
      rewrite ?negb_True, ?Is_true_true, ?Z.eqb_eq, ?Z.ltb_lt, ?Z.leb_le; rewrite <- ?H1, <- ?H2, <- ?H3; lia.
Qed.

(** ** Joining *)

(** Values a join takes for equal: of one type, neither a NaN, of one rank. *)
Definition same_value (x y : Value) : Prop := index x = index y /\ is_nan x = false /\ is_nan y = false /\ rank x = rank y.
Definition joins (a b : nat) (t r : Tuple) : Prop :=
  match t !! a, r !! b with Some x, Some y => same_value x y | _, _ => False end.
#[global] Instance joins_dec a b t r : Decision (joins a b t r).
Proof. unfold joins, same_value. destruct (t !! a), (r !! b); apply _. Defined.

Lemma value_eq_same x y : value_eq x y = bool_decide (same_value x y).
Proof.
  unfold same_value. destruct (decide (index x = index y)) as [Hi|Hi].
  - destruct (is_nan x) eqn:Hx; [|destruct (is_nan y) eqn:Hy].
    + rewrite bool_decide_false by naive_solver. destruct x as [a|a|a|a], y as [b|b|b|b]; try done. cbn in *. unfold SFeqb.
      by destruct (double_of_bits a).
    + rewrite bool_decide_false by naive_solver. destruct x as [a|a|a|a], y as [b|b|b|b]; try done. cbn in *. unfold SFeqb.
      destruct (double_of_bits b); try done. by destruct (double_of_bits a) as [[]| | |[]].
    + rewrite value_eq_rank by done. apply bool_decide_ext. naive_solver.
  - rewrite bool_decide_false by naive_solver. by destruct x, y.
Qed.

Lemma join_row_gives a b t rs :
  (rs = [] \/ is_Some (t !! a)) -> Forall (fun r => is_Some (r !! b)) rs ->
  gives (join_row a b t rs) ((fun r => t ++ r) <$> filter (joins a b t) rs).
Proof.
  intros Ha Hb. induction Hb as [|r rs [y Hy] Hb IH]; [by apply gives_ret|]. destruct Ha as [|[x Hx]]; [done|]. cbn [join_row]. apply gives_bind. exists x. split; [by apply gives_at|].
  apply gives_bind. exists y. split; [by apply gives_at|]. apply gives_bind. eexists. split; [apply IH; right; by exists x|]. apply gives_ret.
  assert (joins a b t r <-> same_value x y) as Ej by (unfold joins; by rewrite Hx, Hy). rewrite value_eq_same, filter_cons.
  destruct (decide (joins a b t r)) as [Hj|Hj]; [rewrite bool_decide_true by tauto|rewrite bool_decide_false by tauto]; done.
Qed.

(** ** Aggregation *)

(** The values of a column. *)
Definition column_of (b : list Tuple) (col : nat) (xs : list Value) : Prop := Forall2 (fun t x => t !! col = Some x) b xs.
(** Values of one type and no NaN. *)
Definition uniform (xs : list Value) : Prop := exists ty, forall x, x ∈ xs -> index x = ty /\ is_nan x = false.
(** The first of the values that no other is better than. *)
Definition first_best (better : bytes -> bytes -> Prop) (xs : list Value) (v : Value) : Prop :=
  exists l1 l2, xs = l1 ++ v :: l2 /\ (forall x, x ∈ l1 -> better (rank v) (rank x)) /\ (forall x, x ∈ l2 -> ~ better (rank x) (rank v)).
Definition above (a b : bytes) : Prop := below b a.
#[global] Instance above_dec a b : Decision (above a b).
Proof. unfold above. apply _. Defined.

(** Numbers as doubles, and their sum from left to right. *)
Inductive number : Value -> spec_float -> Prop :=
  | number_int z : number (VInt z) (double_of_int z)
  | number_double d : number (VDouble d) (double_of_bits d).
Definition total (ns : list spec_float) : spec_float := fold_left (SFadd 53 1024) ns (S754_zero false).

(** The value of an aggregate of the rows [b]. *)
Inductive aggregates (nan : Z) (b : list Tuple) : AggregateSpec -> Value -> Prop :=
  | ag_count col : aggregates nan b (mkAggregate Count col) (VInt (zlen b))
  | ag_min col xs v : column_of b col xs -> uniform xs -> first_best below xs v -> aggregates nan b (mkAggregate Min (Some col)) v
  | ag_max col xs v : column_of b col xs -> uniform xs -> first_best above xs v -> aggregates nan b (mkAggregate Max (Some col)) v
  | ag_sum col xs ns : column_of b col xs -> Forall2 number xs ns ->
      aggregates nan b (mkAggregate Sum (Some col)) (VDouble (bits_of_double nan (total ns)))
  | ag_avg col xs ns : column_of b col xs -> Forall2 number xs ns ->
      aggregates nan b (mkAggregate Avg (Some col)) (VDouble (bits_of_double nan (SFdiv 53 1024 (total ns) (double_of_int (zlen b))))).

(** The groups: all rows where nothing is grouped by, else the rows of each key, in the order of
    the first rows. *)
Definition groups_of (groups : list nat) (rows : list Tuple) : list (list Tuple) :=
  if decide (groups = []) then [rows] else bucket groups rows <$> firsts (group_key groups <$> rows).

(** The row for a group: the values grouped by and the aggregates; an empty input, without groups,
    gives a zero for each COUNT and nothing else. *)
Inductive summary (nan : Z) (aggs : list AggregateSpec) (groups : list nat) : list Tuple -> Tuple -> Prop :=
  | su_empty : summary nan aggs groups [] ((fun _ => VInt 0) <$> filter (fun a => kind a = Count) aggs)
  | su_rows t b gs vs : Forall2 (fun g v => t !! g = Some v) groups gs -> Forall2 (aggregates nan (t :: b)) aggs vs ->
      summary nan aggs groups (t :: b) (gs ++ vs).

Lemma sum_gives col b xs ns s :
  column_of b col xs -> Forall2 number xs ns -> gives (sum_from col b s) (fold_left (SFadd 53 1024) ns s).
Proof.
  intros Hc. revert ns s. induction Hc as [|t x b xs Hx _ IH]; intros ns s Hn; inversion Hn as [|? n ? ns' Hxn Hn']; subst; cbn [sum_from]; [by apply gives_ret|].
  apply gives_bind. exists x. split; [by apply gives_opt|]. cbn [fold_left]. destruct Hxn; by apply IH.
Qed.

(** The value MIN and MAX go on with. *)
Definition better_of (k : AggregateKind) : bytes -> bytes -> Prop := if decide (k = Min) then below else above.
#[global] Instance better_of_dec k a b : Decision (better_of k a b).
Proof. unfold better_of. destruct (decide (k = Min)); apply _. Defined.

Lemma better_irrefl k a : ~ better_of k a a.
Proof. unfold better_of, above. destruct (decide (k = Min)); apply below_irrefl. Qed.

Lemma pick_better k x v :
  k = Min \/ k = Max ->
  let o := order (rank x) (rank v) in
  (bool_decide (k = Min) && (o <? 0)) || (bool_decide (k = Max) && (0 <? o)) = bool_decide (better_of k (rank x) (rank v)).
Proof.
  intros Hk o. destruct (order_below (rank x) (rank v)) as (H1 & _ & H3). fold o in H1, H3. unfold better_of.
  apply eq_bool_prop_intro. rewrite bool_decide_spec. destruct Hk as [->| ->].
  - change (((o <? 0) || false : Prop) <-> below (rank x) (rank v)). rewrite orb_false_r, Is_true_true, Z.ltb_lt. tauto.
  - change ((0 <? o : Prop) <-> below (rank v) (rank x)). rewrite Is_true_true, Z.ltb_lt. tauto.
Qed.

(** The loop keeps the first best value of what it has seen. *)
Lemma extremum_first k col b xs v u :
  k = Min \/ k = Max -> column_of b col xs -> uniform (v :: xs) -> first_best (better_of k) (v :: xs) u -> gives (extremum k col b v) u.
Proof.
  intros Hk Hc. revert v. induction Hc as [|t x b xs Hx _ IH]; intros v Hun Hu; cbn [extremum].
  { apply gives_ret. destruct Hu as ([|? []] & l2 & [= -> ->] & _); done. }
  apply gives_bind. exists x. split; [by apply gives_opt|]. destruct Hun as [ty Hun].
  destruct (Hun v) as [Hvi Hvn]; [left|]. destruct (Hun x) as [Hxi Hxn]; [right; left|].
  apply gives_bind. exists (order (rank x) (rank v)). split; [apply compare_order; congruence|]. rewrite (pick_better k x v Hk).
  apply IH.
  { exists ty. intros y [->|Hy]%elem_of_cons; [by destruct (bool_decide _)|]. apply Hun. by do 2 right. }
  destruct Hu as (l1 & l2 & E & H1 & H2). destruct l1 as [|v' [|x' l1]]; cbn in E.
  - injection E as -> <-. exists [], xs. rewrite bool_decide_false by (apply H2; left). split_and!; [done|done|]. intros y Hy. apply H2. by right.
  - injection E as -> -> ->. exists [], l2. rewrite bool_decide_true by (apply H1; left). split_and!; [done|by intros y ?%not_elem_of_nil|done].
  - injection E as -> -> ->. exists ((if bool_decide (better_of k (rank x') (rank v')) then x' else v') :: l1), l2. split_and!; [done| |done].
    intros y [->|Hy]%elem_of_cons; [destruct (bool_decide _); apply H1; [right; left|left]|]. apply H1. by do 2 right.
Qed.

Lemma extremum_all k col t b xs u :
  k = Min \/ k = Max -> column_of (t :: b) col xs -> uniform xs -> first_best (better_of k) xs u ->
  exists v, t !! col = Some v /\ gives (extremum k col (t :: b) v) u.
Proof.
  intros Hk Hc Hun Hu. inversion Hc as [|? v ? xs' Hv Hc']; subst. exists v. split; [done|]. apply (extremum_first k col (t :: b) (v :: xs')); [done|done| |].
  - destruct Hun as [ty Hun]. exists ty. intros y [->|Hy]%elem_of_cons; apply Hun; [left|done].
  - destruct Hu as (l1 & l2 & E & H1 & H2). destruct l1 as [|v' l1]; cbn in E; injection E as -> ->.
    + exists [], (u :: l2). split_and!; [done|done|]. intros y [->|Hy]%elem_of_cons; [apply better_irrefl|by apply H2].
    + exists (v' :: v' :: l1), l2. split_and!; [done| |done]. intros y [->|Hy]%elem_of_cons; [apply H1; left|by apply H1].
Qed.

Lemma aggregate_value_gives nan t b a v : aggregates nan (t :: b) a v -> gives (aggregate_value nan (t :: b) a) (Some v).
Proof.
  intros Ha. unfold aggregate_value.
  assert (forall col xs, column_of (t :: b) col xs -> exists v, t !! col = Some v) as Hcol.
  { intros col xs Hc. inversion Hc as [|? x ? ? Hx _]; subst. by exists x. }
  destruct Ha as [col|col xs v Hc Hu Hf|col xs v Hc Hu Hf|col xs ns Hc Hn|col xs ns Hc Hn]; cbn [kind ag_column];
    [by apply gives_ret|rewrite decide_False by done; apply gives_bind; exists col; split; [by apply gives_opt|]..].
  - destruct (extremum_all Min col t b xs v) as (v0 & Hv0 & Hx); [by left|done|done|done|].
    apply gives_bind. exists v0. split; [by apply gives_opt|]. apply gives_bind. exists v. split; [exact Hx|by apply gives_ret].
  - destruct (extremum_all Max col t b xs v) as (v0 & Hv0 & Hx); [by right|done|done|done|].
    apply gives_bind. exists v0. split; [by apply gives_opt|]. apply gives_bind. exists v. split; [exact Hx|by apply gives_ret].
  - destruct (Hcol _ _ Hc) as [v0 Hv0]. apply gives_bind. exists v0. split; [by apply gives_opt|].
    apply gives_bind. exists (total ns). split; [by eapply sum_gives|by apply gives_ret].
  - destruct (Hcol _ _ Hc) as [v0 Hv0]. apply gives_bind. exists v0. split; [by apply gives_opt|].
    apply gives_bind. exists (total ns). split; [by eapply sum_gives|by apply gives_ret].
Qed.

Lemma aggregate_values_gives nan t b aggs vs :
  Forall2 (aggregates nan (t :: b)) aggs vs -> gives (aggregate_values nan (t :: b) aggs) vs.
Proof.
  induction 1 as [|a v aggs vs Ha _ IH]; cbn [aggregate_values]; [by apply gives_ret|]. apply gives_bind. exists (Some v).
  split; [by apply aggregate_value_gives|]. apply gives_bind. exists vs. split; [done|by apply gives_ret].
Qed.

Lemma group_values_gives groups t b gs : Forall2 (fun g v => t !! g = Some v) groups gs -> gives (group_values groups (t :: b)) gs.
Proof.
  induction 1 as [|g v groups gs Hg _ IH]; cbn [group_values]; [by apply gives_ret|]. apply gives_bind. exists v.
  split; [by apply gives_opt|]. apply gives_bind. exists gs. split; [done|by apply gives_ret].
Qed.

Lemma empty_values_gives nan aggs : gives (aggregate_values nan [] aggs) ((fun _ => VInt 0) <$> filter (fun a => kind a = Count) aggs).
Proof.
  induction aggs as [|a aggs IH]; cbn [aggregate_values]; [by apply gives_ret|]. apply gives_bind. unfold aggregate_value. rewrite filter_cons.
  case_decide; (eexists; split; [by apply gives_ret|]); apply gives_bind; (eexists; split; [exact IH|]); by apply gives_ret.
Qed.

(** The executor's aggregation computes the summaries of the groups. *)
Lemma aggregate_gives nan aggs groups rows out :
  groupable groups rows -> Forall2 (summary nan aggs groups) (groups_of groups rows) out -> gives (aggregate nan aggs groups rows) out.
Proof.
  intros Hg Hs. unfold aggregate. apply gives_bind. exists (groups_of groups rows). split.
  { unfold groups_of. case_decide as Hn; [subst; by apply gives_ret|by apply make_buckets_gives]. }
  clear Hg. induction Hs as [|b o bs out Hb _ IH]; cbn [aggregate_buckets]; [by apply gives_ret|].
  destruct Hb as [|t b gs vs Hgs Hvs].
  - apply gives_bind. exists []. split; [by destruct groups; apply gives_ret|]. apply gives_bind. eexists. split; [apply empty_values_gives|].
    apply gives_bind. exists out. split; [done|by apply gives_ret].
  - apply gives_bind. exists gs. split; [by apply group_values_gives|]. apply gives_bind. exists vs. split; [by apply aggregate_values_gives|].
    apply gives_bind. exists out. split; [done|by apply gives_ret].
Qed.

End RL.
