(* ===== verification/Query.v ===== *)
(** * What queries compute

    The executors of [Executor] against the meaning of a plan.  [evaluates] gives a plan its list
    of rows from the abstract tables of [TableHeap] and the maps of [TreeMap]; the executors return
    exactly these rows, one for each call of [next], and can be started again.  Sorting and
    aggregation have theorems of their own. *)

From Stdlib Require Import Sorted SpecFloat.
From S2P Require Import Prelude Bytes Page Stream PageStore PageManager Wal LogManager BufferPool LockManager Mutation Transaction Payload Access Tuple SlottedPage TableHeap TreeNode BPlusTree TreeShape TreeSearch TreeMap Executor Sorting Relation.

Module QE.
Import TU EX SO RL.

Lemma wpo_pure {S A} (L : Prop) (m : MO unit A) (s : S) a Q : gives m a -> Q a s -> wpo L (pure m) s Q.
Proof. unfold gives, wpo, wpl, wp, pure. by intros ->. Qed.

(** ** The meaning of a plan *)

Inductive evaluates (nan : Z) (Ts : list TH.Table) (ms : list (gmap Z RecordId)) : Plan -> list Tuple -> Prop :=
  | ev_seq_scan t l T : Ts !! t = Some T -> evaluates nan Ts ms (SeqScanPlan t l) (TH.tb_rows T).*2
  | ev_index_scan t x key T m :
      Ts !! t = Some T -> ms !! x = Some m -> (forall r, m !! key = Some r -> r ∈ TH.tb_issued T) ->
      evaluates nan Ts ms (IndexScanPlan t x key) (option_list (m !! key ≫= fun r => TH.find_row r (TH.tb_rows T)))
  | ev_filter c p rows :
      evaluates nan Ts ms c rows ->
      (forall t, t ∈ rows -> exists v, t !! column p = Some v /\ index v = index (value p)) ->
      evaluates nan Ts ms (FilterPlan c p) (filter (selects p) rows)
  | ev_projection c cols rows out :
      evaluates nan Ts ms c rows -> Forall2 (fun t o => Forall2 (fun i v => t !! i = Some v) cols o) rows out ->
      evaluates nan Ts ms (ProjectionPlan c cols) out
  | ev_sort c keys rows out :
      evaluates nan Ts ms c rows -> sortable keys rows ->
      out ≡ₚ rows -> StronglySorted (fun a b => by_keys keys a b <= 0) out ->
      (forall u, filter (fun t => by_keys keys u t = 0) out = filter (fun t => by_keys keys u t = 0) rows) ->
      evaluates nan Ts ms (SortPlan c keys) out
  | ev_aggregate c aggs groups rows out :
      evaluates nan Ts ms c rows -> groupable groups rows ->
      Forall2 (summary nan aggs groups) (groups_of groups rows) out ->
      evaluates nan Ts ms (AggregatePlan c aggs groups) out
  | ev_join l r a b ls rs :
      evaluates nan Ts ms l ls -> evaluates nan Ts ms r rs ->
      (rs = [] \/ Forall (fun t => is_Some (t !! a)) ls) -> (ls = [] \/ Forall (fun t => is_Some (t !! b)) rs) ->
      evaluates nan Ts ms (JoinPlan l r a b)
        (concat ((fun t => (fun r => t ++ r) <$> filter (joins a b t) rs) <$> ls)).

(** ** Executors of a plan *)

Fixpoint built (p : Plan) (e : Executor) : Prop :=
  match p, e with
  | SeqScanPlan t _, SeqScanExecutor t' _ _ => t' = t
  | IndexScanPlan t x k, IndexScanExecutor t' x' k' _ => t' = t /\ x' = x /\ k' = k
  | FilterPlan c pr, FilterExecutor c' pr' => built c c' /\ pr' = pr
  | ProjectionPlan c cs, ProjectionExecutor c' cs' => built c c' /\ cs' = cs
  | SortPlan c ks, SortExecutor c' ks' _ _ => built c c' /\ ks' = ks
  | AggregatePlan c aggs gs, AggregateExecutor c' aggs' gs' _ _ => built c c' /\ aggs' = aggs /\ gs' = gs
  | JoinPlan l r a b, NestedLoopJoinExecutor l' r' a' b' _ _ => built l l' /\ built r r' /\ a' = a /\ b' = b
  | _, _ => False
  end.

Lemma make_built p e : make_executor p = Ok e -> built p e.
Proof.
  revert e. induction p as [t l|t x k|c IH pr|c IH cs|c IH ks|c IH aggs gs|l IHl r IHr a b|f]; intros e E; cbn in E.
  - by injection E as <-.
  - by injection E as <-.
  - destruct (make_executor c); [|done]. injection E as <-. split; [by apply IH|done].
  - destruct (make_executor c); [|done]. injection E as <-. split; [by apply IH|done].
  - destruct (make_executor c); [|done]. injection E as <-. split; [by apply IH|done].
  - destruct (make_executor c); [|done]. injection E as <-. split_and!; [by apply IH|done|done].
  - destruct (make_executor l), (make_executor r); try done. injection E as <-. cbn. split_and!; [by apply IHl|by apply IHr|done|done].
  - done.
Qed.

(** ** Reading *)

Section query.
Context {W : Type} `{PageAccessLaws W} (nan : Z) (s0 : Db W).

(** Only the cache may differ from the database at the start. *)
Record same (s : Db W) : Prop := {
  sm_tables : tables s = tables s0;
  sm_indexes : indexes s = indexes s0;
  sm_ok : pa_ok True (pages s);
  sm_idle : idle (pages s);
  sm_content : forall j, pa_content (pages s) j = pa_content (pages s0) j;
}.

Lemma on_table_spec {A} i h s (m : MO (TH.Heap * W) A) (Q : A -> Prop) :
  same s -> tables s0 !! i = Some h ->
  wpo True m (h, pages s) (fun a hw => Q a /\ hw.1 = h /\ pa_ok True hw.2 /\ TH.held_same (pages s) hw.2 /\ forall j, pa_content hw.2 j = pa_content (pages s) j) ->
  wpo True (on_table i m) s (fun a s' => Q a /\ same s').
Proof.
  intros [Ht Hx Hok Hi Hc] Hh Hm. apply wpo_total in Hm as (a & [h' w'] & E & Ha & Hh' & Hok' & Hheld & Hc'). cbn [fst snd] in *. subst h'.
  unfold wpo, wpl, wp, on_table. rewrite Ht, Hh, E. cbn. split; [done|]. split; cbn; [by rewrite list_insert_id|done|done|by eapply TH.idle_same|]. intros j. by rewrite Hc'.
Qed.

Lemma on_index_spec {A} i t s (m : MO (BT.Tree * W) A) (Q : A -> Prop) :
  same s -> indexes s0 !! i = Some t ->
  wpo True m (t, pages s) (fun a tw => Q a /\ tw.1 = t /\ pa_ok True tw.2 /\ TH.held_same (pages s) tw.2 /\ forall j, pa_content tw.2 j = pa_content (pages s) j) ->
  wpo True (on_index i m) s (fun a s' => Q a /\ same s').
Proof.
  intros [Ht Hx Hok Hi Hc] Hh Hm. apply wpo_total in Hm as (a & [h' w'] & E & Ha & Hh' & Hok' & Hheld & Hc'). cbn [fst snd] in *. subst h'.
  unfold wpo, wpl, wp, on_index. rewrite Hx, Hh, E. cbn. split; [done|]. split; cbn; [done|by rewrite list_insert_id|done|by eapply TH.idle_same|]. intros j. by rewrite Hc'.
Qed.

(** The tables and indexes show these rows and maps. *)
Record db_shows (Ts : list TH.Table) (ms : list (gmap Z RecordId)) : Prop := {
  ds_tables : Forall2 (fun h T => exists pgs, TH.shows (TH.schema_ h) h (pages s0) pgs T) (tables s0) Ts;
  ds_indexes : Forall2 (fun t m => exists ls ups, BM.shows t (pages s0) ls ups /\ m = BQ.to_map ls) (indexes s0) ms;
}.

Lemma scan_table Ts ms i T :
  db_shows Ts ms -> Ts !! i = Some T -> exists N, forall fuel s, (N <= fuel)%nat -> same s ->
  wpo True (on_table i (TH.scan fuel)) s (fun rows s' => rows = TH.tb_rows T /\ same s').
Proof.
  intros [Hts _] Hi. destruct (Forall2_lookup_r _ _ _ _ _ Hts Hi) as (h & Hh & pgs & [_ _ _ Hheap Hrows _]). exists (length pgs). intros fuel s Hf Hs.
  apply (on_table_spec i h s _ (fun rows => rows = TH.tb_rows T) Hs Hh). pose proof Hs as [_ _ Hok Hidle Hc].
  assert (TH.heap_ok h (pa_content (pages s)) pgs) as Hheap' by (by eapply TH.heap_ok_ext).
  unfold TH.scan, OB.this. apply wpl_bind, wpl_gets. cbn [fst]. rewrite (TH.ho_first _ _ _ Hheap').
  eapply wpl_mono; [apply (TH.scan_from_spec True h fuel pgs (pages s) []); [done|apply Hheap'|apply Hheap'|done|done]|].
  cbn beta. intros o hw (-> & Hh' & Hok' & Hheld & _ & Hc'). split_and!; [|done|done|done|done]. cbn [app]. rewrite Hrows. by apply TH.heap_rows_ext.
Qed.

Lemma get_indexed Ts ms i m key :
  db_shows Ts ms -> ms !! i = Some m -> exists N, forall fuel s, (N <= fuel)%nat -> same s ->
  wpo True (on_index i (BT.get_value fuel key)) s (fun r s' => r = m !! key /\ same s').
Proof.
  intros [_ Hxs] Hi. destruct (Forall2_lookup_r _ _ _ _ _ Hxs Hi) as (t & Ht & ls & ups & Hsh & ->). exists (S (length ups)). intros fuel s Hf Hs.
  apply (on_index_spec i t s _ (fun r => r = BQ.to_map ls !! key) Hs Ht). pose proof Hs as [_ _ Hok Hidle Hc].
  assert (BQ.store True (fun _ => 0) (pages s) (pa_content (pages s)) (pa_free (pages s))) as Hst by (by split).
  assert (BQ.tree_ok t (pa_content (pages s)) ls ups) as Htr by (eapply BM.tree_ok_ext; [exact Hc|apply Hsh]).
  eapply wpo_mono; [apply (BQ.get_value_spec True _ t _ _ key ls ups fuel _ Htr Hst); lia|]. cbn beta. intros o tw (-> & w' & -> & [Hok' Hc' _ Hh' _]).
  split_and!; [done|done|done| |done]. intros j. cbn [snd]. by rewrite Hh', Hidle.
Qed.

Lemma get_record Ts ms i T r :
  db_shows Ts ms -> Ts !! i = Some T -> r ∈ TH.tb_issued T -> forall s, same s ->
  wpo True (on_table i (run (TH.get_tuple r))) s (fun o s' => o = TH.find_row r (TH.tb_rows T) /\ same s').
Proof.
  intros [Hts _] Hi Hr s Hs. destruct (Forall2_lookup_r _ _ _ _ _ Hts Hi) as (h & Hh & pgs & Hsh). pose proof Hs as [_ _ Hok Hidle Hc].
  apply (on_table_spec i h s _ (fun o => o = TH.find_row r (TH.tb_rows T)) Hs Hh). apply wpo_run.
  assert (TH.shows (TH.schema_ h) h (pages s) pgs T) as Hsh' by (eapply TH.shows_same; [exact Hsh|done| |done]; intros j; by rewrite Hidle, (TH.sh_idle _ _ _ _ _ Hsh)).
  destruct (TH.sh_issued _ _ _ _ _ Hsh' r Hr) as [Hp (d & Hd & Hsl)]. pose proof (TH.sh_heap _ _ _ _ _ Hsh') as Hheap.
  pose proof (proj1 (list.Forall_forall _ _) (TH.ho_ids _ _ _ Hheap) _ Hp) as [Hu Hv].
  eapply wpl_mono; [apply (TH.get_spec True h (pages s) r Hok Hu); intros _; split; [done|by rewrite Hd]|]. cbn beta.
  intros o hw (Hh' & Hok' & Hheld & _ & Hc' & Ho). split_and!; [|done|done|done|done]. destruct Ho as [->|[_ []]]; [|done].
  symmetry. eapply TH.find_stored; [exact Hsh'|done|lia].
Qed.

(** ** Rows one by one *)

(** A call of [next] with fuel [k] or more. *)
Definition step (k : nat) (e : Executor) (Q : option Tuple -> Executor -> Prop) : Prop :=
  forall fuel s, (k <= fuel)%nat -> same s -> wpo True (next fuel e) s (fun r s' => same s' /\ Q r.1 r.2).

(** The calls of [next] return these rows and then false. *)
Fixpoint yields (k : nat) (e : Executor) (rows : list Tuple) : Prop :=
  step k e (fun o e' => match rows with [] => o = None | t :: rest => o = Some t /\ yields k e' rest end).

Lemma yields_step k e rows :
  yields k e rows = step k e (fun o e' => match rows with [] => o = None | t :: rest => o = Some t /\ yields k e' rest end).
Proof. by destruct rows. Qed.

Lemma step_mono k k' e (Q Q' : option Tuple -> Executor -> Prop) : step k e Q -> (k <= k')%nat -> (forall o e', Q o e' -> Q' o e') -> step k' e Q'.
Proof. intros Hs Hk HQ fuel s Hf Hsm. eapply wpo_mono; [apply Hs; [lia|done]|]. intros r s' [? ?]. split; [done|by apply HQ]. Qed.

Lemma yields_mono k k' e rows : yields k e rows -> (k <= k')%nat -> yields k' e rows.
Proof.
  revert e. induction rows as [|t rows IH]; intros e Hy Hk; (eapply step_mono; [exact Hy|exact Hk|]); [done|]. intros o e' [-> He']. split; [done|by apply IH].
Qed.

(** The executors that hold their rows. *)
Lemma rows_yields (mk : nat -> Executor) (rows : list Tuple) :
  (forall fuel pos s, (pos <= length rows)%nat -> next (S fuel) (mk pos) s = (Ok (Some (match rows !! pos with Some t => (Some t, mk (pos + 1)%nat) | None => (None, mk pos) end)), s)) ->
  forall rest pos, (pos <= length rows)%nat -> drop pos rows = rest -> yields 1 (mk pos) rest.
Proof.
  intros Hmk rest. induction rest as [|t rest IH]; intros pos Hpos E; rewrite yields_step; intros [|fuel] s Hf Hs; try lia; unfold wpo, wpl, wp; rewrite Hmk by done; cbn [fst snd].
  - assert (rows !! pos = None) as ->; [|done]. apply lookup_ge_None. apply (f_equal length) in E. rewrite length_drop in E. cbn in E. lia.
  - assert (rows !! pos = Some t) as Et by (rewrite <- (Nat.add_0_r pos), <- lookup_drop, E; done). rewrite Et. split; [done|]. split; [done|]. cbn [snd].
    apply IH; [apply lookup_lt_Some in Et; lia|]. apply (drop_S rows t pos) in Et. rewrite E in Et. injection Et as ->. by rewrite Nat.add_1_r.
Qed.

Lemma seq_scan_yields t rows : yields 1 (SeqScanExecutor t rows 0) rows.*2.
Proof.
  apply (rows_yields (SeqScanExecutor t rows) rows.*2); [|lia|done]. intros fuel pos s Hpos. rewrite length_fmap in Hpos. cbn [next]. rewrite list_lookup_fmap.
  case_decide as Hd; [by rewrite lookup_ge_None_2 by lia|]. destruct (lookup_lt_is_Some_2 rows pos) as [r ->]; [lia|done].
Qed.
Lemma held_next (rows : list Tuple) pos (s : Db W) (e e' : Executor) :
  (pos <= length rows)%nat ->
  (if decide (pos = length rows) then ret (Some (None, e)) else let? o := opt (rows !! pos) in ret (Some (Some o, e'))) s =
  (Ok (Some (match rows !! pos with Some t => (Some t, e') | None => (None, e) end)), s).
Proof.
  intros Hpos. case_decide as Hd; [by rewrite lookup_ge_None_2 by lia|]. destruct (lookup_lt_is_Some_2 rows pos) as [r ->]; [lia|done].
Qed.
Lemma sort_yields c ks rows : yields 1 (SortExecutor c ks rows 0) rows.
Proof. apply (rows_yields (SortExecutor c ks rows) rows); [|lia|done]. intros fuel pos s Hpos. by apply held_next. Qed.
Lemma aggregate_yields c aggs gs rows : yields 1 (AggregateExecutor c aggs gs rows 0) rows.
Proof. apply (rows_yields (AggregateExecutor c aggs gs rows) rows); [|lia|done]. intros fuel pos s Hpos. by apply held_next. Qed.
Lemma join_yields l r a b rows : yields 1 (NestedLoopJoinExecutor l r a b rows 0) rows.
Proof. apply (rows_yields (NestedLoopJoinExecutor l r a b rows) rows); [|lia|done]. intros fuel pos s Hpos. by apply held_next. Qed.

Lemma filter_yields k c p rows (sel : Tuple -> bool) :
  yields k c rows -> (forall t, t ∈ rows -> gives (matches p t) (sel t)) -> yields (k + length rows + 1) (FilterExecutor c p) (filter (fun t => sel t = true) rows).
Proof.
  revert c. induction rows as [|t rows IH]; intros c Hy Hsel.
  - intros [|fuel] s Hf Hs; [lia|]. cbn [next]. apply wpo_bind. eapply wpo_mono; [apply Hy; [cbn in Hf; lia|done]|]. intros [o c'] s' [Hs' E]. cbn in E. subst o. by apply wpo_ret.
  - specialize (IH). rewrite filter_cons. cbn [length]. destruct (decide (sel t = true)) as [Et|Et].
    + intros [|fuel] s Hf Hs; [lia|]. cbn [next]. apply wpo_bind. eapply wpo_mono; [apply Hy; [lia|done]|]. intros [o c'] s' [Hs' [E Hy']]. cbn [fst snd] in E, Hy'. subst o.
      apply wpo_bind. eapply wpo_pure; [apply Hsel; left|]. rewrite Et. apply wpo_ret. split; [done|]. split; [done|]. cbn [snd]. eapply yields_mono; [apply IH; [done|]|lia]. intros u Hu. apply Hsel. by right.
    + rewrite yields_step. intros [|fuel] s Hf Hs; [lia|]. cbn [next]. apply wpo_bind. eapply wpo_mono; [apply Hy; [lia|done]|]. intros [o c'] s' [Hs' [E Hy']]. cbn [fst snd] in E, Hy'. subst o.
      apply wpo_bind. eapply wpo_pure; [apply Hsel; left|]. destruct (sel t); [done|]. assert (yields (k + length rows + 1) (FilterExecutor c' p) (filter (fun t => sel t = true) rows)) as Hr.
      { apply IH; [done|]. intros u Hu. apply Hsel. by right. }
      rewrite yields_step in Hr. eapply wpo_mono; [apply Hr; [lia|done]|]. cbn beta. intros r s2 [Hs2 Ho]. split; [done|]. destruct (filter _ rows); [done|]. destruct Ho as [Er Ho]. split; [done|]. eapply yields_mono; [exact Ho|lia].
Qed.

Lemma projection_yields k c cols rows out :
  yields k c rows -> Forall2 (fun t o => gives (project cols t) o) rows out -> yields (S k) (ProjectionExecutor c cols) out.
Proof.
  intros Hy Hp. revert c Hy. induction Hp as [|t o rows out Ho _ IH]; intros c Hy; intros [|fuel] s Hf Hs; try lia; cbn [next]; apply wpo_bind; (eapply wpo_mono; [apply Hy; [lia|done]|]); cbn beta.
  - intros [o c'] s' [Hs' E]. cbn in E. subst o. by apply wpo_ret.
  - intros [o' c'] s' [Hs' [E Hy']]. cbn [fst snd] in E, Hy'. subst o'. apply wpo_bind. eapply wpo_pure; [exact Ho|]. apply wpo_ret. split; [done|]. split; [done|]. by apply IH.
Qed.

Lemma drain_spec k e rows : forall acc fuel s, yields k e rows -> (k + length rows < fuel)%nat -> same s ->
  wpo True (drain fuel e acc) s (fun r s' => same s' /\ r.1 = acc ++ rows).
Proof.
  revert e. induction rows as [|t rows IH]; intros e acc [|fuel] s Hy Hf Hs; try lia; cbn [drain]; apply wpo_bind; (eapply wpo_mono; [apply Hy; [cbn in Hf; lia|done]|]); cbn beta.
  - intros [o e'] s' [Hs' E]. cbn in E. subst o. apply wpo_ret. by rewrite app_nil_r.
  - intros [o e'] s' [Hs' [E Hy']]. cbn [fst snd] in E, Hy'. subst o. eapply wpo_mono; [apply (IH e' (acc ++ [t])); [done|cbn in Hf; lia|done]|]. cbn beta. intros r s2 [? ->]. by rewrite <- app_assoc.
Qed.

Lemma join_loop_spec k e a b rs rows : forall out acc fuel s, yields k e rows -> Forall2 (fun t o => gives (join_row a b t rs) o) rows out -> (k + length rows < fuel)%nat -> same s ->
  wpo True (join_loop fuel a b e rs acc) s (fun r s' => same s' /\ r.1 = acc ++ concat out).
Proof.
  revert e. induction rows as [|t rows IH]; intros e out acc [|fuel] s Hy Ho Hf Hs; try lia; inversion Ho as [|? o ? out' Hto Ho']; subst; cbn [join_loop]; apply wpo_bind; (eapply wpo_mono; [apply Hy; [cbn in Hf; lia|done]|]); cbn beta.
  - intros [o e'] s' [Hs' E]. cbn in E. subst o. apply wpo_ret. cbn. by rewrite app_nil_r.
  - intros [o' e'] s' [Hs' [E Hy']]. cbn [fst snd] in E, Hy'. subst o'. apply wpo_bind. eapply wpo_pure; [exact Hto|]. eapply wpo_mono; [apply (IH e' out'); [done|done|cbn in Hf; lia|done]|].
    cbn beta. intros r s2 [? ->]. cbn. by rewrite <- app_assoc.
Qed.

Lemma project_gives cols t o : Forall2 (fun i v => t !! i = Some v) cols o -> gives (project cols t) o.
Proof.
  induction 1 as [|i v cols o Hi _ IH]; cbn [project]; [by apply gives_ret|]. apply gives_bind. exists v. split; [by apply gives_at|]. apply gives_bind. exists o. split; [done|by apply gives_ret].
Qed.

Lemma index_scan_yields Ts ms t x key T m :
  db_shows Ts ms -> Ts !! t = Some T -> ms !! x = Some m -> (forall r, m !! key = Some r -> r ∈ TH.tb_issued T) ->
  exists N, yields N (IndexScanExecutor t x key false) (option_list (m !! key ≫= fun r => TH.find_row r (TH.tb_rows T))).
Proof.
  intros Hdb HT Hm Hr. destruct (get_indexed _ _ _ _ key Hdb Hm) as [N HN]. exists (S N). rewrite yields_step. intros [|fuel] s Hf Hs; [lia|]. cbn [next].
  apply wpo_bind. eapply wpo_mono; [apply HN; [lia|done]|]. cbn beta. intros r s1 [-> Hs1]. destruct (m !! key) as [r|] eqn:Er; [|by apply wpo_ret].
  apply wpo_bind. eapply wpo_mono; [eapply get_record; [exact Hdb|exact HT|by apply Hr|done]|]. cbn beta. intros o s2 [-> Hs2]. apply wpo_ret. split; [done|]. cbn.
  destruct (TH.find_row r (TH.tb_rows T)) as [u|]; cbn; [|done]. split; [done|]. intros [|fuel'] s3 Hf3 Hs3; [lia|]. by apply wpo_ret.
Qed.

Lemma bindo_inv {S A B} (m : MO S A) (k : A -> MO S B) s b s' :
  bindo m k s = (Ok (Some b), s') -> exists a s1, m s = (Ok (Some a), s1) /\ k a s1 = (Ok (Some b), s').
Proof. unfold bindo, bind, ret. destruct (m s) as [[[a|]|e] s1]; [|done|done]. intros E. by exists a, s1. Qed.
Lemma ret_inv {S A} (a b : A) (s s' : S) : ret (Some a) s = (Ok (Some b), s') -> b = a /\ s' = s.
Proof. unfold ret. by intros [= -> ->]. Qed.

Lemma next_built fuel : forall p e s o e' s', next fuel e s = (Ok (Some (o, e')), s') -> built p e -> built p e'.
Proof.
  induction fuel as [|fuel IH]; intros p e s o e' s' E Hb; [done|]. destruct e as [t rows pos|t x k d|c pr|c cs|c ks rows pos|c aggs gs rows pos|l r a b rows pos]; cbn [next] in E;
    try (case_decide; [apply ret_inv in E as [[= -> ->] _]; done|]; apply bindo_inv in E as (u & s1 & _ & E); apply ret_inv in E as [[= -> ->] _]; by destruct p).
  - destruct d; [apply ret_inv in E as [[= -> ->] _]; done|]. apply bindo_inv in E as ([u|] & s1 & _ & E); [apply bindo_inv in E as (u' & s2 & _ & E)|]; apply ret_inv in E as [[= -> ->] _]; by destruct p.
  - apply bindo_inv in E as ([[u|] c'] & s1 & Ec & E).
    + apply bindo_inv in E as (hit & s2 & _ & E). destruct p; try done. destruct Hb as [Hb ->]. assert (built p c') as Hb' by (eapply IH; [exact Ec|done]).
      destruct hit; [apply ret_inv in E as [[= -> ->] _]; done|]. by eapply IH in E; [exact E|].
    + apply ret_inv in E as [[= -> ->] _]. destruct p; try done. destruct Hb as [Hb ->]. split; [|done]. by eapply IH.
  - apply bindo_inv in E as ([[u|] c'] & s1 & Ec & E).
    + apply bindo_inv in E as (hit & s2 & _ & E). apply ret_inv in E as [[= -> ->] _]. destruct p; try done. destruct Hb as [Hb ->]. split; [|done]. by eapply IH.
    + apply ret_inv in E as [[= -> ->] _]. destruct p; try done. destruct Hb as [Hb ->]. split; [|done]. by eapply IH.
Qed.

Lemma drain_built p fuel : forall e acc s rows e' s', drain fuel e acc s = (Ok (Some (rows, e')), s') -> built p e -> built p e'.
Proof.
  induction fuel as [|fuel IH]; intros e acc s rows e' s' E Hb; [done|]. cbn [drain] in E. apply bindo_inv in E as ([[u|] e1] & s1 & E1 & E).
  - eapply IH; [exact E|]. by eapply next_built.
  - apply ret_inv in E as [[= -> ->] _]. by eapply next_built.
Qed.
Lemma join_loop_built p fuel a b rs : forall e acc s rows e' s', join_loop fuel a b e rs acc s = (Ok (Some (rows, e')), s') -> built p e -> built p e'.
Proof.
  induction fuel as [|fuel IH]; intros e acc s rows e' s' E Hb; [done|]. cbn [join_loop] in E. apply bindo_inv in E as ([[u|] e1] & s1 & E1 & E).
  - apply bindo_inv in E as (out & s2 & _ & E). eapply IH; [exact E|]. by eapply next_built.
  - apply ret_inv in E as [[= -> ->] _]. by eapply next_built.
Qed.

Lemma init_built fuel p : forall e s e' s', init nan fuel e s = (Ok (Some e'), s') -> built p e -> built p e'.
Proof.
  induction p as [t l|t x k|c IH pr|c IH cs|c IH ks|c IH aggs gs|l IHl r IHr a b|f]; intros e s e' s' E Hb; destruct e as [t' rows pos|t' x' k' d|c' pr'|c' cs'|c' ks' rows pos|c' aggs' gs' rows pos|l' r' a' b' rows pos];
    try by destruct Hb. all: cbn [init] in E.
  - apply bindo_inv in E as (rs & s1 & _ & E). by apply ret_inv in E as [-> _].
  - by apply ret_inv in E as [-> _].
  - destruct Hb as [Hb ->]. apply bindo_inv in E as (c1 & s1 & E1 & E). apply ret_inv in E as [-> _]. split; [by eapply IH|done].
  - destruct Hb as [Hb ->]. apply bindo_inv in E as (c1 & s1 & E1 & E). apply ret_inv in E as [-> _]. split; [by eapply IH|done].
  - destruct Hb as [Hb ->]. apply bindo_inv in E as (c1 & s1 & E1 & E). apply bindo_inv in E as ([rs c2] & s2 & E2 & E). apply bindo_inv in E as (out & s3 & _ & E). apply ret_inv in E as [-> _].
    split; [|done]. eapply drain_built; [exact E2|]. by eapply IH.
  - destruct Hb as (Hb & -> & ->). apply bindo_inv in E as (c1 & s1 & E1 & E). apply bindo_inv in E as ([rs c2] & s2 & E2 & E). apply bindo_inv in E as (out & s3 & _ & E). apply ret_inv in E as [-> _].
    split_and!; [|done|done]. eapply drain_built; [exact E2|]. by eapply IH.
  - destruct Hb as (Hbl & Hbr & -> & ->). apply bindo_inv in E as (r1 & s1 & E1 & E). apply bindo_inv in E as ([rs r2] & s2 & E2 & E). apply bindo_inv in E as (l1 & s3 & E3 & E). apply bindo_inv in E as ([out l2] & s4 & E4 & E).
    apply ret_inv in E as [-> _]. split_and!; [|..|done|done].
    + eapply join_loop_built; [exact E4|]. by eapply IHl.
    + eapply drain_built; [exact E2|]. by eapply IHr.
Qed.

(** Starting an executor. *)
Definition starts (N : nat) (p : Plan) (rows : list Tuple) : Prop :=
  forall e fuel s, built p e -> (N <= fuel)%nat -> same s -> wpo True (init nan fuel e) s (fun e' s' => same s' /\ yields N e' rows).

Lemma started N p rows e fuel s acc :
  starts N p rows -> built p e -> (N + length rows < fuel)%nat -> same s ->
  wpo True (let? c := init nan fuel e in drain fuel c acc) s (fun r s' => same s' /\ r.1 = acc ++ rows).
Proof.
  intros Hst Hb Hf Hs. apply wpo_bind. eapply wpo_mono; [apply Hst; [done|lia|done]|]. cbn beta. intros c s1 [Hs1 Hy]. by eapply drain_spec.
Qed.

Lemma plan_starts Ts ms p rows : db_shows Ts ms -> evaluates nan Ts ms p rows -> exists N, starts N p rows.
Proof.
  intros Hdb Hev. induction Hev as [t l T HT|t x key T m HT Hm Hr|c p rows _ [N IH] Hsel|c cols rows out _ [N IH] Hp|c keys rows out _ [N IH] Hsort Hperm Hsorted Hties|c aggs gs rows out _ [N IH] Hgr Hsum|l r a b ls rs _ [Nl IHl] _ [Nr IHr] Ha Hb].
  - destruct (scan_table _ _ _ _ Hdb HT) as [N HN]. exists (S N). intros e fuel s Hb Hf Hs. destruct e; try done. cbn in Hb. subst. cbn [init]. apply wpo_bind. eapply wpo_mono; [apply HN; [lia|done]|].
    cbn beta. intros r s1 [-> Hs1]. apply wpo_ret. split; [done|]. eapply yields_mono; [apply seq_scan_yields|lia].
  - destruct (index_scan_yields _ _ _ _ _ _ _ Hdb HT Hm Hr) as [N HN]. exists N. intros e fuel s Hb Hf Hs. destruct e; try done. destruct Hb as (-> & -> & ->). cbn [init]. by apply wpo_ret.
  - exists (N + length rows + 1)%nat. intros e fuel s Hb Hf Hs. destruct e; try done. destruct Hb as [Hb ->]. cbn [init]. apply wpo_bind. eapply wpo_mono; [apply IH; [done|lia|done]|].
    cbn beta. intros c' s1 [Hs1 Hy]. apply wpo_ret. split; [done|]. rewrite (list_filter_iff _ (fun t => bool_decide (selects p t) = true)) by (intros; by rewrite bool_decide_eq_true).
    apply filter_yields; [done|]. intros u Hu. destruct (Hsel u Hu) as (v & Hv & Hi). by eapply matches_gives.
  - exists (S N). intros e fuel s Hb Hf Hs. destruct e; try done. destruct Hb as [Hb ->]. cbn [init]. apply wpo_bind. eapply wpo_mono; [apply IH; [done|lia|done]|].
    cbn beta. intros c' s1 [Hs1 Hy]. apply wpo_ret. split; [done|]. eapply projection_yields; [exact Hy|]. eapply list.Forall2_impl; [exact Hp|]. intros u o. apply project_gives.
  - assert (gives (stable_sort (less keys) rows) out) as Ho.
    { destruct (sort_gives keys rows Hsort) as (out' & Ho & Hp' & Hs' & Ht'). rewrite (sorted_unique (by_keys keys) (by_keys_ranks keys) out out'); try done.
      - by rewrite Hperm.
      - intros u. by rewrite Hties. }
    exists (N + length rows + 1)%nat. intros e fuel s Hb Hf Hs. destruct e; try done. destruct Hb as [Hb ->]. cbn [init]. apply wpo_assoc, wpo_bind. eapply wpo_mono; [eapply started; [exact IH|done|lia|done]|].
    cbn beta. intros r s1 [Hs1 ->]. apply wpo_bind. eapply wpo_pure; [exact Ho|]. apply wpo_ret. split; [done|]. eapply yields_mono; [apply sort_yields|lia].
  - pose proof (aggregate_gives nan aggs gs rows out Hgr Hsum) as Ho.
    exists (N + length rows + 1)%nat. intros e fuel s Hb Hf Hs. destruct e; try done. destruct Hb as (Hb & -> & ->). cbn [init]. apply wpo_assoc, wpo_bind. eapply wpo_mono; [eapply started; [exact IH|done|lia|done]|].
    cbn beta. intros r s1 [Hs1 ->]. apply wpo_bind. eapply wpo_pure; [exact Ho|]. apply wpo_ret. split; [done|]. eapply yields_mono; [apply aggregate_yields|lia].
  - exists (Nl + Nr + length ls + length rs + 1)%nat. intros e fuel s Hbt Hf Hs. destruct e; try done. destruct Hbt as (Hbl & Hbr & -> & ->). cbn [init]. apply wpo_assoc, wpo_bind.
    eapply wpo_mono; [eapply started; [exact IHr|done|lia|done]|]. cbn beta. intros r' s1 [Hs1 ->]. apply wpo_bind. eapply wpo_mono; [apply IHl; [done|lia|done]|]. cbn beta. intros l' s2 [Hs2 Hy].
    assert (Forall2 (fun t o => gives (join_row a b t rs) o) ls ((fun t => (fun r => t ++ r) <$> filter (joins a b t) rs) <$> ls)) as Hj.
    { apply Forall2_fmap_r, Forall_Forall2_diag, list.Forall_forall. intros u Hu. apply join_row_gives.
      - destruct Ha as [->|Ha]; [by left|right]. rewrite list.Forall_forall in Ha. by apply Ha.
      - destruct Hb as [->|Hb]; [by apply not_elem_of_nil in Hu|done]. }
    apply wpo_bind. eapply wpo_mono; [eapply join_loop_spec; [exact Hy|exact Hj|lia|done]|].
    cbn beta. intros out s3 [Hs3 ->]. apply wpo_ret. split; [done|]. eapply yields_mono; [apply join_yields|lia].
Qed.

End query.

(** ** The claims *)

(** C15: Queries compute what their plans mean: on a database whose heaps show tables and whose
    trees show maps, an executor built from a plan, new or used before, started with enough fuel,
    returns with its calls of [next] exactly the rows of the plan, in order, and then false.  The
    database is unchanged and the executor can be started again. *)
Theorem executor_correct {W} `{PageAccessLaws W} nan Ts ms p rows e (s : Db W) :
  pa_ok True (pages s) -> idle (pages s) -> db_shows s Ts ms -> evaluates nan Ts ms p rows -> built p e ->
  exists N, forall fuel, (N <= fuel)%nat -> exists e' s', collect nan fuel e s = (Ok (Some (rows, e')), s') /\ built p e' /\ same s s'.
Proof.
  intros Hok Hi Hdb Hev Hb. destruct (plan_starts nan s Ts ms p rows Hdb Hev) as [N HN]. exists (S (N + length rows)). intros fuel Hf.
  assert (same s s) as Hs by (by split). destruct (wpo_total _ _ _ (started nan s N p rows e fuel s [] HN Hb ltac:(lia) Hs)) as ([out e'] & s' & E & Hs' & Eo). cbn in Eo. subst out.
  exists e', s'. split_and!; [exact E| |done]. apply bindo_inv in E as (e1 & s1 & E1 & E2). eapply drain_built; [exact E2|]. by eapply init_built.
Qed.

(** ** Witness *)

(** A table with one row. *)
Lemma one_row : exists h (w : AC.Plain) pgs r, TH.shows (TH.schema_ h) h w pgs (TH.mkTable [r] [(r, TH.row 7)]).
Proof.
  destruct TH.made_shows as [Hsh Hf]. destruct (TH.row_fits 7 ltac:(lia)) as [Hwf Hval].
  destruct (TH.simulate_insert 0 _ _ _ _ _ _ Hsh Hwf Hval Hf) as (x & h & w & pgs & T & _ & Hab & Hsh' & _).
  inversion Hab as [? r ? Hfit Hr|? ? Hfit| | |]; subst; [|exfalso; apply Hfit; unfold TH.fits; vm_compute; discriminate].
  exists h, w, pgs, r. rewrite (TH.sh_schema _ _ _ _ _ Hsh'). exact Hsh'.
Qed.

(** SELECT COUNT, MIN, AVG of the sorted rows of the table that are at least 5. *)
Definition plan_rows : Plan := SortPlan (FilterPlan (SeqScanPlan 0 "t") (mkPredicate 0 OpGe (VInt 5))) [mkSortKey 0 false].
Definition plan_query : Plan := AggregatePlan plan_rows [mkAggregate Count None; mkAggregate Min (Some 0%nat); mkAggregate Avg (Some 0%nat)] [].
Definition executor_query : Executor :=
  AggregateExecutor (SortExecutor (FilterExecutor (SeqScanExecutor 0 [] 0) (mkPredicate 0 OpGe (VInt 5))) [mkSortKey 0 false] [] 0)
    [mkAggregate Count None; mkAggregate Min (Some 0%nat); mkAggregate Avg (Some 0%nat)] [] [] 0.
(** 7.0 *)
Definition row_query : Tuple := [VInt 1; VInt 7; VDouble 4619567317775286272].

Lemma in_one {A} (P : A -> Prop) x : P x -> forall y, y ∈ [x] -> P y.
Proof. intros Hx y ->%list_elem_of_singleton. exact Hx. Qed.

Lemma query_evaluates r : evaluates 0 [TH.mkTable [r] [(r, TH.row 7)]] [] plan_query [row_query].
Proof.
  assert (column_ok [TH.row 7] 0) as Hc by (exists Int64; apply in_one; exists (VInt 7); done).
  assert (evaluates 0 [TH.mkTable [r] [(r, TH.row 7)]] [] plan_rows [TH.row 7]) as Hr.
  { apply (ev_sort 0 _ _ _ _ [TH.row 7]).
    - assert (filter (selects (mkPredicate 0 OpGe (VInt 5))) [TH.row 7] = [TH.row 7]) as <- by (vm_compute; reflexivity).
      apply (ev_filter 0 _ _ _ _ [TH.row 7]).
      + exact (ev_seq_scan 0 [TH.mkTable [r] [(r, TH.row 7)]] [] 0 "t" _ eq_refl).
      + apply in_one. exists (VInt 7). done.
    - intros k Hk. apply list_elem_of_singleton in Hk as ->. exact Hc.
    - done.
    - repeat constructor.
    - done. }
  apply (ev_aggregate 0 _ _ _ _ _ [TH.row 7] [row_query]); [exact Hr|by intros g Hg%not_elem_of_nil|].
  constructor; [|constructor]. apply (su_rows 0 _ [] (TH.row 7) [] [] row_query); [constructor|].
  assert (column_of [TH.row 7] 0 [VInt 7]) as Hv by (repeat constructor).
  repeat constructor.
  - apply (ag_min 0 _ 0 [VInt 7]); [exact Hv|exists Int64; by apply in_one|].
    exists [], []. split_and!; [done|by intros x Hx%not_elem_of_nil|by intros x Hx%not_elem_of_nil].
  - exact (ag_avg 0 [TH.row 7] 0 [VInt 7] [double_of_int 7] Hv (List.Forall2_cons _ _ (number_int 7) (List.Forall2_nil _))).
Qed.

Lemma executor_correct_witness :
  exists (s : Db AC.Plain) N, (forall fuel, (N <= fuel)%nat -> exists e' s',
    collect 0 fuel executor_query s = (Ok (Some ([row_query], e')), s') /\ built plan_query e' /\ same s s').
Proof.
  destruct one_row as (h & w & pgs & r & Hsh). exists (mkDb [h] [] w).
  apply (executor_correct 0 [TH.mkTable [r] [(r, TH.row 7)]] [] plan_query [row_query] executor_query (mkDb [h] [] w)).
  - exact (TH.sh_ok _ _ _ _ _ Hsh).
  - exact (TH.sh_idle _ _ _ _ _ Hsh).
  - split; [|constructor]. constructor; [|constructor]. exists pgs. exact Hsh.
  - exact (query_evaluates r).
  - split; [|split; reflexivity]. split; [|reflexivity]. split; reflexivity.
Defined.

End QE.
