(* ===== verification/Guarded.v ===== *)
(** * Access under page locks

    Models [src/include/ddb/concurrency/transactional_access.h]: the wrappers that take a page lock
    for the transaction before they call the pool, the table heap or the B+ tree.  A call of the
    lock manager returns or puts the thread to sleep; a wrapper therefore runs up to its return or
    up to the wait, and a thread that has been woken goes on with the same definition ([woken]). *)

From S2P Require Import Prelude Bytes Page Stream PageStore PageManager Wal LogManager BufferPool LockManager Mutation Transaction Payload Access Tuple SlottedPage TableHeap TreeNode BPlusTree TreeShape TreeSearch TreeInsert TreeMap.

Module TA.
Import OB.

(** How far a call has come. *)
Inductive Reply (A : Type) : Type :=
  | Done (r : outcome A)
  | Waits.
Arguments Done {A} r.
Arguments Waits {A}.

(** [locks_.lock(tx, resource, mode)], or its continuation after a wait. *)
Definition acquire (woken : bool) (tx r : Z) (m : LK.LockMode) : LK.t -> LK.lock_result * LK.t :=
  if woken then LK.wake tx r m else LK.lock tx r m.

(** [if (!lock) return refused; return op();] *)
Definition guard {S A} (woken : bool) (tx r : Z) (m : LK.LockMode) (refused : A) (op : M S A) (s : LK.t * S) : Reply A * (LK.t * S) :=
  match acquire woken tx r m s.1 with
  | (LK.Granted, l) => let '(o, s') := op s.2 in (Done o, (l, s'))
  | (LK.Refused, l) => (Done (Ok refused), (l, s.2))
  | (LK.Blocked, l) => (Waits, (l, s.2))
  end.

Section wrappers.
Context {W : Type} `{PageAccess W}.

(** ** [LockedPage] *)

(** [page_] is the frame, or null once the object has been moved from. *)
Record LockedPage : Type := mkLocked { lp_id : PageId; lp_page : option nat; lp_dirty : bool }.
(** The move constructor: the new object and what is left of the other. *)
Definition move (p : LockedPage) : LockedPage * LockedPage := (p, mkLocked (lp_id p) None (lp_dirty p)).
(** The destructor; [None] is [std::terminate]. *)
Definition drop_page (p : LockedPage) : M W (option unit) :=
  match lp_page p with
  | None => ret (Some tt)
  | Some _ => let! ok := pa_unpin (lp_id p) (lp_dirty p) in ret (if ok : bool then Some tt else None)
  end.

(** ** [TransactionalBufferPool] *)

Definition pin_page (id : PageId) (dirty : bool) (missing : exn) : M W (option LockedPage) :=
  let! p := pa_fetch id in
  match p with
  | None => throw missing
  | Some i => ret (Some (mkLocked id (Some i) dirty))
  end.
Definition read (woken : bool) (tx : Z) (id : PageId) : LK.t * W -> Reply (option LockedPage) * (LK.t * W) :=
  guard woken tx id LK.Shared None (pin_page id false (RuntimeError "cannot pin read page")).
Definition write (woken : bool) (tx : Z) (id : PageId) : LK.t * W -> Reply (option LockedPage) * (LK.t * W) :=
  guard woken tx id LK.Exclusive None (pin_page id true (RuntimeError "cannot pin write page")).

(** ** [TransactionalTableHeap]

    [context] obtains the mutation context of the transaction, with which the heap runs. *)

Definition heap_get (woken : bool) (tx : Z) (r : TU.RecordId) (s : LK.t * (TH.Heap * W)) : Reply (option TU.Tuple) * (LK.t * (TH.Heap * W)) :=
  guard woken tx (TU.rid_page r) LK.Shared None (TH.get_tuple r) s.
Definition heap_insert (context : M W unit) (woken : bool) (tx : Z) (t : TU.Tuple) (s : LK.t * (TH.Heap * W)) : Reply (option TU.RecordId) * (LK.t * (TH.Heap * W)) :=
  guard woken tx (TH.meta_ s.2.1) LK.Exclusive None (on_pages context ;; TH.insert_impl t) s.
Definition heap_erase (context : M W unit) (woken : bool) (tx : Z) (r : TU.RecordId) (s : LK.t * (TH.Heap * W)) : Reply bool * (LK.t * (TH.Heap * W)) :=
  guard woken tx (TU.rid_page r) LK.Exclusive false (on_pages context ;; TH.erase_impl r) s.

(** ** [TransactionalBPlusTree] *)

Definition tree_get (fuel : nat) (woken : bool) (tx : Z) (key : Z) (s : LK.t * (BT.Tree * W)) : Reply (option (option TU.RecordId)) * (LK.t * (BT.Tree * W)) :=
  guard woken tx (BT.metadata_page_id_ s.2.1) LK.Shared (Some None) (BT.get_value fuel key) s.
Definition tree_insert (context : M W unit) (fuel : nat) (woken : bool) (tx : Z) (key : Z) (v : TU.RecordId) (s : LK.t * (BT.Tree * W)) : Reply (option bool) * (LK.t * (BT.Tree * W)) :=
  guard woken tx (BT.metadata_page_id_ s.2.1) LK.Exclusive (Some false) (run (on_pages context) ;? BT.insert_impl fuel key v) s.
Definition tree_remove (context : M W unit) (fuel : nat) (woken : bool) (tx : Z) (key : Z) (s : LK.t * (BT.Tree * W)) : Reply (option bool) * (LK.t * (BT.Tree * W)) :=
  guard woken tx (BT.metadata_page_id_ s.2.1) LK.Exclusive (Some false) (run (on_pages context) ;? BT.remove_impl fuel key) s.

End wrappers.

(** The wrappers as they are used, with the pool [pool] of the heap or tree under a transaction. *)
Definition tx_heap_insert (provider : bool) (pool : Z) := heap_insert (W := AC.Session provider) (TX.mutation_context pool).
Definition tx_heap_erase (provider : bool) (pool : Z) := heap_erase (W := AC.Session provider) (TX.mutation_context pool).
Definition tx_tree_insert (provider : bool) (pool : Z) := tree_insert (W := AC.Session provider) (TX.mutation_context pool).
Definition tx_tree_remove (provider : bool) (pool : Z) := tree_remove (W := AC.Session provider) (TX.mutation_context pool).

(** ** Locks and access *)

(** Somebody else holds the resource in a conflicting mode. *)
Definition taken (l : LK.t) (tx r : Z) (m : LK.LockMode) : Prop :=
  exists h, LK.holder l r h /\ LK.h_tx h <> tx /\ LK.conflicts m (LK.h_mode h) = true.

Lemma acquire_pass woken tx r m l p :
  LK.lk_inv l -> acquire woken tx r m l = p ->
  p.1 = LK.Refused /\ LK.table_ p.2 = LK.table_ l \/
  exists l0, LK.lk_inv l0 /\ LK.table_ l0 = LK.table_ l /\ p = LK.sleep tx r m (LK.lock_pass tx r m l0).
Proof.
  intros Hinv <-. unfold acquire. destruct woken; unfold LK.wake, LK.lock; case_decide as Hs.
  - by left.
  - right. eexists. split_and!; [by apply LK.waiting_inv|done|done].
  - by left.
  - right. by exists l.
Qed.

(** A granted lock is held, and nobody else held the page in a conflicting mode. *)
Lemma acquire_granted woken tx r m l l' :
  LK.lk_inv l -> acquire woken tx r m l = (LK.Granted, l') -> LK.holder l' r (LK.mkHolder tx m) /\ ~ taken l tx r m.
Proof.
  intros Hinv E. destruct (acquire_pass _ _ _ _ _ _ Hinv E) as [[Hx _]|(l0 & Hinv0 & Ht & Ep)]; [done|].
  assert (forall h, LK.holder l r h <-> LK.holder l0 r h) as Hh by (intros h; unfold LK.holder; by rewrite Ht).
  assert (~ taken l0 tx r m -> ~ taken l tx r m) as Htk by (intros Hn (h & Hl & Hx); apply Hn; exists h; by rewrite <- Hh).
  assert (LK.lock_pass tx r m l0 = (LK.Granted, l')) as Epass by (unfold LK.sleep in Ep; destruct (LK.lock_pass tx r m l0) as [[] l1]; cbn in Ep; congruence).
  pose proof (LK.lock_pass_spec tx r m l0 Hinv0) as Hp. rewrite Epass in Hp.
  inversion Hp as [Ho|Ho|Hs ->|hs Hhs Hno|h ? ? ?|h ? ? ? ?]; subst.
  - split; [done|]. apply Htk. intros (h & (hs & Hhs & Hin) & Hne & Hc). destruct Ho as (hs' & Hhs' & Hown). assert (hs' = hs) as -> by congruence.
    pose proof (LK.li_table _ Hinv0 r hs Hhs) as Hent. destruct m.
    + assert (LK.h_mode h = LK.Exclusive) as Hx by (destruct (LK.h_mode h); done). pose proof (LK.eo_exclusive _ Hent h Hin Hx) as ->. apply list_elem_of_singleton in Hown. subst h. done.
    + pose proof (LK.eo_exclusive _ Hent _ Hown eq_refl) as ->. apply list_elem_of_singleton in Hin. subst h. done.
  - split; [exists [LK.mkHolder tx LK.Exclusive]; cbn; rewrite lookup_insert_eq; split; [done|left]|]. apply Htk. intros (h & (hs & Hhs & Hin) & Hne & _). rewrite Hs in Hhs. injection Hhs as <-. apply list_elem_of_singleton in Hin. subst h. done.
  - split; [exists (hs ++ [LK.mkHolder tx m]); cbn; rewrite lookup_insert_eq; split; [done|apply elem_of_app; right; left]|]. apply Htk. intros (h & (hs' & Hhs' & Hin) & Hne & Hc).
    destruct Hhs as [Hhs|[Hhs _]]; [|congruence]. assert (hs' = hs) as -> by congruence. destruct (Hno h Hin). congruence.
Qed.

Lemma acquire_frame woken tx r m l l' :
  LK.lk_inv l -> acquire woken tx r m l = (LK.Granted, l') -> (forall r', r' <> r -> LK.table_ l' !! r' = LK.table_ l !! r') /\ LK.states l' = LK.states l.
Proof.
  intros Hinv E. assert (exists l0, LK.lk_inv l0 /\ LK.table_ l0 = LK.table_ l /\ LK.states l0 = LK.states l /\ LK.lock_pass tx r m l0 = (LK.Granted, l')) as (l0 & Hinv0 & <- & <- & Ep).
  { unfold acquire in E. destruct woken; unfold LK.wake, LK.lock in E; case_decide; try done; unfold LK.sleep in E.
    - exists (LK.set_waiting (delete tx (LK.waiting l)) l). split_and!; [by apply LK.waiting_inv|done|done|]. destruct (LK.lock_pass tx r m _) as [[] l1]; cbn in E; done.
    - exists l. split_and!; [done..|]. destruct (LK.lock_pass tx r m l) as [[] l1]; cbn in E; done. }
  pose proof (LK.lock_pass_spec tx r m l0 Hinv0) as Hp. rewrite Ep in Hp. inversion Hp; subst; cbn; (split; [|done]); intros r' Hr'; rewrite ?lookup_insert_ne by done; done.
Qed.

(** The operation runs only with the lock. *)
Lemma guard_cases {S A} woken tx r m (refused : A) (op : M S A) l s rep l' s' :
  LK.lk_inv l -> guard woken tx r m refused op (l, s) = (rep, (l', s')) ->
  s' = s /\ (rep = Done (Ok refused) \/ rep = Waits) \/
  ~ taken l tx r m /\ LK.holder l' r (LK.mkHolder tx m) /\ exists o, op s = (o, s') /\ rep = Done o.
Proof.
  intros Hinv E. unfold guard in E. cbn [fst snd] in E. destruct (acquire woken tx r m l) as [[] l1] eqn:Ea.
  - destruct (op s) as [o s1] eqn:Eo. injection E as <- <- <-. destruct (acquire_granted _ _ _ _ _ _ Hinv Ea) as [H1 H2]. right. split_and!; [done|done|by exists o].
  - injection E as <- <- <-. left. by split; [|left].
  - injection E as <- <- <-. left. by split; [|right].
Qed.

Lemma guard_taken {S A} woken tx r m (refused : A) (op : M S A) l s :
  LK.lk_inv l -> taken l tx r m ->
  (guard woken tx r m refused op (l, s)).2.2 = s /\ ((guard woken tx r m refused op (l, s)).1 = Done (Ok refused) \/ (guard woken tx r m refused op (l, s)).1 = Waits).
Proof.
  intros Hinv Ht. destruct (guard woken tx r m refused op (l, s)) as [rep [l' s']] eqn:E. destruct (guard_cases _ _ _ _ _ _ _ _ _ _ _ Hinv E) as [?|[Hn _]]; [done|]. by destruct Hn.
Qed.

(** ** The claims *)

Section isolation.
Context {W : Type} `{PageAccess W}.

(** A call left the tree and its pages alone: it was refused or waits. *)
Definition kept_out {A} (refused : A) (s : BT.Tree * W) (call : Reply A * (LK.t * (BT.Tree * W))) : Prop :=
  call.2.2 = s /\ (call.1 = Done (Ok refused) \/ call.1 = Waits).

(** A call ran the operation of the tree. *)
Definition served {A} (op : M (BT.Tree * W) A) (s : BT.Tree * W) (call : Reply A * (LK.t * (BT.Tree * W))) : Prop :=
  exists o, op s = (o, call.2.2) /\ call.1 = Done o.

(** A call of [tx] in the lock state [l] is kept out, or served while [tx] has the lock of the
    tree in mode [m]; where nobody has the tree it is served. *)
Definition under_lock {A} (woken : bool) (tx : Z) (m : LK.LockMode) (refused : A) (op : M (BT.Tree * W) A)
    (l : LK.t) (s : BT.Tree * W) (call : Reply A * (LK.t * (BT.Tree * W))) : Prop :=
  let page := BT.metadata_page_id_ s.1 in
  (kept_out refused s call \/ served op s call /\ ~ taken l tx page m /\ LK.holder call.2.1 page (LK.mkHolder tx m)) /\
  (woken = false -> LK.state l tx = LK.Growing -> LK.table_ l !! page = None -> served op s call).

Lemma guard_under_lock {A} woken tx m (refused : A) op l s :
  LK.lk_inv l -> under_lock woken tx m refused op l s (guard woken tx (BT.metadata_page_id_ s.1) m refused op (l, s)).
Proof.
  intros Hinv. split.
  - destruct (guard _ _ _ _ _ _ _) as [rep [l' s']] eqn:E.
    destruct (guard_cases _ _ _ _ _ _ _ _ _ _ _ Hinv E) as [?|(? & ? & ?)]; [by left|by right].
  - intros -> Hg Hn. destruct (LK.lock_free tx (BT.metadata_page_id_ s.1) m l Hg Hn) as (l' & El & _).
    unfold guard, acquire. cbn [fst snd]. rewrite El. destruct (op s) as [o s'] eqn:Eo. by exists o.
Qed.

Lemma guard_kept_out {A} woken tx tx' m m' (refused : A) op l s :
  LK.lk_inv l -> LK.holder l (BT.metadata_page_id_ s.1) (LK.mkHolder tx' m') -> tx' <> tx -> LK.conflicts m m' = true ->
  kept_out refused s (guard woken tx (BT.metadata_page_id_ s.1) m refused op (l, s)).
Proof. intros Hinv Hh Hne Hc. apply guard_taken; [done|]. by exists (LK.mkHolder tx' m'). Qed.

(** C26: Transactions are isolated at the tree.  A get, insert or remove through the wrapper runs
    the operation of the tree only while its transaction holds the lock of the tree - shared for a
    get, exclusive for an insert and a remove - and it does run where nobody holds it.  While
    another transaction holds that lock shared, no insert or remove reaches the tree or its pages;
    while it holds it exclusively, no get does either: the call is refused or waits. *)
Theorem tree_access_isolated context fuel woken tx l (s : BT.Tree * W) key v :
  LK.reachable l ->
  under_lock woken tx LK.Shared (Some None) (BT.get_value fuel key) l s (tree_get fuel woken tx key (l, s)) /\
  under_lock woken tx LK.Exclusive (Some false) (run (on_pages context) ;? BT.insert_impl fuel key v) l s
    (tree_insert context fuel woken tx key v (l, s)) /\
  under_lock woken tx LK.Exclusive (Some false) (run (on_pages context) ;? BT.remove_impl fuel key) l s
    (tree_remove context fuel woken tx key (l, s)) /\
  forall other m, LK.holder l (BT.metadata_page_id_ s.1) (LK.mkHolder other m) -> other <> tx ->
    (m = LK.Exclusive -> kept_out (Some None) s (tree_get fuel woken tx key (l, s))) /\
    kept_out (Some false) s (tree_insert context fuel woken tx key v (l, s)) /\
    kept_out (Some false) s (tree_remove context fuel woken tx key (l, s)).
Proof.
  intros Hinv%LK.reachable_inv. unfold tree_get, tree_insert, tree_remove. cbn [fst snd].
  split_and!; [by apply guard_under_lock..|]. intros other m Hh Hne.
  split_and!; [intros ->|..]; by eapply guard_kept_out.
Qed.

End isolation.

(** A transaction that has the tree for itself is refused the shared lock, so that its own get
    returns nothing. *)
Lemma own_lock_refuses_get {W} `{PageAccess W} fuel tx l (s : BT.Tree * W) key :
  LK.reachable l -> LK.state l tx = LK.Growing -> LK.holder l (BT.metadata_page_id_ s.1) (LK.mkHolder tx LK.Exclusive) ->
  tree_get fuel false tx key (l, s) = (Done (Ok (Some None)), (l, s)).
Proof.
  intros Hinv%LK.reachable_inv Hg Hh. unfold tree_get, guard, acquire. cbn [fst snd].
  assert (LK.lock tx (BT.metadata_page_id_ s.1) LK.Shared l = (LK.Refused, l)) as ->; [|done].
  destruct Hh as (hs & Hr & Hin). pose proof (LK.eo_exclusive _ (LK.li_table _ Hinv _ hs Hr) _ Hin eq_refl) as ->.
  unfold LK.lock. rewrite decide_False by (by intros Hx). unfold LK.lock_pass. rewrite Hr. cbn [default].
  rewrite LK.set_table_id by done. unfold LK.own. cbn. by rewrite decide_True.
Qed.

(** C37: An insertion through the wrapper does not lock the page it writes: it locks the metadata
    page of the heap only, so while the transaction is active another one is granted the exclusive
    lock of the page that holds the new row, and may read, change or erase it. *)
Theorem inserted_page_unlocked {W} `{PageAccessLaws W} L (context : M W unit) woken tx1 tx2 l h (w : W) pages t rid l' h' w' :
  pa_ok L w -> TH.heap_ok h (pa_content w) pages -> Forall TU.value_wf t -> (L -> TU.validates (TH.schema_ h) t = true /\ 0 < pa_free w /\ idle w) ->
  (forall w1 r w2, pa_ok L w1 -> context w1 = (r, w2) -> pa_ok L w2 /\ (forall j, pa_content w2 j = pa_content w1 j) /\ pa_free w2 = pa_free w1 /\ (idle w1 -> idle w2)) ->
  LK.reachable l -> (forall r hs, LK.table_ l !! r = Some hs -> r = TH.meta_ h) -> LK.state l tx2 = LK.Growing ->
  heap_insert context woken tx1 t (l, (h, w)) = (Done (Ok (Some rid)), (l', (h', w'))) ->
  TH.stored (TH.schema_ h) (pa_content w') rid = Some t /\ LK.holder l' (TH.meta_ h) (LK.mkHolder tx1 LK.Exclusive) /\
  exists l2, LK.lock tx2 (TU.rid_page rid) LK.Exclusive l' = (LK.Granted, l2).
Proof.
  intros Hok Hheap Hwf HL Hctx Hinv%LK.reachable_inv Hl Hg E. unfold heap_insert in E. cbn [fst snd] in E.
  destruct (guard_cases _ _ _ _ _ _ _ _ _ _ _ Hinv E) as [[_ [?|?]]|(_ & Hh & o & Eo & Er)]; [done|done|]. injection Er as <-.
  assert (exists l1, acquire woken tx1 (TH.meta_ h) LK.Exclusive l = (LK.Granted, l1) /\ l1 = l') as (l1 & Ea & ->).
  { unfold guard in E. cbn [fst snd] in E. destruct (acquire woken tx1 (TH.meta_ h) LK.Exclusive l) as [[] l1]; [|by injection E|done]. destruct ((on_pages context ;; TH.insert_impl t) (h, w)). injection E as _ <- _. by exists l1. }
  destruct (acquire_frame _ _ _ _ _ _ Hinv Ea) as [Hfr Hst].
  unfold on_pages, zoom, bind in Eo. cbn [fst snd] in Eo. destruct (context w) as [[[]|e] w1] eqn:Ec; [|done]. destruct (Hctx _ _ _ Hok Ec) as (Hok1 & Hc1 & Hf1 & Hi1).
  assert (TH.heap_ok h (pa_content w1) pages) as Hheap1 by (by eapply TH.heap_ok_ext).
  pose proof (wpl_run _ _ _ _ _ _ (TH.insert_spec L h w1 pages t Hok1 Hheap1 Hwf ltac:(rewrite Hf1; intros HL1; destruct (HL HL1) as (? & ? & ?); auto)) Eo) as (_ & _ & _ & Hx). cbn beta in Hx.
  destruct (kPagePayloadSize <? _); [by destruct Hx as [? _]|]. destruct Hx as (rid' & pages' & [= <-] & Hins). cbn [fst snd] in Hins. split_and!; [apply (TH.in_stored _ _ _ _ _ _ _ _ Hins)|done|].
  assert (TU.rid_page rid <> TH.meta_ h) as Hne.
  { pose proof (TH.ho_nodup _ _ _ (TH.in_heap _ _ _ _ _ _ _ _ Hins)) as [Hm _]%list.NoDup_cons. rewrite (TH.in_meta _ _ _ _ _ _ _ _ Hins) in Hm. intros Ex. apply Hm. rewrite <- Ex. apply (TH.in_page _ _ _ _ _ _ _ _ Hins). }
  assert (LK.table_ l' !! TU.rid_page rid = None) as Hnone.
  { rewrite Hfr by done. destruct (LK.table_ l !! TU.rid_page rid) eqn:Et; [|done]. by apply Hl in Et. }
  destruct (LK.lock_free tx2 (TU.rid_page rid) LK.Exclusive l') as (l2 & E2 & _); [unfold LK.state in *; by rewrite Hst|done|]. by exists l2.
Qed.

(** ** Witnesses *)

Definition locked9 : LK.t := (LK.lock 1 9 LK.Exclusive LK.init).2.
Lemma locked9_reachable : LK.reachable locked9.
Proof. apply rtc_once. by apply (LK.step_lock 1 9 LK.Exclusive). Qed.

Lemma tree_access_isolated_witness :
  exists w : AC.Plain, let s := (BT.mkTree 9 8 (BN.mkConfig 2 2), w) in
  kept_out (Some None) s (tree_get 1 false 2 5 (locked9, s)) /\
  kept_out (Some false) s (tree_insert (ret tt) 1 false 2 5 BM.rid7 (locked9, s)) /\
  kept_out (Some false) s (tree_remove (ret tt) 1 false 2 5 (locked9, s)) /\
  served (run (on_pages (ret tt)) ;? BT.insert_impl 1 5 BM.rid7) s (tree_insert (ret tt) 1 false 2 5 BM.rid7 (LK.init, s)).
Proof.
  exists (AC.fresh 3). cbv zeta.
  pose proof (tree_access_isolated (ret tt) 1 false 2 locked9 (BT.mkTree 9 8 (BN.mkConfig 2 2), AC.fresh 3) 5 BM.rid7 locked9_reachable) as (_ & _ & _ & H).
  pose proof (tree_access_isolated (ret tt) 1 false 2 LK.init (BT.mkTree 9 8 (BN.mkConfig 2 2), AC.fresh 3) 5 BM.rid7 (rtc_refl _ _)) as (_ & [_ Hs] & _).
  destruct (H 1 LK.Exclusive) as (H1 & H2 & H3); [exists [LK.mkHolder 1 LK.Exclusive]; split; [reflexivity|left]|discriminate|].
  exact (conj (H1 eq_refl) (conj H2 (conj H3 (Hs eq_refl eq_refl eq_refl)))).
Defined.

(** A first insertion. *)
Definition locked_meta (h : TH.Heap) : LK.t := (LK.lock 1 (TH.meta_ h) LK.Exclusive LK.init).2.
Lemma first_insert {W} `{PageAccess W} h (w : W) t o s' :
  TH.insert_impl t (h, w) = (o, s') -> heap_insert (ret tt) false 1 t (LK.init, (h, w)) = (Done o, (locked_meta h, s')).
Proof.
  intros E. unfold heap_insert, guard, acquire, locked_meta. cbn [fst snd]. destruct (LK.lock_free 1 (TH.meta_ h) LK.Exclusive LK.init eq_refl eq_refl) as (l1 & El & _). rewrite El. cbn [snd].
  change ((on_pages (ret tt) ;; TH.insert_impl t) (h, w)) with (TH.insert_impl t (h, w)). by rewrite E.
Qed.
#[local] Opaque TH.made.
Lemma filled_run : TH.insert_impl (TH.row 7) (TH.made.1, TH.made.2) = (TH.filled.1, (TH.filled.2.1, TH.filled.2.2)).
Proof. transitivity TH.filled; [unfold TH.filled; reflexivity|exact (run_eta TH.filled)]. Qed.
Lemma filled_ok : TH.insert_impl (TH.row 7) (TH.made.1, TH.made.2) = (Ok (Some TH.filled_rid), (TH.filled.2.1, TH.filled.2.2)).
Proof. destruct TH.filled_facts as (pages & _ & Ef & _). exact (eq_trans filled_run (f_equal (fun x => (x, (TH.filled.2.1, TH.filled.2.2))) Ef)). Qed.

Lemma inserted_page_unlocked_witness :
  TH.stored (TH.schema_ TH.made.1) (pa_content TH.filled.2.2) TH.filled_rid = Some (TH.row 7) /\ LK.holder (locked_meta TH.made.1) (TH.meta_ TH.made.1) (LK.mkHolder 1 LK.Exclusive) /\
  exists l2, LK.lock 2 (TU.rid_page TH.filled_rid) LK.Exclusive (locked_meta TH.made.1) = (LK.Granted, l2).
Proof.
  destruct TH.made_shows as [[Hok Hi Hs Hheap _ _] Hf]. destruct (TH.row_fits 7) as [Hwf Hval]; [lia|]. rewrite <- Hs in Hval.
  apply (inserted_page_unlocked True (ret tt) false 1 2 LK.init TH.made.1 TH.made.2 [] (TH.row 7) TH.filled_rid (locked_meta TH.made.1) TH.filled.2.1 TH.filled.2.2 Hok Hheap Hwf (fun _ => conj Hval (conj Hf Hi))).
  - intros w1 r w2 Hok1 E. injection E as <- <-. split_and!; done.
  - exact (rtc_refl _ _).
  - intros r hs Hr. discriminate Hr.
  - reflexivity.
  - exact (first_insert _ _ _ _ _ filled_ok).
Defined.

End TA.
