(* ===== verification/Database.v ===== *)
(** * Database: the owner of the services

    Models src/database.cpp and include/ddb/database.h: the constructor, which opens the log and
    the page file, lets an optional [DatabaseLifecycle] intervene, and creates the buffer pool
    and the transaction manager; [analyze_wal]; and the database as its clients use it, through
    the accessors of its parts.  A lifecycle object is code outside the engine and is a
    parameter here; [default_lifecycle] is the base class itself. *)

From S2P Require Import Prelude Bytes Page Stream PageStore PageManager Wal LogManager BufferPool LockManager Mutation Transaction Analysis.

Module DB.

(** ** Data *)

Section database.
(** The providers of log durability a lifecycle may hand out, and what each of them reports. *)
Context {V : Type} (reported : V -> Z).

(** [open_wal] is given the path of the log file, and so its bytes. *)
Record DatabaseLifecycle : Type := mkLifecycle {
  open_wal : M bytes unit;
  recover : M PM.t unit;
  wal_durability_provider : option V;
}.

(** The virtual functions as the base class defines them. *)
Definition default_lifecycle : DatabaseLifecycle := mkLifecycle (ret tt) (ret tt) None.

(** What the pool asks before it writes a page: the log of the database, or a provider of the
    lifecycle. *)
Inductive Provider : Type := OwnLog | Given (v : V).

Record Database : Type := mk {
  page_manager_ : PM.t;
  log_manager_ : LM.t;
  buffer_pool_ : BP.t;
  wal_durability_ : option Provider;
  (** [transaction_manager_]: its counter; its log sink is [log_manager_]. *)
  next_id_ : Z;
}.

(** ** Operations *)

Definition set_log_bytes (bs : bytes) (l : LM.t) : LM.t :=
  let f := LM.file_ l in LM.set_file (mkStream bs (st_pos f) (st_good f) (st_faults f)) l.

(** [if (lifecycle != nullptr) lifecycle->open_wal(path + ".wal");] the open log and the callback
    see one file. *)
Definition call_open_wal (lifecycle : option DatabaseLifecycle) (l : LM.t) : M (option bytes) LM.t :=
  match lifecycle with
  | None => ret l
  | Some c => zoom (default []) (fun bs _ => Some bs) (open_wal c ;; gets (fun bs => set_log_bytes bs l))
  end.

(** [if (lifecycle != nullptr) lifecycle->recover( *page_manager_);] *)
Definition call_recover (lifecycle : option DatabaseLifecycle) (p : PM.t) : outcome PM.t :=
  match lifecycle with
  | None => Ok p
  | Some c => match recover c p with (Ok _, p) => Ok p | (Throw e, _) => Throw e end
  end.

(** The constructor; the state is the log file, [pages] the content of the page file. *)
Definition construct (lenv : LM.open_env) (lfaults : list (option Z))
    (penv : PM.open_env) (pages : option bytes) (pfaults : list (option Z))
    (buffer_pool_capacity : nat) (lifecycle : option DatabaseLifecycle) : M (option bytes) Database :=
  let! log := (fun file => LM.open lenv file lfaults) in
  let! log := call_open_wal lifecycle log in
  let! manager := lift (PM.open penv pages pfaults) in
  let! manager := lift (call_recover lifecycle manager) in
  ret (mk manager log (BP.create buffer_pool_capacity)
         (match lifecycle with None => Some OwnLog | Some c => Given <$> wal_durability_provider c end) 1).

Definition analyze_wal (file : option bytes) : outcome RA.RecoveryState := RA.analyze file.

(** [transaction_manager().begin()] *)
Definition begin : M Database TX.Tx :=
  zoom (fun d => (next_id_ d, log_manager_ d))
    (fun s d => mk (page_manager_ d) s.2 (buffer_pool_ d) (wal_durability_ d) s.1) (TX.begin true).

(** How far the log is durable, as the pool is told. *)
Definition durable (d : Database) : option Z :=
  match wal_durability_ d with
  | None => None
  | Some OwnLog => Some (LM.durable_lsn (log_manager_ d))
  | Some (Given v) => Some (reported v)
  end.

(** A client's transaction works on the parts of the database. *)
Definition in_transaction (t : TX.Tx) (d : Database) : TX.World :=
  TX.mkW t (buffer_pool_ d) (page_manager_ d) (log_manager_ d).
Definition after (w : TX.World) (d : Database) : Database :=
  mk (TX.w_pages w) (TX.w_log w) (TX.w_pool w) (wal_durability_ d) (next_id_ d).

End database.

Arguments DatabaseLifecycle : clear implicits.
Arguments Provider : clear implicits.
Arguments Database : clear implicits.

(** ** Opening *)

Section opening.
Context {V : Type}.

Lemma no_pending_create n : BP.no_pending (BP.create n).
Proof.
  intros i. unfold BP.frame, BP.create. cbn. destruct (replicate n BP.empty_frame !! i) as [f|] eqn:Hi; [|done].
  by apply lookup_replicate in Hi as [-> _].
Qed.

Lemma session_fresh n p l t id :
  PM.pm_ok p -> is_u64 (LM.next_lsn_ l) -> t = TX.new_tx id true ->
  TX.session true (PM.stored_page p) (TX.mkW (TX.set_context 0 MC.empty_context t) (BP.create n) p l).
Proof.
  intros Hp Hl ->. apply (TX.session_begin true (TX.mkW _ (BP.create n) p l)).
  split_and!; [by exists id, 0|by apply BP.create_inv|apply no_pending_create|done].
Qed.

(** The page manager of a file that was left in good order. *)
Lemma open_left p :
  PM.pm_synced p ->
  exists p', PM.open PM.env_ok (Some (PM.bytes_of p)) [] = Ok p' /\ PM.pm_ok p' /\ PM.pm_healthy p' /\
    forall id, PM.stored_page p' id = PM.stored_page p id /\
               PM.is_page_allocated p' id = PM.is_page_allocated p id.
Proof.
  intros Hs. destruct (PM.open_synced p Hs) as (p' & Ho & Hof & Hb & Hh). exists p'.
  split_and!; [done|apply (PM.pm_ok_same_bytes p); [apply Hs|done|done]|done|].
  intros id. by rewrite (PM.only_file_stored p p'), (PM.only_file_allocated p p').
Qed.

Lemma begin_logs rs (d : Database V) :
  LM.lm_ok (log_manager_ d) rs -> LM.lm_healthy (log_manager_ d) -> LM.next_lsn_ (log_manager_ d) + 1 < 2 ^ 64 ->
  is_u64 (next_id_ d) ->
  exists l, begin d = (Ok (TX.new_tx (next_id_ d) true),
      mk (page_manager_ d) l (buffer_pool_ d) (wal_durability_ d) (to_u64 (next_id_ d + 1))) /\
    LM.lm_ok l (rs ++ [mkRecord (LM.next_lsn_ (log_manager_ d)) (next_id_ d) Begin []]) /\ LM.lm_healthy l /\
    LM.next_lsn_ l = LM.next_lsn_ (log_manager_ d) + 1.
Proof.
  intros Hok Hh Hn Hid. destruct (LM.append Begin (next_id_ d) [] (log_manager_ d)) as [r l] eqn:Ha.
  pose proof (wp_elim _ _ _ _ _ (LM.append_spec _ rs Begin (next_id_ d) [] Hok Hid (List.Forall_nil _) Hn) Ha)
    as (Hn' & _ & _ & Hr & Hl). destruct (Hl Hh) as [Hh' Hr']. rewrite Hr' in Hr, Ha by done.
  exists l. split_and!; [|apply Hr|done|done].
  unfold begin, TX.begin, LM.log_begin, LM.append_begin, zoom, bind, get, modify, ret. cbn -[LM.append]. by rewrite Ha.
Qed.

(** C25: A database opens on what a crash left.  The page file is one the page manager left in
    order, the log file is a log cut off at any byte: the constructor succeeds, gives every page
    its stored content, discards the torn tail of the log and lets the pool ask the log, which is
    durable up to its last complete record.  The first transaction logs its begin record behind
    that one, and bound to the pool it is a session, to which the properties of transactions
    apply. *)
Theorem database_opens (reported : V -> Z) p rs k n :
  PM.pm_synced p -> Forall record_wf rs -> ascending 0 rs -> last_lsn rs + 2 < 2 ^ 64 -> 0 <= k ->
  let kept := complete k rs in
  exists (d d' : Database V) w,
    construct LM.env_ok [] PM.env_ok (Some (PM.bytes_of p)) [] n None
      (Some (take (Z.to_nat k) (log_bytes rs))) = (Ok d, Some (log_bytes kept)) /\
    (forall id, PM.stored_page (page_manager_ d) id = PM.stored_page p id) /\
    LM.records (log_manager_ d) = Ok kept /\ durable reported d = Some (last_lsn kept) /\
    begin d = (Ok (TX.new_tx 1 true), d') /\
    LM.records (log_manager_ d') = Ok (kept ++ [mkRecord (last_lsn kept + 1) 1 Begin []]) /\
    TX.mutation_context 0 (in_transaction (TX.new_tx 1 true) d') = (Ok tt, w) /\
    TX.session true (PM.stored_page (page_manager_ d)) w.
Proof.
  intros Hp Hw Ha Hl Hk kept.
  destruct (LM.open_cut rs k) as (l & Hol & Hlk & Hlh & Hn & Hd); [done|done|lia|done|]. fold kept in Hol, Hlk, Hn, Hd.
  destruct (open_left p Hp) as (p' & Hop & Hok & _ & Hst).
  destruct (LM.ascending_prefix _ _ _ (LM.complete_prefix k rs) Ha) as [_ Hle]. fold kept in Hle.
  set (d := mk (V := V) p' l (BP.create n) (Some OwnLog) 1).
  destruct (begin_logs kept d) as (l' & Hb & Hlk' & _ & Hn');
    [done|done|cbn; unfold last_lsn in *; lia|done|]. cbn in Hlk', Hn'.
  eexists d, _, _. split_and!; [|intros id; apply Hst|by apply LM.lm_ok_records|cbn; by f_equal|exact Hb| |reflexivity|].
  - unfold construct, bind, call_open_wal, lift, ret. rewrite Hol, Hop. reflexivity.
  - rewrite <- Hn. by apply LM.lm_ok_records.
  - cbn. apply (session_fresh _ _ _ _ 1); [done| |done].
    pose proof (LM.lm_ok_next _ _ Hlk). unfold is_u64. rewrite Hn', Hn. unfold last_lsn in *. lia.
Qed.

(** An open log ends in the file it was opened on. *)
Lemma open_bytes env content faults l file :
  LM.open env content faults = (Ok l, file) -> file = Some (st_bytes (LM.file_ l)).
Proof.
  assert (forall c fs rs l', LM.open_at_end c fs rs = Ok l' -> Some c = Some (st_bytes (LM.file_ l'))) as He.
  { intros c fs rs l'. unfold LM.open_at_end, LM.seek_end. case_match; [done|]. intros [= <-]. cbn -[stream_seek].
    by rewrite stream_seek_bytes. }
  unfold LM.open. intros H. repeat (case_match; try done); injection H; intros <- Hl; by eapply He.
Qed.

Lemma set_log_bytes_same l : set_log_bytes (st_bytes (LM.file_ l)) l = l.
Proof. by destruct l as [[] ???]. Qed.

(** With an object of the base class the constructor does what it does without one, but the pool
    is given nothing to ask. *)
Lemma default_lifecycle_same lenv lfaults penv pages pfaults n file :
  construct lenv lfaults penv pages pfaults n (Some (default_lifecycle (V := V))) file =
  let '(r, file) := construct lenv lfaults penv pages pfaults n (None (A := DatabaseLifecycle V)) file in
  (match r with
   | Ok d => Ok (mk (page_manager_ d) (log_manager_ d) (buffer_pool_ d) None (next_id_ d))
   | Throw e => Throw e
   end, file).
Proof.
  unfold construct, bind. destruct (LM.open lenv file lfaults) as [[l|e] file'] eqn:Ho; [|done].
  pose proof (open_bytes _ _ _ _ _ Ho) as ->. cbn. rewrite set_log_bytes_same.
  unfold lift. destruct (PM.open penv pages pfaults); done.
Qed.

End opening.

(** ** Concrete runs *)

Definition opened (lifecycle : option (DatabaseLifecycle Empty_set)) : outcome (Database Empty_set) :=
  (construct LM.env_ok [] PM.env_ok (Some (PM.bytes_of BP.pm_two)) [] 2 lifecycle None).1.

(** The first transaction changes page 0 and commits, which makes the log durable; then the pool is
    flushed.  The outcome of the flush, the PageLSN the page then has in the file, and how far the
    log is durable. *)
Definition flush_committed (d : Database Empty_set) : option (outcome unit * option Z * Z) :=
  let reported (v : Empty_set) : Z := match v with end in
  match begin d with
  | (Throw _, _) => None
  | (Ok t, d) =>
      let asks := bool_decide (is_Some (durable reported d)) in
      match (TX.mutation_context 0 ;; TX.update_page asks 0 TX.poke) (in_transaction t d) with
      | (Throw _, _) => None
      | (Ok _, w) =>
          match TX.commit true (TX.mkSystem LK.init w) with
          | (Throw _, _) => None
          | (Ok _, s) =>
              let d := after (TX.sys_world s) d in
              let '(r, x) := BP.flush_all_pages (durable reported d) (buffer_pool_ d, page_manager_ d) in
              Some (r, page_lsn <$> PM.stored_page x.2 0, LM.durable_lsn (log_manager_ d))
          end
      end
  end.

Definition flush_opened (lifecycle : option (DatabaseLifecycle Empty_set)) : option (outcome unit * option Z * Z) :=
  match opened lifecycle with Ok d => flush_committed d | Throw _ => None end.

(** What that means for a client: without a lifecycle the page of a committed transaction is
    written; with an object of the base class the pool refuses to write it although its record is
    durable in the log. *)
Lemma flush_after_commit :
  flush_opened None = Some (Ok tt, Some 2, 3) /\
  flush_opened (Some default_lifecycle) =
    Some (Throw (WalDurabilityError "page write blocked until WAL is durable through PageLSN"), Some 0, 3).
Proof. apply pair_split. vm_compute. reflexivity. Qed.

(** C39: A lifecycle object that overrides nothing is not a no-op.  The constructor does with an
    object of the base class, documented to do nothing, what it does without one, except that the
    pool gets no provider to ask.  Without a provider no operation of the pool stores a page
    that is marked dirty and carries a PageLSN - every page a logged transaction changed - however
    far the log is durable. *)
Theorem default_lifecycle_blocks_writes {V} (reported : V -> Z) lenv lfaults penv pages pfaults n file (d : Database V) file' :
  construct lenv lfaults penv pages pfaults n (Some default_lifecycle) file = (Ok d, file') ->
  (exists d0 : Database V, construct lenv lfaults penv pages pfaults n None file = (Ok d0, file') /\
     wal_durability_ d0 = Some OwnLog /\
     d = mk (page_manager_ d0) (log_manager_ d0) (buffer_pool_ d0) None (next_id_ d0)) /\
  forall (x : BP.t * PM.t) o r x' id i,
    BP.pool_inv None x -> BP.allowed x o -> BP.wal_of o = durable reported d -> BP.run o x = (r, x') ->
    BP.page_table_ x.1 !! id = Some i -> BP.fr_dirty (BP.frame x.1 i) = true ->
    page_lsn (BP.fr_page (BP.frame x.1 i)) <> 0 ->
    PM.stored_page x'.2 id = PM.stored_page x.2 id.
Proof.
  rewrite default_lifecycle_same. intros E.
  destruct (construct lenv lfaults penv pages pfaults n None file) as [[d0|e] file0] eqn:E0; [|done]. injection E as <- <-. split.
  - exists d0. split_and!; [done| |done]. revert E0. unfold construct, bind, lift, ret.
    repeat (case_match; try done). intros [= <- _]. done.
  - intros x o r x' id i Hinv Hal Hw Hrun Hi Hd Hl. change (ps_page x'.2 id = ps_page x.2 id). apply (BP.gate_closed o x r x' id i); try done.
    rewrite Hw. unfold BP.wal_covers. cbn. by rewrite orb_false_r, (proj2 (Z.eqb_neq _ _)).
Qed.

Lemma default_lifecycle_blocks_writes_witness :
  exists d d0 : Database Empty_set,
    (construct LM.env_ok [] PM.env_ok (Some (PM.bytes_of BP.pm_two)) [] 2 (Some default_lifecycle) None).1 = Ok d /\
    (construct LM.env_ok [] PM.env_ok (Some (PM.bytes_of BP.pm_two)) [] 2 None None).1 = Ok d0 /\
    wal_durability_ d0 = Some OwnLog /\ wal_durability_ d = None.
Proof.
  destruct (construct LM.env_ok [] PM.env_ok (Some (PM.bytes_of BP.pm_two)) [] 2 (Some (default_lifecycle (V := Empty_set))) None) as [[d|e] file'] eqn:E.
  - destruct (default_lifecycle_blocks_writes (fun v : Empty_set => match v with end) _ _ _ _ _ _ _ _ _ E) as [(d0 & E0 & Hw & ->) _].
    exists (mk (page_manager_ d0) (log_manager_ d0) (buffer_pool_ d0) None (next_id_ d0)), d0.
    split; [reflexivity|]. rewrite E0. exact (conj eq_refl (conj Hw eq_refl)).
  - exfalso. assert (match (construct LM.env_ok [] PM.env_ok (Some (PM.bytes_of BP.pm_two)) [] 2 (Some (default_lifecycle (V := Empty_set))) None).1 with Ok _ => true | Throw _ => false end = true) as H by (vm_compute; reflexivity).
    rewrite E in H. discriminate H.
Defined.

(** A new page file, and a log of which the third record is torn. *)
Lemma database_opens_witness :
  let rs := [rec_begin; rec_alloc; rec_commit] in
  let kept := complete 100 rs in
  exists (d d' : Database Empty_set) w,
    construct LM.env_ok [] PM.env_ok (Some (PM.bytes_of PM.pm_new)) [] 2 None
      (Some (take (Z.to_nat 100) (log_bytes rs))) = (Ok d, Some (log_bytes kept)) /\
    (forall id, PM.stored_page (page_manager_ d) id = PM.stored_page PM.pm_new id) /\
    LM.records (log_manager_ d) = Ok kept /\
    durable (fun v : Empty_set => match v with end) d = Some (last_lsn kept) /\
    begin d = (Ok (TX.new_tx 1 true), d') /\
    LM.records (log_manager_ d') = Ok (kept ++ [mkRecord (last_lsn kept + 1) 1 Begin []]) /\
    TX.mutation_context 0 (in_transaction (TX.new_tx 1 true) d') = (Ok tt, w) /\
    TX.session true (PM.stored_page (page_manager_ d)) w.
Proof.
  apply (database_opens (fun v : Empty_set => match v with end) PM.pm_new [rec_begin; rec_alloc; rec_commit] 100 2).
  - apply PM.pm_new_synced.
  - exact rec_examples_wf.
  - done.
  - done.
  - done.
Defined.

End DB.
